(* ===== verification/_CoqProject ===== *)
-Q . S2P
Prelude.v
PyFloat.v
FloatBounds.v
PyJson.v
Model.v
Telemetry.v
StateMachine.v
KVStore.v
PyUuid.v
Effects.v
Fencing.v
Idempotency.v
Repo.v
Config.v
Admission.v
Executor.v
PyNum.v
Worker.v
Retry.v
Valkey.v
World.v
Journey.v
System.v
Relay.v
RelayOnce.v
Dlq.v
Views.v
Charts.v
Api.v
Lifecycle.v
Instruments.v
Platform.v
Pipeline.v
Policy.v
Recovery.v
Punctual.v
Completion.v
