(* ===== verification/Prelude.v ===== *)
(** * ORBITER: a verification development

    ORBITER runs jobs for clients of an HTTP API on a fleet of workers.  A
    submission writes the job, its first events and an outbox row in one Postgres
    transaction; a relay publishes outbox rows to a JetStream work queue; workers
    fetch messages and execute them idempotently, under a lease with a fencing
    token in Valkey; messages that exhaust their deliveries are quarantined by a
    dead-letter listener; an operator may replay them through the API.  The audit
    trail [job_events] is the source of truth, [jobs.state] a cached projection.

    ** Files and what they model

    Language and libraries (no code of the repository):
    - [Prelude]: shared tactics, hint database and lemmas on strings.
    - [PyFloat], [FloatBounds]: Python floats as IEEE binary64 ([SpecFloat]), and
      bounds on rounding.  [PyJson]: JSON values with insertion-ordered objects.
      [PyUuid]: [str] of a UUID and the constructor [uuid.UUID], with their round
      trip.  [PyNum]: [int(...)] and [float(...)] of JSON values.
    - [Effects]: coroutines as trees of external calls; every call may raise.
      [interp] runs a program alone, [runs] is the relation of its possible runs
      for arbitrary replies, [monitored] and [always] are the two proof methods
      for statements about all runs, [upto] is a program killed after some calls.

    Components (paths relative to [src/orbiter/]):
    - [Model], [StateMachine]: [domain/model.py], [domain/state_machine.py]; the
      enums, the transition table, [apply], [replay], [legal_events].
    - [KVStore]: [kv/store.py]; the protocol as the classes [KVStore], [KVView] and
      [KVStoreLaws], [InMemoryKV] as an instance, and a reference store.
    - [Valkey]: [kv/valkey.py]; the production store over a server given by its
      documented commands (class [RedisServer] with laws), and the reference store
      that counts in milliseconds.
    - [Fencing]: [leases/fencing.py]; [LeaseManager] as programs over any store,
      [FencedWriter].  [Idempotency]: [worker/idempotency.py]; [ExecutionGuard].
    - [Repo], [Views]: [db/repo.py] and [db/schema.sql]; the three tables with
      their sequences as a [Record], one definition per SQL statement, transactions
      in a state-and-exception monad in which [transaction] rolls back, the read
      queries with their text forms.
    - [Config]: [config.py].  [Telemetry]: [telemetry.py] over the functions of
      OpenTelemetry, and what of it can influence the program.  [Admission]: [api/admission.py].
    - [Executor]: [worker/executor.py], with its sleep loop in binary64.
    - [Worker], [Retry]: [worker/main.py]; [process], [handle] and the fetch loop as
      programs; the delays of its naks.
    - [World]: a single delivery run to its end against tables, store, clock and
      broker.  [Journey]: the deliveries of one message one after the other, with the
      abstract row of tries they implement.  [System]: any number of deliveries
      interleaved call by call.
    - [Relay]: [relay/outbox_relay.py]; [relay_once], the poll loop, and any number
      of relays interleaved call by call over the shared outbox.  [RelayOnce]: the
      same relays when nothing fails.
    - [Dlq]: [dlq/listener.py]; advisory parsing, the quarantine, the loop.
    - [Api]: [api/app.py]; the handlers, and concurrent submissions.
    - [Lifecycle]: what the services do around their loops: pools, schema, streams and
      consumers, signal handlers, [run] and [amain] of worker, relay and listener with
      their [try ... finally], the API's lifespan.  [Instruments]: the counters and
      the histogram the processes declare and measure with.
    - [Platform]: what the processes' own transactions keep true of the tables.
    - [Pipeline]: the whole platform.  Deliveries ([System]), relays ([Relay]),
      listeners ([Dlq]), submissions and replays ([Repo]) interleaved call by call over
      one database, one store, one work queue and one quarantine stream; the broker
      delivers a queued message to anyone, any number of times, and forgets it on ack,
      term or deletion.
    - [Policy]: the pipeline under the consumer configuration of [worker/main.py]: at
      most [max_deliver] deliveries of a message, numbered, and advisories only for
      messages that have used them up.  [Recovery]: the way from any state of it to the
      quarantine.  [Punctual]: the same system when no delivery writes after its lease
      has lapsed.  [Completion]: the way from any state of that to SUCCEEDED.
    - [Charts]: [scripts/make_charts.py]; its command line, what the charts read and
      draw, and the files it leaves.

    ** What the theorems show

    - State machine: a log replays to a state exactly when it is a sentence of an
      explicit grammar; terminal is forever; no double completion; no trap states.
    - Stores: lazy expiry is unobservable ([inmemory_refines_reference]); the Valkey
      client answers as the same reference with millisecond deadlines as long as
      counters and entries use different keys, which the platform's keys do
      ([valkey_refines_reference], [worker_keeps_keys_apart]).  Leases, guard,
      worker and fleet are proved against the laws of the class, hence for the
      in-memory store and for the reference the Valkey client answers like.
    - Leases and guard: tokens increase, leases and claims exclude each other until
      they lapse or are released by their owner, a crashed claim lapses, a done
      marker short-circuits, stale releases and stale writes are refused.
    - Repository: in every database reachable by the repository's transactions the
      cached state is the replay of the trail, every job has its outbox rows, logs
      only grow, finished jobs are frozen, submissions are idempotent; every branch
      of [record_event] and [replay_job]; the WHERE clause refines [FencedWriter]; the
      text and JSON columns always read back ([tables_typed]).
    - Worker: for arbitrary replies and failures of every call, [handle] keeps the
      contract of a delivery and disposes of its message truthfully
      ([delivery_contract], [delivery_truthful]); in a quiet system a delivery does
      its job, is refused or is obsolete ([delivery_outcome] and its companions), and
      redeliveries bring the job to its end within [max_deliver] of them ([job_ends]).
    - Pipeline: in every reachable state of the platform a job that is queued or running
      has an unpublished outbox row or a message in the work queue, unless a delivery
      was refused its COMPLETED after the job had been requeued ([no_job_stranded]);
      that exception is real ([stale_completion_strands_job]); a queued message whose
      job is free is carried on by one delivery ([queued_message_runs]); a
      dead-lettered job has its copy in the quarantine stream
      ([quarantined_job_has_copy]).
    - Policy: attempts stay within the cap ([attempts_bounded]), and a message that is
      out of deliveries is quarantined by its advisory
      ([exhausted_message_quarantined]); from every reachable state a job that is not
      stranded can still be brought to the quarantine, from where it can be replayed,
      by relays, broker and listener ([quarantine_reachable]).
    - Deliveries in time: while every event of a delivery is recorded under a lease that
      can still be read, a queued or running job always has an unpublished row or a
      queued message ([punctual_jobs_kept]: the exception of [no_job_stranded] is gone, so
      a job is stranded only by a delivery that outlived its lease), and every job that
      is not finished and whose payload can be executed can still be brought to
      SUCCEEDED, whatever was left behind ([job_can_succeed]).
    - Lifecycle: a worker that stops leaves no lease behind and fetches nothing more
      ([worker_drains]); subscriptions bind to declared streams and consumers.
    - Fleet: for all interleavings with crashes, lost replies, expired leases and
      other transactions, writes of a job form sessions ordered by their tokens
      ([fleet_sessions]) and the trail stays consistent ([fleet_trail_consistent]).
    - Relay: rows marked published were handed over, whatever relays die where
      ([relay_at_least_once]); undisturbed passes drain the outbox; without failures
      relays side by side publish no row twice ([relays_publish_once]).
    - Dead letters: a quarantine can be killed anywhere and repeated any number of
      times, at the price of a further copy for each time the broker's duplicate window
      has passed ([quarantine_crash_safe]); copy, record, delete, ack happen in this
      order; when an advisory is parsed, refused or raises ([parse_advisory_outcomes]).
    - API: admission counts exactly the requests in flight; the answers of submit,
      status and replay on every branch; an accepted job can be executed.

    Some theorems record behaviour that is not what the comments of the code
    promise: [rejected_requeue_stops_worker] (an event that is refused inside the
    clause for a failed execution ends the worker, whatever else it has fetched),
    [stale_completion_strands_job] (a late delivery terminates the message of a job that waits for its retry) and
    [long_job_quarantined] (a job that outlasts the broker's ack wait is executed
    [max_deliver] times and dead-lettered).

    ** Fuel, bounds and conventions

    - [slices], the sleep loop, takes fuel; [slices_terminate] shows that
      [d / 100 + 1] steps are enough for every duration [d] in milliseconds the API
      accepts (6001 for ten minutes).  Statements about runs of [handle] hold for
      every fuel; without enough of it the model raises where the code still sleeps.
    - The fetch, poll and listen loops take a number of turns; whether the stop event
      is set and what the broker returned are replies of calls.  Statements about
      their runs hold for every number of turns.
    - The steps of [Pipeline] are schedules of any length; its schedules for concrete
      runs ([pschedule], and [bschedule] under the policy) make one call per action, and
      [calls_made] is the log of those calls with their replies.
    - Store operations take the clock reading they see.  Histories have readings
      that do not go back, as [time.monotonic] guarantees.  [InMemoryKV.set_if_absent]
      reads the clock twice without giving up control in between; behind the interface
      of the protocol both readings are the same.
    - The trace headers of a published message are a function of its outbox row; no
      modelled code reads them, and a row that is published again keeps them.
    - A JSON text is represented by what [json.loads] makes of it; JSONB does not
      keep the key order of an object, which no modelled code depends on.
    - Each transaction of the repository is one atomic step: they lock the job's row
      first, or insert under a unique index.  The two statements of [get_job] see
      two states of the tables; the relay's transaction is interleaved call by call,
      with its row locks.
    - Integers of the tables are unbounded: the widths of INT and BIGINT columns are
      not reached by counters that grow by one per delivery.

    ** Not modelled

    Logging, spans, meters and exporters; HTTP routing and request parsing of the web
    framework; the chaos page (a static file); argparse beyond options in full with
    their values; the client objects' constructors; manifests and tests.  The broker's clock is not
    modelled: when a message is redelivered (AckWait, nak delays) is left open, so the
    theorems hold for deliveries at any time; [Policy] models how often.  The broker's
    deduplication window is left open as well: a repeated message id may be dropped or
    stored again.

    ** What is left

    The decoder of JSON texts (a message body is what [json.loads] returned) and the
    broker's timing: [Punctual] states what must hold of it, that a delivery does not
    write after its lease, and with AckWait and nak delays in the model that condition
    could be derived from the durations of the jobs. *)
From stdpp Require Export prelude gmap strings pretty list fin_maps.
From Stdlib Require Export Ascii ZArith Lia.

#[export] Set Default Goal Selector "!".

(** ** Automation of the development *)

Create HintDb orbiter.
Create Rewrite HintDb orbiter.

(** Case analysis on the scrutinee of a [match] or [if] of the goal or of a
    hypothesis, keeping the equation. *)
Ltac case_scrutinee :=
  match goal with
  | |- context [match ?x with _ => _ end] =>
      lazymatch x with context [match _ with _ => _ end] => fail | _ => destruct x eqn:? end
  | H : context [match ?x with _ => _ end] |- _ =>
      lazymatch x with context [match _ with _ => _ end] => fail | _ => destruct x eqn:? end
  end.

Ltac solve_cases := repeat (case_scrutinee; simplify_eq/=); try done; eauto with orbiter.

(** ** Steps *)

(** One step or none: what an action of a schedule does. *)
Definition at_most_once {A} (R : relation A) (x y : A) : Prop := y = x ∨ R x y.

Lemma amo_refl {A} (R : relation A) x : at_most_once R x x.
Proof. by left. Qed.

Lemma amo_once {A} (R : relation A) x y : R x y → at_most_once R x y.
Proof. by right. Qed.

Lemma amo_rtc {A} (R : relation A) x y : at_most_once R x y → rtc R x y.
Proof. intros [->|H]; [apply rtc_refl|by apply rtc_once]. Qed.

(** A schedule whose states pass a check before every action. *)
Fixpoint checked {A X} (act : X → A → A) (ok : A → bool) (l : list X) (s : A) : bool :=
  match l with
  | [] => true
  | x :: l => ok s && checked act ok l (act x s)
  end.

Lemma checked_steps {A X} (R R' : relation A) (act : X → A → A) (ok : A → bool) l s :
  (∀ x s, at_most_once R s (act x s)) → (∀ s s', R s s' → ok s = true → R' s s') →
  checked act ok l s = true → rtc R' s (foldl (λ s x, act x s) s l).
Proof.
  intros Hact Hok. revert s. induction l as [|x l IH]; intros s; cbn [checked foldl]; [intros _; apply rtc_refl|].
  intros [H1 H2]%andb_prop. etrans; [|by apply IH]. apply amo_rtc. destruct (Hact x s) as [->|H]; [by left|right; auto].
Qed.

(** ** Strings *)

(** The characters of a string, so that list lemmas apply to string keys. *)
Definition chars (s : string) : list ascii := String.list_ascii_of_string s.

Lemma chars_app s1 s2 : chars (s1 +:+ s2) = chars s1 ++ chars s2.
Proof. induction s1 as [|c s1 IH]; simpl; [done|]. by rewrite <- IH. Qed.

Lemma chars_inj s1 s2 : chars s1 = chars s2 → s1 = s2.
Proof.
  intros H. rewrite <- (String.string_of_list_ascii_of_string s1), <- (String.string_of_list_ascii_of_string s2).
  by f_equal.
Qed.

Lemma string_app_inv_tail s1 s2 t : s1 +:+ t = s2 +:+ t → s1 = s2.
Proof.
  intros H. apply chars_inj, (app_inv_tail (chars t)).
  by rewrite <- !chars_app, H.
Qed.

Lemma string_app_inv_head s1 s2 t : t +:+ s1 = t +:+ s2 → s1 = s2.
Proof. intros H. by apply (inj (String.append t)). Qed.

(** Two strings that end differently within the last characters differ. *)
Lemma string_app_tail_ne s1 s2 t1 t2 c1 c2 :
  c1 ≠ c2 → s1 +:+ (t1 +:+ String c1 "") ≠ s2 +:+ (t2 +:+ String c2 "").
Proof.
  intros Hne H. apply (f_equal chars) in H.
  rewrite !chars_app, !app_assoc in H. simpl in H.
  by apply app_inj_tail in H as [_ ?].
Qed.

(** The last occurrence of a separator splits a string in one way. *)
Lemma list_split_last {A} (c : A) l1 l2 d1 d2 :
  c ∉ d1 → c ∉ d2 → l1 ++ c :: d1 = l2 ++ c :: d2 → l1 = l2 ∧ d1 = d2.
Proof.
  intros H1 H2. revert l2. induction l1 as [|a l1 IH]; intros [|b l2] H; simpl in H;
    [by simplify_eq| | |].
  - exfalso. apply H1. injection H as -> ->. set_solver.
  - exfalso. apply H2. injection H as -> <-. set_solver.
  - injection H as -> H. destruct (IH _ H) as [-> ->]. done.
Qed.

(** [str(n)] for a Python int is [pretty n]; it has no colon. *)
Lemma pretty_N_go_no_colon n s : ":"%char ∉ chars s → ":"%char ∉ chars (pretty_N_go n s).
Proof.
  revert s. induction (N.lt_wf_0 n) as [n _ IH]; intros s Hs.
  destruct (decide (n = 0)%N) as [->|Hn]; [by rewrite pretty_N_go_0|].
  rewrite pretty_N_go_step by lia. apply IH.
  - apply N.div_lt; lia.
  - simpl. apply not_elem_of_cons. split; [|done].
    assert (Hd : (n `mod` 10 < 10)%N) by (apply N.mod_lt; lia).
    generalize dependent (n `mod` 10)%N. intros d Hd.
    assert (Hc : (d = 0 ∨ d = 1 ∨ d = 2 ∨ d = 3 ∨ d = 4 ∨ d = 5 ∨ d = 6 ∨ d = 7 ∨ d = 8 ∨ d = 9)%N) by lia.
    by destruct_or! Hc; subst.
Qed.

Lemma pretty_Z_no_colon (z : Z) : ":"%char ∉ chars (pretty z).
Proof.
  assert (Hz : ∀ n : N, ":"%char ∉ chars (pretty n)).
  { intros n. unfold pretty, pretty_N. case_decide; [set_solver|].
    apply pretty_N_go_no_colon. set_solver. }
  destruct z as [|p|p]; simpl; unfold pretty, pretty_Z; simpl; [set_solver|apply Hz|].
  apply not_elem_of_cons. split; [done|apply Hz].
Qed.

(** [f"{name}:{number}"] is injective: a name and a number are recovered from it. *)
Lemma tagged_inj (h1 h2 : string) (z1 z2 : Z) :
  h1 +:+ ":" +:+ pretty z1 = h2 +:+ ":" +:+ pretty z2 → h1 = h2 ∧ z1 = z2.
Proof.
  intros H. apply (f_equal chars) in H. rewrite !chars_app in H.
  apply list_split_last in H as [Hh Hz]; [|apply pretty_Z_no_colon..].
  split; [by apply chars_inj|]. by apply (inj pretty), chars_inj.
Qed.
