(* ===== verification/PyFloat.v ===== *)
(** * Python floats

    A Python [float] is an IEEE 754 binary64 number.  The model is the
    executable specification of the Standard Library ([SpecFloat]) at
    precision 53 and maximal exponent 1024: no real numbers, no idealised
    clock.  The file holds the arithmetic the sources use (addition,
    subtraction, division, multiplication, comparison, [int(x)], [math.ceil],
    decimal literals) and the order lemmas on which the expiry arguments of
    the key-value store rest. *)
From Stdlib Require Import Floats.SpecFloat.
From S2P Require Import Prelude.

Abbreviation float := spec_float.

Declare Scope float_scope.
Delimit Scope float_scope with float.
Bind Scope float_scope with spec_float.

Definition prec : Z := 53.
Definition emax : Z := 1024.

Definition fadd (x y : float) : float := SFadd prec emax x y.
Definition fsub (x y : float) : float := SFsub prec emax x y.
Definition fmul (x y : float) : float := SFmul prec emax x y.
Definition fdiv (x y : float) : float := SFdiv prec emax x y.
Definition fltb (x y : float) : bool := SFltb x y.
Definition fleb (x y : float) : bool := SFleb x y.

Arguments fadd : simpl never.
Arguments fsub : simpl never.
Arguments fmul : simpl never.
Arguments fdiv : simpl never.
Arguments fltb : simpl never.
Arguments fleb : simpl never.

Notation "x + y" := (fadd x y) : float_scope.
Notation "x - y" := (fsub x y) : float_scope.
Notation "x * y" := (fmul x y) : float_scope.
Notation "x / y" := (fdiv x y) : float_scope.
Notation "x <? y" := (fltb x y) : float_scope.
Notation "x <=? y" := (fleb x y) : float_scope.
Notation "x =? y" := (SFeqb x y) : float_scope.

#[global] Instance float_eq_dec : EqDecision float.
Proof. solve_decision. Defined.

(** Python's [min(a, b)]: the first argument unless the second is smaller. *)
Definition fmin (a b : float) : float := if (b <? a)%float then b else a.

(** [float(n)]: correctly rounded; [None] where Python raises [OverflowError]. *)
Definition float_of_int (z : Z) : option float :=
  match binary_normalize prec emax z 0 false with
  | S754_infinity _ => None
  | f => Some f
  end.

(** The float of a small integer constant. *)
Definition fZ (z : Z) : float := binary_normalize prec emax z 0 false.

Arguments fZ : simpl never.

(** A decimal literal [± m * 10^e], correctly rounded to binary64.  A magnitude
    of more than 10^400 overflows and one below 10^-400 underflows, so the power
    of ten is computed only in between. *)
Definition float_of_decimal (neg : bool) (m : Z) (e : Z) : float :=
  match m with
  | Zpos p =>
      let digits := Z.log2 m in
      if (400 <? e)%Z then S754_infinity neg
      else if (e + digits <? -400)%Z then S754_zero neg
      else if (0 <=? e)%Z then binary_round prec emax neg (Z.to_pos (m * 10 ^ e)) 0
      else let '(mz, ez, lz) := SFdiv_core_binary prec emax m 0 (10 ^ (- e)) 0 in
           binary_round_aux prec emax neg mz ez lz
  | _ => S754_zero neg
  end.

(** [int(x)]: truncation toward zero; infinities and NaN have no integer. *)
Definition trunc (f : float) : option Z :=
  match f with
  | S754_zero _ => Some 0%Z
  | S754_finite s m e =>
      let a := if (0 <=? e)%Z then Z.shiftl (Zpos m) e else Z.shiftr (Zpos m) (- e) in
      Some (if s then - a else a)%Z
  | _ => None
  end.

(** [math.ceil(x)]. *)
Definition ceil (f : float) : option Z :=
  match f with
  | S754_zero _ => Some 0%Z
  | S754_finite s m e =>
      let v := if s then Zneg m else Zpos m in
      Some (if (0 <=? e)%Z then Z.shiftl v e else - Z.shiftr (- v) (- e))%Z
  | _ => None
  end.

(** ** Order *)

Lemma SFcompare_refl x : x ≠ S754_nan → SFcompare x x = Some Eq.
Proof.
  destruct x as [s|s| |s m e]; intros H; [done|by destruct s|done|].
  simpl. rewrite Z.compare_refl. change (Pos.compare_cont Eq m m) with (Pos.compare m m).
  rewrite Pos.compare_refl. by destruct s.
Qed.

Lemma fleb_refl x : x ≠ S754_nan → (x <=? x)%float = true.
Proof. intros H. unfold fleb, SFleb. by rewrite SFcompare_refl. Qed.

(** Finite floats compare lexicographically on signed exponent and mantissa. *)
Lemma pos_compare_le m1 m2 m3 :
  Pos.compare m1 m2 ≠ Gt → Pos.compare m2 m3 ≠ Gt → Pos.compare m1 m3 ≠ Gt.
Proof. rewrite !Pos.compare_le_iff. apply Pos.le_trans. Qed.

Lemma fleb_finite s1 m1 e1 s2 m2 e2 :
  (S754_finite s1 m1 e1 <=? S754_finite s2 m2 e2)%float = true ↔
  match s1, s2 with
  | true, false => True
  | false, true => False
  | false, false => (e1 < e2 ∨ e1 = e2 ∧ Zpos m1 ≤ Zpos m2)%Z
  | true, true => (e2 < e1 ∨ e1 = e2 ∧ Zpos m2 ≤ Zpos m1)%Z
  end.
Proof.
  unfold fleb, SFleb. simpl.
  change (Pos.compare_cont Eq m1 m2) with (Pos.compare m1 m2).
  destruct s1, s2; simpl; try done;
    destruct (Z.compare_spec e1 e2); try (split; [lia|intros; done || lia]);
    destruct (Pos.compare_spec m1 m2); simpl; split; intros; try done; try lia.
Qed.

Lemma fleb_trans x y z : (x <=? y)%float = true → (y <=? z)%float = true → (x <=? z)%float = true.
Proof.
  destruct x as [sx|sx| |sx mx ex], y as [sy|sy| |sy my ey], z as [sz|sz| |sz mz ez];
    rewrite ?fleb_finite; unfold fleb, SFleb; simpl;
    repeat match goal with b : bool |- _ => destruct b end; try done; lia.
Qed.

(** The order is total on numbers, so [<] is the negation of the converse [<=]. *)
Lemma fltb_fleb x y : x ≠ S754_nan → y ≠ S754_nan → (x <? y)%float = negb (y <=? x)%float.
Proof.
  intros Hx Hy. unfold fltb, fleb, SFltb, SFleb.
  destruct x as [sx|sx| |sx mx ex], y as [sy|sy| |sy my ey]; try done; simpl;
    try change (Pos.compare_cont Eq mx my) with (Pos.compare mx my);
    try change (Pos.compare_cont Eq my mx) with (Pos.compare my mx);
    repeat match goal with b : bool |- _ => destruct b end; try done;
    rewrite (Z.compare_antisym ey ex), (Pos.compare_antisym my mx);
    destruct (Z.compare ey ex), (Pos.compare my mx); done.
Qed.

(** A number that compares is not a NaN, hence below itself. *)
Lemma fleb_self_l x y : (x <=? y)%float = true → (x <=? x)%float = true.
Proof. intros H. apply fleb_refl. by intros ->. Qed.

Lemma fleb_self_r x y : (x <=? y)%float = true → (y <=? y)%float = true.
Proof. intros H. apply fleb_refl. intros ->. revert H. unfold fleb, SFleb. by destruct x. Qed.

#[export] Hint Resolve fleb_trans : orbiter.

(** Literals of the sources. *)
Example decimal_tenth : float_of_decimal false 1 (-1) = S754_finite false 7205759403792794 (-56).
Proof. vm_compute. reflexivity. Qed.

Example tenth_plus_two_tenths :
  ((float_of_decimal false 1 (-1) + float_of_decimal false 2 (-1))
   =? float_of_decimal false 30000000000000004 (-17))%float = true.
Proof. vm_compute. reflexivity. Qed.
