(* ===== verification/FloatBounds.v ===== *)
(** * How far rounding can go up

    The value of a non-negative binary64 number as an integer multiple of
    2^-1074, and upper bounds on the value of a rounded result, of a difference
    and of a quotient.  They carry the termination argument of the slice loop. *)
From Stdlib Require Import Floats.SpecFloat.
From S2P Require Import Prelude PyFloat.

#[local] Open Scope Z_scope.

(** The value of a finite positive number in units of 2^-1074. *)
Definition units (m : positive) (e : Z) : Z := Zpos m * 2 ^ (e + 1074).

(** If [x] is positive, it is finite and its value is at most [b] units. *)
Definition at_most (b : Z) (x : float) : Prop :=
  match x with
  | S754_finite false m e => -1074 ≤ e ∧ units m e ≤ b
  | S754_infinity false => False
  | _ => True
  end.

Lemma at_most_le b b' x : at_most b x → b ≤ b' → at_most b' x.
Proof. destruct x as [|[]| |[] m e]; cbn; intros; try done. lia. Qed.

Lemma digits2_log2 p : Zpos (digits2_pos p) = Z.log2 (Zpos p) + 1.
Proof.
  induction p as [p IH|p IH|]; cbn [digits2_pos]; [| |done].
  - rewrite Pos2Z.inj_succ, IH. change (Zpos p~1) with (2 * Zpos p + 1). rewrite Z.log2_succ_double by lia. lia.
  - rewrite Pos2Z.inj_succ, IH. change (Zpos p~0) with (2 * Zpos p). rewrite Z.log2_double by lia. lia.
Qed.

Lemma shr_1_m mrs : 0 ≤ shr_m mrs → shr_m (shr_1 mrs) = shr_m mrs / 2.
Proof.
  destruct mrs as [m r s]; cbn. intros Hm. rewrite <- Z.div2_div.
  destruct m as [|[p|p|]|p]; [done..|lia].
Qed.

Lemma shr_1_pos mrs : 0 ≤ shr_m mrs → 0 ≤ shr_m (shr_1 mrs).
Proof. intros H. rewrite shr_1_m by done. apply Z.div_pos; lia. Qed.

Lemma iter_shr_m p mrs : 0 ≤ shr_m mrs →
  shr_m (SpecFloat.iter_pos shr_1 p mrs) = shr_m mrs / 2 ^ Zpos p ∧ 0 ≤ shr_m (SpecFloat.iter_pos shr_1 p mrs).
Proof.
  assert (Hpow : ∀ a b m : Z, 0 ≤ a → 0 ≤ b → m / 2 ^ a / 2 ^ b = m / 2 ^ (a + b)).
  { intros a b m Ha Hb. rewrite Z.pow_add_r by done. apply Z.div_div; [lia|apply Z.pow_pos_nonneg; lia]. }
  revert mrs. induction p as [p IH|p IH|]; intros mrs Hm; cbn [SpecFloat.iter_pos].
  - destruct (IH (shr_1 mrs) (shr_1_pos _ Hm)) as [E1 H1]. destruct (IH _ H1) as [E2 H2]. split; [|done].
    rewrite E2, E1, shr_1_m by done. change 2 with (2 ^ 1) at 1. rewrite !Hpow by lia. f_equal. f_equal. lia.
  - destruct (IH mrs Hm) as [E1 H1]. destruct (IH _ H1) as [E2 H2]. split; [|done].
    rewrite E2, E1, Hpow by lia. f_equal. f_equal. lia.
  - split; [by rewrite shr_1_m|by apply shr_1_pos].
Qed.

Lemma shr_record_m m l : shr_m (shr_record_of_loc m l) = m.
Proof. by destruct l as [|[]]. Qed.

(** Aligning to the format's exponent drops the low bits. *)
Lemma shr_fexp_spec m e l :
  0 ≤ m →
  let e1 := Z.max e (fexp prec emax (Zdigits2 m + e)) in
  shr_m (shr_fexp prec emax m e l).1 = m / 2 ^ (e1 - e) ∧ (shr_fexp prec emax m e l).2 = e1.
Proof.
  intros Hm e1. unfold shr_fexp, shr.
  destruct (fexp prec emax (Zdigits2 m + e) - e) as [|p|p] eqn:E; cbn [fst snd].
  - assert (e1 = e) as -> by lia. rewrite shr_record_m, Z.sub_diag, Z.div_1_r. done.
  - assert (Ee : e1 = e + Zpos p) by lia.
    destruct (iter_shr_m p (shr_record_of_loc m l)) as [E1 _]; [by rewrite shr_record_m|].
    rewrite E1, shr_record_m, Ee. split; [|done]. f_equal. f_equal. lia.
  - assert (e1 = e) as -> by lia. rewrite shr_record_m, Z.sub_diag, Z.div_1_r. done.
Qed.

Lemma rne_bounds m l : m ≤ round_nearest_even m l ≤ m + 1.
Proof. destruct l as [|[]]; cbn; try lia. destruct (Z.even m); lia. Qed.

Lemma fexp_ge k : -1074 ≤ fexp prec emax k.
Proof. unfold fexp, emin, prec, emax. lia. Qed.

Lemma Zdigits2_pos m : 0 < m → Zdigits2 m = Z.log2 m + 1.
Proof. destruct m as [|p|p]; [lia| |lia]. intros _. cbn [Zdigits2]. apply digits2_log2. Qed.

Lemma digits_bound m k : 0 ≤ m → 0 ≤ k → m ≤ 2 ^ k → Zdigits2 m ≤ k + 1.
Proof.
  intros Hm Hk Hle. destruct (Z.eq_dec m 0) as [->|]; [cbn; lia|]. rewrite Zdigits2_pos by lia.
  pose proof (Z.log2_le_mono m (2 ^ k) Hle) as H. rewrite Z.log2_pow2 in H by done. lia.
Qed.

Lemma lt_digits m : 0 ≤ m → m < 2 ^ Zdigits2 m.
Proof.
  intros Hm. destruct (Z.eq_dec m 0) as [->|]; [done|]. rewrite Zdigits2_pos by lia.
  pose proof (Z.log2_spec m ltac:(lia)). lia.
Qed.

(** A rounded number of this size is far from overflow. *)
Lemma exponent_small m e e1 m1 :
  0 ≤ m → Zdigits2 m + e ≤ 20 → e ≤ e1 ≤ 0 → 0 ≤ m1 → m1 ≤ m / 2 ^ (e1 - e) + 1 →
  Z.max e1 (fexp prec emax (Zdigits2 m1 + e1)) ≤ emax - prec.
Proof.
  intros Hm Hd He Hm1 Hle.
  assert (Hq : m / 2 ^ (e1 - e) ≤ 2 ^ (20 - e1)).
  { apply Z.div_le_upper_bound; [apply Z.pow_pos_nonneg; lia|]. rewrite <- Z.pow_add_r by lia.
    pose proof (lt_digits m Hm). transitivity (2 ^ Zdigits2 m); [lia|]. apply Z.pow_le_mono_r; lia. }
  assert (Hb : Zdigits2 m1 ≤ 22 - e1).
  { replace (22 - e1) with ((21 - e1) + 1) by lia. apply digits_bound; [done|lia|].
    replace (21 - e1) with (Z.succ (20 - e1)) by lia. rewrite Z.pow_succ_r by lia.
    pose proof (Z.pow_pos_nonneg 2 (20 - e1)). lia. }
  unfold fexp, emin, prec, emax in *. lia.
Qed.

(** Rounding a positive number: at most one unit of the last place above it. *)
Lemma round_aux_upper m e l :
  0 ≤ m → -1074 ≤ e → let e1 := Z.max e (fexp prec emax (Zdigits2 m + e)) in
  e1 ≤ 0 → Zdigits2 m + e ≤ 20 →
  at_most (m * 2 ^ (e + 1074) + 2 ^ (e1 + 1074)) (binary_round_aux prec emax false m e l).
Proof.
  intros Hm He e1 He1 Hd. unfold binary_round_aux.
  destruct (shr_fexp_spec m e l Hm) as [E1 E2]. fold e1 in E1, E2.
  destruct (shr_fexp prec emax m e l) as [mrs e']. cbn [fst snd] in *. subst e'.
  set (m1 := round_nearest_even (shr_m mrs) (loc_of_shr_record mrs)).
  pose proof (rne_bounds (shr_m mrs) (loc_of_shr_record mrs)) as Hr. fold m1 in Hr. rewrite E1 in Hr.
  assert (Hq : 0 ≤ m / 2 ^ (e1 - e)) by (apply Z.div_pos; [lia|apply Z.pow_pos_nonneg; lia]).
  assert (Hm1 : 0 ≤ m1) by lia.
  destruct (shr_fexp_spec m1 e1 loc_Exact Hm1) as [F1 F2].
  set (e2 := Z.max e1 (fexp prec emax (Zdigits2 m1 + e1))) in *.
  destruct (shr_fexp prec emax m1 e1 loc_Exact) as [mrs2 e'']. cbn [fst snd] in *. subst e''.
  assert (Hp2 : 0 < 2 ^ (e2 - e1)) by (apply Z.pow_pos_nonneg; lia).
  assert (Hm2 : 0 ≤ shr_m mrs2) by (rewrite F1; apply Z.div_pos; lia).
  assert (Hup : shr_m mrs2 * 2 ^ (e2 - e1) ≤ m / 2 ^ (e1 - e) + 1).
  { rewrite F1. pose proof (Z.mul_div_le m1 (2 ^ (e2 - e1)) Hp2). lia. }
  destruct (shr_m mrs2) as [|p|p]; [done| |lia].
  rewrite (proj2 (Z.leb_le _ _)); [|by apply (exponent_small m e e1 m1); lia].
  cbn [at_most]. split; [pose proof (fexp_ge (Zdigits2 m + e)); lia|]. unfold units.
  pose proof (fexp_ge (Zdigits2 m + e)) as Hf.
  replace (e2 + 1074) with ((e2 - e1) + (e1 + 1074)) by lia. rewrite Z.pow_add_r by lia. rewrite Z.mul_assoc.
  assert (Hp1 : 0 < 2 ^ (e1 + 1074)) by (apply Z.pow_pos_nonneg; lia).
  assert (Hback : m / 2 ^ (e1 - e) * 2 ^ (e1 + 1074) ≤ m * 2 ^ (e + 1074)).
  { replace (e1 + 1074) with ((e1 - e) + (e + 1074)) by lia. rewrite Z.pow_add_r by lia. rewrite Z.mul_assoc.
    apply Z.mul_le_mono_nonneg_r; [apply Z.pow_nonneg; lia|].
    rewrite Z.mul_comm. apply Z.mul_div_le, Z.pow_pos_nonneg; lia. }
  nia.
Qed.

Lemma iter_xO m d : Zpos (Pos.iter xO m d) = Zpos m * 2 ^ Zpos d.
Proof.
  induction d as [|d IH] using Pos.peano_ind; [cbn; lia|].
  rewrite Pos.iter_succ, Pos2Z.inj_succ, Z.pow_succ_r by lia.
  change (Zpos (Pos.iter xO m d)~0) with (2 * Zpos (Pos.iter xO m d)). rewrite IH. lia.
Qed.

Lemma shl_align_spec m e e' :
  let k := Z.max 0 (e - e') in
  Zpos (shl_align m e e').1 = Zpos m * 2 ^ k ∧ (shl_align m e e').2 = e - k.
Proof.
  intros k. unfold shl_align. destruct (e' - e) as [|d|d] eqn:E; cbn [fst snd].
  - assert (k = 0) as -> by lia. lia.
  - assert (k = 0) as -> by lia. lia.
  - assert (k = Zpos d) as -> by lia. split; [apply iter_xO|lia].
Qed.

Lemma digits_shift p k : 0 ≤ k → Zdigits2 (Zpos p * 2 ^ k) = Zdigits2 (Zpos p) + k.
Proof.
  intros Hk. pose proof (Z.pow_pos_nonneg 2 k). rewrite !Zdigits2_pos by nia.
  rewrite Z.log2_mul_pow2 by lia. lia.
Qed.

(** Rounding a positive number below 2^12 with an exponent below -41 adds at most 2^-41. *)
Lemma round_upper p e :
  -1074 ≤ e → e ≤ -41 → Zdigits2 (Zpos p) + e ≤ 12 →
  at_most (Zpos p * 2 ^ (e + 1074) + 2 ^ 1033) (binary_round prec emax false p e).
Proof.
  intros He He' Hd. unfold binary_round.
  destruct (shl_align_spec p e (fexp prec emax (Zpos (digits2_pos p) + e))) as [E1 E2].
  change (Zpos (digits2_pos p)) with (Zdigits2 (Zpos p)) in *.
  set (k := Z.max 0 _) in *. destruct (shl_align _ _ _) as [mz ez]. cbn [fst snd] in *. subst ez.
  assert (Hk : 0 ≤ k) by lia. pose proof (digits_shift p k Hk) as Hds. rewrite <- E1 in Hds.
  assert (Hf : fexp prec emax (Zdigits2 (Zpos p) + e) ≤ -41) by (unfold fexp, emin, prec, emax; lia).
  pose proof (fexp_ge (Zdigits2 (Zpos p) + e)) as Hg.
  eapply at_most_le.
  - apply (round_aux_upper (Zpos mz) (e - k) loc_Exact); [lia|lia| |lia].
    rewrite Hds. replace (Zdigits2 (Zpos p) + k + (e - k)) with (Zdigits2 (Zpos p) + e) by lia. lia.
  - rewrite Hds. replace (Zdigits2 (Zpos p) + k + (e - k)) with (Zdigits2 (Zpos p) + e) by lia.
    rewrite E1, <- Z.mul_assoc, <- Z.pow_add_r by lia. replace (k + (e - k + 1074)) with (e + 1074) by lia.
    apply Z.add_le_mono_l, Z.pow_le_mono_r; lia.
Qed.

Lemma round_aux_sign m e l : 0 ≤ m → match binary_round_aux prec emax true m e l with
  | S754_finite false _ _ | S754_infinity false => False | _ => True end.
Proof.
  intros Hm. unfold binary_round_aux. destruct (shr_fexp _ _ m e l) as [mrs e'].
  destruct (shr_fexp _ _ _ _ loc_Exact) as [mrs2 e2]. destruct (shr_m mrs2); try done. by destruct (_ <=? _).
Qed.

(** A difference of a number below 2^10 and one with an exponent below -41: at most
    the exact difference plus 2^-41; at most zero if the exact one is. *)
Lemma sub_upper m e m' e' :
  -1074 ≤ e → -1074 ≤ e' → e' ≤ -41 → units m e ≤ 2 ^ 1084 →
  at_most (units m e - units m' e' + 2 ^ 1033) (S754_finite false m e - S754_finite false m' e')%float.
Proof.
  intros He He1 He2 Hu. unfold fsub. cbn [SFsub cond_Zopp].
  set (ez := Z.min e e').
  destruct (shl_align_spec m e ez) as [E1 _]. destruct (shl_align_spec m' e' ez) as [E2 _].
  replace (Z.max 0 (e - ez)) with (e - ez) in E1 by lia. replace (Z.max 0 (e' - ez)) with (e' - ez) in E2 by lia.
  set (A := Zpos (fst (shl_align m e ez))) in *. set (B := Zpos (fst (shl_align m' e' ez))) in *.
  assert (EA : A * 2 ^ (ez + 1074) = units m e).
  { unfold units. rewrite E1, <- Z.mul_assoc, <- Z.pow_add_r by lia. do 2 f_equal. lia. }
  assert (EB : B * 2 ^ (ez + 1074) = units m' e').
  { unfold units. rewrite E2, <- Z.mul_assoc, <- Z.pow_add_r by lia. do 2 f_equal. lia. }
  assert (Hp : 0 < 2 ^ (ez + 1074)) by (apply Z.pow_pos_nonneg; lia).
  assert (HB : 0 < units m' e') by (unfold units; pose proof (Z.pow_pos_nonneg 2 (e' + 1074)); nia).
  destruct (A - B) as [|p|p] eqn:ED; cbn [binary_normalize].
  - done.
  - assert (Hv : Zpos p * 2 ^ (ez + 1074) = units m e - units m' e') by (rewrite <- ED; lia).
    rewrite <- Hv. apply round_upper; [lia|lia|].
    assert (Hlt : ez + 1074 + Z.log2 (Zpos p) ≤ 1084).
    { rewrite <- Z.log2_mul_pow2 by lia. rewrite Hv.
      transitivity (Z.log2 (2 ^ 1084)); [apply Z.log2_le_mono; lia|]. by rewrite Z.log2_pow2. }
    rewrite Zdigits2_pos by lia. lia.
  - clear - p. unfold binary_round. destruct (shl_align p _ _) as [mz ez'].
    pose proof (round_aux_sign (Zpos mz) ez' loc_Exact ltac:(lia)) as Hs.
    revert Hs. by destruct (binary_round_aux _ _ _ _ _ _) as [|[]| |[]].
Qed.

(** Integers below 2^53 are exact. *)
Lemma fZ_small d :
  0 < d → Zdigits2 d ≤ 53 →
  let k := 53 - Zdigits2 d in
  ∃ m, fZ d = S754_finite false m (- k) ∧ Zpos m = d * 2 ^ k.
Proof.
  intros Hd Hdig k. destruct d as [|p|p]; [lia| |lia]. unfold fZ. cbn [binary_normalize]. unfold binary_round.
  change (Zpos (digits2_pos p)) with (Zdigits2 (Zpos p)).
  destruct (shl_align_spec p 0 (fexp prec emax (Zdigits2 (Zpos p) + 0))) as [E1 E2].
  assert (Hpos : 0 < Zdigits2 (Zpos p)) by (rewrite Zdigits2_pos by lia; pose proof (Z.log2_nonneg (Zpos p)); lia).
  assert (Hk : Z.max 0 (0 - fexp prec emax (Zdigits2 (Zpos p) + 0)) = k) by (unfold fexp, emin, prec, emax; lia).
  rewrite Hk in E1, E2. destruct (shl_align _ _ _) as [mz ez]. cbn [fst snd] in *. subst ez.
  exists mz. split; [|done].
  assert (Hm : Zdigits2 (Zpos mz) = 53) by (rewrite E1, digits_shift; lia).
  assert (Hs : shr_fexp prec emax (Zpos mz) (0 - k) loc_Exact = (Build_shr_record (Zpos mz) false false, - k)).
  { unfold shr_fexp. rewrite Hm.
    assert (fexp prec emax (53 + (0 - k)) - (0 - k) = 0) as -> by (unfold fexp, emin, prec, emax; lia). done. }
  unfold binary_round_aux. rewrite Hs. cbn [loc_of_shr_record shr_m round_nearest_even].
  replace (- k) with (0 - k) by lia. rewrite Hs. cbn [shr_m]. rewrite (proj2 (Z.leb_le _ _)); [f_equal; lia|].
  unfold emax, prec. lia.
Qed.

Lemma fZ_1000 : fZ 1000 = S754_finite false 8796093022208000 (-43).
Proof. vm_compute. reflexivity. Qed.

(** [d / 1000] for a duration of up to 2^20 milliseconds. *)
Lemma div_1000_upper d :
  0 < d → Zdigits2 d ≤ 20 → at_most (d * 2 ^ 1074 / 1000 + 2 ^ 1033) (fZ d / fZ 1000)%float.
Proof.
  intros Hd Hdig. destruct (fZ_small d Hd ltac:(lia)) as (m & -> & Em). set (k := 53 - Zdigits2 d) in *.
  rewrite fZ_1000. unfold fdiv. cbn [SFdiv xorb]. unfold SFdiv_core_binary.
  assert (Hm : Zdigits2 (Zpos m) = 53).
  { rewrite Em. destruct d as [|p|p]; [lia| |lia]. rewrite digits_shift by lia. lia. }
  rewrite Hm. change (Zdigits2 8796093022208000) with 53.
  assert (Hk : 33 ≤ k ≤ 53) by (pose proof (Zdigits2_pos d Hd); pose proof (Z.log2_nonneg d); lia).
  assert (He : Z.min (fexp prec emax (53 + - k - (53 + -43))) (- k - -43) = -10 - k) by (unfold fexp, emin, prec, emax; lia).
  rewrite He. replace (- k - -43 - (-10 - k)) with 53 by lia. rewrite Z.shiftl_mul_pow2 by lia.
  pose proof (Z_div_mod (Zpos m * 2 ^ 53) 8796093022208000 ltac:(lia)) as Hq.
  destruct (Z.div_eucl (Zpos m * 2 ^ 53) 8796093022208000) as [q r]. destruct Hq as [Hq Hr].
  assert (Hlt : Zpos m < 2 ^ 53) by (rewrite <- Hm; apply lt_digits; lia).
  assert (Hqd : 0 ≤ q ≤ 2 ^ 54) by lia.
  assert (Hdq : Zdigits2 q ≤ 55) by (apply (digits_bound q 54); lia).
  assert (H0q : 0 ≤ Zdigits2 q) by (destruct q as [|p|p]; cbn [Zdigits2]; lia).
  eapply at_most_le.
  - apply round_aux_upper; [lia|lia|unfold fexp, emin, prec, emax; lia|lia].
  - apply Z.add_le_mono; [|apply Z.pow_le_mono_r; [lia|unfold fexp, emin, prec, emax; lia]].
    apply Z.div_le_lower_bound; [lia|].
    assert (E : 1000 * q * 2 ^ 10 ≤ d * 2 ^ k * 2 ^ 20).
    { rewrite <- Em. lia. }
    replace (2 ^ 1074) with (2 ^ k * 2 ^ 20 * 2 ^ (1054 - k)) by (rewrite <- !Z.pow_add_r by lia; f_equal; lia).
    replace (-10 - k + 1074) with (10 + (1054 - k)) by lia. rewrite Z.pow_add_r by lia.
    pose proof (Z.pow_pos_nonneg 2 (1054 - k)). nia.
Qed.
