(* ===== verification/PyJson.v ===== *)
(** * JSON values as Python sees them

    The values [json.loads] produces and [json.dumps] consumes, with the dict
    operations, truth value and number conversions the sources apply to them.
    Text strings are byte strings in UTF-8. *)
From Stdlib Require Import Floats.SpecFloat.
From S2P Require Import Prelude PyFloat.

Inductive json :=
  | JNull
  | JBool (b : bool)
  | JInt (z : Z)
  | JFloat (f : float)
  | JStr (s : string)
  | JArr (l : list json)
  | JObj (l : list (string * json)).

(** [d.get(k)] on the items of a dict, whose keys are distinct. *)
Fixpoint dict_get (l : list (string * json)) (k : string) : option json :=
  match l with
  | [] => None
  | (k', v) :: l => if decide (k = k') then Some v else dict_get l k
  end.

(** [d[k] = v]: a present key keeps its place, a new one goes last. *)
Fixpoint dict_set (l : list (string * json)) (k : string) (v : json) : list (string * json) :=
  match l with
  | [] => [(k, v)]
  | (k', v') :: l => if decide (k = k') then (k, v) :: l else (k', v') :: dict_set l k v
  end.

#[global] Instance json_eq_dec : EqDecision json.
Proof.
  refine (fix go (x y : json) : Decision (x = y) :=
    match x, y with
    | JNull, JNull => left eq_refl
    | JBool a, JBool b => cast_if (decide (a = b))
    | JInt a, JInt b => cast_if (decide (a = b))
    | JFloat a, JFloat b => cast_if (decide (a = b))
    | JStr a, JStr b => cast_if (decide (a = b))
    | JArr a, JArr b => cast_if (list_eq_dec (dec := go) a b)
    | JObj a, JObj b => cast_if (list_eq_dec (dec := λ p q, prod_eq_dec (EqDecision1 := go) p q) a b)
    | _, _ => right _
    end); clear go; congruence.
Defined.

(** [bool(v)]. *)
Definition truthy (v : json) : bool :=
  match v with
  | JNull => false
  | JBool b => b
  | JInt z => negb (Z.eqb z 0)
  | JFloat (S754_zero _) => false
  | JFloat _ => true
  | JStr s => negb (String.eqb s "")
  | JArr l => match l with [] => false | _ => true end
  | JObj l => match l with [] => false | _ => true end
  end.

Lemma dict_get_set l k v k' :
  dict_get (dict_set l k v) k' = if decide (k' = k) then Some v else dict_get l k'.
Proof.
  induction l as [|[k0 v0] l IH]; simpl; [done|].
  repeat (case_decide; simplify_eq/=); try done.
Qed.
