(* ===== verification/Model.v ===== *)
(** * The job domain model ([src/orbiter/domain/model.py])

    Job states, event types, events and payloads, with the string values of
    the two [StrEnum] classes and the exceptions the program raises. *)
From Stdlib Require Import Floats.SpecFloat.
From stdpp Require Import finite.
From S2P Require Import Prelude PyFloat PyJson.

Module JobState.
Inductive t := SUBMITTED | QUEUED | RUNNING | SUCCEEDED | FAILED | DEAD_LETTER.

Definition value (s : t) : string :=
  match s with
  | SUBMITTED => "submitted"
  | QUEUED => "queued"
  | RUNNING => "running"
  | SUCCEEDED => "succeeded"
  | FAILED => "failed"
  | DEAD_LETTER => "dead_letter"
  end.

Definition name (s : t) : string :=
  match s with
  | SUBMITTED => "SUBMITTED"
  | QUEUED => "QUEUED"
  | RUNNING => "RUNNING"
  | SUCCEEDED => "SUCCEEDED"
  | FAILED => "FAILED"
  | DEAD_LETTER => "DEAD_LETTER"
  end.

#[global] Instance eq_dec : EqDecision t.
Proof. solve_decision. Defined.
End JobState.

Module EventType.
Inductive t :=
  SUBMITTED | ENQUEUED | STARTED | COMPLETED | FAILED | REQUEUED | DEAD_LETTERED | REPLAYED.

Definition value (e : t) : string :=
  match e with
  | SUBMITTED => "submitted"
  | ENQUEUED => "enqueued"
  | STARTED => "started"
  | COMPLETED => "completed"
  | FAILED => "failed"
  | REQUEUED => "requeued"
  | DEAD_LETTERED => "dead_lettered"
  | REPLAYED => "replayed"
  end.

#[global] Instance eq_dec : EqDecision t.
Proof. solve_decision. Defined.
End EventType.

#[global] Program Instance JobState_finite : Finite JobState.t :=
  {| enum := [JobState.SUBMITTED; JobState.QUEUED; JobState.RUNNING; JobState.SUCCEEDED;
              JobState.FAILED; JobState.DEAD_LETTER] |}.
Next Obligation. apply (bool_decide_unpack _). by vm_compute. Qed.
Next Obligation. intros []; apply (bool_decide_unpack _); by vm_compute. Qed.

#[global] Program Instance EventType_finite : Finite EventType.t :=
  {| enum := [EventType.SUBMITTED; EventType.ENQUEUED; EventType.STARTED; EventType.COMPLETED;
              EventType.FAILED; EventType.REQUEUED; EventType.DEAD_LETTERED; EventType.REPLAYED] |}.
Next Obligation. apply (bool_decide_unpack _). by vm_compute. Qed.
Next Obligation. intros []; apply (bool_decide_unpack _); by vm_compute. Qed.

(** ** Exceptions

    The classes of the sources, the built-in ones they raise or catch, the
    driver's unique-violation error and, for every other failure of a library
    or a service, [ExternalError]. *)
Inductive exn :=
  | IllegalTransition (state : option JobState.t) (event : EventType.t)
  | StaleLeaseError (resource : string) (token newest_seen : Z)
  | SimulatedFailure (msg : string)
  | ValueError (msg : string)
  | JSONDecodeError (msg : string)
  | UnicodeDecodeError (msg : string)
  | LookupError (msg : string)
  | KeyError (key : string)
  | TypeError (msg : string)
  | AttributeError (msg : string)
  | OverflowError (msg : string)
  | RuntimeError (msg : string)
  | TimeoutError
  | NotImplementedError
  | UniqueViolationError (constraint : string)
  | HTTPException (status_code : Z) (detail : string) (headers : list (string * string))
  | ExternalError (what : string).

(** A Python computation returns a value or raises. *)
Inductive result (A : Type) :=
  | Ok (a : A)
  | Raise (e : exn).
Arguments Ok {A} a.
Arguments Raise {A} e.

#[global] Instance exn_eq_dec : EqDecision exn.
Proof. solve_decision. Defined.

#[global] Instance result_eq_dec {A} `{!EqDecision A} : EqDecision (result A).
Proof. solve_decision. Defined.

Declare Scope result_scope.
Delimit Scope result_scope with result.

Definition result_bind {A B} (r : result A) (k : A → result B) : result B :=
  match r with
  | Ok a => k a
  | Raise e => Raise e
  end.

Notation "'let?' x ':=' r 'in' k" := (result_bind r (λ x, k))
  (at level 10, x binder, r at level 100, k at level 200) : result_scope.

(** A computation for each element of a list, stopping at the first exception. *)
Fixpoint map_result {A B} (f : A → result B) (l : list A) : result (list B) :=
  match l with
  | [] => Ok []
  | x :: l => result_bind (f x) (λ y, result_bind (map_result f l) (λ ys, Ok (y :: ys)))
  end.

Lemma map_result_app {A B} (f : A → result B) l1 l2 :
  map_result f (l1 ++ l2) =
    result_bind (map_result f l1) (λ k1, result_bind (map_result f l2) (λ k2, Ok (k1 ++ k2))).
Proof.
  induction l1 as [|x l1 IH]; simpl.
  - by destruct (map_result f l2).
  - destruct (f x); simpl; [|done]. rewrite IH.
    destruct (map_result f l1); simpl; [|done]. by destruct (map_result f l2).
Qed.

(** ** Enum lookup by value: [JobState(s)] and [EventType(s)] *)

Definition JobState_of (s : string) : result JobState.t :=
  match list_find (λ st, JobState.value st = s) (enum JobState.t) with
  | Some (_, st) => Ok st
  | None => Raise (ValueError (s +:+ " is not a valid JobState"))
  end.

Definition EventType_of (s : string) : result EventType.t :=
  match list_find (λ e, EventType.value e = s) (enum EventType.t) with
  | Some (_, e) => Ok e
  | None => Raise (ValueError (s +:+ " is not a valid EventType"))
  end.

Lemma JobState_of_value st : JobState_of (JobState.value st) = Ok st.
Proof. by destruct st. Qed.

Lemma EventType_of_value e : EventType_of (EventType.value e) = Ok e.
Proof. by destruct e. Qed.

#[export] Hint Rewrite JobState_of_value EventType_of_value : orbiter.

Definition TERMINAL_STATES : list JobState.t := [JobState.SUCCEEDED; JobState.FAILED].

(** Timestamps are microseconds since the epoch. *)
Record JobEvent := mkJobEvent {
  type : EventType.t;
  attempt : Z;
  detail : json;
  at_ : Z
}.

Record JobPayload := mkJobPayload {
  duration_ms : Z;
  failure_rate : float
}.

(** [JobPayload(duration_ms, failure_rate)], with the checks of [__post_init__]. *)
Definition JobPayload_init (duration_ms : Z) (failure_rate : float) : result JobPayload :=
  if (duration_ms <? 0)%Z then Raise (ValueError "duration_ms must be >= 0")
  else if negb ((fZ 0 <=? failure_rate)%float && (failure_rate <=? fZ 1)%float)
  then Raise (ValueError "failure_rate must be within [0, 1]")
  else Ok (mkJobPayload duration_ms failure_rate).
