(* ===== verification/Telemetry.v ===== *)
(** * Telemetry ([src/orbiter/telemetry.py])

    What the module decides: which providers [init_telemetry] installs, and when;
    the names it asks the library for; what it hands to the propagator, and when
    that raises.  Spans and metrics themselves are OpenTelemetry's and do not
    influence the program: its functions are arguments here. *)
From S2P Require Import Prelude PyFloat PyJson Model.

(** A [dict[str, str]], in insertion order. *)
Definition headers_dict : Type := list (string * string).

(** The tracer and meter provider with their exporters. *)
Record Providers := mkProviders {
  service_name : string;
  traces_endpoint : string;
  metrics_endpoint : string;
  export_interval_millis : Z
}.

(** [init_telemetry]: the providers this call installs, and [_INITIALIZED] afterwards. *)
Definition init_telemetry (service endpoint : string) (initialized : bool) : option Providers * bool :=
  if decide (endpoint = "") then (None, initialized)
  else if initialized then (None, initialized)
  else (Some (mkProviders service (endpoint +:+ "/v1/traces") (endpoint +:+ "/v1/metrics") 10000), true).

(** [(carrier or {}).items()]: all of [context_from] that can fail. *)
Definition carrier_items (carrier : option json) : result (list (string * json)) :=
  match carrier with
  | Some (JObj l) => Ok l
  | Some v => if truthy v then Raise (AttributeError "object has no attribute 'items'") else Ok []
  | None => Ok []
  end.

Section opentelemetry.
Context {Tracer Meter Context_ : Type}.
Context (get_tracer : string → Tracer) (get_meter : string → Meter).
Context (inject : headers_dict → headers_dict) (extract : headers_dict → Context_).
Context (py_str : json → string).

Definition tracer : Tracer := get_tracer "orbiter".

Definition meter : Meter := get_meter "orbiter".

Definition current_carrier : headers_dict := inject [].

(** Every value of the carrier goes to the propagator as text. *)
Definition context_from (carrier : option json) : result Context_ :=
  result_bind (carrier_items carrier) (λ items, Ok (extract ((λ kv, (kv.1, py_str kv.2)) <$> items))).

(** A carrier that was injected here and travelled as a JSON object is handed to
    the propagator as it was. *)
Lemma carrier_travels : (∀ s, py_str (JStr s) = s) →
  context_from (Some (JObj ((λ kv, (kv.1, JStr kv.2)) <$> current_carrier))) = Ok (extract current_carrier).
Proof.
  intros Hs. unfold context_from. cbn [carrier_items result_bind]. do 2 f_equal. rewrite <- list_fmap_compose.
  rewrite <- (list_fmap_id current_carrier) at 2. apply list_fmap_ext. intros i [k v] _. cbn. by rewrite Hs.
Qed.

(** [context_from] raises exactly when the items of the carrier cannot be read. *)
Lemma context_from_raises carrier e : context_from carrier = Raise e ↔ carrier_items carrier = Raise e.
Proof. unfold context_from. destruct (carrier_items carrier); cbn; split; congruence. Qed.
End opentelemetry.

(** [body.get("traceparent")] *)
Definition traceparent_of (body : json) : option json :=
  match body with
  | JObj l => dict_get l "traceparent"
  | _ => None
  end.

(** Providers are installed at most once in a process, and never without an endpoint. *)
Lemma init_telemetry_once s s' e e' b p :
  (init_telemetry s e b).1 = Some p → (init_telemetry s' e' (init_telemetry s e b).2).1 = None ∧ e ≠ "".
Proof. unfold init_telemetry. repeat case_decide; destruct b; done. Qed.
