(* ===== verification/StateMachine.v ===== *)
(** * The job lifecycle state machine ([src/orbiter/domain/state_machine.py])

    [apply], [replay], [is_terminal] and [legal_events] over the transition
    table, and what a log that replays must look like: the grammar of audit
    trails. *)
From stdpp Require Import finite.
From S2P Require Import Prelude PyFloat PyJson Model.

(** [_TRANSITIONS], one association list per state, in the order of the source. *)
Definition TRANSITIONS (s : JobState.t) : list (EventType.t * JobState.t) :=
  match s with
  | JobState.SUBMITTED => [(EventType.ENQUEUED, JobState.QUEUED)]
  | JobState.QUEUED =>
      [(EventType.STARTED, JobState.RUNNING);
       (EventType.DEAD_LETTERED, JobState.DEAD_LETTER)]
  | JobState.RUNNING =>
      [(EventType.COMPLETED, JobState.SUCCEEDED);
       (EventType.FAILED, JobState.FAILED);
       (EventType.REQUEUED, JobState.QUEUED);
       (EventType.DEAD_LETTERED, JobState.DEAD_LETTER);
       (EventType.STARTED, JobState.RUNNING)]
  | JobState.DEAD_LETTER => [(EventType.REPLAYED, JobState.QUEUED)]
  | JobState.SUCCEEDED => []
  | JobState.FAILED => []
  end.

(** [d.get(event)] on one row of the table. *)
Fixpoint row_get (row : list (EventType.t * JobState.t)) (e : EventType.t) : option JobState.t :=
  match row with
  | [] => None
  | (e', s) :: row => if decide (e = e') then Some s else row_get row e
  end.

Definition apply (state : option JobState.t) (event : EventType.t) : result JobState.t :=
  match state with
  | None =>
      if decide (event = EventType.SUBMITTED) then Ok JobState.SUBMITTED
      else Raise (IllegalTransition None event)
  | Some s =>
      match row_get (TRANSITIONS s) event with
      | None => Raise (IllegalTransition (Some s) event)
      | Some next_state => Ok next_state
      end
  end.

Arguments apply !state !event /.

(** The loop of [replay], from an accumulator. *)
Fixpoint replay_from (state : option JobState.t) (events : list JobEvent)
    : result (option JobState.t) :=
  match events with
  | [] => Ok state
  | event :: events =>
      result_bind (apply state (type event)) (λ s, replay_from (Some s) events)
  end.

Definition replay (events : list JobEvent) : result JobState.t :=
  result_bind (replay_from None events) (λ state,
    match state with
    | None => Raise (ValueError "cannot replay an empty event log")
    | Some s => Ok s
    end).

Definition is_terminal (s : JobState.t) : bool := bool_decide (s ∈ TERMINAL_STATES).

Definition legal_events (state : option JobState.t) : gset EventType.t :=
  match state with
  | None => {[EventType.SUBMITTED]}
  | Some s => list_to_set ((TRANSITIONS s).*1)
  end.

(** ** Basic facts *)

Lemma apply_cases st e :
  (∃ s', apply st e = Ok s') ∨ apply st e = Raise (IllegalTransition st e).
Proof. destruct st as [[]|], e; simpl; eauto. Qed.

Lemma replay_from_app st l1 l2 :
  replay_from st (l1 ++ l2) = result_bind (replay_from st l1) (λ s, replay_from s l2).
Proof.
  revert st. induction l1 as [|ev l1 IH]; intros st; simpl; [done|].
  destruct (apply st (type ev)); simpl; [apply IH|done].
Qed.

Lemma replay_from_Some s l st : replay_from (Some s) l = Ok st → is_Some st.
Proof.
  revert s. induction l as [|ev l IH]; intros s; simpl; [naive_solver|].
  destruct (apply _ _); simpl; [apply IH|done].
Qed.

Lemma replay_Ok l s : replay l = Ok s ↔ replay_from None l = Ok (Some s).
Proof.
  unfold replay. destruct (replay_from None l) as [[s'|]|]; simpl; naive_solver.
Qed.

(** Appending one event to a log applies it to the log's state. *)
Lemma replay_snoc l ev s : replay l = Ok s → replay (l ++ [ev]) = apply (Some s) (type ev).
Proof.
  intros H%replay_Ok. unfold replay. rewrite replay_from_app, H. simpl.
  by destruct (apply (Some s) (type ev)).
Qed.

Lemma replay_snoc_inv l ev s' :
  replay (l ++ [ev]) = Ok s' →
  (l = [] ∧ apply None (type ev) = Ok s') ∨ ∃ s, replay l = Ok s ∧ apply (Some s) (type ev) = Ok s'.
Proof.
  intros H%replay_Ok. rewrite replay_from_app in H.
  destruct (replay_from None l) as [[s|]|] eqn:El; [| |done].
  - right. exists s. split; [by apply replay_Ok|]. cbn [result_bind replay_from] in H.
    destruct (apply (Some s) (type ev)); simpl in H; naive_solver.
  - left. destruct l as [|e0 l].
    + split; [done|]. simpl in H. destruct (apply None (type ev)); simpl in H; naive_solver.
    + simpl in El. destruct (apply None (type e0)); simpl in El; [|done].
      by apply replay_from_Some in El as [??].
Qed.

Lemma apply_terminal s e : is_terminal s = true → apply (Some s) e = Raise (IllegalTransition (Some s) e).
Proof. by destruct s, e. Qed.

Lemma legal_events_spec st e : e ∈ legal_events st ↔ ∃ s', apply st e = Ok s'.
Proof.
  destruct (apply_cases st e) as [[s' H]|H]; rewrite H.
  - split; [eauto|]. intros _. destruct st as [[]|], e; simplify_eq/=; set_solver.
  - split; [|naive_solver]. intros Hin. exfalso. revert Hin H.
    destruct st as [[]|], e; simpl; intros; try done; set_solver.
Qed.

Lemma legal_events_empty s : is_terminal s = true ↔ legal_events (Some s) = ∅.
Proof.
  split; [by destruct s|]. intros H.
  destruct s; simpl in H; done || (exfalso; set_solver).
Qed.

(** ** The grammar of audit trails

    Between submission and its last episode a job goes through cycles, each of
    which brings it back to the queue: one or more starts followed by a requeue,
    or any number of starts followed by a quarantine and an operator replay. *)
Inductive cycle : list EventType.t → Prop :=
  | cycle_retry n : cycle (replicate (S n) EventType.STARTED ++ [EventType.REQUEUED])
  | cycle_replay n :
      cycle (replicate n EventType.STARTED ++ [EventType.DEAD_LETTERED; EventType.REPLAYED]).

(** The last episode, by the state it leaves the job in. *)
Inductive ending : JobState.t → list EventType.t → Prop :=
  | ending_queued : ending JobState.QUEUED []
  | ending_running n : ending JobState.RUNNING (replicate (S n) EventType.STARTED)
  | ending_succeeded n :
      ending JobState.SUCCEEDED (replicate (S n) EventType.STARTED ++ [EventType.COMPLETED])
  | ending_failed n :
      ending JobState.FAILED (replicate (S n) EventType.STARTED ++ [EventType.FAILED])
  | ending_dead n :
      ending JobState.DEAD_LETTER (replicate n EventType.STARTED ++ [EventType.DEAD_LETTERED]).

Inductive trail : JobState.t → list EventType.t → Prop :=
  | trail_submitted : trail JobState.SUBMITTED [EventType.SUBMITTED]
  | trail_enqueued s cs tl :
      Forall cycle cs → ending s tl →
      trail s (EventType.SUBMITTED :: EventType.ENQUEUED :: concat cs ++ tl).

Create HintDb trail.
#[export] Hint Constructors cycle ending trail Forall : trail.

Lemma trail_queued cs :
  Forall cycle cs → trail JobState.QUEUED (EventType.SUBMITTED :: EventType.ENQUEUED :: concat cs).
Proof. intros H. rewrite <- (app_nil_r (concat cs)). eauto with trail. Qed.

Lemma trail_cycle_snoc cs c :
  Forall cycle cs → cycle c →
  trail JobState.QUEUED (EventType.SUBMITTED :: EventType.ENQUEUED :: concat cs ++ c).
Proof.
  intros Hcs Hc. replace (concat cs ++ c) with (concat (cs ++ [c])).
  - apply trail_queued, Forall_app; eauto with trail.
  - rewrite concat_app. simpl. by rewrite app_nil_r.
Qed.

(** One legal event extends a trail. *)
Lemma trail_step s ts e s' : trail s ts → apply (Some s) e = Ok s' → trail s' (ts ++ [e]).
Proof.
  intros Ht He. destruct Ht as [|s cs tl Hcs Hend].
  - destruct e; simplify_eq/=. by apply (trail_queued []).
  - simpl. rewrite <- app_assoc.
    destruct Hend as [|n|n|n|n]; destruct e; simplify_eq/=.
    + by apply trail_enqueued, (ending_running 0).
    + by apply trail_enqueued, (ending_dead 0).
    + rewrite <- replicate_S_end. by apply trail_enqueued, (ending_running (S n)).
    + by apply trail_enqueued, (ending_succeeded n).
    + by apply trail_enqueued, (ending_failed n).
    + by apply trail_cycle_snoc, (cycle_retry n).
    + by apply trail_enqueued, (ending_dead (S n)).
    + rewrite <- app_assoc. by apply trail_cycle_snoc, (cycle_replay n).
Qed.

(** Replaying a list of event types from a state. *)
Fixpoint run (state : option JobState.t) (ts : list EventType.t) : result (option JobState.t) :=
  match ts with
  | [] => Ok state
  | e :: ts => result_bind (apply state e) (λ s, run (Some s) ts)
  end.

Lemma replay_from_run st l : replay_from st l = run st (type <$> l).
Proof.
  revert st. induction l as [|ev l IH]; intros st; simpl; [done|].
  destruct (apply st (type ev)); simpl; auto.
Qed.

Lemma run_app st l1 l2 : run st (l1 ++ l2) = result_bind (run st l1) (λ s, run s l2).
Proof.
  revert st. induction l1 as [|e l1 IH]; intros st; simpl; [done|].
  destruct (apply st e); simpl; auto.
Qed.

Lemma run_starts n : run (Some JobState.RUNNING) (replicate n EventType.STARTED) = Ok (Some JobState.RUNNING).
Proof. by induction n. Qed.

Lemma run_cycle c : cycle c → run (Some JobState.QUEUED) c = Ok (Some JobState.QUEUED).
Proof.
  intros [n|[|n]]; simpl; rewrite ?run_app, ?run_starts; done.
Qed.

Lemma run_cycles cs : Forall cycle cs → run (Some JobState.QUEUED) (concat cs) = Ok (Some JobState.QUEUED).
Proof.
  induction 1 as [|c cs Hc _ IH]; simpl; [done|]. by rewrite run_app, run_cycle.
Qed.

Lemma run_ending s tl : ending s tl → run (Some JobState.QUEUED) tl = Ok (Some s).
Proof.
  intros [|n|n|n|[|n]]; simpl; rewrite ?run_app, ?run_starts; done.
Qed.

Lemma replay_trail l s : replay l = Ok s ↔ trail s (type <$> l).
Proof.
  split.
  - revert s. induction l as [|ev l IH] using rev_ind; intros s H; [done|].
    rewrite fmap_app. simpl. apply replay_snoc_inv in H as [[-> Ha]|(s0 & Hr & Ha)].
    + destruct (type ev); simplify_eq/=. apply trail_submitted.
    + eapply trail_step; eauto.
  - intros Ht. apply replay_Ok. rewrite replay_from_run.
    destruct Ht as [|s cs tl Hcs Hend]; [done|]. simpl.
    rewrite run_app, run_cycles by done. simpl. by apply run_ending.
Qed.

(** ** Counting events *)

Definition count (e : EventType.t) (l : list JobEvent) : nat :=
  length (filter (λ ev, type ev = e) l).

Lemma count_app e l1 l2 : count e (l1 ++ l2) = count e l1 + count e l2.
Proof. unfold count. by rewrite filter_app, length_app. Qed.

Lemma count_one e ev : count e [ev] = if decide (type ev = e) then 1 else 0.
Proof. unfold count. rewrite filter_cons. by case_decide. Qed.

(** What the counts of a log that replays to [s] amount to. *)
Definition counts_ok (l : list JobEvent) (s : JobState.t) : Prop :=
  count EventType.SUBMITTED l = 1 ∧
  count EventType.ENQUEUED l = (if decide (s = JobState.SUBMITTED) then 0 else 1) ∧
  count EventType.COMPLETED l = (if decide (s = JobState.SUCCEEDED) then 1 else 0) ∧
  count EventType.FAILED l = (if decide (s = JobState.FAILED) then 1 else 0) ∧
  count EventType.DEAD_LETTERED l =
    count EventType.REPLAYED l + (if decide (s = JobState.DEAD_LETTER) then 1 else 0) ∧
  count EventType.REQUEUED l + count EventType.COMPLETED l + count EventType.FAILED l
    ≤ count EventType.STARTED l.

(** In state RUNNING at least one start is not yet accounted for. *)
Definition running_slack (l : list JobEvent) (s : JobState.t) : Prop :=
  s = JobState.RUNNING →
  count EventType.REQUEUED l + count EventType.COMPLETED l + count EventType.FAILED l
    < count EventType.STARTED l.

Lemma replay_counts l s : replay l = Ok s → counts_ok l s ∧ running_slack l s.
Proof.
  revert s. induction l as [|ev l IH] using rev_ind; intros s H; [done|].
  unfold counts_ok, running_slack. rewrite !count_app, !count_one.
  apply replay_snoc_inv in H as [[-> Ha]|(s0 & Hr & Ha)].
  - destruct (type ev); simplify_eq/=. split; [by repeat split|done].
  - destruct (IH _ Hr) as [(H1 & H2 & H3 & H4 & H5 & H6) H7]. unfold running_slack in H7.
    destruct s0, (type ev); simplify_eq/=; try specialize (H7 eq_refl);
      (split; [repeat split; simpl in *; lia|intros; done || lia]).
Qed.

(** From every state that is not terminal some sequence of events leads to success. *)
Definition recovery (s : JobState.t) : list EventType.t :=
  match s with
  | JobState.SUBMITTED => [EventType.ENQUEUED; EventType.STARTED; EventType.COMPLETED]
  | JobState.QUEUED => [EventType.STARTED; EventType.COMPLETED]
  | JobState.RUNNING => [EventType.COMPLETED]
  | JobState.DEAD_LETTER => [EventType.REPLAYED; EventType.STARTED; EventType.COMPLETED]
  | _ => []
  end.

(** * Properties *)

(** C18: the grammar of audit trails.  A log replays, and to state [s], exactly
    when its event types are SUBMITTED, ENQUEUED, any number of cycles that end
    in REQUEUED or in DEAD_LETTERED-REPLAYED, and one last episode that
    determines [s] (or SUBMITTED alone). *)
Theorem replay_grammar (l : list JobEvent) (s : JobState.t) :
  replay l = Ok s ↔ trail s (type <$> l).
Proof. apply replay_trail. Qed.

(** An event log that replays records no double completion: it has one
    SUBMITTED, at most one COMPLETED and at most one FAILED, exactly as many as
    its final state says, every quarantine but a current one was replayed, and
    every requeue or final outcome had a start of its own. *)
Theorem replay_no_double_completion (l : list JobEvent) (s : JobState.t) :
  replay l = Ok s → counts_ok l s.
Proof. intros H. by apply replay_counts. Qed.

Definition sample_log : list JobEvent :=
  (λ e, mkJobEvent e 0 (JObj []) 0) <$>
    [EventType.SUBMITTED; EventType.ENQUEUED; EventType.STARTED; EventType.STARTED;
     EventType.REQUEUED; EventType.DEAD_LETTERED; EventType.REPLAYED; EventType.STARTED;
     EventType.COMPLETED].

Lemma replay_no_double_completion_witness : counts_ok sample_log JobState.SUCCEEDED.
Proof. apply (replay_no_double_completion sample_log). reflexivity. Defined.

(** [legal_events] is exactly the domain of [apply], and outside it [apply]
    raises [IllegalTransition] carrying the state and the event: no third
    outcome exists. *)
Theorem apply_legal_events (st : option JobState.t) (e : EventType.t) :
  (e ∈ legal_events st ↔ ∃ s', apply st e = Ok s') ∧
  (e ∉ legal_events st ↔ apply st e = Raise (IllegalTransition st e)).
Proof.
  split; [apply legal_events_spec|]. rewrite legal_events_spec.
  destruct (apply_cases st e) as [[s' H]|H]; rewrite H; naive_solver.
Qed.

(** Terminal is forever.  A state is terminal exactly when it has no legal
    event, and once a log has replayed to a terminal state every longer log
    is rejected with [IllegalTransition] at the first event after it. *)
Theorem terminal_is_forever (l : list JobEvent) (s : JobState.t) :
  replay l = Ok s →
  (is_terminal s = true ↔ legal_events (Some s) = ∅) ∧
  (is_terminal s = true →
   ∀ ev l', replay (l ++ ev :: l') = Raise (IllegalTransition (Some s) (type ev))).
Proof.
  intros H. split.
  - apply legal_events_empty.
  - intros Ht ev l'. apply replay_Ok in H. unfold replay.
    rewrite replay_from_app, H. simpl. by rewrite apply_terminal.
Qed.

Lemma terminal_is_forever_witness :
  replay (sample_log ++ sample_log) =
  Raise (IllegalTransition (Some JobState.SUCCEEDED) EventType.SUBMITTED).
Proof.
  apply (terminal_is_forever sample_log JobState.SUCCEEDED eq_refl); reflexivity.
Defined.

(** No state but the two terminal ones is a trap: whatever log a job has, if
    it is not terminal the events [recovery s] take it to SUCCEEDED.  This is
    the property the RUNNING-to-RUNNING transition and the operator replay exist
    for. *)
Theorem no_wedged_state (l : list JobEvent) (s : JobState.t) :
  replay l = Ok s → is_terminal s = false →
  ∀ l', type <$> l' = recovery s → replay (l ++ l') = Ok JobState.SUCCEEDED.
Proof.
  intros H Hs l' Hl'. apply replay_Ok. apply replay_Ok in H.
  rewrite replay_from_app, H. cbn [result_bind]. rewrite replay_from_run, Hl'.
  by destruct s.
Qed.

Lemma no_wedged_state_witness :
  replay (take 4 sample_log ++ [mkJobEvent EventType.COMPLETED 2 (JObj []) 7]) = Ok JobState.SUCCEEDED.
Proof. apply (no_wedged_state _ JobState.RUNNING); reflexivity. Defined.
