(* ===== verification/KVStore.v ===== *)
(** * The key-value store ([src/orbiter/kv/store.py])

    [KeyValueStore] is the protocol the leases and the execution guard are
    written against.  Here it is a class of operations with its laws; the
    in-memory implementation, which deletes expired entries lazily, is an
    instance and refines a reference store that keeps every entry.  Operations take
    the clock reading they see as an argument. *)
From Stdlib Require Import Floats.SpecFloat.
From S2P Require Import Prelude PyFloat.

(** ** The test clock *)
Module FakeClock.
Record t := mk { now_ : float }.

Definition init (start : float) : t := mk start.
Definition now (c : t) : float := now_ c.
Definition advance (seconds : float) (c : t) : t := mk (now_ c + seconds)%float.
End FakeClock.

(** ** The protocol and its laws *)

Class KVStore (S : Type) := {
  kv_get : float → string → S → option string * S;
  kv_set_if_absent : float → string → string → float → S → bool * S;
  kv_incr : string → S → Z * S;
  kv_compare_and_delete : float → string → string → S → bool * S
}.

(** [kv_view t s k] is what a reader at time [t] finds under [k]; [kv_count s k]
    is the value of the counter [k]; [kv_lapsed S t ttl t'] tells whether an entry
    set at [t] for [ttl] seconds has lapsed at [t'], by the clock and the
    resolution of the store.  An operation at time [t] says what readers at [t]
    and later see. *)
Class KVView (S : Type) := {
  kv_view : float → S → string → option string;
  kv_count : S → string → Z;
  kv_lapsed : float → float → float → bool
}.
Arguments kv_lapsed S {_} _ _ _.

Class KVStoreLaws (S : Type) `{!KVStore S, !KVView S} := {
  kv_get_reply t k s : (kv_get t k s).1 = kv_view t s k;
  kv_get_view t k s t' k' :
    (t <=? t')%float = true → kv_view t' (kv_get t k s).2 k' = kv_view t' s k';
  kv_get_count t k s k' : kv_count (kv_get t k s).2 k' = kv_count s k';

  kv_set_reply t k v ttl s : (kv_set_if_absent t k v ttl s).1 = true ↔ kv_view t s k = None;
  kv_set_view t k v ttl s t' k' :
    (t <=? t')%float = true →
    kv_view t' (kv_set_if_absent t k v ttl s).2 k' =
      if decide (k' = k ∧ kv_view t s k = None)
      then (if kv_lapsed S t ttl t' then None else Some v)
      else kv_view t' s k';
  kv_set_count t k v ttl s k' : kv_count (kv_set_if_absent t k v ttl s).2 k' = kv_count s k';

  kv_incr_reply k s : (kv_incr k s).1 = (kv_count s k + 1)%Z;
  kv_incr_view k s t' k' : kv_view t' (kv_incr k s).2 k' = kv_view t' s k';
  kv_incr_count k s k' :
    kv_count (kv_incr k s).2 k' = if decide (k' = k) then (kv_count s k + 1)%Z else kv_count s k';

  kv_cad_reply t k v s : (kv_compare_and_delete t k v s).1 = true ↔ kv_view t s k = Some v;
  kv_cad_view t k v s t' k' :
    (t <=? t')%float = true →
    kv_view t' (kv_compare_and_delete t k v s).2 k' =
      if decide (k' = k ∧ kv_view t s k = Some v) then None else kv_view t' s k';
  kv_cad_count t k v s k' : kv_count (kv_compare_and_delete t k v s).2 k' = kv_count s k';

  kv_view_later t t' s k v :
    (t <=? t')%float = true → kv_view t' s k = Some v → kv_view t s k = Some v;
  kv_lapsed_later t ttl t1 t2 :
    (t1 <=? t2)%float = true → kv_lapsed S t ttl t1 = true → kv_lapsed S t ttl t2 = true
}.

(** Deadlines as the Python code computes them: the reading plus the TTL. *)
Definition in_seconds (t ttl t' : float) : bool := (t + ttl <=? t')%float.

(** ** [InMemoryKV] *)
Module InMemoryKV.

Record Entry := mkEntry { value : string; expires_at : option float }.

Record t := mk { data : gmap string Entry; counters : gmap string Z }.

Definition init : t := mk ∅ ∅.

(** [entry.expires_at is not None and now >= entry.expires_at] *)
Definition expired (now : float) (entry : Entry) : bool :=
  match expires_at entry with
  | None => false
  | Some e => (e <=? now)%float
  end.

(** [_live]: look the key up, deleting an entry found expired. *)
Definition live (now : float) (key : string) (self : t) : option Entry * t :=
  match data self !! key with
  | None => (None, self)
  | Some entry =>
      if expired now entry then (None, mk (delete key (data self)) (counters self))
      else (Some entry, self)
  end.

Definition get (now : float) (key : string) (self : t) : option string * t :=
  let '(entry, self) := live now key self in
  (match entry with Some e => Some (value e) | None => None end, self).

(** [now] is the reading of [_live], [now'] the one that dates the new entry. *)
Definition set_if_absent (now now' : float) (key v : string) (ttl_s : float) (self : t) : bool * t :=
  let '(entry, self) := live now key self in
  match entry with
  | Some _ => (false, self)
  | None =>
      (true, mk (<[key := mkEntry v (Some (now' + ttl_s)%float)]> (data self)) (counters self))
  end.

Definition incr (key : string) (self : t) : Z * t :=
  let n := (default 0 (counters self !! key) + 1)%Z in
  (n, mk (data self) (<[key := n]> (counters self))).

Definition compare_and_delete (now : float) (key expected : string) (self : t) : bool * t :=
  let '(entry, self) := live now key self in
  match entry with
  | None => (false, self)
  | Some e =>
      if decide (value e = expected) then (true, mk (delete key (data self)) (counters self))
      else (false, self)
  end.

(** What a reader at time [now] finds. *)
Definition view (now : float) (self : t) (key : string) : option string :=
  match data self !! key with
  | None => None
  | Some entry => if expired now entry then None else Some (value entry)
  end.

Definition counter (self : t) (key : string) : Z := default 0%Z (counters self !! key).

Lemma expired_later now now' e :
  (now <=? now')%float = true → expired now e = true → expired now' e = true.
Proof. unfold expired. destruct (expires_at e); eauto with orbiter. Qed.

Lemma view_later t t' s k v : (t <=? t')%float = true → view t' s k = Some v → view t s k = Some v.
Proof.
  unfold view. intros Ht. destruct (data s !! k) as [e|]; [|done].
  destruct (expired t e) eqn:E; [|by destruct (expired t' e)].
  by rewrite (expired_later t t' e).
Qed.

Lemma live_view now k s : value <$> (live now k s).1 = view now s k.
Proof. unfold live, view. destruct (data s !! k) as [e|]; [|done]. by destruct (expired now e). Qed.

Lemma live_counters now k s : counters (live now k s).2 = counters s.
Proof. unfold live. destruct (data s !! k) as [e|]; [|done]. by destruct (expired now e). Qed.

(** Lazy deletion is invisible at the present and later. *)
Lemma live_view_after now k s t' k' :
  (now <=? t')%float = true → view t' (live now k s).2 k' = view t' s k'.
Proof.
  intros Ht. unfold live. destruct (data s !! k) as [e|] eqn:Hk; [|done].
  destruct (expired now e) eqn:E; [|done]. unfold view. simpl.
  rewrite lookup_delete. case_decide; [subst|done].
  rewrite Hk. by rewrite (expired_later _ _ _ Ht E).
Qed.

Lemma view_insert now s k e k' :
  view now (mk (<[k := e]> (data s)) (counters s)) k' =
  if decide (k' = k) then (if expired now e then None else Some (value e)) else view now s k'.
Proof. unfold view. simpl. rewrite lookup_insert. repeat case_decide; congruence. Qed.

Lemma view_delete now s k k' :
  view now (mk (delete k (data s)) (counters s)) k' =
  if decide (k' = k) then None else view now s k'.
Proof. unfold view. simpl. rewrite lookup_delete. repeat case_decide; congruence. Qed.

#[global] Instance store : KVStore t := {
  kv_get := get;
  kv_set_if_absent now := set_if_absent now now;
  kv_incr := incr;
  kv_compare_and_delete := compare_and_delete
}.

Lemma get_spec now k s :
  (get now k s).1 = view now s k ∧ (get now k s).2 = (live now k s).2.
Proof.
  unfold get. rewrite <- live_view. by destruct (live now k s) as [[e|] s'].
Qed.

Lemma set_spec now now' k v ttl s :
  set_if_absent now now' k v ttl s =
    let s' := (live now k s).2 in
    match view now s k with
    | Some _ => (false, s')
    | None => (true, mk (<[k := mkEntry v (Some (now' + ttl)%float)]> (data s')) (counters s'))
    end.
Proof. unfold set_if_absent. rewrite <- live_view. by destruct (live now k s) as [[e|] s']. Qed.

Lemma cad_spec now k v s :
  compare_and_delete now k v s =
    let s' := (live now k s).2 in
    if decide (view now s k = Some v) then (true, mk (delete k (data s')) (counters s'))
    else (false, s').
Proof.
  unfold compare_and_delete. rewrite <- live_view. destruct (live now k s) as [[e|] s']; simpl.
  - repeat case_decide; naive_solver.
  - done.
Qed.

#[global] Instance store_view : KVView t := { kv_view := view; kv_count := counter; kv_lapsed := in_seconds }.

#[global] Instance laws : KVStoreLaws t.
Proof.
  split; simpl; intros.
  - apply get_spec.
  - rewrite (proj2 (get_spec t0 k s)). by apply live_view_after.
  - rewrite (proj2 (get_spec t0 k s)). unfold counter. by rewrite live_counters.
  - rewrite set_spec. destruct (view t0 s k); simpl; naive_solver.
  - rewrite set_spec. destruct (view t0 s k) eqn:E; simpl.
    + rewrite live_view_after by done. case_decide; naive_solver.
    + rewrite view_insert, live_view_after by done. unfold expired; simpl.
      repeat case_decide; naive_solver.
  - rewrite set_spec. unfold counter. destruct (view t0 s k); simpl; by rewrite live_counters.
  - done.
  - done.
  - unfold counter, incr. simpl. rewrite lookup_insert. repeat case_decide; naive_solver.
  - rewrite cad_spec. simpl. case_decide; naive_solver.
  - rewrite cad_spec. simpl. destruct (decide (view t0 s k = Some v)) as [E|E]; simpl.
    + rewrite view_delete, live_view_after by done. repeat case_decide; naive_solver.
    + rewrite live_view_after by done. case_decide; naive_solver.
  - rewrite cad_spec. unfold counter. simpl. case_decide; simpl; by rewrite live_counters.
  - by eapply view_later.
  - unfold in_seconds in *. eauto with orbiter.
Qed.

End InMemoryKV.

(** ** The reference store: nothing is ever deleted because it expired

    Entries remember when and for how long they were set; [lapsed] decides
    whether a reader still finds them. *)
Module SpecKV.
Record t (lapsed : float → float → float → bool) :=
  mk { data : gmap string (string * (float * float)); counters : gmap string Z }.
Arguments mk {lapsed} _ _.
Arguments data {lapsed} _.
Arguments counters {lapsed} _.

Section ops.
Context {lapsed : float → float → float → bool}.

Definition init : t lapsed := mk ∅ ∅.

Definition lookup (now : float) (key : string) (s : t lapsed) : option string :=
  match data s !! key with
  | Some (v, (set, ttl)) => if lapsed set ttl now then None else Some v
  | None => None
  end.

Definition set_if_absent (now : float) (key v : string) (ttl : float) (s : t lapsed) : bool * t lapsed :=
  match lookup now key s with
  | Some _ => (false, s)
  | None => (true, mk (<[key := (v, (now, ttl))]> (data s)) (counters s))
  end.

Definition incr (key : string) (s : t lapsed) : Z * t lapsed :=
  let n := (default 0 (counters s !! key) + 1)%Z in (n, mk (data s) (<[key := n]> (counters s))).

Definition compare_and_delete (now : float) (key expected : string) (s : t lapsed) : bool * t lapsed :=
  if decide (lookup now key s = Some expected) then (true, mk (delete key (data s)) (counters s))
  else (false, s).
End ops.
End SpecKV.

(** ** Refinement *)

(** One call on a store, and its reply. *)
Inductive kv_call :=
  | CGet (key : string)
  | CSet (key value : string) (ttl_s : float)
  | CIncr (key : string)
  | CCad (key expected : string).

#[global] Instance kv_call_eq_dec : EqDecision kv_call.
Proof. solve_decision. Defined.

Lemma CCad_key_ne k k' v v' : k ≠ k' → CCad k v ≠ CCad k' v'.
Proof. congruence. Qed.

Inductive kv_reply :=
  | RGet (v : option string)
  | RBool (b : bool)
  | RInt (n : Z).

Definition kv_do {S} `{!KVStore S} (now : float) (c : kv_call) (s : S) : kv_reply * S :=
  match c with
  | CGet k => let '(r, s) := kv_get now k s in (RGet r, s)
  | CSet k v ttl => let '(r, s) := kv_set_if_absent now k v ttl s in (RBool r, s)
  | CIncr k => let '(r, s) := kv_incr k s in (RInt r, s)
  | CCad k v => let '(r, s) := kv_compare_and_delete now k v s in (RBool r, s)
  end.

Fixpoint kv_trace {S} `{!KVStore S} (calls : list (float * kv_call)) (s : S) : list kv_reply :=
  match calls with
  | [] => []
  | (now, c) :: calls => let '(r, s) := kv_do now c s in r :: kv_trace calls s
  end.

(** The clock never goes back. *)
Fixpoint monotonic (from : float) (calls : list (float * kv_call)) : bool :=
  match calls with
  | [] => true
  | (now, _) :: calls => (from <=? now)%float && monotonic now calls
  end.

Section spec.
Context {lapsed : float → float → float → bool}.

#[global] Instance spec_store : KVStore (SpecKV.t lapsed) := {
  kv_get now k s := (SpecKV.lookup now k s, s);
  kv_set_if_absent := SpecKV.set_if_absent;
  kv_incr := SpecKV.incr;
  kv_compare_and_delete := SpecKV.compare_and_delete
}.

#[global] Instance spec_view : KVView (SpecKV.t lapsed) := {
  kv_view now s k := SpecKV.lookup now k s;
  kv_count s k := default 0%Z (SpecKV.counters s !! k);
  kv_lapsed := lapsed
}.

(** Once lapsed, always lapsed. *)
Class Lapse : Prop :=
  lapse_later t ttl t1 t2 : (t1 <=? t2)%float = true → lapsed t ttl t1 = true → lapsed t ttl t2 = true.

#[global] Instance spec_laws `{!Lapse} : KVStoreLaws (SpecKV.t lapsed).
Proof.
  split; simpl; intros; try done.
  - unfold SpecKV.set_if_absent. destruct (SpecKV.lookup t k s); simpl; naive_solver.
  - unfold SpecKV.set_if_absent. destruct (SpecKV.lookup t k s) eqn:E; simpl.
    + case_decide; naive_solver.
    + unfold SpecKV.lookup at 1. simpl. rewrite lookup_insert.
      repeat case_decide; naive_solver.
  - unfold SpecKV.set_if_absent. by destruct (SpecKV.lookup t k s).
  - rewrite lookup_insert. repeat case_decide; naive_solver.
  - unfold SpecKV.compare_and_delete. case_decide; naive_solver.
  - unfold SpecKV.compare_and_delete. destruct (decide (SpecKV.lookup t k s = Some v)); simpl.
    + unfold SpecKV.lookup at 1. simpl. rewrite lookup_delete. repeat case_decide; naive_solver.
    + case_decide; naive_solver.
  - unfold SpecKV.compare_and_delete. by case_decide.
  - rename select (_ <=? _ = true)%float into Ht. rename select (SpecKV.lookup _ _ _ = _) into Hl. revert Hl.
    unfold SpecKV.lookup. destruct (SpecKV.data s !! k) as [[v' [t0 ttl]]|]; [|done].
    destruct (lapsed t0 ttl t) eqn:E; [|by destruct (lapsed t0 ttl t')].
    by rewrite (lapse_later t0 ttl _ _ Ht E).
  - by eapply lapse_later.
Qed.
End spec.
Arguments Lapse lapsed : clear implicits.

#[global] Instance in_seconds_lapse : Lapse in_seconds.
Proof. intros t ttl t1 t2. unfold in_seconds. eauto with orbiter. Qed.

Section agreement.
Context {S1 S2 : Type} `{!KVStore S1, !KVView S1, !KVStoreLaws S1, !KVStore S2, !KVView S2, !KVStoreLaws S2}.
Context (same_lapse : ∀ t ttl t', kv_lapsed S1 t ttl t' = kv_lapsed S2 t ttl t').

(** Two stores agree from time [t] on: same readings, same counters. *)
Definition agree (t : float) (s1 : S1) (s2 : S2) : Prop :=
  (∀ t' k, (t <=? t')%float = true → kv_view t' s1 k = kv_view t' s2 k) ∧
  (∀ k, kv_count s1 k = kv_count s2 k).

Lemma bool_reply (b1 b2 : bool) (P : Prop) : (b1 = true ↔ P) → (b2 = true ↔ P) → b1 = b2.
Proof. destruct b1, b2; naive_solver. Qed.

(** A call at a later time gets the same reply from both and keeps them in agreement. *)
Lemma agree_step t now c s1 s2 :
  agree t s1 s2 → (t <=? now)%float = true →
  (kv_do now c s1).1 = (kv_do now c s2).1 ∧ agree now (kv_do now c s1).2 (kv_do now c s2).2.
Proof.
  intros [Hv Hc] Ht. pose proof (λ k, Hv now k Ht) as Hn.
  assert (Hv' : ∀ t' k, (now <=? t')%float = true → kv_view t' s1 k = kv_view t' s2 k) by eauto with orbiter.
  destruct c as [k|k v ttl|k|k v]; simpl.
  - pose proof (kv_get_reply now k s1); pose proof (kv_get_reply now k s2).
    pose proof (kv_get_view now k s1); pose proof (kv_get_view now k s2).
    pose proof (kv_get_count now k s1); pose proof (kv_get_count now k s2).
    destruct (kv_get now k s1), (kv_get now k s2); simpl in *.
    split; [congruence|]. split; intros; [rewrite H1, H2 by done; by apply Hv'|by rewrite H3, H4].
  - pose proof (kv_set_reply now k v ttl s1) as R1; pose proof (kv_set_reply now k v ttl s2) as R2.
    pose proof (kv_set_view now k v ttl s1); pose proof (kv_set_view now k v ttl s2).
    pose proof (kv_set_count now k v ttl s1); pose proof (kv_set_count now k v ttl s2).
    destruct (kv_set_if_absent now k v ttl s1), (kv_set_if_absent now k v ttl s2); simpl in *.
    rewrite Hn in R1. split; [by rewrite (bool_reply _ _ _ R1 R2)|].
    split; intros; [|congruence]. rewrite H, H0, Hn, same_lapse by done. repeat case_decide; done || by apply Hv'.
  - pose proof (kv_incr_reply k s1); pose proof (kv_incr_reply k s2).
    pose proof (kv_incr_view k s1); pose proof (kv_incr_view k s2).
    pose proof (kv_incr_count k s1); pose proof (kv_incr_count k s2).
    destruct (kv_incr k s1), (kv_incr k s2); simpl in *.
    split; [by rewrite H, H0, Hc|]. split; intros; [rewrite H1, H2; by apply Hv'|].
    rewrite H3, H4. case_decide; congruence.
  - pose proof (kv_cad_reply now k v s1) as R1; pose proof (kv_cad_reply now k v s2) as R2.
    pose proof (kv_cad_view now k v s1); pose proof (kv_cad_view now k v s2).
    pose proof (kv_cad_count now k v s1); pose proof (kv_cad_count now k v s2).
    destruct (kv_compare_and_delete now k v s1), (kv_compare_and_delete now k v s2); simpl in *.
    rewrite Hn in R1. split; [by rewrite (bool_reply _ _ _ R1 R2)|].
    split; intros; [|congruence]. rewrite H, H0, Hn by done. repeat case_decide; done || by apply Hv'.
Qed.

Lemma agree_trace calls t s1 s2 :
  agree t s1 s2 → monotonic t calls = true → kv_trace calls s1 = kv_trace calls s2.
Proof.
  revert t s1 s2. induction calls as [|[now c] calls IH]; intros t s1 s2 Ha Hm; [done|].
  simpl in Hm. apply andb_true_iff in Hm as [Ht Hm].
  destruct (agree_step t now c s1 s2 Ha Ht) as [Hr Ha'].
  simpl. destruct (kv_do now c s1) as [r1 s1'], (kv_do now c s2) as [r2 s2']; simpl in *.
  rewrite Hr. f_equal. by eapply IH.
Qed.
End agreement.

(** ** Exclusion and counters over arbitrary histories

    What one client may rely on whatever calls other clients make, in any order. *)
Section histories.
Context {S : Type} `{!KVStore S, !KVView S, !KVStoreLaws S}.

(** The state after a history of timed calls. *)
Fixpoint kv_after (calls : list (float * kv_call)) (s : S) : S :=
  match calls with
  | [] => s
  | (now, c) :: calls => kv_after calls (kv_do now c s).2
  end.

(** The time of the last call. *)
Fixpoint last_time (from : float) (calls : list (float * kv_call)) : float :=
  match calls with
  | [] => from
  | (now, _) :: calls => last_time now calls
  end.

(** How one call changes what later readers find under a key. *)
Lemma kv_do_view now c s t' k :
  (now <=? t')%float = true →
  kv_view t' (kv_do now c s).2 k =
    match c with
    | CSet k0 v ttl =>
        if decide (k = k0 ∧ kv_view now s k0 = None)
        then (if kv_lapsed S now ttl t' then None else Some v) else kv_view t' s k
    | CCad k0 v => if decide (k = k0 ∧ kv_view now s k0 = Some v) then None else kv_view t' s k
    | _ => kv_view t' s k
    end.
Proof.
  intros Ht. destruct c as [k0|k0 v ttl|k0|k0 v]; simpl.
  - pose proof (kv_get_view now k0 s t' k Ht) as E. by destruct (kv_get now k0 s).
  - pose proof (kv_set_view now k0 v ttl s t' k Ht) as E. by destruct (kv_set_if_absent now k0 v ttl s).
  - pose proof (kv_incr_view k0 s t' k) as E. by destruct (kv_incr k0 s).
  - pose proof (kv_cad_view now k0 v s t' k Ht) as E. by destruct (kv_compare_and_delete now k0 v s).
Qed.

Lemma kv_do_count now c s k :
  kv_count (kv_do now c s).2 k =
    match c with
    | CIncr k0 => if decide (k = k0) then (kv_count s k0 + 1)%Z else kv_count s k
    | _ => kv_count s k
    end.
Proof.
  destruct c as [k0|k0 v ttl|k0|k0 v]; simpl.
  - pose proof (kv_get_count now k0 s k) as E. by destruct (kv_get now k0 s).
  - pose proof (kv_set_count now k0 v ttl s k) as E. by destruct (kv_set_if_absent now k0 v ttl s).
  - pose proof (kv_incr_count k0 s k) as E. by destruct (kv_incr k0 s).
  - pose proof (kv_cad_count now k0 v s k) as E. by destruct (kv_compare_and_delete now k0 v s).
Qed.

Lemma kv_do_count_le now c s k : (kv_count s k ≤ kv_count (kv_do now c s).2 k)%Z.
Proof. rewrite kv_do_count. destruct c; try lia. case_decide; subst; lia. Qed.

Lemma kv_after_count_le calls s k : (kv_count s k ≤ kv_count (kv_after calls s) k)%Z.
Proof.
  revert s. induction calls as [|[now c] calls IH]; intros s; simpl; [lia|].
  etrans; [apply (kv_do_count_le now c)|apply IH].
Qed.

(** The entry [v] under [k] survives until it has lapsed, which [gone] tells: a
    reader at any time from [t] on and before that finds [v]. *)
Definition held_until (t : float) (gone : float → bool) (k v : string) (s : S) : Prop :=
  ∀ t', (t <=? t')%float = true → gone t' = false → kv_view t' s k = Some v.

Lemma held_until_set t k v ttl s :
  kv_view t s k = None → held_until t (kv_lapsed S t ttl) k v (kv_set_if_absent t k v ttl s).2.
Proof.
  intros Hn t' Ht He. rewrite kv_set_view by done. rewrite decide_True by done. by rewrite He.
Qed.

Lemma held_until_step t gone k v now c s :
  held_until t gone k v s → (t <=? now)%float = true → c ≠ CCad k v →
  held_until now gone k v (kv_do now c s).2.
Proof.
  intros Hh Ht Hc t' Ht' He. rewrite kv_do_view by done.
  assert (Hv : kv_view t' s k = Some v) by (apply Hh; eauto with orbiter).
  pose proof (kv_view_later now t' s k v Ht' Hv) as Hnow.
  destruct c as [k0|k0 v0 ttl|k0|k0 v0]; try done.
  - rewrite decide_False; [done|]. intros [<- ?]. congruence.
  - rewrite decide_False; [done|]. intros [<- ?]. naive_solver.
Qed.

(** Exclusion: an entry that was set stays, for whoever calls whatever, until it
    expires or somebody deletes exactly that value. *)
Lemma held_until_after calls t gone k v s :
  held_until t gone k v s → monotonic t calls = true →
  Forall (λ c, c.2 ≠ CCad k v) calls →
  held_until (last_time t calls) gone k v (kv_after calls s).
Proof.
  revert t s. induction calls as [|[now c] calls IH]; intros t s Hh Hm Hc; [done|].
  simpl in *. apply andb_true_iff in Hm as [Ht Hm]. apply Forall_cons in Hc as [Hc Hcs].
  apply IH; [|done|done]. by eapply held_until_step.
Qed.

Lemma last_time_start calls t t' : monotonic t calls = true →
  (last_time t calls <=? t')%float = true → (t <=? t)%float = true.
Proof.
  destruct calls as [|[now c] calls]; simpl; [intros _; apply fleb_self_l|].
  intros [Hn _]%andb_true_iff _. by eapply fleb_self_l.
Qed.
End histories.

(** * Properties *)

(** C8: lazy expiry is unobservable.  Whatever calls arrive, at times that never
    go back, the in-memory store, which deletes an expired entry when it meets
    one, answers exactly as the reference store that keeps every entry and only
    compares its deadline with the clock (IEEE comparison and addition). *)
Theorem inmemory_refines_reference (start : float) (calls : list (float * kv_call)) :
  monotonic start calls = true →
  kv_trace calls InMemoryKV.init = kv_trace calls (SpecKV.init (lapsed := in_seconds)).
Proof. apply agree_trace; [done|]. split; intros; reflexivity. Qed.

Definition sample_calls : list (float * kv_call) :=
  [(fZ 0, CSet "k" "a" (fZ 10)); (fZ 3, CSet "k" "b" (fZ 10)); (fZ 3, CIncr "n");
   (fZ 9, CGet "k"); (fZ 10, CGet "k"); (fZ 10, CSet "k" "c" (fZ 5)); (fZ 11, CCad "k" "a");
   (fZ 12, CCad "k" "c"); (fZ 12, CGet "k")].

Lemma inmemory_refines_reference_witness :
  kv_trace sample_calls InMemoryKV.init = kv_trace sample_calls (SpecKV.init (lapsed := in_seconds)) ∧
  kv_trace sample_calls (SpecKV.init (lapsed := in_seconds)) =
    [RBool true; RBool false; RInt 1; RGet (Some "a"); RGet None; RBool true; RBool false;
     RBool true; RGet None].
Proof.
  split; [apply (inmemory_refines_reference (fZ 0)); reflexivity|vm_compute; reflexivity].
Defined.
