(* ===== verification/PyUuid.v ===== *)
(** * UUIDs

    A job id is a [uuid.UUID], a 128-bit integer.  The sources print it with
    [str(u)] (store keys, message bodies, responses) and read it back with
    [uuid.UUID(s)], whose rules are those of the Python class: ["urn:"],
    ["uuid:"], surrounding braces and all hyphens are dropped, 32 characters
    must remain, and [int(_, 16)] must accept them.  Text is ASCII. *)
From S2P Require Import Prelude PyFloat PyJson Model.

Abbreviation uuid := N.

(** ** Printing *)

Definition hex_char (d : N) : ascii :=
  if (d <? 10)%N then ascii_of_N (48 + d) else ascii_of_N (87 + d).

(** The last [k] hexadecimal digits of [n], in front of [acc]. *)
Fixpoint hex_go (k : nat) (n : N) (acc : list ascii) : list ascii :=
  match k with
  | 0 => acc
  | S k => hex_go k (n / 16)%N (hex_char (n `mod` 16)%N :: acc)
  end.

Definition hex (k : nat) (n : N) : list ascii := hex_go k n [].

(** [str(u)]: 8-4-4-4-12 hexadecimal digits. *)
Definition uuid_chars (u : uuid) : list ascii :=
  let h := hex 32 u in
  take 8 h ++ "-"%char :: take 4 (drop 8 h) ++ "-"%char :: take 4 (drop 12 h) ++
  "-"%char :: take 4 (drop 16 h) ++ "-"%char :: drop 20 h.

Definition uuid_str (u : uuid) : string := String.string_of_list_ascii (uuid_chars u).

(** ** Reading *)

(** [s.replace(pat, "")]: leftmost occurrences, not overlapping. *)
Fixpoint remove_all (fuel : nat) (pat l : list ascii) : list ascii :=
  match fuel, l with
  | S fuel, c :: l' =>
      if decide (pat `prefix_of` l) then remove_all fuel pat (drop (length pat) l)
      else c :: remove_all fuel pat l'
  | _, _ => l
  end.

Fixpoint lstrip (P : ascii → bool) (l : list ascii) : list ascii :=
  match l with
  | [] => []
  | c :: l' => if P c then lstrip P l' else l
  end.

(** [s.strip(...)] *)
Definition strip (P : ascii → bool) (l : list ascii) : list ascii :=
  reverse (lstrip P (reverse (lstrip P l))).

Definition is_brace (c : ascii) : bool := bool_decide (c = "{"%char ∨ c = "}"%char).

Definition is_space (c : ascii) : bool :=
  let n := N_of_ascii c in ((9 <=? n) && (n <=? 13) || (28 <=? n) && (n <=? 32))%N.

Definition hex_value (c : ascii) : option N :=
  let n := N_of_ascii c in
  if ((48 <=? n) && (n <=? 57))%N then Some (n - 48)%N
  else if ((97 <=? n) && (n <=? 102))%N then Some (n - 87)%N
  else if ((65 <=? n) && (n <=? 70))%N then Some (n - 55)%N
  else None.

(** The digits of [int(_, 16)]: one underscore may stand between two digits;
    [after] says that the previous character was a digit. *)
Fixpoint hex_digits (after : bool) (acc : N) (l : list ascii) : option N :=
  match l with
  | [] => if after then Some acc else None
  | c :: l =>
      if decide (c = "_"%char) then (if after then hex_digits false acc l else None)
      else match hex_value c with
           | Some d => hex_digits true (16 * acc + d)%N l
           | None => None
           end
  end.

(** The optional base prefix, which an underscore may follow. *)
Definition hex_prefix (l : list ascii) : option N :=
  match l with
  | "0"%char :: x :: l' =>
      if decide (x = "x"%char ∨ x = "X"%char) then
        match l' with
        | "_"%char :: l'' => hex_digits false 0 l''
        | _ => hex_digits false 0 l'
        end
      else hex_digits false 0 l
  | _ => hex_digits false 0 l
  end.

(** [int(s, 16)]: white space around, an optional sign, an optional prefix. *)
Definition int16 (l : list ascii) : option Z :=
  match strip is_space l with
  | "+"%char :: l => Z.of_N <$> hex_prefix l
  | "-"%char :: l => Z.opp ∘ Z.of_N <$> hex_prefix l
  | l => Z.of_N <$> hex_prefix l
  end.

(** [uuid.UUID(s)] *)
Definition UUID (s : string) : result uuid :=
  let l := chars s in
  let l := remove_all (length l) (chars "urn:") l in
  let l := remove_all (length l) (chars "uuid:") l in
  let l := filter (λ c, c ≠ "-"%char) (strip is_brace l) in
  if decide (length l = 32) then
    match int16 l with
    | None => Raise (ValueError "invalid literal for int() with base 16")
    | Some z =>
        if (z <? 0)%Z then Raise (ValueError "int is out of range (need a 128-bit value)")
        else Ok (Z.to_N z)
    end
  else Raise (ValueError "badly formed hexadecimal UUID string").

Lemma UUID_error s x : UUID s = Raise x → ∃ m, x = ValueError m.
Proof.
  unfold UUID. case_decide; [|intros [= <-]; eauto].
  destruct (int16 _) as [z|]; [|intros [= <-]; eauto]. destruct (z <? 0)%Z; [intros [= <-]; eauto|done].
Qed.

(** ** Reading back what was printed *)

Lemma hex_char_spec d : (d < 16)%N →
  hex_value (hex_char d) = Some d ∧ hex_char d ≠ "_"%char ∧ hex_char d ≠ "-"%char ∧
  hex_char d ≠ ":"%char ∧ is_brace (hex_char d) = false ∧ is_space (hex_char d) = false ∧
  hex_char d ≠ "+"%char ∧ hex_char d ≠ "x"%char ∧ hex_char d ≠ "X"%char.
Proof.
  intros Hd.
  assert (Hall : Forall (λ d : N, hex_value (hex_char d) = Some d ∧ hex_char d ≠ "_"%char ∧
    hex_char d ≠ "-"%char ∧ hex_char d ≠ ":"%char ∧ is_brace (hex_char d) = false ∧
    is_space (hex_char d) = false ∧ hex_char d ≠ "+"%char ∧ hex_char d ≠ "x"%char ∧
    hex_char d ≠ "X"%char) (N.of_nat <$> seq 0 16)).
  { apply (bool_decide_unpack _). vm_compute. exact I. }
  rewrite Forall_forall in Hall. apply Hall. apply list_elem_of_fmap.
  exists (N.to_nat d). split; [lia|]. apply elem_of_seq. lia.
Qed.

(** A hexadecimal digit as [hex_char] prints it. *)
Definition is_hex (c : ascii) : Prop := ∃ d, (d < 16)%N ∧ c = hex_char d.

Lemma hex_go_is_hex k n acc : Forall is_hex acc → Forall is_hex (hex_go k n acc).
Proof.
  revert n acc. induction k as [|k IH]; intros n acc H; simpl; [done|].
  apply IH. constructor; [|done]. exists (n `mod` 16)%N. split; [apply N.mod_lt; lia|done].
Qed.

Lemma hex_go_length k n acc : length (hex_go k n acc) = k + length acc.
Proof. revert n acc. induction k as [|k IH]; intros n acc; simpl; [done|]. rewrite IH. simpl. lia. Qed.

Lemma hex_digits_go k n acc a b :
  (n < 16 ^ N.of_nat k)%N → (0 < k ∨ b = true) →
  hex_digits b a (hex_go k n acc) = hex_digits true (a * 16 ^ N.of_nat k + n)%N acc.
Proof.
  revert n acc a b. induction k as [|k IH]; intros n acc a b Hn Hb; cbn [hex_go].
  - simpl in Hn. destruct Hb as [?| ->]; [lia|]. f_equal. simpl. lia.
  - rewrite Nat2N.inj_succ, N.pow_succ_r' in Hn |- *.
    assert (Hq : (n / 16 < 16 ^ N.of_nat k)%N) by (apply N.Div0.div_lt_upper_bound; lia).
    assert (Hm : (n `mod` 16 < 16)%N) by (apply N.mod_lt; lia).
    pose proof (N.Div0.div_mod n 16) as Hdm.
    destruct (hex_char_spec _ Hm) as (Hv & Hu & _).
    destruct k as [|k].
    + simpl in Hq. cbn [hex_go hex_digits]. rewrite decide_False by done. rewrite Hv.
      f_equal. change (N.of_nat 0) with 0%N. rewrite N.pow_0_r. lia.
    + rewrite IH by (done || left; lia). cbn [hex_digits].
      rewrite decide_False by done. rewrite Hv. f_equal. lia.
Qed.

Lemma remove_all_id fuel pat l :
  (∃ c, c ∈ pat ∧ c ∉ l) → remove_all fuel pat l = l.
Proof.
  intros (c & Hc & Hl). revert l Hl. induction fuel as [|fuel IH]; intros [|a l] Hl; simpl; try done.
  rewrite decide_False.
  - f_equal. apply IH. set_solver.
  - intros [k Hk]. apply Hl. rewrite Hk. set_solver.
Qed.

Lemma strip_id P l : Forall (λ c, P c = false) l → strip P l = l.
Proof.
  intros H. assert (Hs : ∀ l, Forall (λ c, P c = false) l → lstrip P l = l).
  { intros [|c l'] Hl; [done|]. simpl. apply Forall_cons in Hl as [-> _]. done. }
  unfold strip. rewrite (Hs l) by done. rewrite Hs by (by apply Forall_reverse).
  apply reverse_involutive.
Qed.

(** The characters of a printed UUID: hexadecimal digits and hyphens. *)
Lemma uuid_chars_digits u : Forall (λ c, is_hex c ∨ c = "-"%char) (uuid_chars u).
Proof.
  assert (H : Forall is_hex (hex 32 u)) by (by apply hex_go_is_hex).
  assert (Hw : ∀ l, Forall is_hex l → Forall (λ c, is_hex c ∨ c = "-"%char) l).
  { intros l Hl. eapply Forall_impl; [exact Hl|]. eauto. }
  unfold uuid_chars. repeat (rewrite Forall_app || rewrite Forall_cons).
  repeat split; auto; apply Hw; auto using Forall_take, Forall_drop.
Qed.

Lemma uuid_chars_not c u : ¬ is_hex c → c ≠ "-"%char → c ∉ uuid_chars u.
Proof.
  intros H1 H2 Hin. pose proof (uuid_chars_digits u) as H. rewrite Forall_forall in H.
  destruct (H c Hin); done.
Qed.

Lemma filter_hex l : Forall is_hex l → filter (λ c, c ≠ "-"%char) l = l.
Proof.
  intros H. induction H as [|c l [d [Hd ->]] _ IH]; [done|].
  rewrite filter_cons_True; [by rewrite IH|]. by apply hex_char_spec.
Qed.

Lemma filter_uuid_chars u : filter (λ c, c ≠ "-"%char) (uuid_chars u) = hex 32 u.
Proof.
  assert (H : Forall is_hex (hex 32 u)) by (by apply hex_go_is_hex).
  assert (Hl : length (hex 32 u) = 32) by apply hex_go_length.
  unfold uuid_chars. generalize dependent (hex 32 u). intros h H Hl.
  repeat (rewrite filter_app || rewrite filter_cons_False by naive_solver).
  rewrite !filter_hex by auto using Forall_take, Forall_drop.
  do 32 (destruct h as [|? h]; [done|]). by destruct h.
Qed.

Lemma strip_uuid_chars u : strip is_brace (uuid_chars u) = uuid_chars u.
Proof.
  apply strip_id. eapply Forall_impl; [apply uuid_chars_digits|].
  intros c [[d [Hd ->]]| ->]; [by apply hex_char_spec|done].
Qed.

Lemma int16_hex u : (u < 2 ^ 128)%N → int16 (hex 32 u) = Some (Z.of_N u).
Proof.
  intros Hu. assert (H : Forall is_hex (hex 32 u)) by (by apply hex_go_is_hex).
  assert (Hd : hex_digits false 0 (hex 32 u) = Some u).
  { unfold hex. rewrite hex_digits_go; [|done|left; lia]. cbn [hex_digits]. by rewrite N.mul_0_l. }
  assert (Hl : length (hex 32 u) = 32) by apply hex_go_length.
  unfold int16. rewrite strip_id.
  2:{ eapply Forall_impl; [exact H|]. intros c [d [Hd' ->]]. by apply hex_char_spec. }
  destruct (hex 32 u) as [|c [|x l]]; try done.
  assert (Hp : hex_prefix (c :: x :: l) = Some u).
  { unfold hex_prefix. rewrite Hd.
    rewrite (decide_False (P := x = "x"%char ∨ x = "X"%char)).
    - destruct c as [[] [] [] [] [] [] [] []]; done.
    - apply Forall_cons in H as [_ H]. apply Forall_cons in H as [[d [Hd' ->]] _].
      destruct (hex_char_spec d Hd') as (_ & _ & _ & _ & _ & _ & _ & ? & ?). naive_solver. }
  apply Forall_cons in H as [[d [Hd' Hc]] _].
  destruct (hex_char_spec d Hd') as (_ & _ & Hm & _ & _ & _ & Hpl & _). rewrite <- Hc in Hm, Hpl.
  apply (f_equal (fmap Z.of_N)) in Hp. destruct c as [[] [] [] [] [] [] [] []]; done || exact Hp.
Qed.

Lemma UUID_str u : (u < 2 ^ 128)%N → UUID (uuid_str u) = Ok u.
Proof.
  intros Hu. unfold UUID, uuid_str, chars. rewrite String.list_ascii_of_string_of_list_ascii.
  assert (Hc : ":"%char ∉ uuid_chars u).
  { apply uuid_chars_not; [|done]. intros [d [Hd E]]. by destruct (hex_char_spec d Hd) as (_ & _ & _ & ? & _). }
  rewrite (remove_all_id _ (String.list_ascii_of_string "urn:") (uuid_chars u)) by (exists ":"%char; set_solver).
  rewrite (remove_all_id _ (String.list_ascii_of_string "uuid:") (uuid_chars u)) by (exists ":"%char; set_solver).
  rewrite strip_uuid_chars, filter_uuid_chars.
  rewrite decide_True by apply hex_go_length. rewrite int16_hex by done.
  destruct (Z.ltb_spec (Z.of_N u) 0); [lia|]. by rewrite N2Z.id.
Qed.

Lemma uuid_str_inj u1 u2 : (u1 < 2 ^ 128)%N → (u2 < 2 ^ 128)%N → uuid_str u1 = uuid_str u2 → u1 = u2.
Proof.
  intros H1 H2 E. pose proof (UUID_str u1 H1) as E1. rewrite E, UUID_str in E1 by done. by simplify_eq.
Qed.

Lemma uuid_str_length u : length (chars (uuid_str u)) = 36.
Proof.
  unfold uuid_str, chars. rewrite String.list_ascii_of_string_of_list_ascii.
  assert (Hl : length (hex 32 u) = 32) by apply hex_go_length.
  unfold uuid_chars. repeat (rewrite length_app || rewrite length_cons || rewrite length_take || rewrite length_drop).
  rewrite Hl. lia.
Qed.

(** * Properties *)

(** Printing and reading a job id round-trips: [uuid.UUID(str(u)) == u] for
    every 128-bit [u].  Job ids cross the message body, the URL path and the
    store keys in this form. *)
Theorem uuid_roundtrip (u : uuid) : (u < 2 ^ 128)%N → UUID (uuid_str u) = Ok u.
Proof. apply UUID_str. Qed.

Lemma uuid_roundtrip_witness :
  uuid_str 24197857161011715162171839636988778769 = "12345678-1234-5678-1234-567812345911" ∧
  UUID (uuid_str 24197857161011715162171839636988778769) = Ok 24197857161011715162171839636988778769%N.
Proof. split; [vm_compute; reflexivity|apply uuid_roundtrip; reflexivity]. Defined.

#[global] Arguments uuid_str : simpl never.
