(* ===== verification/Effects.v ===== *)
(** * Asynchronous programs

    Coroutines of the platform are trees of external calls: each [await] on the
    store, the repository, the broker, the clock or the random generator is one
    node, and its continuation receives what the call returned or raised.  Any
    call may raise (a lost connection, a timeout), which is why replies are
    [result]s.  Between two nodes other processes may run and the process may
    die; [interp] runs a program without interference, [System.v] interleaves
    programs. *)
From Stdlib Require Import Floats.SpecFloat.
From S2P Require Import Prelude PyFloat PyJson Model Telemetry PyUuid.

Abbreviation dict := (list (string * json)).

(** A JSON text on the wire, represented by what [json.loads] makes of it: a
    value, or the exception it raises ([JSONDecodeError], [UnicodeDecodeError], a
    plain [ValueError] for an over-long integer, [RuntimeError] for nesting). *)
Abbreviation document := (result json).

(** A message of a subscription: what its data decodes to, and
    [metadata.num_delivered], which the broker counts from 1. *)
Record Msg := mkMsg { msg_data : document; num_delivered : Z }.

(** What the services declare to the broker; [None] leaves the broker's default. *)
Inductive retention := LIMITS | WORK_QUEUE.

Record StreamConfig := mkStreamConfig {
  sc_name : string;
  sc_subjects : list string;
  sc_retention : retention
}.

Inductive ack_policy := EXPLICIT.

Record ConsumerConfig := mkConsumerConfig {
  cc_durable_name : string;
  cc_ack_policy : ack_policy;
  cc_ack_wait : option Z;
  cc_max_deliver : option Z;
  cc_filter_subject : string
}.

(** ** External calls *)
Inductive eff : Type → Type :=
  (* kv/store.py: KeyValueStore *)
  | KvGet (key : string) : eff (option string)
  | KvSetIfAbsent (key value : string) (ttl_s : float) : eff bool
  | KvIncr (key : string) : eff Z
  | KvCompareAndDelete (key expected : string) : eff bool
  (* db/repo.py: record_event, one transaction *)
  | RecordEvent (job_id : uuid) (event : EventType.t) (attempt : Z) (detail : option dict)
      (fence_token : option Z) (result : option dict) : eff JobState.t
  (* the delivered message *)
  | MsgAck : eff unit
  | MsgNak (delay : float) : eff unit
  | MsgTerm : eff unit
  (* random.Random, time.monotonic, asyncio.sleep *)
  | RngRandom : eff float
  | RngUniform (a b : float) : eff float
  | Monotonic : eff float
  | Sleep (seconds : float) : eff unit
  (* the relay's transaction on the outbox *)
  | TxBegin : eff unit
  | SelectUnpublished (limit : Z) : eff (list (Z * string * json))
  | MarkPublished (ids : list Z) : eff unit
  | TxCommit : eff unit
  | TxRollback : eff unit
  (* JetStream *)
  | JsPublish (subject : string) (data : document) (headers : list (string * string)) : eff unit
  | JsGetMsg (stream : string) (seq : Z) : eff document
  | JsDeleteMsg (stream : string) (seq : Z) : eff unit
  | JsAddStream (config : StreamConfig) : eff unit
  | JsAddConsumer (stream : string) (config : ConsumerConfig) : eff unit
  | PullSubscribe (subject durable stream : string) : eff unit
  | SubFetch (batch : Z) (timeout : Z) : eff (list Msg)
  (* NATS without JetStream, connections, schema *)
  | NatsConnect (url : string) (connect_timeout : option Z) : eff unit
  | NatsSubscribe (subject queue : string) : eff unit
  | NatsPublish (subject data : string) : eff unit
  | NatsClose : eff unit
  | KvConnect (url : string) : eff unit
  | KvClose : eff unit
  | PoolCreate (url : string) (min_size max_size : Z) : eff unit
  | PoolClose : eff unit
  | AdvisoryLock (key : Z) : eff unit
  | ExecuteSchema : eff unit
  | SelectOne : eff Z
  (* the process: stop event, signal handlers, sudden death *)
  | StopIsSet : eff bool
  | StopWait (timeout : float) : eff unit
  | AddSignalHandler (signal : string) : eff unit
  | Exit (code : Z) : eff unit
  | OtelInstall (providers : Providers) : eff unit
  (* metrics: a counter or histogram of the meter *)
  | Metric (name : string) (value : Z) : eff unit.

(** ** Programs *)
Inductive prog (A : Type) : Type :=
  | Ret (a : A)
  | Throw (e : exn)
  | Call (R : Type) (e : eff R) (k : result R → prog A).
Arguments Ret {A} a.
Arguments Throw {A} e.
Arguments Call {A} {R} e k.

(** [await e]: an exception of the call is raised here. *)
Definition await {R} (e : eff R) : prog R :=
  Call e (λ r, match r with Ok v => Ret v | Raise x => Throw x end).

Fixpoint bind {A B} (m : prog A) (f : A → prog B) : prog B :=
  match m with
  | Ret a => f a
  | Throw e => Throw e
  | Call e k => Call e (λ r, bind (k r) f)
  end.

(** [try: m except ...: h]; [h] re-raises what no clause catches. *)
Fixpoint try_except {A} (m : prog A) (h : exn → prog A) : prog A :=
  match m with
  | Ret a => Ret a
  | Throw e => h e
  | Call e k => Call e (λ r, try_except (k r) h)
  end.

(** [try: m finally: c]; an exception of [c] replaces the one of [m]. *)
Fixpoint try_finally {A} (m : prog A) (c : prog unit) : prog A :=
  match m with
  | Ret a => bind c (λ _, Ret a)
  | Throw e => bind c (λ _, Throw e)
  | Call e k => Call e (λ r, try_finally (k r) c)
  end.

(** A pure computation that may raise. *)
Definition of_result {A} (r : result A) : prog A :=
  match r with
  | Ok a => Ret a
  | Raise e => Throw e
  end.

Declare Scope prog_scope.
Delimit Scope prog_scope with prog.
Bind Scope prog_scope with prog.

Notation "'let!' x ':=' m 'in' k" := (bind m (λ x, k))
  (at level 10, x binder, m at level 100, k at level 200) : prog_scope.
Notation "m ;; k" := (bind m (λ _, k)) (at level 100, right associativity) : prog_scope.

(** ** Running a program alone *)
Section interp.
Context {W : Type} (handler : ∀ R, eff R → W → result R * W).

Fixpoint interp {A} (p : prog A) (w : W) : result A * W :=
  match p with
  | Ret a => (Ok a, w)
  | Throw e => (Raise e, w)
  | Call e k => let '(r, w') := handler _ e w in interp (k r) w'
  end.

Lemma interp_await {R} (e : eff R) w : interp (await e) w = handler R e w.
Proof. simpl. destruct (handler R e w) as [[v|x] w']; done. Qed.

Lemma interp_bind {A B} (m : prog A) (f : A → prog B) w :
  interp (bind m f) w =
    match interp m w with
    | (Ok a, w') => interp (f a) w'
    | (Raise e, w') => (Raise e, w')
    end.
Proof.
  revert w. induction m as [a|e|R e k IH]; intros w; simpl; [done|done|].
  destruct (handler R e w) as [r w']. apply IH.
Qed.

Lemma interp_try_except {A} (m : prog A) h w :
  interp (try_except m h) w =
    match interp m w with
    | (Ok a, w') => (Ok a, w')
    | (Raise e, w') => interp (h e) w'
    end.
Proof.
  revert w. induction m as [a|e|R e k IH]; intros w; simpl; [done|done|].
  destruct (handler R e w) as [r w']. apply IH.
Qed.

Lemma interp_try_finally {A} (m : prog A) c w :
  interp (try_finally m c) w =
    match interp m w with
    | (r, w') =>
        match interp c w' with
        | (Ok _, w'') => (r, w'')
        | (Raise e, w'') => (Raise e, w'')
        end
    end.
Proof.
  revert w. induction m as [a|e|R e k IH]; intros w; simpl.
  - rewrite interp_bind. by destruct (interp c w) as [[]].
  - rewrite interp_bind. by destruct (interp c w) as [[]].
  - destruct (handler R e w) as [r w']. apply IH.
Qed.

Lemma interp_of_result {A} (r : result A) w : interp (of_result r) w = (r, w).
Proof. by destruct r. Qed.
End interp.

(** ** What every run of a program does

    A monitor follows a run call by call.  [δ st e] is [None] when the call [e] is
    not allowed in state [st]; otherwise it maps the reply to the next state.
    [monitored Q st p]: started in [st], whatever admissible replies the calls of
    [p] get, every call is allowed and the outcome satisfies [Q] of the state
    reached.  [adm e r] says which replies a call may get. *)
Section monitor.
Context {St : Type} (adm : ∀ R, eff R → result R → Prop).
Context (δ : St → ∀ R, eff R → option (result R → St)).

Fixpoint monitored {A} (Q : St → result A → Prop) (st : St) (p : prog A) : Prop :=
  match p with
  | Ret a => Q st (Ok a)
  | Throw e => Q st (Raise e)
  | Call e k =>
      match δ st _ e with
      | Some next => ∀ r, adm _ e r → monitored Q (next r) (k r)
      | None => False
      end
  end.

Lemma monitored_mono {A} (Q Q' : St → result A → Prop) st p :
  (∀ st r, Q st r → Q' st r) → monitored Q st p → monitored Q' st p.
Proof.
  intros HQ. revert st. induction p as [a|e|R e k IH]; intros st; simpl; [auto|auto|].
  destruct (δ st R e); [|done]. naive_solver.
Qed.

Lemma monitored_bind {A B} (Q : St → result B → Prop) st (m : prog A) (f : A → prog B) :
  monitored (λ st r, match r with Ok a => monitored Q st (f a) | Raise e => Q st (Raise e) end) st m →
  monitored Q st (bind m f).
Proof.
  revert st. induction m as [a|e|R e k IH]; intros st; simpl; [auto|auto|].
  destruct (δ st R e); [|done]. naive_solver.
Qed.

Lemma monitored_try_except {A} (Q : St → result A → Prop) st (m : prog A) h :
  monitored (λ st r, match r with Ok a => Q st (Ok a) | Raise e => monitored Q st (h e) end) st m →
  monitored Q st (try_except m h).
Proof.
  revert st. induction m as [a|e|R e k IH]; intros st; simpl; [auto|auto|].
  destruct (δ st R e); [|done]. naive_solver.
Qed.

Lemma monitored_try_finally {A} (Q : St → result A → Prop) st (m : prog A) c :
  monitored (λ st r, monitored (λ st rc, match rc with Ok _ => Q st r | Raise e => Q st (Raise e) end) st c) st m →
  monitored Q st (try_finally m c).
Proof.
  revert st. induction m as [a|e|R e k IH]; intros st; simpl.
  - intros H. by apply monitored_bind.
  - intros H. by apply monitored_bind.
  - destruct (δ st R e); [|done]. naive_solver.
Qed.

Lemma monitored_await {R} (Q : St → result R → Prop) st (e : eff R) next :
  δ st R e = Some next → (∀ r, adm R e r → Q (next r) r) → monitored Q st (await e).
Proof. intros Hd HQ. simpl. rewrite Hd. intros [v|x] Hr; by apply HQ. Qed.

Lemma monitored_of_result {A} (Q : St → result A → Prop) st r : Q st r → monitored Q st (of_result r).
Proof. by destruct r. Qed.

(** A call, and what follows its result. *)
Lemma monitored_step {R B} (Q : St → result B → Prop) st (e : eff R) next (k : R → prog B) :
  δ st R e = Some next →
  (∀ v, adm R e (Ok v) → monitored Q (next (Ok v)) (k v)) →
  (∀ x, adm R e (Raise x) → Q (next (Raise x)) (Raise x)) →
  monitored Q st (bind (await e) k).
Proof. intros Hc Hv Hx. simpl. rewrite Hc. intros [v|x] Hr; simpl; auto. Qed.
End monitor.

(** A run of a program: the calls made, with their replies, and the outcome. *)
Inductive step_of : Type := Step (R : Type) (e : eff R) (r : result R).
Arguments Step {R} e r.

Inductive runs {A} : prog A → list step_of → result A → Prop :=
  | runs_ret a : runs (Ret a) [] (Ok a)
  | runs_throw e : runs (Throw e) [] (Raise e)
  | runs_call R (e : eff R) k r tr o : runs (k r) tr o → runs (Call e k) (Step e r :: tr) o.

(** Monitors speak about runs: along every run with admissible replies no call is
    refused, and the final state satisfies the postcondition. *)
Fixpoint monitor_run {St} (δ : St → ∀ R, eff R → option (result R → St)) (st : St) (tr : list step_of)
    : option St :=
  match tr with
  | [] => Some st
  | Step e r :: tr =>
      match δ st _ e with
      | Some next => monitor_run δ (next r) tr
      | None => None
      end
  end.

Lemma monitored_runs {St A} adm (δ : St → ∀ R, eff R → option (result R → St)) Q st (p : prog A) tr o :
  monitored adm δ Q st p → runs p tr o →
  Forall (λ s, match s with Step e r => adm _ e r end) tr →
  ∃ st', monitor_run δ st tr = Some st' ∧ Q st' o.
Proof.
  intros Hm Hr. revert st Hm. induction Hr as [a|e|R e k r tr o Hr IH]; intros st Hm Ha; simpl in *.
  - eauto.
  - eauto.
  - destruct (δ st R e) as [next|]; [|done]. apply Forall_cons in Ha as [Ha Has]. by apply IH; auto.
Qed.

Lemma monitor_run_app {St} (δ : St → ∀ R, eff R → option (result R → St)) st tr1 R (e : eff R) r tr2 st' :
  monitor_run δ st (tr1 ++ Step e r :: tr2) = Some st' →
  ∃ st1 next, monitor_run δ st tr1 = Some st1 ∧ δ st1 R e = Some next ∧ monitor_run δ (next r) tr2 = Some st'.
Proof.
  revert st. induction tr1 as [|[R0 e0 r0] tr1 IH]; intros st; simpl.
  - destruct (δ st R e) as [next|] eqn:E; [|done]. eauto.
  - destruct (δ st R0 e0) as [next|]; [|done]. apply IH.
Qed.

Lemma runs_bind_raise {A B} (m : prog A) (f : A → prog B) tr x :
  runs m tr (Raise x) → runs (bind m f) tr (Raise x).
Proof.
  intros H. remember (Raise x) as o eqn:Ho. revert x Ho.
  induction H; intros x Ho; simplify_eq/=; constructor; eauto.
Qed.

(** A run of a compound program is made of runs of its parts. *)
Lemma runs_inv {A} (p : prog A) tr o : runs p tr o →
  match p with
  | Ret a => tr = [] ∧ o = Ok a
  | Throw x => tr = [] ∧ o = Raise x
  | Call e k => ∃ r tr', tr = Step e r :: tr' ∧ runs (k r) tr' o
  end.
Proof. destruct 1; eauto. Qed.

Lemma runs_bind_inv {A B} (m : prog A) (f : A → prog B) tr o :
  runs (bind m f) tr o →
  (∃ x, runs m tr (Raise x) ∧ o = Raise x) ∨
  ∃ a tr1 tr2, tr = tr1 ++ tr2 ∧ runs m tr1 (Ok a) ∧ runs (f a) tr2 o.
Proof.
  revert tr. induction m as [a|x|R e k IH]; intros tr Hr; cbn [bind] in Hr.
  - right. exists a, [], tr. by repeat constructor.
  - left. apply runs_inv in Hr as [-> ->]. eauto using runs_throw.
  - apply runs_inv in Hr as (r & tr' & -> & Hr). destruct (IH r tr' Hr) as [(x & Hm & ->)|(a & tr1 & tr2 & -> & Hm & Hf)].
    + left. eauto using runs_call.
    + right. exists a, (Step e r :: tr1), tr2. split_and!; [done|by constructor|done].
Qed.

Lemma runs_try_except_inv {A} (m : prog A) h tr o :
  runs (try_except m h) tr o →
  (∃ a, runs m tr (Ok a) ∧ o = Ok a) ∨
  ∃ x tr1 tr2, tr = tr1 ++ tr2 ∧ runs m tr1 (Raise x) ∧ runs (h x) tr2 o.
Proof.
  revert tr. induction m as [a|x|R e k IH]; intros tr Hr; cbn [try_except] in Hr.
  - left. apply runs_inv in Hr as [-> ->]. eauto using runs_ret.
  - right. exists x, [], tr. by repeat constructor.
  - apply runs_inv in Hr as (r & tr' & -> & Hr). destruct (IH r tr' Hr) as [(a & Hm & ->)|(x & tr1 & tr2 & -> & Hm & Hf)].
    + left. eauto using runs_call.
    + right. exists x, (Step e r :: tr1), tr2. split_and!; [done|by constructor|done].
Qed.

Lemma runs_try_finally_inv {A} (m : prog A) c tr o :
  runs (try_finally m c) tr o →
  ∃ om oc tr1 tr2, tr = tr1 ++ tr2 ∧ runs m tr1 om ∧ runs c tr2 oc ∧
    o = match oc with Ok _ => om | Raise x => Raise x end.
Proof.
  revert tr. induction m as [a|x|R e k IH]; intros tr Hr; cbn [try_finally] in Hr.
  - apply runs_bind_inv in Hr as [(x & Hc & ->)|(u & tr1 & tr2 & -> & Hc & Hr)].
    + exists (Ok a), (Raise x), [], tr. by repeat constructor.
    + apply runs_inv in Hr as [-> ->]. exists (Ok a), (Ok u), [], tr1. rewrite app_nil_r. by repeat constructor.
  - apply runs_bind_inv in Hr as [(y & Hc & ->)|(u & tr1 & tr2 & -> & Hc & Hr)].
    + exists (Raise x), (Raise y), [], tr. by repeat constructor.
    + apply runs_inv in Hr as [-> ->]. exists (Raise x), (Ok u), [], tr1. rewrite app_nil_r. by repeat constructor.
  - apply runs_inv in Hr as (r & tr' & -> & Hr).
    destruct (IH r tr' Hr) as (om & oc & tr1 & tr2 & -> & Hm & Hc & ->).
    exists om, oc, (Step e r :: tr1), tr2. split_and!; [done|by constructor|done|done].
Qed.

Lemma runs_await_inv {R} (e : eff R) tr o : runs (await e) tr o → tr = [Step e o].
Proof. intros Hr. apply runs_inv in Hr as (r & tr' & -> & Hr). by destruct r; apply runs_inv in Hr as [-> ->]. Qed.

Lemma runs_of_result_inv {A} (r : result A) tr o : runs (of_result r) tr o → tr = [] ∧ o = r.
Proof. destruct r; intros H; exact (runs_inv _ _ _ H). Qed.

(** ** Histories

    [always P Q h p]: after the calls [h], whatever the replies, each further step
    [s] of [p] satisfies [P] of the history before it, and the outcome [Q] of the
    whole history. *)
Fixpoint always {A} (P : list step_of → step_of → Prop) (Q : list step_of → result A → Prop)
    (h : list step_of) (p : prog A) : Prop :=
  match p with
  | Ret a => Q h (Ok a)
  | Throw x => Q h (Raise x)
  | Call e k => ∀ r, P h (Step e r) ∧ always P Q (h ++ [Step e r]) (k r)
  end.

Lemma always_runs {A} P Q h (p : prog A) tr o :
  always P Q h p → runs p tr o →
  Q (h ++ tr) o ∧ ∀ tr1 s tr2, tr = tr1 ++ s :: tr2 → P (h ++ tr1) s.
Proof.
  intros Ha Hr. revert h Ha. induction Hr as [a|x|R e k r tr o Hr IH]; intros h Ha; simpl in *.
  - rewrite app_nil_r. split; [done|]. by intros [].
  - rewrite app_nil_r. split; [done|]. by intros [].
  - destruct (Ha r) as [Hp Hk]. destruct (IH _ Hk) as [HQ HP]. rewrite <- app_assoc in HQ. split; [done|].
    intros [|s1 tr1] s tr2 E; simplify_eq/=; [by rewrite app_nil_r|].
    specialize (HP tr1 s tr2 eq_refl). by rewrite <- app_assoc in HP.
Qed.

Lemma always_bind {A B} P Q h (m : prog A) (f : A → prog B) :
  always P (λ h r, match r with Ok a => always P Q h (f a) | Raise x => Q h (Raise x) end) h m →
  always P Q h (bind m f).
Proof. revert h. induction m as [a|x|R e k IH]; intros h; simpl; naive_solver. Qed.

Lemma always_try_except {A} P Q h (m : prog A) c :
  always P (λ h r, match r with Ok a => Q h (Ok a) | Raise x => always P Q h (c x) end) h m →
  always P Q h (try_except m c).
Proof. revert h. induction m as [a|x|R e k IH]; intros h; simpl; naive_solver. Qed.

Lemma always_await {R} P (Q : list step_of → result R → Prop) h (e : eff R) :
  (∀ r, P h (Step e r)) → (∀ r, Q (h ++ [Step e r]) r) → always P Q h (await e).
Proof. intros HP HQ. simpl. intros r. split; [done|]. specialize (HQ r). by destruct r. Qed.

Lemma always_of_result {A} P (Q : list step_of → result A → Prop) h r : Q h r → always P Q h (of_result r).
Proof. by destruct r. Qed.

(** ** The calls of a program

    [calls_ok P p]: whatever the replies, every call of [p] satisfies [P]. *)
Section calls.
Context (P : ∀ R, eff R → Prop).

Fixpoint calls_ok {A} (p : prog A) : Prop :=
  match p with
  | Ret _ | Throw _ => True
  | Call e k => P _ e ∧ ∀ r, calls_ok (k r)
  end.

Lemma calls_ok_bind {A B} (m : prog A) (f : A → prog B) :
  calls_ok m → (∀ a, calls_ok (f a)) → calls_ok (bind m f).
Proof. induction m as [a|x|R e k IH]; simpl; [auto|auto|]. intros [He Hk] Hf. auto. Qed.

Lemma calls_ok_try_except {A} (m : prog A) h : calls_ok m → (∀ x, calls_ok (h x)) → calls_ok (try_except m h).
Proof. induction m as [a|x|R e k IH]; simpl; [auto|auto|]. intros [He Hk] Hf. auto. Qed.

Lemma calls_ok_try_finally {A} (m : prog A) c : calls_ok m → calls_ok c → calls_ok (try_finally m c).
Proof.
  intros Hm Hc. induction m as [a|x|R e k IH]; simpl; [by apply calls_ok_bind..|].
  destruct Hm as [He Hk]. auto.
Qed.

Lemma calls_ok_await {R} (e : eff R) : P R e → calls_ok (await e).
Proof. intros He. split; [done|]. by intros []. Qed.

Lemma calls_ok_of_result {A} (r : result A) : calls_ok (of_result r).
Proof. by destruct r. Qed.

Lemma calls_ok_runs {A} (p : prog A) tr o R (e : eff R) r : calls_ok p → runs p tr o → Step e r ∈ tr → P R e.
Proof.
  intros Hp Hr. induction Hr as [a|x|R0 e0 k r0 tr o Hr IH]; [set_solver..|].
  destruct Hp as [He Hk]. intros [Heq|Hin]%elem_of_cons; [|eauto].
  pattern R, e. change (match Step e r with Step e _ => P _ e end). by rewrite Heq.
Qed.

(** A monitor that does not move on such calls is at the end where it was. *)
Lemma calls_ok_monitored {St A} adm (δ : St → ∀ R, eff R → option (result R → St)) st (p : prog A) :
  (∀ R e, P R e → δ st R e = Some (λ _, st)) → calls_ok p → monitored adm δ (λ st' _, st' = st) st p.
Proof.
  intros Hd. induction p as [a|x|R e k IH]; cbn [calls_ok monitored]; [done..|]. intros [He Hk]. rewrite (Hd R e He). auto.
Qed.
End calls.

#[export] Hint Resolve calls_ok_bind calls_ok_try_except calls_ok_try_finally calls_ok_await calls_ok_of_result : orbiter.

(** ** Dying between two calls

    The world after the first [n] calls of a program. *)
Section upto.
Context {W : Type} (handler : ∀ R, eff R → W → result R * W).

Fixpoint upto {A} (n : nat) (p : prog A) (w : W) : W :=
  match n, p with
  | S n, Call e k => let '(r, w') := handler _ e w in upto n (k r) w'
  | _, _ => w
  end.
End upto.
