(* ===== verification/Fencing.v ===== *)
(** * Fenced leases ([src/orbiter/leases/fencing.py])

    [LeaseManager.acquire]/[release] as programs over the store protocol, and
    [FencedWriter], the write-site check.  The theorems are proved against the
    store's laws, for arbitrary histories of other clients' calls. *)
From Stdlib Require Import Floats.SpecFloat.
From S2P Require Import Prelude PyFloat PyJson Model PyUuid KVStore Effects.

Open Scope prog_scope.

(** A store alone as the world of a program, at a fixed clock reading. *)
Definition store_handler {S} `{!KVStore S} (now : float) (R : Type) (e : eff R) (s : S) : result R * S :=
  match e in eff R return result R * S with
  | KvGet k => let '(r, s) := kv_get now k s in (Ok r, s)
  | KvSetIfAbsent k v ttl => let '(r, s) := kv_set_if_absent now k v ttl s in (Ok r, s)
  | KvIncr k => let '(r, s) := kv_incr k s in (Ok r, s)
  | KvCompareAndDelete k v => let '(r, s) := kv_compare_and_delete now k v s in (Ok r, s)
  | _ => (Raise (ExternalError "not a store call"), s)
  end.

Definition on_store {S A} `{!KVStore S} (now : float) (p : prog A) (s : S) : result A * S :=
  interp (store_handler now) p s.
Arguments on_store : simpl never.

(** ** Leases *)

Record Lease := mkLease { resource : string; holder : string; token : Z }.

#[global] Instance Lease_eq_dec : EqDecision Lease.
Proof. solve_decision. Defined.

Module LeaseManager.

Definition lease_key (resource : string) : string := "orbiter:lease:" +:+ resource.
Definition token_key (resource : string) : string := "orbiter:lease:" +:+ (resource +:+ ":token").

(** [f"{holder}:{token}"] *)
Definition lease_value (holder : string) (token : Z) : string := holder +:+ ":" +:+ pretty token.
Arguments lease_value : simpl never.
Arguments lease_key : simpl never.
Arguments token_key : simpl never.

Definition acquire (ttl_s : float) (resource holder : string) : prog (option Lease) :=
  let! token := await (KvIncr (token_key resource)) in
  let! acquired := await (KvSetIfAbsent (lease_key resource) (lease_value holder token) ttl_s) in
  Ret (if negb acquired then None else Some (mkLease resource holder token)).

Definition release (lease : Lease) : prog bool :=
  await (KvCompareAndDelete (lease_key (resource lease)) (lease_value (holder lease) (token lease))).

Lemma lease_key_inj r1 r2 : lease_key r1 = lease_key r2 → r1 = r2.
Proof. apply string_app_inv_head. Qed.

Lemma token_key_inj r1 r2 : token_key r1 = token_key r2 → r1 = r2.
Proof. intros H. by eapply string_app_inv_tail, string_app_inv_head. Qed.

Lemma lease_value_inj h1 t1 h2 t2 : lease_value h1 t1 = lease_value h2 t2 → h1 = h2 ∧ t1 = t2.
Proof. apply tagged_inj. Qed.

End LeaseManager.
Import LeaseManager.

Section leases.
Context {S : Type} `{!KVStore S, !KVView S, !KVStoreLaws S}.

(** What an acquisition does to a store: the counter goes up in any case, the
    entry is set when none is live. *)
Lemma acquire_spec now ttl r h (s : S) :
  on_store now (acquire ttl r h) s =
    let n := (kv_count s (token_key r) + 1)%Z in
    let s1 := (kv_incr (token_key r) s).2 in
    (Ok (if decide (kv_view now s (lease_key r) = None) then Some (mkLease r h n) else None),
     (kv_set_if_absent now (lease_key r) (lease_value h n) ttl s1).2).
Proof.
  unfold on_store, acquire. simpl.
  pose proof (kv_incr_reply (token_key r) s) as Hn.
  pose proof (kv_incr_view (token_key r) s now (lease_key r)) as Hv.
  destruct (kv_incr (token_key r) s) as [n s1]; simpl in *. subst n.
  pose proof (kv_set_reply now (lease_key r) (lease_value h (kv_count s (token_key r) + 1)) ttl s1) as Hs.
  destruct (kv_set_if_absent _ _ _ _ s1) as [b s2]; simpl in *. rewrite Hv in Hs.
  destruct b; simpl; case_decide; naive_solver.
Qed.

Lemma acquire_count now ttl r h (s : S) :
  kv_count (on_store now (acquire ttl r h) s).2 (token_key r) = (kv_count s (token_key r) + 1)%Z.
Proof. rewrite acquire_spec. simpl. rewrite kv_set_count, kv_incr_count. by rewrite decide_True. Qed.

Lemma acquire_Some now ttl r h (s : S) l :
  (on_store now (acquire ttl r h) s).1 = Ok (Some l) →
  l = mkLease r h (kv_count s (token_key r) + 1) ∧ kv_view now s (lease_key r) = None.
Proof. rewrite acquire_spec. simpl. case_decide; naive_solver. Qed.

(** A successful acquisition holds the key until it expires. *)
Lemma acquire_held now ttl r h (s : S) l :
  (on_store now (acquire ttl r h) s).1 = Ok (Some l) →
  held_until now (kv_lapsed S now ttl) (lease_key r) (lease_value (holder l) (token l))
    (on_store now (acquire ttl r h) s).2.
Proof.
  intros H. apply acquire_Some in H as [-> Hn]. rewrite acquire_spec. simpl.
  apply held_until_set. by rewrite kv_incr_view.
Qed.
End leases.

(** ** The write-site check *)
Module FencedWriter.

(** [_newest_accepted] *)
Abbreviation t := (gmap string Z).

Definition init : t := ∅.

Definition newest_accepted (resource : string) (self : t) : Z := default 0%Z (self !! resource).

Definition check (resource : string) (token : Z) (self : t) : result t :=
  let newest := default 0%Z (self !! resource) in
  if (token <? newest)%Z then Raise (StaleLeaseError resource token newest)
  else Ok (<[resource := token]> self).

(** A sequence of writes; a rejected one leaves the writer as it was. *)
Fixpoint checks (writes : list (string * Z)) (self : t) : list bool * t :=
  match writes with
  | [] => ([], self)
  | (r, tok) :: writes =>
      match check r tok self with
      | Ok self' => let '(l, s) := checks writes self' in (true :: l, s)
      | Raise _ => let '(l, s) := checks writes self in (false :: l, s)
      end
  end.

Lemma check_newest r tok self self' r' :
  check r tok self = Ok self' →
  newest_accepted r' self' = (if decide (r' = r) then tok else newest_accepted r' self) ∧
  (newest_accepted r' self ≤ newest_accepted r' self')%Z.
Proof.
  unfold check, newest_accepted. destruct (Z.ltb_spec tok (default 0%Z (self !! r))); [done|].
  intros [= <-]. rewrite lookup_insert. repeat case_decide; subst; simpl; split; done || lia.
Qed.

Lemma checks_newest_le writes self r :
  (newest_accepted r self ≤ newest_accepted r (checks writes self).2)%Z.
Proof.
  revert self. induction writes as [|[r0 tok] writes IH]; intros self; simpl; [lia|].
  destruct (check r0 tok self) as [self'|e] eqn:E.
  - specialize (IH self'). destruct (check_newest r0 tok self self' r E) as [_ Hle].
    destruct (checks writes self'); simpl in *. lia.
  - specialize (IH self). destruct (checks writes self); simpl in *. lia.
Qed.

Lemma check_stale r tok self :
  check r tok self = Raise (StaleLeaseError r tok (newest_accepted r self)) ↔
  (tok < newest_accepted r self)%Z.
Proof. unfold check, newest_accepted. destruct (Z.ltb_spec tok (default 0%Z (self !! r))); naive_solver lia. Qed.

End FencedWriter.

(** * Properties *)

(** Fencing tokens are strictly increasing.  Whatever any clients do to the
    store between two acquisitions of a resource (failed acquisitions included,
    which burn a token), the later lease carries the larger token. *)
Theorem lease_tokens_increase {S : Type} `{!KVStore S, !KVView S, !KVStoreLaws S}
    (s : S) (t1 t2 ttl : float) (r h1 h2 : string) (l1 l2 : Lease) (calls : list (float * kv_call)) :
  (on_store t1 (acquire ttl r h1) s).1 = Ok (Some l1) →
  (on_store t2 (acquire ttl r h2) (kv_after calls (on_store t1 (acquire ttl r h1) s).2)).1 = Ok (Some l2) →
  (token l1 < token l2)%Z.
Proof.
  intros H1 H2. apply acquire_Some in H1 as [-> _]. apply acquire_Some in H2 as [-> _]. simpl.
  pose proof (kv_after_count_le calls (on_store t1 (acquire ttl r h1) s).2 (token_key r)) as Hle.
  rewrite acquire_count in Hle. lia.
Qed.

Lemma lease_tokens_increase_witness : (1 < 3)%Z.
Proof.
  apply (lease_tokens_increase InMemoryKV.init (fZ 0) (fZ 20) (fZ 10) "job-1" "worker-a" "worker-b"
           (mkLease "job-1" "worker-a" 1) (mkLease "job-1" "worker-b" 3)
           [(fZ 5, CIncr (token_key "job-1")); (fZ 5, CSet (lease_key "job-1") "worker-c:2" (fZ 10))]);
    vm_compute; reflexivity.
Defined.

(** C23: mutual exclusion of leases.  After a successful acquisition at [t0], for
    every later history that does not contain the release of that very lease,
    no acquisition of the resource succeeds before the store lets the lease
    lapse: not by another holder, not by the same one. *)
Theorem lease_mutual_exclusion {S : Type} `{!KVStore S, !KVView S, !KVStoreLaws S}
    (s : S) (t0 t ttl ttl' : float) (r h h' : string) (l : Lease) (calls : list (float * kv_call)) :
  (on_store t0 (acquire ttl r h) s).1 = Ok (Some l) →
  monotonic t0 calls = true →
  Forall (λ c, c.2 ≠ CCad (lease_key r) (lease_value h (token l))) calls →
  (last_time t0 calls <=? t)%float = true → kv_lapsed S t0 ttl t = false →
  (on_store t (acquire ttl' r h') (kv_after calls (on_store t0 (acquire ttl r h) s).2)).1 = Ok None.
Proof.
  intros H Hm Hc Ht He. pose proof (acquire_Some _ _ _ _ _ _ H) as [Hl _].
  pose proof (acquire_held _ _ _ _ _ _ H) as Hh.
  assert (Hc' : Forall (λ c, c.2 ≠ CCad (lease_key r) (lease_value (holder l) (token l))) calls) by (by subst l).
  pose proof (held_until_after _ _ _ _ _ _ Hh Hm Hc' t Ht He) as Hv.
  rewrite acquire_spec. simpl. by rewrite Hv.
Qed.

Lemma lease_mutual_exclusion_witness :
  (on_store (fZ 9) (acquire (fZ 10) "job-1" "worker-b")
     (kv_after [(fZ 1, CCad (lease_key "job-1") "worker-b:1"); (fZ 2, CGet (lease_key "job-1"))]
        (on_store (fZ 0) (acquire (fZ 10) "job-1" "worker-a") InMemoryKV.init).2)).1 = Ok None.
Proof.
  apply (lease_mutual_exclusion InMemoryKV.init (fZ 0) (fZ 9) (fZ 10) (fZ 10) "job-1" "worker-a" "worker-b"
           (mkLease "job-1" "worker-a" 1)); try (vm_compute; reflexivity).
  apply (bool_decide_unpack _). vm_compute. exact I.
Defined.

(** A release removes the lease it names and nothing else: it succeeds
    exactly when the store still holds the value of that holder and token, and a
    successor's lease survives a stale holder's release. *)
Theorem release_only_own {S : Type} `{!KVStore S, !KVView S, !KVStoreLaws S}
    (s : S) (now t' : float) (l : Lease) (h : string) (n : Z) :
  kv_view now s (lease_key (resource l)) = Some (lease_value h n) →
  (now <=? t')%float = true →
  ((on_store now (release l) s).1 = Ok true ↔ h = holder l ∧ n = token l) ∧
  (¬ (h = holder l ∧ n = token l) →
   kv_view t' (on_store now (release l) s).2 (lease_key (resource l)) =
   kv_view t' s (lease_key (resource l))).
Proof.
  intros Hv Ht. unfold on_store, release. rewrite interp_await. simpl.
  set (k := lease_key (resource l)) in *. set (v := lease_value (holder l) (token l)).
  pose proof (kv_cad_reply now k v s) as Hr. pose proof (kv_cad_view now k v s t' k Ht) as Hw.
  destruct (kv_compare_and_delete now k v s) as [b s']; cbn [fst snd] in *. rewrite Hv in Hr, Hw. split.
  - split; [|intros [Eh En]; subst v; rewrite Eh, En in Hr; f_equal; by apply Hr].
    intros [= ->]. assert (E : Some (lease_value h n) = Some v) by (by apply Hr).
    apply lease_value_inj. by injection E.
  - intros Hne. rewrite Hw, decide_False; [done|]. intros [_ E]. apply Hne, lease_value_inj. by injection E.
Qed.

Lemma release_only_own_witness :
  let s := (on_store (fZ 11) (acquire (fZ 10) "job-1" "worker-b")
              (on_store (fZ 0) (acquire (fZ 10) "job-1" "worker-a") InMemoryKV.init).2).2 in
  kv_view (fZ 12) (on_store (fZ 12) (release (mkLease "job-1" "worker-a" 1)) s).2 (lease_key "job-1")
  = Some "worker-b:2".
Proof.
  intros s. transitivity (kv_view (fZ 12) s (lease_key "job-1")); [|vm_compute; reflexivity].
  apply (release_only_own s (fZ 12) (fZ 12) (mkLease "job-1" "worker-a" 1) "worker-b" 2);
    [vm_compute; reflexivity..|]. simpl. intros [? ?]. done.
Defined.

(** The paused holder is fenced out.  Once a write with token [b] has been
    accepted for a resource, every write with a smaller token [a] is rejected
    with [StaleLeaseError] naming the newest accepted token, whatever writes on
    whatever resources came in between. *)
Theorem paused_holder_fenced_out (w w' : FencedWriter.t) (r : string) (a b : Z)
    (writes : list (string * Z)) :
  FencedWriter.check r b w = Ok w' → (a < b)%Z →
  let w'' := (FencedWriter.checks writes w').2 in
  FencedWriter.check r a w'' = Raise (StaleLeaseError r a (FencedWriter.newest_accepted r w'')) ∧
  (b ≤ FencedWriter.newest_accepted r w'')%Z.
Proof.
  intros Hb Hab w''. destruct (FencedWriter.check_newest r b w w' r Hb) as [Hn _].
  rewrite decide_True in Hn by done.
  pose proof (FencedWriter.checks_newest_le writes w' r) as Hle. fold w'' in Hle.
  split; [|lia]. apply FencedWriter.check_stale. lia.
Qed.

Lemma paused_holder_fenced_out_witness :
  let w'' := (FencedWriter.checks [("job-1", 2%Z); ("job-2", 9%Z); ("job-1", 4%Z)] {["job-1" := 2%Z]}).2 in
  FencedWriter.check "job-1" 1 w'' =
  Raise (StaleLeaseError "job-1" 1 (FencedWriter.newest_accepted "job-1" w'')).
Proof.
  apply (paused_holder_fenced_out FencedWriter.init {["job-1" := 2%Z]} "job-1" 1 2
           [("job-1", 2%Z); ("job-2", 9%Z); ("job-1", 4%Z)]); [vm_compute; reflexivity|lia].
Defined.
