(* ===== verification/Idempotency.v ===== *)
(** * The execution guard ([src/orbiter/worker/idempotency.py])

    [try_claim], [mark_done] and [release_claim] as programs over the store
    protocol, and what they promise against the store's laws. *)
From Stdlib Require Import Floats.SpecFloat.
From S2P Require Import Prelude PyFloat PyJson Model PyUuid KVStore Effects Fencing.

Open Scope prog_scope.

Inductive ClaimResult := CLAIMED | ALREADY_DONE | IN_PROGRESS.

#[global] Instance ClaimResult_eq_dec : EqDecision ClaimResult.
Proof. solve_decision. Defined.

Module ExecutionGuard.

Record t := mk { claim_ttl_s : float; done_ttl_s : float }.

Definition done_key (job_id : string) : string := "orbiter:exec:" +:+ (job_id +:+ ":done").
Definition claim_key (job_id : string) : string := "orbiter:exec:" +:+ (job_id +:+ ":claim").
Arguments done_key : simpl never.
Arguments claim_key : simpl never.

Definition try_claim (self : t) (job_id delivery : string) : prog ClaimResult :=
  let! done := await (KvGet (done_key job_id)) in
  match done with
  | Some _ => Ret ALREADY_DONE
  | None =>
      let! claimed := await (KvSetIfAbsent (claim_key job_id) delivery (claim_ttl_s self)) in
      if negb claimed then Ret IN_PROGRESS else Ret CLAIMED
  end.

Definition mark_done (self : t) (job_id delivery : string) : prog unit :=
  let! _ := await (KvSetIfAbsent (done_key job_id) delivery (done_ttl_s self)) in
  let! _ := await (KvCompareAndDelete (claim_key job_id) delivery) in
  Ret tt.

Definition release_claim (job_id delivery : string) : prog unit :=
  let! _ := await (KvCompareAndDelete (claim_key job_id) delivery) in
  Ret tt.

(** The keys of two jobs never meet, nor do a marker and a claim. *)
Lemma done_key_inj j1 j2 : done_key j1 = done_key j2 → j1 = j2.
Proof. intros H. by eapply string_app_inv_tail, string_app_inv_head. Qed.

Lemma claim_key_inj j1 j2 : claim_key j1 = claim_key j2 → j1 = j2.
Proof. intros H. by eapply string_app_inv_tail, string_app_inv_head. Qed.

Lemma done_claim_ne j1 j2 : done_key j1 ≠ claim_key j2.
Proof.
  intros H%string_app_inv_head.
  by apply (string_app_tail_ne j1 j2 ":don" ":clai" "e" "m") in H.
Qed.

End ExecutionGuard.
Import ExecutionGuard.

Section guard.
Context {S : Type} `{!KVStore S, !KVView S, !KVStoreLaws S}.
Context (g : ExecutionGuard.t).

(** The verdict depends on what a reader finds under the two keys. *)
Definition verdict (now : float) (s : S) (j : string) : ClaimResult :=
  match kv_view now s (done_key j), kv_view now s (claim_key j) with
  | Some _, _ => ALREADY_DONE
  | None, Some _ => IN_PROGRESS
  | None, None => CLAIMED
  end.

Lemma try_claim_verdict now j d (s : S) :
  (now <=? now)%float = true → (on_store now (try_claim g j d) s).1 = Ok (verdict now s j).
Proof.
  intros Hnow. unfold on_store, verdict. simpl.
  pose proof (kv_get_reply now (done_key j) s) as Hr.
  pose proof (kv_get_view now (done_key j) s now (claim_key j) Hnow) as Hv.
  destruct (kv_get now (done_key j) s) as [r s1]; simpl in *. subst r.
  destruct (kv_view now s (done_key j)); simpl; [done|].
  pose proof (kv_set_reply now (claim_key j) d (claim_ttl_s g) s1) as Hs.
  destruct (kv_set_if_absent now (claim_key j) d (claim_ttl_s g) s1) as [b s2]; simpl in *.
  rewrite Hv in Hs. destruct b, (kv_view now s (claim_key j)); simpl; naive_solver.
Qed.

Lemma claimed_held now j d (s : S) :
  (now <=? now)%float = true → (on_store now (try_claim g j d) s).1 = Ok CLAIMED →
  held_until now (kv_lapsed S now (claim_ttl_s g)) (claim_key j) d (on_store now (try_claim g j d) s).2.
Proof.
  intros Hnow. rewrite try_claim_verdict by done. unfold verdict. intros H.
  destruct (kv_view now s (done_key j)) eqn:Ed; [done|].
  destruct (kv_view now s (claim_key j)) eqn:Ec; [done|].
  unfold on_store. simpl.
  pose proof (kv_get_reply now (done_key j) s) as Hr.
  pose proof (kv_get_view now (done_key j) s now (claim_key j) Hnow) as Hv.
  destruct (kv_get now (done_key j) s) as [r s1]; simpl in *. subst r. rewrite Ed. simpl.
  pose proof (held_until_set now (claim_key j) d (claim_ttl_s g) s1) as Hh. rewrite Hv in Hh.
  specialize (Hh Ec).
  destruct (kv_set_if_absent now (claim_key j) d (claim_ttl_s g) s1) as [[] s2]; simpl in *; done.
Qed.

(** Marking done makes the marker readable until its expiry. *)
Lemma mark_done_held now j d (s : S) :
  (now <=? now)%float = true → kv_view now s (done_key j) = None →
  held_until now (kv_lapsed S now (done_ttl_s g)) (done_key j) d (on_store now (mark_done g j d) s).2.
Proof.
  intros Hnow Hn. pose proof (held_until_set now (done_key j) d (done_ttl_s g) s Hn) as Hh.
  unfold on_store. simpl.
  destruct (kv_set_if_absent now (done_key j) d (done_ttl_s g) s) as [b s1]; simpl in *.
  pose proof (held_until_step _ _ _ _ now (CCad (claim_key j) d) s1 Hh Hnow) as Hs. simpl in Hs.
  destruct (kv_compare_and_delete now (claim_key j) d s1) as [b' s2]; simpl in *.
  apply Hs, CCad_key_ne. intros E. by apply (done_claim_ne j j).
Qed.

(** A call that is not about [k] leaves it absent. *)
Lemma absent_after calls t k (s : S) :
  (∀ t', (t <=? t')%float = true → kv_view t' s k = None) →
  monotonic t calls = true →
  Forall (λ c, ∀ v ttl, c.2 ≠ CSet k v ttl) calls →
  ∀ t', (last_time t calls <=? t')%float = true → kv_view t' (kv_after calls s) k = None.
Proof.
  revert t s. induction calls as [|[now c] calls IH]; intros t s Ha Hm Hc t' Ht'; simpl in *; [auto|].
  apply andb_true_iff in Hm as [Ht Hm]. apply Forall_cons in Hc as [Hc Hcs].
  apply (IH now); [|done|done|done]. intros t1 Ht1. rewrite kv_do_view by done.
  destruct c as [k0|k0 v ttl|k0|k0 v]; eauto with orbiter.
  - rewrite decide_False; [eauto with orbiter|]. intros [<- _]. by eapply Hc.
  - case_decide; [done|eauto with orbiter].
Qed.
End guard.

(** * Properties *)

(** Exclusion of concurrent deliveries.  After a delivery has claimed a job at
    [t0], no other delivery (and not the same one) obtains CLAIMED before the
    claim expires, for every history of store calls that does not contain the
    claiming delivery's own release: duplicates see IN_PROGRESS, or ALREADY_DONE
    once the marker is set. *)
Theorem claim_exclusive {S : Type} `{!KVStore S, !KVView S, !KVStoreLaws S}
    (g : ExecutionGuard.t) (s : S) (t0 t : float) (j d d' : string) (calls : list (float * kv_call)) :
  (on_store t0 (try_claim g j d) s).1 = Ok CLAIMED →
  monotonic t0 calls = true →
  Forall (λ c, c.2 ≠ CCad (claim_key j) d) calls →
  (last_time t0 calls <=? t)%float = true → kv_lapsed S t0 (claim_ttl_s g) t = false →
  let s' := kv_after calls (on_store t0 (try_claim g j d) s).2 in
  (on_store t (try_claim g j d') s').1 =
    Ok (if decide (kv_view t s' (done_key j) = None) then IN_PROGRESS else ALREADY_DONE).
Proof.
  intros HC Hm Hc Hl He s'. rewrite try_claim_verdict by (by eapply fleb_self_r).
  pose proof (last_time_start _ _ _ Hm Hl) as H0.
  pose proof (held_until_after _ _ _ _ _ _ (claimed_held g t0 j d s H0 HC) Hm Hc t Hl He) as Hv.
  fold s' in Hv. unfold verdict. rewrite Hv. by destruct (kv_view t s' (done_key j)).
Qed.

Definition sample_guard : ExecutionGuard.t := ExecutionGuard.mk (fZ 20) (fZ 3600).

Lemma claim_exclusive_witness :
  (on_store (fZ 19) (try_claim sample_guard "job-1" "w2:2")
     (kv_after [(fZ 1, CCad (claim_key "job-1") "w2:2")]
        (on_store (fZ 0) (try_claim sample_guard "job-1" "w1:1") InMemoryKV.init).2)).1 = Ok IN_PROGRESS.
Proof.
  etransitivity.
  - apply (claim_exclusive sample_guard InMemoryKV.init (fZ 0) (fZ 19) "job-1" "w1:1" "w2:2"
             [(fZ 1, CCad (claim_key "job-1") "w2:2")]); try (vm_compute; reflexivity).
    apply (bool_decide_unpack _). vm_compute. exact I.
  - vm_compute. reflexivity.
Defined.

(** A finished job is not executed again.  After [mark_done], until the marker
    expires and as long as nobody deletes it (no operation of the guard does),
    every later delivery short-circuits with ALREADY_DONE. *)
Theorem done_short_circuits {S : Type} `{!KVStore S, !KVView S, !KVStoreLaws S}
    (g : ExecutionGuard.t) (s : S) (t0 t : float) (j d d' : string) (calls : list (float * kv_call)) :
  kv_view t0 s (done_key j) = None →
  monotonic t0 calls = true →
  Forall (λ c, c.2 ≠ CCad (done_key j) d) calls →
  (last_time t0 calls <=? t)%float = true → kv_lapsed S t0 (done_ttl_s g) t = false →
  (on_store t (try_claim g j d') (kv_after calls (on_store t0 (mark_done g j d) s).2)).1 = Ok ALREADY_DONE.
Proof.
  intros Hn Hm Hc Hl He. rewrite try_claim_verdict by (by eapply fleb_self_r).
  pose proof (last_time_start _ _ _ Hm Hl) as H0.
  pose proof (held_until_after _ _ _ _ _ _ (mark_done_held g t0 j d s H0 Hn) Hm Hc t Hl He) as Hv.
  unfold verdict. by rewrite Hv.
Qed.

Lemma done_short_circuits_witness :
  (on_store (fZ 3599) (try_claim sample_guard "job-1" "w2:2")
     (kv_after [(fZ 9, CCad (claim_key "job-1") "w1:1"); (fZ 50, CSet (done_key "job-1") "w3:3" (fZ 1))]
        (on_store (fZ 5) (mark_done sample_guard "job-1" "w1:1")
           (on_store (fZ 0) (try_claim sample_guard "job-1" "w1:1") InMemoryKV.init).2).2)).1 = Ok ALREADY_DONE.
Proof.
  apply (done_short_circuits sample_guard _ (fZ 5) (fZ 3599) "job-1" "w1:1" "w2:2");
    try (vm_compute; reflexivity).
  apply (bool_decide_unpack _). vm_compute. exact I.
Defined.

(** A crashed delivery does not wedge the job.  A claim that is never released
    frees itself: once the store has let it lapse, if nobody else set the claim or
    the marker meanwhile, the next delivery obtains CLAIMED. *)
Theorem crashed_claim_expires {S : Type} `{!KVStore S, !KVView S, !KVStoreLaws S}
    (g : ExecutionGuard.t) (s : S) (t0 t1 t : float) (j d d' : string) (calls : list (float * kv_call)) :
  (on_store t0 (try_claim g j d) s).1 = Ok CLAIMED →
  let s' := (on_store t0 (try_claim g j d) s).2 in
  (t0 <=? t1)%float = true → kv_lapsed S t0 (claim_ttl_s g) t1 = true →
  (∀ t', (t1 <=? t')%float = true → kv_view t' s' (done_key j) = None) →
  monotonic t1 calls = true →
  Forall (λ c, ∀ v ttl, c.2 ≠ CSet (claim_key j) v ttl ∧ c.2 ≠ CSet (done_key j) v ttl) calls →
  (last_time t1 calls <=? t)%float = true →
  (on_store t (try_claim g j d') (kv_after calls s')).1 = Ok CLAIMED.
Proof.
  intros HC s' H1 He Hd Hm Hc Hl. rewrite try_claim_verdict by (by eapply fleb_self_r).
  unfold verdict.
  rewrite (absent_after calls t1 (done_key j) s'); [|done|done| |done].
  2:{ eapply Forall_impl; [exact Hc|]. intros c Hcc v ttl. apply (Hcc v ttl). }
  rewrite (absent_after calls t1 (claim_key j) s'); [done| |done| |done].
  2:{ eapply Forall_impl; [exact Hc|]. intros c Hcc v ttl. apply (Hcc v ttl). }
  intros t' Ht'. revert HC. unfold s', on_store. simpl.
  pose proof (kv_get_reply t0 (done_key j) s) as Hr.
  destruct (kv_get t0 (done_key j) s) as [r s1]; simpl in *. subst r.
  destruct (kv_view t0 s (done_key j)); simpl; [done|].
  assert (Ht0 : (t0 <=? t')%float = true) by eauto with orbiter.
  pose proof (kv_set_reply t0 (claim_key j) d (claim_ttl_s g) s1) as Hs.
  pose proof (kv_set_view t0 (claim_key j) d (claim_ttl_s g) s1 t' (claim_key j) Ht0) as Hv.
  destruct (kv_set_if_absent t0 (claim_key j) d (claim_ttl_s g) s1) as [[] s2]; cbn [fst snd] in *; [|done].
  intros _. cbn. rewrite Hv, decide_True by (split; [done|by apply Hs]).
  by rewrite (kv_lapsed_later _ _ _ _ Ht' He).
Qed.

Lemma crashed_claim_expires_witness :
  (on_store (fZ 21) (try_claim sample_guard "job-1" "w2:2")
     (kv_after [(fZ 20, CGet (claim_key "job-1"))]
        (on_store (fZ 0) (try_claim sample_guard "job-1" "w1:1") InMemoryKV.init).2)).1 = Ok CLAIMED.
Proof.
  apply (crashed_claim_expires sample_guard InMemoryKV.init (fZ 0) (fZ 20) (fZ 21) "job-1" "w1:1" "w2:2").
  - vm_compute. reflexivity.
  - reflexivity.
  - reflexivity.
  - intros t' _. reflexivity.
  - reflexivity.
  - repeat constructor; intros [=].
  - reflexivity.
Defined.
