(* ===== verification/Repo.v ===== *)
(** * The repository ([src/orbiter/db/repo.py], [src/orbiter/db/schema.sql])

    The three tables, the SQL statements the repository issues as functions on
    them, transactions, and the repository's operations.  A transaction that
    raises leaves the tables as they were; sequence values drawn in it stay
    drawn, as in Postgres.  Row locks ([FOR UPDATE]) and the unique index make
    each of these transactions one atomic step. *)
From Stdlib Require Import Floats.SpecFloat.
From stdpp Require Import sorting.
From S2P Require Import Prelude PyFloat PyJson Model StateMachine PyUuid KVStore Effects Fencing.

(** ** Tables ([schema.sql]) *)

Record JobRow := mkJobRow {
  jr_idempotency_key : string;
  jr_payload : json;
  jr_state : string;
  jr_attempts : Z;
  jr_fence_token : Z;
  jr_result : option json;
  jr_created_at : Z;
  jr_updated_at : Z
}.

Record EventRow := mkEventRow {
  er_id : Z;
  er_job_id : uuid;
  er_event : string;
  er_attempt : Z;
  er_detail : json;
  er_at : Z
}.

Record OutboxRow := mkOutboxRow {
  ob_id : Z;
  ob_job_id : uuid;
  ob_subject : string;
  ob_payload : json;
  ob_created_at : Z;
  ob_published_at : option Z
}.

(** [event_seq] and [outbox_seq] are the last values of the two BIGSERIAL sequences. *)
Record DB := mkDB {
  jobs : gmap uuid JobRow;
  job_events : list EventRow;
  outbox : list OutboxRow;
  event_seq : Z;
  outbox_seq : Z
}.

Definition empty_db : DB := mkDB ∅ [] [] 0 0.

(** ** Transactions *)

Definition Tx (A : Type) : Type := DB → result A * DB.

Definition tx_ret {A} (a : A) : Tx A := λ db, (Ok a, db).
Definition tx_raise {A} (e : exn) : Tx A := λ db, (Raise e, db).
Definition tx_bind {A B} (m : Tx A) (f : A → Tx B) : Tx B := λ db,
  match m db with
  | (Ok a, db') => f a db'
  | (Raise e, db') => (Raise e, db')
  end.
Definition tx_of {A} (r : result A) : Tx A :=
  match r with
  | Ok a => tx_ret a
  | Raise e => tx_raise e
  end.

Declare Scope tx_scope.
Delimit Scope tx_scope with tx.
Notation "'let*' x ':=' m 'in' k" := (tx_bind m (λ x, k))
  (at level 10, x binder, m at level 100, k at level 200) : tx_scope.
Open Scope tx_scope.

(** [async with conn.transaction()]: commit, or roll back on an exception. *)
Definition transaction {A} (body : Tx A) : Tx A := λ db,
  match body db with
  | (Ok a, db') => (Ok a, db')
  | (Raise e, db') =>
      (Raise e, mkDB (jobs db) (job_events db) (outbox db) (event_seq db') (outbox_seq db'))
  end.

(** ** SQL statements *)

Definition job_by_key (key : string) (db : DB) : option uuid :=
  fst <$> head (filter (λ p, jr_idempotency_key p.2 = key) (map_to_list (jobs db))).

(** INSERT INTO jobs ... ON CONFLICT (idempotency_key) DO NOTHING RETURNING id *)
Definition insert_job (now : Z) (id : uuid) (key : string) (payload : json) (state : string)
    : Tx (option uuid) := λ db,
  match job_by_key key db with
  | Some _ => (Ok None, db)
  | None =>
      match jobs db !! id with
      | Some _ => (Raise (UniqueViolationError "jobs_pkey"), db)
      | None =>
          (Ok (Some id),
           mkDB (<[id := mkJobRow key payload state 0 0 None now now]> (jobs db))
             (job_events db) (outbox db) (event_seq db) (outbox_seq db))
      end
  end.

(** SELECT id FROM jobs WHERE idempotency_key = $1 *)
Definition select_id_by_key (key : string) : Tx (option uuid) := λ db, (Ok (job_by_key key db), db).

(** INSERT INTO job_events (job_id, event, attempt, detail); the id is drawn from
    the sequence before the foreign key is checked. *)
Definition insert_event (now : Z) (id : uuid) (event : string) (attempt : Z) (detail : json)
    : Tx unit := λ db,
  let n := (event_seq db + 1)%Z in
  match jobs db !! id with
  | None =>
      (Raise (ExternalError "job_events_job_id_fkey"),
       mkDB (jobs db) (job_events db) (outbox db) n (outbox_seq db))
  | Some _ =>
      (Ok tt,
       mkDB (jobs db) (job_events db ++ [mkEventRow n id event attempt detail now])
         (outbox db) n (outbox_seq db))
  end.

(** INSERT INTO outbox (job_id, subject, payload) *)
Definition insert_outbox (now : Z) (id : uuid) (subject : string) (payload : json) : Tx unit := λ db,
  let n := (outbox_seq db + 1)%Z in
  match jobs db !! id with
  | None =>
      (Raise (ExternalError "outbox_job_id_fkey"),
       mkDB (jobs db) (job_events db) (outbox db) (event_seq db) n)
  | Some _ =>
      (Ok tt,
       mkDB (jobs db) (job_events db) (outbox db ++ [mkOutboxRow n id subject payload now None])
         (event_seq db) n)
  end.

(** SELECT ... FROM jobs WHERE id = $1 [FOR UPDATE] *)
Definition select_job (id : uuid) : Tx (option JobRow) := λ db, (Ok (jobs db !! id), db).

(** UPDATE jobs SET state, attempts = GREATEST, fence_token, result = COALESCE,
    updated_at WHERE id = $1 AND fence_token <= $4 RETURNING id *)
Definition update_job (now : Z) (id : uuid) (state : string) (attempt token : Z) (result : option json)
    : Tx (option uuid) := λ db,
  match jobs db !! id with
  | Some row =>
      if (jr_fence_token row <=? token)%Z then
        (Ok (Some id),
         mkDB (<[id := mkJobRow (jr_idempotency_key row) (jr_payload row) state
                         (Z.max (jr_attempts row) attempt) token
                         (match result with Some r => Some r | None => jr_result row end)
                         (jr_created_at row) now]> (jobs db))
           (job_events db) (outbox db) (event_seq db) (outbox_seq db))
      else (Ok None, db)
  | None => (Ok None, db)
  end.

(** ORDER BY id *)
Definition by_id {A} (id : A → Z) (a b : A) : Prop := (id a ≤ id b)%Z.

#[global] Instance by_id_dec {A} (id : A → Z) : RelDecision (by_id id).
Proof. intros a b. unfold by_id. apply _. Defined.

(** SELECT ... FROM job_events WHERE job_id = $1 ORDER BY id *)
Definition select_events (id : uuid) (db : DB) : list EventRow :=
  merge_sort (by_id er_id) (filter (λ e, er_job_id e = id) (job_events db)).

(** UPDATE outbox SET published_at = now() WHERE id = ANY($1) *)
Definition mark_published (now : Z) (ids : list Z) (db : DB) : DB :=
  mkDB (jobs db) (job_events db)
    ((λ o, if decide (ob_id o ∈ ids)
           then mkOutboxRow (ob_id o) (ob_job_id o) (ob_subject o) (ob_payload o) (ob_created_at o) (Some now)
           else o) <$> outbox db)
    (event_seq db) (outbox_seq db).

(** ** Operations *)

(** [json.dumps(detail or {})] *)
Definition detail_or_empty (detail : option dict) : json := JObj (default [] detail).

Definition submit_job (now : Z) (job_id : uuid) (carrier : dict)
    (idempotency_key : string) (payload : dict) (subject : string) : Tx (option uuid * bool) :=
  transaction (
    let* inserted := insert_job now job_id idempotency_key (JObj payload) (JobState.value JobState.QUEUED) in
    match inserted with
    | None =>
        let* existing := select_id_by_key idempotency_key in
        tx_ret (existing, false)
    | Some _ =>
        let* _ := insert_event now job_id (EventType.value EventType.SUBMITTED) 0 (JObj []) in
        let* _ := insert_event now job_id (EventType.value EventType.ENQUEUED) 0 (JObj []) in
        let message := JObj [("job_id", JStr (uuid_str job_id)); ("payload", JObj payload);
                             ("traceparent", JObj carrier)] in
        let* _ := insert_outbox now job_id subject message in
        tx_ret (Some job_id, true)
    end).

(** [_apply_event] *)
Definition apply_event (now : Z) (job_id : uuid) (event : EventType.t) (attempt : Z)
    (detail : option dict) (fence_token : option Z) (result : option dict) : Tx JobState.t :=
  let* row := select_job job_id in
  match row with
  | None => tx_raise (LookupError ("job " +:+ uuid_str job_id +:+ " not found"))
  | Some row =>
      let* current := tx_of (JobState_of (jr_state row)) in
      let* next_state := tx_of (apply (Some current) event) in
      let token := match fence_token with Some t => t | None => jr_fence_token row end in
      let* updated := update_job now job_id (JobState.value next_state) attempt token (JObj <$> result) in
      match updated with
      | None => tx_raise (StaleLeaseError (uuid_str job_id) token (jr_fence_token row))
      | Some _ =>
          let* _ := insert_event now job_id (EventType.value event) attempt (detail_or_empty detail) in
          tx_ret next_state
      end
  end.

Definition record_event (now : Z) (job_id : uuid) (event : EventType.t) (attempt : Z)
    (detail : option dict) (fence_token : option Z) (result : option dict) : Tx JobState.t :=
  transaction (apply_event now job_id event attempt detail fence_token result).

Definition replay_job (now : Z) (job_id : uuid) (subject : string) : Tx (option JobState.t) :=
  transaction (
    let* row := select_job job_id in
    match row with
    | None => tx_ret None
    | Some row =>
        let* state := apply_event now job_id EventType.REPLAYED 0 None None None in
        let message := JObj [("job_id", JStr (uuid_str job_id)); ("payload", jr_payload row)] in
        let* _ := insert_outbox now job_id subject message in
        tx_ret (Some state)
    end).

(** [JobEvent(type=EventType(r["event"]), ...)] *)
Definition event_of_row (r : EventRow) : result JobEvent :=
  result_bind (EventType_of (er_event r)) (λ ty,
    Ok (mkJobEvent ty (er_attempt r) (er_detail r) (er_at r))).

Definition replay_events (job_id : uuid) (db : DB) : result (list JobEvent) :=
  map_result event_of_row (select_events job_id db).

(** ** The invariant of the tables *)

(** Rows stand in the order of their ids, none above the sequence. *)
Definition ids_ok {A} (id : A → Z) (l : list A) (seq : Z) : Prop :=
  StronglySorted (λ a b, (id a < id b)%Z) l ∧ Forall (λ a, (id a ≤ seq)%Z) l.

Lemma ids_ok_nil {A} (id : A → Z) seq : ids_ok id [] seq.
Proof. split; constructor. Qed.

Lemma ids_ok_seq {A} (id : A → Z) l n n' : ids_ok id l n → (n ≤ n')%Z → ids_ok id l n'.
Proof. intros [Hs Hf] Hn. split; [done|]. eapply Forall_impl; [exact Hf|]. simpl. intros. lia. Qed.

Lemma ids_ok_snoc {A} (id : A → Z) l x n :
  ids_ok id l n → id x = (n + 1)%Z → ids_ok id (l ++ [x]) (n + 1).
Proof.
  intros [Hs Hf] Hx. rewrite Forall_forall in Hf. split.
  - apply StronglySorted_app. repeat split; [|done|repeat constructor].
    intros a y Ha ->%list_elem_of_singleton. specialize (Hf a Ha). lia.
  - apply Forall_app. split; [|constructor; [lia|constructor]].
    apply Forall_forall. intros a Ha. specialize (Hf a Ha). lia.
Qed.

Lemma ids_ok_snoc2 {A} (id : A → Z) l x y n :
  ids_ok id l n → id x = (n + 1)%Z → id y = (n + 2)%Z → ids_ok id (l ++ [x; y]) (n + 2).
Proof.
  intros H Hx Hy. change [x; y] with ([x] ++ [y]). rewrite app_assoc.
  replace (n + 2)%Z with (n + 1 + 1)%Z by lia.
  apply ids_ok_snoc; [by apply ids_ok_snoc|lia].
Qed.

Lemma StronglySorted_filter {A} (R : relation A) (P : A → Prop) `{!∀ x, Decision (P x)} l :
  StronglySorted R l → StronglySorted R (filter P l).
Proof.
  induction 1 as [|a l Hs IH Ha]; [constructor|]. rewrite filter_cons. case_decide; [|done].
  constructor; [done|]. apply Forall_forall. intros x [_ Hx]%list_elem_of_filter.
  rewrite Forall_forall in Ha. auto.
Qed.

(** The rows of one job, in the order of the table. *)
Definition rows_of (id : uuid) (db : DB) : list EventRow :=
  filter (λ e, er_job_id e = id) (job_events db).

(** The log of one job. *)
Definition log_of (id : uuid) (db : DB) : result (list JobEvent) := map_result event_of_row (rows_of id db).

#[global] Instance by_id_total {A} (id : A → Z) : Total (by_id id).
Proof. intros a b. unfold by_id. lia. Qed.
#[global] Instance by_id_trans {A} (id : A → Z) : Transitive (by_id id).
Proof. intros a b c. unfold by_id. lia. Qed.

(** Rows that stand in the order of their ids are already sorted. *)
Lemma merge_sort_by_id {A} (id : A → Z) l :
  StronglySorted (λ a b, (id a < id b)%Z) l → merge_sort (by_id id) l = l.
Proof.
  intros Hs. apply (StronglySorted_unique_strong (by_id id)).
  - intros x1 x2 H1 H2 H12 H21. unfold by_id in *. rewrite merge_sort_Permutation in H1.
    induction Hs as [|a l Hs IH Ha]; [set_solver|]. rewrite Forall_forall in Ha.
    apply elem_of_cons in H1 as [->|H1]; apply elem_of_cons in H2 as [->|H2]; auto.
    + specialize (Ha _ H2). lia.
    + specialize (Ha _ H1). lia.
  - apply (StronglySorted_merge_sort (by_id id)).
  - induction Hs as [|a l Hs IH Ha]; constructor; [done|].
    eapply Forall_impl; [exact Ha|]. intros b Hb. unfold by_id. simpl in Hb. lia.
  - apply merge_sort_Permutation.
Qed.

(** With rows in the order of their ids, ORDER BY id is the order of the table. *)
Lemma select_events_rows id db :
  ids_ok er_id (job_events db) (event_seq db) → select_events id db = rows_of id db.
Proof. intros [Hs _]. apply merge_sort_by_id. by apply StronglySorted_filter. Qed.

Definition outbox_of (id : uuid) (db : DB) : list OutboxRow :=
  filter (λ o, ob_job_id o = id) (outbox db).

(** The row of a job is the projection of its log: the state is the replay, the
    attempts are the largest attempt recorded. *)
Definition projects (row : JobRow) (log : list JobEvent) : Prop :=
  (∃ s, replay log = Ok s ∧ jr_state row = JobState.value s) ∧
  jr_attempts row = foldr Z.max 0%Z (attempt <$> log) ∧
  (0 ≤ jr_fence_token row)%Z.

Record db_ok (db : DB) : Prop := {
  ok_event_ids : ids_ok er_id (job_events db) (event_seq db);
  ok_outbox_ids : ids_ok ob_id (outbox db) (outbox_seq db);
  ok_events_fk : Forall (λ e, is_Some (jobs db !! er_job_id e)) (job_events db);
  ok_outbox_fk : Forall (λ o, is_Some (jobs db !! ob_job_id o)) (outbox db);
  ok_keys i j ri rj :
    jobs db !! i = Some ri → jobs db !! j = Some rj →
    jr_idempotency_key ri = jr_idempotency_key rj → i = j;
  ok_jobs id row : jobs db !! id = Some row → ∃ log, log_of id db = Ok log ∧ projects row log
}.

(** Every job has one outbox row for its submission and one per replay. *)
Definition outbox_covers (db : DB) : Prop :=
  ∀ id row log, jobs db !! id = Some row → log_of id db = Ok log →
    length (outbox_of id db) = S (count EventType.REPLAYED log).

Lemma empty_db_ok : db_ok empty_db ∧ outbox_covers empty_db.
Proof. repeat split; try constructor; try done. Qed.

(** ** What the operations do *)

(** The tables after an accepted event. *)
Definition write_event (now : Z) (id : uuid) (row : JobRow) (event : EventType.t) (next : JobState.t)
    (attempt : Z) (detail : option dict) (token : Z) (result : option dict) (db : DB) : DB :=
  mkDB
    (<[id := mkJobRow (jr_idempotency_key row) (jr_payload row) (JobState.value next)
               (Z.max (jr_attempts row) attempt) token
               (match result with Some r => Some (JObj r) | None => jr_result row end)
               (jr_created_at row) now]> (jobs db))
    (job_events db ++
       [mkEventRow (event_seq db + 1) id (EventType.value event) attempt (detail_or_empty detail) now])
    (outbox db) (event_seq db + 1) (outbox_seq db).

Definition add_outbox (now : Z) (id : uuid) (subject : string) (payload : json) (db : DB) : DB :=
  mkDB (jobs db) (job_events db)
    (outbox db ++ [mkOutboxRow (outbox_seq db + 1) id subject payload now None])
    (event_seq db) (outbox_seq db + 1).

(** The token an operation writes with: its own, or the row's. *)
Definition token_of (fence_token : option Z) (row : JobRow) : Z :=
  match fence_token with Some t => t | None => jr_fence_token row end.

Lemma apply_event_eq now id event attempt detail ft result db :
  apply_event now id event attempt detail ft result db =
    match jobs db !! id with
    | None => (Raise (LookupError ("job " +:+ uuid_str id +:+ " not found")), db)
    | Some row =>
        match JobState_of (jr_state row) with
        | Raise e => (Raise e, db)
        | Ok cur =>
            match apply (Some cur) event with
            | Raise e => (Raise e, db)
            | Ok next =>
                if (jr_fence_token row <=? token_of ft row)%Z
                then (Ok next, write_event now id row event next attempt detail (token_of ft row) result db)
                else (Raise (StaleLeaseError (uuid_str id) (token_of ft row) (jr_fence_token row)), db)
            end
        end
    end.
Proof.
  unfold apply_event, select_job, tx_bind. destruct (jobs db !! id) as [row|] eqn:Hr; [|done].
  destruct (JobState_of (jr_state row)) as [cur|]; [|done]. unfold tx_of, tx_ret.
  destruct (apply (Some cur) event) as [next|]; [|done].
  unfold update_job, token_of. rewrite Hr.
  destruct (jr_fence_token row <=? _)%Z; [|done].
  unfold insert_event. cbn [jobs]. rewrite lookup_insert_eq. unfold write_event.
  by destruct result.
Qed.

Lemma db_eta db : mkDB (jobs db) (job_events db) (outbox db) (event_seq db) (outbox_seq db) = db.
Proof. by destruct db. Qed.

Lemma record_event_eq now id event attempt detail ft result db :
  record_event now id event attempt detail ft result db =
  apply_event now id event attempt detail ft result db.
Proof.
  unfold record_event, transaction. rewrite apply_event_eq.
  repeat case_match; simplify_eq/=; by rewrite ?db_eta.
Qed.

Lemma replay_job_eq now id subject db :
  replay_job now id subject db =
    match jobs db !! id with
    | None => (Ok None, db)
    | Some row =>
        match apply_event now id EventType.REPLAYED 0 None None None db with
        | (Ok next, db') =>
            (Ok (Some next),
             add_outbox now id subject
               (JObj [("job_id", JStr (uuid_str id)); ("payload", jr_payload row)]) db')
        | (Raise e, _) => (Raise e, db)
        end
    end.
Proof.
  unfold replay_job, transaction, select_job, tx_bind.
  destruct (jobs db !! id) as [row|] eqn:Hr; [|done]. rewrite apply_event_eq, Hr.
  destruct (JobState_of (jr_state row)) as [cur|]; [|by rewrite db_eta].
  destruct (apply (Some cur) EventType.REPLAYED); [|by rewrite db_eta].
  destruct (jr_fence_token row <=? _)%Z; [|by rewrite db_eta].
  unfold insert_outbox, write_event. cbn [jobs]. by rewrite lookup_insert_eq.
Qed.

(** The tables after an accepted submission. *)
Definition write_submission (now : Z) (id : uuid) (carrier : dict) (key : string) (payload : dict)
    (subject : string) (db : DB) : DB :=
  mkDB
    (<[id := mkJobRow key (JObj payload) (JobState.value JobState.QUEUED) 0 0 None now now]> (jobs db))
    (job_events db ++
       [mkEventRow (event_seq db + 1) id (EventType.value EventType.SUBMITTED) 0 (JObj []) now;
        mkEventRow (event_seq db + 2) id (EventType.value EventType.ENQUEUED) 0 (JObj []) now])
    (outbox db ++
       [mkOutboxRow (outbox_seq db + 1) id subject
          (JObj [("job_id", JStr (uuid_str id)); ("payload", JObj payload); ("traceparent", JObj carrier)])
          now None])
    (event_seq db + 2) (outbox_seq db + 1).

Lemma submit_job_eq now id carrier key payload subject db :
  submit_job now id carrier key payload subject db =
    match job_by_key key db with
    | Some existing => (Ok (Some existing, false), db)
    | None =>
        match jobs db !! id with
        | Some _ => (Raise (UniqueViolationError "jobs_pkey"), db)
        | None => (Ok (Some id, true), write_submission now id carrier key payload subject db)
        end
    end.
Proof.
  unfold submit_job, transaction, tx_bind, insert_job, select_id_by_key.
  destruct (job_by_key key db) as [i|] eqn:Hk; [by rewrite Hk|].
  destruct (jobs db !! id) eqn:Hi; [by rewrite db_eta|].
  unfold insert_event, insert_outbox. cbn [jobs job_events outbox event_seq outbox_seq].
  repeat (rewrite lookup_insert_eq; cbn [jobs job_events outbox event_seq outbox_seq]).
  unfold tx_ret, write_submission.
  replace (event_seq db + 1 + 1)%Z with (event_seq db + 2)%Z by lia.
  by rewrite <- app_assoc.
Qed.

(** The job a key leads to is the one that carries it. *)
Lemma job_by_key_Some key db id :
  job_by_key key db = Some id → ∃ row, jobs db !! id = Some row ∧ jr_idempotency_key row = key.
Proof.
  unfold job_by_key. destruct (filter _ _) as [|[i r] l] eqn:E; [done|]. intros [= ->].
  assert (Hin : (id, r) ∈ filter (λ p : uuid * JobRow, jr_idempotency_key p.2 = key) (map_to_list (jobs db)))
    by (rewrite E; set_solver).
  apply list_elem_of_filter in Hin as [Hk Hin%elem_of_map_to_list]. eauto.
Qed.

Lemma job_by_key_None key db id row :
  job_by_key key db = None → jobs db !! id = Some row → jr_idempotency_key row ≠ key.
Proof.
  unfold job_by_key. destruct (filter _ _) as [|[i r] l] eqn:E; [|done]. intros _ Hrow Hk.
  assert (Hin : (id, row) ∈ filter (λ p : uuid * JobRow, jr_idempotency_key p.2 = key) (map_to_list (jobs db))).
  { apply list_elem_of_filter. split; [done|]. by apply elem_of_map_to_list. }
  rewrite E in Hin. set_solver.
Qed.

(** ** Preservation *)

Lemma foldr_max_nonneg (l : list Z) : (0 ≤ foldr Z.max 0%Z l)%Z.
Proof. induction l; simpl; lia. Qed.

Lemma foldr_max_snoc l a : foldr Z.max 0%Z (l ++ [a]) = Z.max (foldr Z.max 0%Z l) a.
Proof.
  pose proof (foldr_max_nonneg l). induction l as [|b l IH]; simpl in *; [lia|].
  rewrite IH; [lia|apply foldr_max_nonneg].
Qed.

Lemma log_write_event now id row ev next att det tok res db id' :
  log_of id' (write_event now id row ev next att det tok res db) =
    if decide (id' = id)
    then result_bind (log_of id db) (λ l, Ok (l ++ [mkJobEvent ev att (detail_or_empty det) now]))
    else log_of id' db.
Proof.
  unfold log_of, rows_of, write_event. cbn [job_events]. rewrite filter_app, map_result_app.
  case_decide; subst.
  - rewrite filter_cons_True by done. simpl. unfold event_of_row at 2. simpl.
    by rewrite EventType_of_value.
  - rewrite filter_cons_False by (simpl; congruence). simpl.
    destruct (map_result _ _); simpl; [by rewrite app_nil_r|done].
Qed.

Lemma is_Some_insert (m : gmap uuid JobRow) i x j : is_Some (m !! j) → is_Some (<[i := x]> m !! j).
Proof. rewrite lookup_insert. case_decide; eauto. Qed.

Lemma db_ok_write_event now id row ev cur next att det tok res db :
  db_ok db → jobs db !! id = Some row → JobState_of (jr_state row) = Ok cur →
  apply (Some cur) ev = Ok next → (jr_fence_token row ≤ tok)%Z →
  db_ok (write_event now id row ev next att det tok res db).
Proof.
  intros [He Ho Hef Hof Hk Hj] Hrow Hcur Hap Htok.
  destruct (Hj id row Hrow) as (log & Hlog & (s & Hs & Hst) & Hatt & Hf).
  rewrite Hst, JobState_of_value in Hcur. injection Hcur as ->. split.
  - by apply ids_ok_snoc.
  - done.
  - apply Forall_app. split.
    + eapply Forall_impl; [exact Hef|]. intros e. apply is_Some_insert.
    + constructor; [|constructor]. simpl. rewrite lookup_insert_eq. eauto.
  - eapply Forall_impl; [exact Hof|]. intros o. apply is_Some_insert.
  - intros i j ri rj. cbn [jobs write_event]. rewrite !lookup_insert.
    intros Hi Hj' Hkey. repeat case_decide; simplify_eq/=; eauto.
  - intros id' row'. rewrite log_write_event. cbn [jobs write_event]. rewrite lookup_insert.
    intros Hr'. repeat case_decide; simplify_eq/=; [|by apply Hj].
    rewrite Hlog. eexists. split; [done|]. repeat split; simpl.
    + exists next. split; [|done]. by rewrite (replay_snoc _ _ _ Hs).
    + rewrite fmap_app. simpl. by rewrite foldr_max_snoc, Hatt.
    + lia.
Qed.

Lemma covers_write_event now id row ev next att det tok res db :
  db_ok db → outbox_covers db → jobs db !! id = Some row → ev ≠ EventType.REPLAYED →
  outbox_covers (write_event now id row ev next att det tok res db).
Proof.
  intros Hok Hc Hrow Hev id' row' log'. rewrite log_write_event. cbn [jobs write_event].
  rewrite lookup_insert. intros Hr' Hl'. case_decide; subst.
  - case_decide; [|done]. destruct (log_of id db) as [log|] eqn:El; simplify_eq/=.
    rewrite count_app, count_one, decide_False, Nat.add_0_r by done. by eapply Hc.
  - rewrite decide_False in Hr' by done. by eapply Hc.
Qed.

Lemma db_ok_add_outbox now id subject payload db :
  db_ok db → is_Some (jobs db !! id) → db_ok (add_outbox now id subject payload db).
Proof.
  intros [He Ho Hef Hof Hk Hj] Hid. split; try done.
  - by apply ids_ok_snoc.
  - apply Forall_app. split; [done|]. by constructor; [|constructor].
Qed.

Lemma covers_replay now now' id row cur next att det tok res subject payload db :
  db_ok db → outbox_covers db → jobs db !! id = Some row →
  JobState_of (jr_state row) = Ok cur → apply (Some cur) EventType.REPLAYED = Ok next →
  outbox_covers (add_outbox now' id subject payload
                   (write_event now id row EventType.REPLAYED next att det tok res db)).
Proof.
  intros Hok Hc Hrow Hcur Hap id' row' log'. cbn [jobs add_outbox].
  change (log_of id' (add_outbox _ _ _ _ ?d)) with (log_of id' d).
  rewrite log_write_event. cbn [jobs write_event]. rewrite lookup_insert.
  unfold outbox_of. cbn [outbox add_outbox write_event]. rewrite filter_app, length_app.
  intros Hr' Hl'. case_decide; subst.
  - case_decide; [|done]. rewrite filter_cons_True by done.
    destruct (log_of id db) as [log|] eqn:El; simplify_eq/=.
    rewrite count_app, count_one, decide_True by done.
    pose proof (Hc id row log Hrow El) as Hn. unfold outbox_of in Hn. lia.
  - rewrite decide_False in Hr' by done. rewrite filter_cons_False by (simpl; congruence).
    pose proof (Hc id' row' log' Hr' Hl') as Hn. unfold outbox_of in Hn. simpl. lia.
Qed.

(** A job that does not exist has no rows. *)
Lemma rows_of_fresh id db : db_ok db → jobs db !! id = None → rows_of id db = [] ∧ outbox_of id db = [].
Proof.
  intros [_ _ Hef Hof _ _] Hid. unfold rows_of, outbox_of. rewrite Forall_forall in Hef. rewrite Forall_forall in Hof.
  split.
  - destruct (filter _ (job_events db)) as [|e l] eqn:E; [done|]. exfalso.
    assert (Hin : e ∈ filter (λ e, er_job_id e = id) (job_events db)) by (rewrite E; set_solver).
    apply list_elem_of_filter in Hin as [<- Hin]. apply Hef in Hin. rewrite Hid in Hin. by destruct Hin.
  - destruct (filter _ (outbox db)) as [|o l] eqn:E; [done|]. exfalso.
    assert (Hin : o ∈ filter (λ o, ob_job_id o = id) (outbox db)) by (rewrite E; set_solver).
    apply list_elem_of_filter in Hin as [<- Hin]. apply Hof in Hin. rewrite Hid in Hin. by destruct Hin.
Qed.

Definition submission_log (now : Z) : list JobEvent :=
  [mkJobEvent EventType.SUBMITTED 0 (JObj []) now; mkJobEvent EventType.ENQUEUED 0 (JObj []) now].

Lemma log_write_submission now id carrier key payload subject db id' :
  db_ok db → jobs db !! id = None →
  log_of id' (write_submission now id carrier key payload subject db) =
    if decide (id' = id) then Ok (submission_log now) else log_of id' db.
Proof.
  intros Hok Hid. destruct (rows_of_fresh id db Hok Hid) as [Hr _].
  unfold log_of, rows_of, write_submission in *. cbn [job_events].
  rewrite filter_app. case_decide; subst.
  - rewrite Hr, !filter_cons_True by done. done.
  - rewrite !filter_cons_False by (simpl; congruence). by rewrite filter_nil, app_nil_r.
Qed.

Lemma db_ok_write_submission now id carrier key payload subject db :
  db_ok db → job_by_key key db = None → jobs db !! id = None →
  db_ok (write_submission now id carrier key payload subject db).
Proof.
  intros Hok Hkey Hid. pose proof Hok as [He Ho Hef Hof Hk Hj]. split.
  - by apply ids_ok_snoc2.
  - by apply ids_ok_snoc.
  - apply Forall_app. split.
    + eapply Forall_impl; [exact Hef|]. intros e. apply is_Some_insert.
    + repeat constructor; simpl; rewrite lookup_insert_eq; eauto.
  - apply Forall_app. split.
    + eapply Forall_impl; [exact Hof|]. intros o. apply is_Some_insert.
    + repeat constructor; simpl; rewrite lookup_insert_eq; eauto.
  - intros i j ri rj. cbn [jobs write_submission]. rewrite !lookup_insert.
    intros H1 H2 Hke. repeat case_decide; simplify_eq/=; eauto;
      exfalso; by eapply job_by_key_None.
  - intros id' row'. rewrite log_write_submission by done. cbn [jobs write_submission].
    rewrite lookup_insert. intros Hr'. repeat case_decide; simplify_eq/=; [|by apply Hj].
    eexists. split; [done|]. repeat split; simpl; [|lia].
    exists JobState.QUEUED. done.
Qed.

Lemma covers_write_submission now id carrier key payload subject db :
  db_ok db → outbox_covers db → jobs db !! id = None →
  outbox_covers (write_submission now id carrier key payload subject db).
Proof.
  intros Hok Hc Hid id' row' log'. rewrite log_write_submission by done.
  cbn [jobs write_submission]. rewrite lookup_insert.
  destruct (rows_of_fresh id db Hok Hid) as [_ Hob]. unfold outbox_of in *.
  cbn [outbox write_submission]. rewrite filter_app, length_app. intros Hr' Hl'.
  case_decide; subst.
  - rewrite Hob, filter_cons_True by done. case_decide; simplify_eq/=. done.
  - rewrite decide_False in Hr' by done. rewrite filter_cons_False by (simpl; congruence).
    pose proof (Hc id' row' log' Hr' Hl') as Hn. unfold outbox_of in Hn. simpl. lia.
Qed.

Lemma outbox_of_mark now ids id db :
  length (outbox_of id (mark_published now ids db)) = length (outbox_of id db).
Proof.
  unfold outbox_of, mark_published. cbn [outbox].
  induction (outbox db) as [|o l IH]; [done|]. rewrite fmap_cons, !filter_cons.
  assert (E : ob_job_id (if decide (ob_id o ∈ ids)
     then mkOutboxRow (ob_id o) (ob_job_id o) (ob_subject o) (ob_payload o) (ob_created_at o) (Some now)
     else o) = ob_job_id o) by (by case_decide).
  rewrite E. destruct (decide (ob_job_id o = id)); simpl; congruence.
Qed.

Lemma db_ok_mark_published now ids db :
  db_ok db → outbox_covers db → db_ok (mark_published now ids db) ∧ outbox_covers (mark_published now ids db).
Proof.
  intros [He Ho Hef Hof Hk Hj] Hc. split; [split; try done|].
  - destruct Ho as [Hs Hf]. unfold mark_published. cbn [outbox outbox_seq]. split.
    + clear Hf Hof. induction Hs as [|o l Hs IH Ha]; simpl; [constructor|]. constructor; [done|].
      apply Forall_fmap. eapply Forall_impl; [exact Ha|]. intros x Hx. simpl.
      repeat case_decide; done.
    + apply Forall_fmap. eapply Forall_impl; [exact Hf|]. intros x Hx. simpl. by case_decide.
  - unfold mark_published. cbn [outbox jobs]. apply Forall_fmap.
    eapply Forall_impl; [exact Hof|]. intros x Hx. simpl. by case_decide.
  - intros id row log Hrow Hlog. rewrite outbox_of_mark. by eapply Hc.
Qed.

(** ** Every transaction of the platform *)
Inductive repo_step (db : DB) : DB → Prop :=
  | step_submit now id carrier key payload subject :
      repo_step db (submit_job now id carrier key payload subject db).2
  | step_record now id event attempt detail fence_token result :
      event ≠ EventType.REPLAYED →
      repo_step db (record_event now id event attempt detail fence_token result db).2
  | step_replay now id subject :
      repo_step db (replay_job now id subject db).2
  | step_publish now ids :
      repo_step db (mark_published now ids db).

(** The ways a transaction can change the tables. *)
Inductive db_change (db : DB) : DB → Prop :=
  | change_none : db_change db db
  | change_submit now id carrier key payload subject :
      job_by_key key db = None → jobs db !! id = None →
      db_change db (write_submission now id carrier key payload subject db)
  | change_event now id row event cur next attempt detail tok result :
      event ≠ EventType.REPLAYED →
      jobs db !! id = Some row → JobState_of (jr_state row) = Ok cur →
      apply (Some cur) event = Ok next → (jr_fence_token row ≤ tok)%Z →
      db_change db (write_event now id row event next attempt detail tok result db)
  | change_replay now id row cur next subject payload :
      jobs db !! id = Some row → JobState_of (jr_state row) = Ok cur →
      apply (Some cur) EventType.REPLAYED = Ok next →
      db_change db (add_outbox now id subject payload
        (write_event now id row EventType.REPLAYED next 0 None (jr_fence_token row) None db))
  | change_publish now ids : db_change db (mark_published now ids db).

Lemma repo_step_change db db' : repo_step db db' → db_change db db'.
Proof.
  intros [now id carrier key payload subject|now id event attempt detail ft result Hev
         |now id subject|now ids].
  - rewrite submit_job_eq. destruct (job_by_key key db) eqn:Hk; [constructor|].
    destruct (jobs db !! id) eqn:Hi; [constructor|]. by apply change_submit.
  - rewrite record_event_eq, apply_event_eq.
    destruct (jobs db !! id) as [row|] eqn:Hr; [|constructor].
    destruct (JobState_of (jr_state row)) as [cur|] eqn:Hc; [|constructor].
    destruct (apply (Some cur) event) as [next|] eqn:Ha; [|constructor].
    destruct (Z.leb_spec (jr_fence_token row) (token_of ft row)); [|constructor].
    by eapply change_event.
  - rewrite replay_job_eq, apply_event_eq.
    destruct (jobs db !! id) as [row|] eqn:Hr; [|constructor].
    destruct (JobState_of (jr_state row)) as [cur|] eqn:Hc; [|constructor].
    destruct (apply (Some cur) EventType.REPLAYED) as [next|] eqn:Ha; [|constructor].
    cbn [token_of]. rewrite Z.leb_refl. by eapply change_replay.
  - constructor.
Qed.

Lemma db_change_ok db db' :
  db_change db db' → db_ok db → outbox_covers db → db_ok db' ∧ outbox_covers db'.
Proof.
  intros Hch Hok Hc. destruct Hch as [|now id carrier key payload subject Hk Hi
    |now id row event cur next attempt detail tok result Hev Hr Hcur Ha Ht
    |now id row cur next subject payload Hr Hcur Ha|now ids].
  - done.
  - split; [by apply db_ok_write_submission|by apply covers_write_submission].
  - split; [by eapply db_ok_write_event|by eapply covers_write_event].
  - split; [|by eapply covers_replay].
    apply db_ok_add_outbox; [by eapply db_ok_write_event|]. simpl. rewrite lookup_insert_eq. eauto.
  - by apply db_ok_mark_published.
Qed.

Lemma reachable_ok db : rtc repo_step empty_db db → db_ok db ∧ outbox_covers db.
Proof.
  intros H. assert (Hgen : ∀ db0, rtc repo_step db0 db → db_ok db0 ∧ outbox_covers db0 → db_ok db ∧ outbox_covers db).
  { clear H. induction 1 as [|x y z Hs _ IH]; intros [Hok Hc]; [done|]. apply IH.
    eapply db_change_ok; eauto using repo_step_change. }
  eapply Hgen; [exact H|apply empty_db_ok].
Qed.

(** ** What transactions never undo *)

(** [row] of job [id] evolves to [row']: identity fields are fixed, the fencing
    token and the attempts do not go back, the log grows at its end. *)
Definition evolves (id : uuid) (db db' : DB) : Prop :=
  ∀ row log, jobs db !! id = Some row → log_of id db = Ok log →
    ∃ row' log', jobs db' !! id = Some row' ∧ log_of id db' = Ok log' ∧
      log `prefix_of` log' ∧
      jr_idempotency_key row' = jr_idempotency_key row ∧ jr_payload row' = jr_payload row ∧
      jr_created_at row' = jr_created_at row ∧
      (jr_fence_token row ≤ jr_fence_token row')%Z ∧ (jr_attempts row ≤ jr_attempts row')%Z.

Lemma evolves_refl id db : evolves id db db.
Proof. intros row log Hr Hl. exists row, log. repeat split; done || lia. Qed.

Lemma evolves_trans id db1 db2 db3 : evolves id db1 db2 → evolves id db2 db3 → evolves id db1 db3.
Proof.
  intros H12 H23 row log Hr Hl.
  destruct (H12 row log Hr Hl) as (row2 & log2 & Hr2 & Hl2 & Hp2 & Hk2 & Hy2 & Hc2 & Hf2 & Ha2).
  destruct (H23 row2 log2 Hr2 Hl2) as (row3 & log3 & Hr3 & Hl3 & Hp3 & Hk3 & Hy3 & Hc3 & Hf3 & Ha3).
  exists row3, log3. repeat split; try congruence; try lia. by etrans.
Qed.

Lemma evolves_write_event now id row ev next att det tok res db id' :
  jobs db !! id = Some row → (jr_fence_token row ≤ tok)%Z →
  evolves id' db (write_event now id row ev next att det tok res db).
Proof.
  intros Hrow Ht row' log' Hr' Hl'. rewrite log_write_event. cbn [jobs write_event].
  rewrite lookup_insert. destruct (decide (id' = id)) as [->|Hne].
  - rewrite decide_True by done. simplify_eq. rewrite Hl'. do 2 eexists. do 2 (split; [done|]).
    repeat split; simpl; try lia. by eexists.
  - rewrite decide_False by done. exists row', log'. repeat split; done || lia.
Qed.

Lemma db_change_evolves db db' id : db_ok db → db_change db db' → evolves id db db'.
Proof.
  intros Hok [|now id0 carrier key payload subject Hk Hi
    |now id0 row event cur next attempt detail tok result Hev Hr Hcur Ha Ht
    |now id0 row cur next subject payload Hr Hcur Ha|now ids].
  - apply evolves_refl.
  - intros row log Hr Hl. rewrite log_write_submission by done. cbn [jobs write_submission].
    rewrite lookup_insert. destruct (decide (id = id0)) as [->|Hne]; [congruence|].
    rewrite decide_False by done. exists row, log. repeat split; done || lia.
  - by apply evolves_write_event.
  - by apply evolves_write_event.
  - intros row' log' Hr' Hl'. exists row', log'. repeat split; done || lia.
Qed.

Lemma db_change_terminal db db' id row s :
  db_ok db → db_change db db' → jobs db !! id = Some row → jr_state row = JobState.value s →
  is_terminal s = true → jobs db' !! id = Some row ∧ log_of id db' = log_of id db.
Proof.
  intros Hok Hch Hrow Hst Hterm.
  assert (Hno : ∀ e, apply (Some s) e = Raise (IllegalTransition (Some s) e)) by (intros; by apply apply_terminal).
  destruct Hch as [|now id0 carrier key payload subject Hk Hi
    |now id0 row0 event cur next attempt detail tok result Hev Hr Hcur Ha Ht
    |now id0 row0 cur next subject payload Hr Hcur Ha|now ids]; try done.
  - rewrite log_write_submission by done. cbn [jobs write_submission]. rewrite lookup_insert_ne by congruence.
    rewrite decide_False by congruence. done.
  - destruct (decide (id0 = id)) as [->|Hne].
    + simplify_eq. rewrite Hst, JobState_of_value in Hcur. simplify_eq. by rewrite Hno in Ha.
    + rewrite log_write_event. cbn [jobs write_event]. rewrite lookup_insert_ne by done.
      rewrite decide_False by done. done.
  - change (log_of id (add_outbox _ _ _ _ ?d)) with (log_of id d).
    destruct (decide (id0 = id)) as [->|Hne].
    + simplify_eq. rewrite Hst, JobState_of_value in Hcur. simplify_eq. by rewrite Hno in Ha.
    + rewrite log_write_event. cbn [jobs write_event add_outbox]. rewrite lookup_insert_ne by done.
      rewrite decide_False by done. done.
Qed.

(** A concrete history: one job submitted, started and completed under token 1;
    a second one dead-lettered. *)
Definition sample_db1 : DB :=
  (submit_job 100 1 [] "key-1" [("duration_ms", JInt 10)] "orbiter.jobs" empty_db).2.
Definition sample_db2 : DB := (record_event 110 1 EventType.STARTED 1 None (Some 1%Z) None sample_db1).2.
Definition sample_db3 : DB :=
  (record_event 120 1 EventType.COMPLETED 1 None (Some 1%Z) (Some [("elapsed_ms", JInt 10)]) sample_db2).2.
Definition sample_db4 : DB :=
  (submit_job 130 2 [] "key-2" [("poison", JBool true)] "orbiter.jobs" sample_db3).2.
Definition sample_db5 : DB :=
  (record_event 140 2 EventType.DEAD_LETTERED 5 (Some [("deliveries", JInt 5)]) None None sample_db4).2.

Lemma sample_db3_reachable : rtc repo_step empty_db sample_db3.
Proof.
  eapply rtc_l; [apply (step_submit _ 100 1 [] "key-1" [("duration_ms", JInt 10)] "orbiter.jobs")|].
  eapply rtc_l; [by apply (step_record _ 110 1 EventType.STARTED 1 None (Some 1%Z) None)|].
  eapply rtc_l; [by apply (step_record _ 120 1 EventType.COMPLETED 1 None (Some 1%Z) (Some [("elapsed_ms", JInt 10)]))|].
  apply rtc_refl.
Qed.

Lemma sample_db5_later : rtc repo_step sample_db3 sample_db5.
Proof.
  eapply rtc_l; [apply (step_submit _ 130 2 [] "key-2" [("poison", JBool true)] "orbiter.jobs")|].
  eapply rtc_l; [by apply (step_record _ 140 2 EventType.DEAD_LETTERED 5 (Some [("deliveries", JInt 5)]) None None)|].
  apply rtc_refl.
Qed.

Lemma sample_db5_reachable : rtc repo_step empty_db sample_db5.
Proof. etrans; [apply sample_db3_reachable|apply sample_db5_later]. Qed.

Definition sample_row3 : JobRow :=
  mkJobRow "key-1" (JObj [("duration_ms", JInt 10)]) "succeeded" 1 1
    (Some (JObj [("elapsed_ms", JInt 10)])) 100 120.

Definition sample_row5 : JobRow := mkJobRow "key-2" (JObj [("poison", JBool true)]) "dead_letter" 5 0 None 130 140.

(** * Properties *)

(** C7: the audit trail is the source of truth.  In every database reachable from
    the empty one by any interleaving of the platform's transactions
    (submissions, worker and dead-letter events, operator replays, outbox
    marks), for every job: the rows of its log read back as events, the log
    replays, the cached state column is exactly the replayed state, and the
    attempts column is the largest attempt of the log. *)
Theorem state_is_projection (db : DB) (id : uuid) (row : JobRow) :
  rtc repo_step empty_db db → jobs db !! id = Some row →
  ∃ log s, replay_events id db = Ok log ∧ replay log = Ok s ∧ jr_state row = JobState.value s ∧
    jr_attempts row = foldr Z.max 0%Z (attempt <$> log).
Proof.
  intros Hr Hrow. destruct (reachable_ok db Hr) as [Hok _].
  destruct (ok_jobs db Hok id row Hrow) as (log & Hlog & (s & Hs & Hst) & Hatt & _).
  exists log, s. split; [|done]. unfold replay_events.
  by rewrite select_events_rows by apply Hok.
Qed.

Lemma state_is_projection_witness :
  ∃ log s, replay_events 1 sample_db3 = Ok log ∧ replay log = Ok s ∧
    jr_state sample_row3 = JobState.value s ∧ jr_attempts sample_row3 = foldr Z.max 0%Z (attempt <$> log).
Proof.
  apply (state_is_projection sample_db3 1 sample_row3 sample_db3_reachable). vm_compute. reflexivity.
Defined.

(** C17: the transactional outbox has no dual-write window.  In every reachable
    database each job has exactly one outbox row for its submission and one for
    each REPLAYED event of its log, and every outbox row belongs to an existing
    job: nothing exists that will not be published, nothing can be published
    that does not exist. *)
Theorem outbox_no_dual_write (db : DB) :
  rtc repo_step empty_db db →
  (∀ id row, jobs db !! id = Some row →
     ∃ log, replay_events id db = Ok log ∧
            length (outbox_of id db) = S (count EventType.REPLAYED log)) ∧
  (∀ o, o ∈ outbox db → is_Some (jobs db !! ob_job_id o)).
Proof.
  intros Hr. destruct (reachable_ok db Hr) as [Hok Hc]. split.
  - intros id row Hrow. destruct (ok_jobs db Hok id row Hrow) as (log & Hlog & _).
    exists log. split; [|by eapply Hc]. unfold replay_events.
    by rewrite select_events_rows by apply Hok.
  - intros o Ho. pose proof (ok_outbox_fk db Hok) as Hof. rewrite Forall_forall in Hof. auto.
Qed.

Lemma outbox_no_dual_write_witness :
  ∃ log, replay_events 2 sample_db5 = Ok log ∧
         length (outbox_of 2 sample_db5) = S (count EventType.REPLAYED log).
Proof.
  apply (outbox_no_dual_write sample_db5 sample_db5_reachable) with (row := sample_row5).
  vm_compute. reflexivity.
Defined.

(** C27: the log is append-only and fences do not go back.  Across any further
    transactions a job keeps its key, payload and creation time, its log only
    grows at the end, and neither its fencing token nor its attempts decrease. *)
Theorem transactions_append_only (db db' : DB) (id : uuid) :
  rtc repo_step empty_db db → rtc repo_step db db' → evolves id db db'.
Proof.
  intros H0 H. destruct (reachable_ok db H0) as [Hok Hc]. clear H0.
  induction H as [|x y z Hs _ IH]; [apply evolves_refl|].
  apply repo_step_change in Hs. destruct (db_change_ok x y Hs Hok Hc) as [Hok' Hc'].
  eapply evolves_trans; [by apply db_change_evolves|by apply IH].
Qed.

Lemma transactions_append_only_witness : evolves 1 sample_db3 sample_db5.
Proof. apply (transactions_append_only _ _ _ sample_db3_reachable sample_db5_later). Defined.

(** C25: a finished job is frozen.  Once the cached state is terminal, no sequence
    of transactions changes anything of the row (state, result, attempts, token,
    timestamps) or of the log: no double completion at the record level. *)
Theorem terminal_row_frozen (db db' : DB) (id : uuid) (row : JobRow) (s : JobState.t) :
  rtc repo_step empty_db db → rtc repo_step db db' →
  jobs db !! id = Some row → jr_state row = JobState.value s → is_terminal s = true →
  jobs db' !! id = Some row ∧ replay_events id db' = replay_events id db.
Proof.
  intros H0 H Hrow Hst Ht.
  assert (Hl : jobs db' !! id = Some row ∧ log_of id db' = log_of id db ∧ db_ok db ∧ db_ok db').
  { destruct (reachable_ok db H0) as [Hok Hc]. clear H0.
    induction H as [|x y z Hs _ IH]; [done|]. apply repo_step_change in Hs.
    destruct (db_change_ok x y Hs Hok Hc) as [Hok' Hc'].
    destruct (db_change_terminal x y id row s Hok Hs Hrow Hst Ht) as [Hrow' Hlog'].
    destruct (IH Hrow' Hok' Hc') as (? & E & _ & ?). rewrite E, Hlog'. done. }
  destruct Hl as (Hr' & El & Hok & Hok'). split; [done|]. unfold replay_events.
  rewrite !select_events_rows by (apply Hok || apply Hok'). exact El.
Qed.

Lemma terminal_row_frozen_witness :
  jobs sample_db5 !! 1%N = Some sample_row3 ∧ replay_events 1 sample_db5 = replay_events 1 sample_db3.
Proof.
  apply (terminal_row_frozen sample_db3 sample_db5 1 sample_row3 JobState.SUCCEEDED
           sample_db3_reachable sample_db5_later); vm_compute; reflexivity.
Defined.

(** [record_event] on every branch.  No such job: [LookupError].  Otherwise the
    transition is judged first: if it is not legal, [IllegalTransition] with the
    state and the event; then the fence: a token older than the accepted one,
    [StaleLeaseError] with both.  In all these cases the database is as before.
    If both pass, the event is appended and the row updated; without a token the
    fence never rejects. *)
Theorem record_event_branches (db : DB) (now : Z) (id : uuid) (event : EventType.t) (att : Z)
    (det : option dict) (ft : option Z) (res : option dict) :
  rtc repo_step empty_db db →
  match jobs db !! id with
  | None =>
      record_event now id event att det ft res db =
        (Raise (LookupError ("job " +:+ uuid_str id +:+ " not found")), db)
  | Some row =>
      ∃ s, jr_state row = JobState.value s ∧
      record_event now id event att det ft res db =
        match apply (Some s) event with
        | Raise _ => (Raise (IllegalTransition (Some s) event), db)
        | Ok next =>
            if (token_of ft row <? jr_fence_token row)%Z
            then (Raise (StaleLeaseError (uuid_str id) (token_of ft row) (jr_fence_token row)), db)
            else (Ok next, write_event now id row event next att det (token_of ft row) res db)
        end ∧
      (ft = None → token_of ft row = jr_fence_token row)
  end.
Proof.
  intros Hr. destruct (reachable_ok db Hr) as [Hok _]. rewrite record_event_eq, apply_event_eq.
  destruct (jobs db !! id) as [row|] eqn:Hrow; [|done].
  destruct (ok_jobs db Hok id row Hrow) as (log & _ & (s & _ & Hst) & _).
  exists s. split; [done|]. split; [|by intros ->]. rewrite Hst, JobState_of_value.
  destruct (apply_cases (Some s) event) as [[s' ->]| ->]; [|done].
  by rewrite Z.ltb_antisym, negb_if.
Qed.

Lemma record_event_branches_witness :
  ∃ s, jr_state sample_row3 = JobState.value s ∧
    record_event 200 1 EventType.STARTED 2 None (Some 2%Z) None sample_db3 =
      match apply (Some s) EventType.STARTED with
      | Raise _ => (Raise (IllegalTransition (Some s) EventType.STARTED), sample_db3)
      | Ok next =>
          if (2 <? jr_fence_token sample_row3)%Z
          then (Raise (StaleLeaseError (uuid_str 1) 2 (jr_fence_token sample_row3)), sample_db3)
          else (Ok next, write_event 200 1 sample_row3 EventType.STARTED next 2 None 2 None sample_db3)
      end ∧ (Some 2%Z = None → 2%Z = jr_fence_token sample_row3).
Proof.
  exact (record_event_branches sample_db3 200 1 EventType.STARTED 2 None (Some 2%Z) None sample_db3_reachable).
Defined.

(** C26: submission is idempotent.  After a submission with key [k] answered with
    job [r], created or not, every later submission with the same key, whatever
    its payload and however many transactions ran in between, answers [r] with
    [created = False] and changes nothing. *)
Theorem submit_idempotent (db db' : DB) (now now' : Z) (id id' : uuid) (carrier carrier' : dict)
    (k : string) (payload payload' : dict) (subject subject' : string) (r : option uuid) (created : bool) :
  rtc repo_step empty_db db →
  (submit_job now id carrier k payload subject db).1 = Ok (r, created) →
  rtc repo_step (submit_job now id carrier k payload subject db).2 db' →
  is_Some r ∧ submit_job now' id' carrier' k payload' subject' db' = (Ok (r, false), db').
Proof.
  intros H0 Hsub H.
  assert (H1 : rtc repo_step empty_db (submit_job now id carrier k payload subject db).2).
  { eapply rtc_r; [exact H0|constructor]. }
  assert (Hj : ∃ i row, r = Some i ∧ jobs (submit_job now id carrier k payload subject db).2 !! i = Some row ∧
                        jr_idempotency_key row = k).
  { revert Hsub. rewrite submit_job_eq. destruct (job_by_key k db) as [i|] eqn:Hk.
    - intros [= <- _]. apply job_by_key_Some in Hk as (row & ? & ?). eauto.
    - destruct (jobs db !! id) eqn:Hi; [done|]. intros [= <- _].
      eexists id, _. split; [done|]. split; [apply lookup_insert_eq|done]. }
  destruct Hj as (i & row & -> & Hrow & Hkey). split; [eauto|].
  set (db1 := (submit_job now id carrier k payload subject db).2) in *.
  destruct (reachable_ok db1 H1) as [Hok1 Hc1].
  destruct (ok_jobs db1 Hok1 i row Hrow) as (log & Hlog & _).
  assert (Hev : evolves i db1 db' ∧ db_ok db').
  { clear Hsub H0 H1 Hrow Hlog. induction H as [|x y z Hs _ IH]; [split; [apply evolves_refl|done]|].
    apply repo_step_change in Hs. destruct (db_change_ok x y Hs Hok1 Hc1) as [Hok' Hc'].
    destruct (IH Hok' Hc') as [He Hok]. split; [|done].
    eapply evolves_trans; [by apply db_change_evolves|done]. }
  destruct Hev as [Hev Hok']. destruct (Hev row log Hrow Hlog) as (row' & _ & Hrow' & _ & _ & Hk' & _).
  rewrite submit_job_eq. destruct (job_by_key k db') as [i'|] eqn:Hk2.
  - apply job_by_key_Some in Hk2 as (row2 & Hr2 & Hkk).
    by rewrite (ok_keys db' Hok' i i' row' row2 Hrow' Hr2) by congruence.
  - exfalso. eapply job_by_key_None; [exact Hk2|exact Hrow'|congruence].
Qed.

Lemma submit_idempotent_witness :
  is_Some (Some 2%N) ∧
  submit_job 300 7 [] "key-2" [("duration_ms", JInt 999)] "elsewhere" sample_db5 = (Ok (Some 2%N, false), sample_db5).
Proof.
  apply (submit_idempotent sample_db3 sample_db5 130 300 2 7 [] [] "key-2" [("poison", JBool true)]
           [("duration_ms", JInt 999)] "orbiter.jobs" "elsewhere" (Some 2%N) true).
  - apply sample_db3_reachable.
  - vm_compute. reflexivity.
  - eapply rtc_l; [by apply (step_record _ 140 2 EventType.DEAD_LETTERED 5 (Some [("deliveries", JInt 5)]) None None)|].
    apply rtc_refl.
Defined.

(** The newest token a [FencedWriter] has accepted for a job is the fence of its row. *)
Definition fence_agrees (id : uuid) (w : FencedWriter.t) (db : DB) : Prop :=
  ∀ row, jobs db !! id = Some row → FencedWriter.newest_accepted (uuid_str id) w = jr_fence_token row.

(** C24: the WHERE clause implements [FencedWriter].  For a legal transition with a
    token, the UPDATE's [fence_token <= $4] accepts exactly when
    [FencedWriter.check] on the job's id does; it raises the very same
    [StaleLeaseError] and changes nothing when it rejects, and the two still
    agree on the newest accepted token when it accepts. *)
Theorem where_clause_refines_fenced_writer (db : DB) (w : FencedWriter.t) (now : Z) (id : uuid)
    (row : JobRow) (s next : JobState.t) (event : EventType.t) (att tok : Z)
    (det res : option dict) :
  jobs db !! id = Some row → jr_state row = JobState.value s → apply (Some s) event = Ok next →
  fence_agrees id w db →
  match FencedWriter.check (uuid_str id) tok w with
  | Raise e => record_event now id event att det (Some tok) res db = (Raise e, db)
  | Ok w' =>
      (record_event now id event att det (Some tok) res db).1 = Ok next ∧
      fence_agrees id w' (record_event now id event att det (Some tok) res db).2
  end.
Proof.
  intros Hrow Hst Ha Hag. specialize (Hag row Hrow). rewrite record_event_eq, apply_event_eq.
  rewrite Hrow, Hst, JobState_of_value, Ha. cbn [token_of].
  unfold FencedWriter.check, FencedWriter.newest_accepted in *. rewrite Hag.
  rewrite Z.ltb_antisym. destruct (jr_fence_token row <=? tok)%Z; [|done]. split; [done|].
  intros row'. cbn [snd jobs write_event]. rewrite lookup_insert_eq. intros [= <-].
  unfold FencedWriter.newest_accepted. by rewrite lookup_insert_eq.
Qed.

Lemma where_clause_refines_fenced_writer_witness :
  record_event 115 1 EventType.COMPLETED 1 None (Some 0%Z) None sample_db2 =
  (Raise (StaleLeaseError (uuid_str 1) 0 1), sample_db2).
Proof.
  refine (where_clause_refines_fenced_writer sample_db2 {[uuid_str 1 := 1%Z]} 115 1
           (mkJobRow "key-1" (JObj [("duration_ms", JInt 10)]) "running" 1 1 None 100 110)
           JobState.RUNNING JobState.SUCCEEDED EventType.COMPLETED 1 0 None None _ _ _ _).
  - vm_compute. reflexivity.
  - reflexivity.
  - reflexivity.
  - intros row. vm_compute. by intros [= <-].
Defined.

(** Operator replay.  An unknown job answers None; a job that is not
    dead-lettered raises [IllegalTransition]; in both cases nothing changes.  A
    dead-lettered job goes back to QUEUED and, in the same transaction, exactly
    one outbox row is added: unpublished, for this job, carrying its original
    payload. *)
Theorem replay_job_branches (db : DB) (now : Z) (id : uuid) (subject : string) :
  rtc repo_step empty_db db →
  match jobs db !! id with
  | None => replay_job now id subject db = (Ok None, db)
  | Some row =>
      ∃ s, jr_state row = JobState.value s ∧
      (s ≠ JobState.DEAD_LETTER →
         replay_job now id subject db = (Raise (IllegalTransition (Some s) EventType.REPLAYED), db)) ∧
      (s = JobState.DEAD_LETTER →
         let db' := (replay_job now id subject db).2 in
         (replay_job now id subject db).1 = Ok (Some JobState.QUEUED) ∧
         (∃ row', jobs db' !! id = Some row' ∧ jr_state row' = JobState.value JobState.QUEUED) ∧
         outbox db' = outbox db ++
           [mkOutboxRow (outbox_seq db + 1) id subject
              (JObj [("job_id", JStr (uuid_str id)); ("payload", jr_payload row)]) now None])
  end.
Proof.
  intros Hr. destruct (reachable_ok db Hr) as [Hok _]. rewrite replay_job_eq, apply_event_eq.
  destruct (jobs db !! id) as [row|] eqn:Hrow; [|done].
  destruct (ok_jobs db Hok id row Hrow) as (log & _ & (s & _ & Hst) & _).
  exists s. split; [done|]. rewrite Hst, JobState_of_value. cbn [token_of]. split.
  - intros Hs. by destruct s.
  - intros ->. simpl. rewrite Z.leb_refl. split; [done|]. split; [|done].
    eexists. split; [apply lookup_insert_eq|done].
Qed.

Lemma replay_job_branches_witness :
  let db' := (replay_job 150 2 "orbiter.jobs" sample_db5).2 in
  ∃ s, jr_state sample_row5 = JobState.value s ∧
    (s ≠ JobState.DEAD_LETTER →
       replay_job 150 2 "orbiter.jobs" sample_db5 = (Raise (IllegalTransition (Some s) EventType.REPLAYED), sample_db5)) ∧
    (s = JobState.DEAD_LETTER →
       (replay_job 150 2 "orbiter.jobs" sample_db5).1 = Ok (Some JobState.QUEUED) ∧
       (∃ row', jobs db' !! 2%N = Some row' ∧ jr_state row' = JobState.value JobState.QUEUED) ∧
       outbox db' = outbox sample_db5 ++
         [mkOutboxRow 3 2 "orbiter.jobs"
            (JObj [("job_id", JStr (uuid_str 2)); ("payload", jr_payload sample_row5)]) 150 None]).
Proof. exact (replay_job_branches sample_db5 150 2 "orbiter.jobs" sample_db5_reachable). Defined.
