(* ===== verification/Admission.v ===== *)
(** * Bounded admission control ([src/orbiter/api/admission.py])

    The controller, its invariant and what a sequence of acquisitions and
    releases may do to it. *)
From S2P Require Import Prelude PyFloat PyJson Model.

Module AdmissionController.

Record t := mk { capacity : Z; retry_after_s : Z; in_flight_ : Z }.

Definition init (capacity retry_after_s : Z) : result t :=
  if (capacity <? 1)%Z then Raise (ValueError "capacity must be >= 1")
  else Ok (mk capacity retry_after_s 0).

Definition in_flight (self : t) : Z := in_flight_ self.

Definition available (self : t) : Z := (capacity self - in_flight_ self)%Z.

Definition try_acquire (self : t) : bool * t :=
  if (capacity self <=? in_flight_ self)%Z then (false, self)
  else (true, mk (capacity self) (retry_after_s self) (in_flight_ self + 1)).

Definition release (self : t) : result t :=
  if (in_flight_ self <=? 0)%Z then Raise (RuntimeError "release() without a matching try_acquire()")
  else Ok (mk (capacity self) (retry_after_s self) (in_flight_ self - 1)).

(** ** Invariant *)

Definition inv (self : t) : Prop :=
  (1 ≤ capacity self)%Z ∧ (0 ≤ in_flight_ self ≤ capacity self)%Z.

Lemma init_inv c r self : init c r = Ok self → inv self ∧ in_flight_ self = 0%Z ∧ capacity self = c ∧ retry_after_s self = r.
Proof.
  unfold init, inv. destruct (Z.ltb_spec c 1); [done|]. intros [= <-]. simpl. repeat split; lia.
Qed.

Lemma try_acquire_spec self :
  inv self →
  try_acquire self =
    if decide (available self = 0%Z) then (false, self)
    else (true, mk (capacity self) (retry_after_s self) (in_flight_ self + 1)).
Proof.
  intros [Hc Hf]. unfold try_acquire, available.
  destruct (Z.leb_spec (capacity self) (in_flight_ self)); case_decide; done || lia.
Qed.

Lemma try_acquire_inv self : inv self → inv (try_acquire self).2.
Proof.
  intros [Hc Hf]. unfold try_acquire, inv.
  destruct (Z.leb_spec (capacity self) (in_flight_ self)); simpl; lia.
Qed.

Lemma release_inv self self' : inv self → release self = Ok self' → inv self'.
Proof.
  intros [Hc Hf]. unfold release, inv. destruct (Z.leb_spec (in_flight_ self) 0); [done|].
  intros [= <-]. simpl. lia.
Qed.

Lemma release_Ok self : (0 < in_flight_ self)%Z →
  release self = Ok (mk (capacity self) (retry_after_s self) (in_flight_ self - 1)).
Proof. intros H. unfold release. destruct (Z.leb_spec (in_flight_ self) 0); [lia|done]. Qed.

(** Giving back a slot that was just taken restores the controller. *)
Lemma acquire_release self self' :
  inv self → try_acquire self = (true, self') → release self' = Ok self.
Proof.
  intros [Hc Hf]. unfold try_acquire.
  destruct (Z.leb_spec (capacity self) (in_flight_ self)); [done|]. intros [= <-].
  rewrite release_Ok by (simpl; lia). destruct self; simpl. do 2 f_equal. lia.
Qed.

End AdmissionController.
