(* ===== verification/Executor.v ===== *)
(** * The simulation stub ([src/orbiter/worker/executor.py])

    [execute] draws its verdict, sleeps in slices of a tenth of a second and
    reports the elapsed time.  The slices are computed in binary64, as the code
    computes them. *)
From Stdlib Require Import Floats.SpecFloat.
From S2P Require Import Prelude PyFloat FloatBounds PyJson Model PyUuid Effects.

Open Scope prog_scope.

(** [_SLICE_S = 0.1] *)
Definition SLICE_S : float := float_of_decimal false 1 (-1).

(** The steps of [while remaining > 0]; [None] when the fuel runs out first
    ([slices_terminate]: never for a duration the API accepts). *)
Fixpoint slices (fuel : nat) (remaining : float) : option (list float) :=
  if (fZ 0 <? remaining)%float then
    match fuel with
    | 0 => None
    | S fuel =>
        let step := fmin SLICE_S remaining in
        cons step <$> slices fuel (remaining - step)%float
    end
  else Some [].

Fixpoint sleep_all (steps : list float) : prog unit :=
  match steps with
  | [] => Ret tt
  | step :: steps => let! _ := await (Sleep step) in sleep_all steps
  end.

(** [int(x)] on a float. *)
Definition int_of_float (f : float) : result Z :=
  match f with
  | S754_nan => Raise (ValueError "cannot convert float NaN to integer")
  | S754_infinity _ => Raise (OverflowError "cannot convert float infinity to integer")
  | _ => match trunc f with Some z => Ok z | None => Raise (ValueError "") end
  end.

(** [float(n)] on an int. *)
Definition float_of_int_py (n : Z) : result float :=
  match float_of_int n with
  | Some f => Ok f
  | None => Raise (OverflowError "int too large to convert to float")
  end.

(** [execute]; the branch without slices stands for a loop that is still running
    when the fuel is used up. *)
Definition execute (fuel : nat) (duration_ms : Z) (failure_rate : float) : prog dict :=
  let! u := await RngRandom in
  let will_fail := (u <? failure_rate)%float in
  let! started := await Monotonic in
  let! d := of_result (float_of_int_py duration_ms) in
  match slices fuel (d / fZ 1000)%float with
  | None => Throw (ExternalError "slice budget exhausted")
  | Some steps =>
      let! _ := sleep_all steps in
      let! ended := await Monotonic in
      let! elapsed_ms := of_result (int_of_float ((ended - started) * fZ 1000)%float) in
      if will_fail
      then Throw (SimulatedFailure ("simulated failure after " +:+ pretty elapsed_ms +:+ "ms"))
      else Ret [("elapsed_ms", JInt elapsed_ms)]
  end.

Example slices_of_800ms : length <$> slices 9 (fZ 800 / fZ 1000)%float = Some 9.
Proof. vm_compute. reflexivity. Qed.

Example slices_of_10min : length <$> slices 6002 (fZ 600000 / fZ 1000)%float = Some 6000.
Proof. vm_compute. reflexivity. Qed.

Example slices_of_zero : slices 0 (fZ 0 / fZ 1000)%float = Some [].
Proof. vm_compute. reflexivity. Qed.

(** ** The loop ends *)

Lemma SLICE_S_value : SLICE_S = S754_finite false 7205759403792794 (-56).
Proof. vm_compute. reflexivity. Qed.

(** What a full slice takes off at least, in units of 2^-1074: its value less the
    rounding of the difference. *)
Definition slice_loss : Z := (units 7205759403792794 (-56) - 2 ^ 1033)%Z.

Lemma fsub_diag m e : (S754_finite false m e - S754_finite false m e)%float = S754_zero false.
Proof. unfold fsub. cbn [SFsub cond_Zopp]. by rewrite Z.sub_diag. Qed.

Lemma slices_nonpositive fuel x : (fZ 0 <? x)%float = false → slices fuel x = Some [].
Proof. intros H. destruct fuel; cbn [slices]; by rewrite H. Qed.

Lemma slices_total n x :
  at_most (Z.of_nat n * slice_loss) x → (Z.of_nat n * slice_loss ≤ 2 ^ 1084)%Z →
  ∃ steps, slices n x = Some steps ∧ length steps ≤ n.
Proof.
  revert x. induction n as [|n IH]; intros x Hx Hn.
  - exists []. split; [|done]. apply slices_nonpositive.
    destruct x as [|[]| |[] m e]; try done. destruct Hx as [He Hu]. exfalso. unfold units in Hu.
    pose proof (Z.pow_pos_nonneg 2 (e + 1074)). nia.
  - destruct (fZ 0 <? x)%float eqn:Hpos; [|exists []; split; [by apply slices_nonpositive|cbn; lia]].
    cbn [slices]. rewrite Hpos. destruct x as [|[]| |[] m e]; try done. destruct Hx as [He Hu].
    unfold fmin. destruct (S754_finite false m e <? SLICE_S)%float.
    + rewrite fsub_diag, slices_nonpositive by done. eexists. split; [done|]. cbn. lia.
    + destruct (IH (S754_finite false m e - SLICE_S)%float) as (steps & -> & Hl).
      * eapply at_most_le; [rewrite SLICE_S_value; apply sub_upper; lia|]. unfold slice_loss in *. lia.
      * unfold slice_loss in *. unfold units in *. lia.
      * eexists. split; [done|]. cbn. lia.
Qed.

Lemma slices_more fuel fuel' x steps : slices fuel x = Some steps → fuel ≤ fuel' → slices fuel' x = Some steps.
Proof.
  revert fuel' x steps. induction fuel as [|fuel IH]; intros fuel' x steps H Hle; cbn [slices] in H.
  - destruct (fZ 0 <? x)%float eqn:E; [done|]. injection H as <-. by apply slices_nonpositive.
  - destruct (fZ 0 <? x)%float eqn:E; [|injection H as <-; by apply slices_nonpositive].
    destruct fuel' as [|fuel']; [lia|]. cbn [slices]. rewrite E.
    destruct (slices fuel _) as [l|] eqn:El; [|done]. rewrite (IH fuel' _ l El) by lia. done.
Qed.

(** The slices of a duration the API accepts. *)
Lemma slices_of_duration d fuel :
  (0 ≤ d ≤ 600000)%Z → Z.to_nat (d / 100) + 1 ≤ fuel →
  ∃ steps, slices fuel (fZ d / fZ 1000)%float = Some steps ∧ length steps ≤ Z.to_nat (d / 100) + 1.
Proof.
  intros Hd Hf.
  assert (H : ∃ steps, slices (Z.to_nat (d / 100) + 1) (fZ d / fZ 1000)%float = Some steps ∧
                       length steps ≤ Z.to_nat (d / 100) + 1).
  { destruct (Z.eq_dec d 0) as [->|Hnz].
    - exists []. split; [by apply slices_nonpositive|cbn; lia].
    - assert (Hq : (0 ≤ d / 100)%Z) by (apply Z.div_pos; lia).
      pose proof (Z.div_mod d 100 ltac:(lia)) as Hdm. pose proof (Z.mod_pos_bound d 100 ltac:(lia)) as Hmod.
      apply slices_total; rewrite Nat2Z.inj_add, Z2Nat.id by done.
      + eapply at_most_le; [apply div_1000_upper; [lia|]|].
        * rewrite Zdigits2_pos by lia. pose proof (Z.log2_le_mono d 600000 ltac:(lia)) as Hl.
          change (Z.log2 600000) with 19%Z in Hl. lia.
        * assert (d * 2 ^ 1074 / 1000 ≤ (d / 100 + 1) * slice_loss - 2 ^ 1033)%Z; [|lia].
          apply Z.div_le_upper_bound; [lia|]. unfold slice_loss, units. change (-56 + 1074)%Z with 1018%Z. lia.
      + unfold slice_loss, units. change (-56 + 1074)%Z with 1018%Z. lia. }
  destruct H as (steps & Hs & Hl). exists steps. split; [|done]. by eapply slices_more.
Qed.

(** * Properties *)

(** C30: the slice loop ends.  For every duration the API accepts (up to ten
    minutes) the loop of [execute], in the floating-point arithmetic it uses,
    runs at most one step per started tenth of a second: rounding never makes it
    stall or run on. *)
Theorem slices_terminate (d : Z) (fuel : nat) :
  (0 ≤ d ≤ 600000)%Z → Z.to_nat (d / 100) + 1 ≤ fuel →
  ∃ steps, slices fuel (fZ d / fZ 1000)%float = Some steps ∧ length steps ≤ Z.to_nat (d / 100) + 1.
Proof. apply slices_of_duration. Qed.

Lemma slices_terminate_witness :
  ∃ steps, slices 9 (fZ 800 / fZ 1000)%float = Some steps ∧ length steps ≤ Z.to_nat (800 / 100) + 1.
Proof. apply (slices_terminate 800 9); [lia|]. apply (bool_decide_unpack _). vm_compute. exact I. Defined.
