(* ===== verification/PyNum.v ===== *)
(** * Number conversions of JSON values

    [int(v)] and [float(v)] on what [json.loads] returns: numbers, booleans and
    (ASCII) text; anything else is a [TypeError]. *)
From Stdlib Require Import Floats.SpecFloat.
From S2P Require Import Prelude PyFloat PyJson Model PyUuid Effects Executor.

(** Decimal digits, one underscore allowed between two digits: value and number
    of digits read, and the rest of the text. *)
Fixpoint digits10 (after : bool) (acc : N) (n : nat) (l : list ascii) : option (N * nat * list ascii) :=
  match l with
  | c :: l' =>
      let v := N_of_ascii c in
      if ((48 <=? v) && (v <=? 57))%N then digits10 true (10 * acc + (v - 48))%N (S n) l'
      else if decide (c = "_"%char) then
        (if after then
           match l' with
           | d :: _ => let w := N_of_ascii d in
                       if ((48 <=? w) && (w <=? 57))%N then digits10 false acc n l' else None
           | [] => None
           end
         else None)
      else Some (acc, n, l)
  | [] => Some (acc, n, l)
  end.

Definition sign_of (l : list ascii) : bool * list ascii :=
  match l with
  | "+"%char :: l => (false, l)
  | "-"%char :: l => (true, l)
  | _ => (false, l)
  end.

(** [int(s)]; the interpreter refuses more than 4300 digits. *)
Definition int_of_str (s : string) : result Z :=
  let '(neg, l) := sign_of (strip is_space (chars s)) in
  match digits10 false 0 0 l with
  | Some (v, n, []) =>
      if ((0 <? n) && (n <=? 4300))%nat then Ok (if neg then - Z.of_N v else Z.of_N v)%Z
      else Raise (ValueError ("invalid literal for int() with base 10: " +:+ s))
  | _ => Raise (ValueError ("invalid literal for int() with base 10: " +:+ s))
  end.

Definition lower (c : ascii) : ascii :=
  let v := N_of_ascii c in if ((65 <=? v) && (v <=? 90))%N then ascii_of_N (v + 32) else c.

(** The exponent part of a literal, if any; the text must end there. *)
Definition exponent10 (l : list ascii) : option Z :=
  match l with
  | [] => Some 0%Z
  | c :: l =>
      if decide (lower c = "e"%char) then
        let '(neg, l) := sign_of l in
        match digits10 false 0 0 l with
        | Some (v, S _, []) => Some (if neg then - Z.of_N v else Z.of_N v)%Z
        | _ => None
        end
      else None
  end.

(** An unsigned decimal literal: integer part, fraction, exponent. *)
Definition decimal10 (neg : bool) (l : list ascii) : option float :=
  match digits10 false 0 0 l with
  | Some (ip, n, rest) =>
      match rest with
      | "."%char :: rest =>
          match digits10 false ip 0 rest with
          | Some (v, k, rest) =>
              if (n + k =? 0)%nat then None
              else (λ e, float_of_decimal neg (Z.of_N v) (e - Z.of_nat k)) <$> exponent10 rest
          | None => None
          end
      | _ =>
          if (n =? 0)%nat then None
          else (λ e, float_of_decimal neg (Z.of_N ip) e) <$> exponent10 rest
      end
  | None => None
  end.

(** [float(s)] *)
Definition float_of_str (s : string) : result float :=
  let '(neg, l) := sign_of (strip is_space (chars s)) in
  let w := lower <$> l in
  if decide (w = chars "inf" ∨ w = chars "infinity") then Ok (S754_infinity neg)
  else if decide (w = chars "nan") then Ok S754_nan
  else match decimal10 neg l with
       | Some f => Ok f
       | None => Raise (ValueError ("could not convert string to float: " +:+ s))
       end.

(** [int(v)] *)
Definition int_of_json (v : json) : result Z :=
  match v with
  | JInt z => Ok z
  | JBool b => Ok (if b then 1 else 0)%Z
  | JFloat f => int_of_float f
  | JStr s => int_of_str s
  | JNull | JArr _ | JObj _ =>
      Raise (TypeError "int() argument must be a string, a bytes-like object or a real number")
  end.

(** [float(v)] *)
Definition float_of_json (v : json) : result float :=
  match v with
  | JInt z => float_of_int_py z
  | JBool b => Ok (if b then fZ 1 else fZ 0)
  | JFloat f => Ok f
  | JStr s => float_of_str s
  | JNull | JArr _ | JObj _ =>
      Raise (TypeError "float() argument must be a string or a real number")
  end.

(** [uuid.UUID(v)]: text is parsed; [None] and values without [replace] are not. *)
Definition uuid_of_json (v : json) : result uuid :=
  match v with
  | JStr s => UUID s
  | JNull => Raise (TypeError "one of the hex, bytes, bytes_le, fields, or int arguments must be given")
  | _ => Raise (AttributeError "object has no attribute 'replace'")
  end.

(** [d[k]] on a JSON value. *)
Definition getitem (v : json) (k : string) : result json :=
  match v with
  | JObj l => match dict_get l k with Some x => Ok x | None => Raise (KeyError k) end
  | _ => Raise (TypeError "object is not subscriptable by a string")
  end.

Example int_of_str_examples :
  int_of_str " -1_000 " = Ok (-1000)%Z ∧
  (∃ m, int_of_str "not-a-number" = Raise (ValueError m)) ∧
  (∃ m, int_of_str "1__0" = Raise (ValueError m)) ∧ (∃ m, int_of_str "" = Raise (ValueError m)).
Proof. vm_compute. repeat split; eauto. Qed.

Example float_of_str_examples :
  float_of_str "1.5e1" = Ok (fZ 15) ∧ float_of_str "-Infinity" = Ok (S754_infinity true) ∧
  float_of_str ".5" = Ok (float_of_decimal false 5 (-1)) ∧ (∃ m, float_of_str "." = Raise (ValueError m)).
Proof. vm_compute. repeat split; eauto. Qed.
