(* ===== verification/Worker.v ===== *)
(** * The worker ([src/orbiter/worker/main.py])

    [handle] and [process] as programs of external calls, the fetch loop, and the
    contract of a delivery: whatever the store, the repository, the broker and
    the clock answer, what a delivery may do, in which order, and how it ends. *)
From Stdlib Require Import Floats.SpecFloat.
From S2P Require Import Prelude PyFloat PyJson Model StateMachine PyUuid KVStore Effects Fencing.
From S2P Require Import Idempotency Config Executor PyNum.

Open Scope prog_scope.

Module Worker.

Record t := mk { settings : Settings; worker_id : string }.

(** The guard and the lease manager [run] builds. *)
Definition guard (self : t) : ExecutionGuard.t :=
  ExecutionGuard.mk (fZ (lease_ttl_s (settings self))) (fZ (exec_guard_ttl_s (settings self))).

Definition lease_ttl (self : t) : float := fZ (lease_ttl_s (settings self)).

(** [float(payload.get("failure_rate", 0.0))] *)
Definition failure_rate_of (payload : dict) : result float :=
  match dict_get payload "failure_rate" with
  | Some v => float_of_json v
  | None => Ok (fZ 0)
  end.

(** The body of the [try]: start, execute, complete, mark, ack, measure. *)
Definition attempt_job (self : t) (fuel : nat) (job_id : uuid) (payload : dict) (attempt : Z)
    (delivery : string) (lease : Lease) : prog unit :=
  let! _ := await (RecordEvent job_id EventType.STARTED attempt None (Some (token lease)) None) in
  let! d := of_result (getitem (JObj payload) "duration_ms") in
  let! duration_ms := of_result (int_of_json d) in
  let! failure_rate := of_result (failure_rate_of payload) in
  let! result := execute fuel duration_ms failure_rate in
  let! _ := await (RecordEvent job_id EventType.COMPLETED attempt None (Some (token lease)) (Some result)) in
  let! _ := ExecutionGuard.mark_done (guard self) (uuid_str job_id) delivery in
  let! _ := await MsgAck in
  let! _ := await (Metric "orbiter.jobs.completed" 1) in
  let! elapsed := of_result (getitem (JObj result) "elapsed_ms") in
  match elapsed with
  | JInt ms => await (Metric "orbiter.job.duration" ms)
  | JBool b => await (Metric "orbiter.job.duration" (if b then 1 else 0))
  | _ => Ret tt
  end.

(** [except SimulatedFailure as exc] *)
Definition on_failure (self : t) (job_id : uuid) (attempt : Z) (delivery : string) (lease : Lease)
    (exc : string) : prog unit :=
  if (attempt <? max_deliver (settings self))%Z then
    let! _ := await (RecordEvent job_id EventType.REQUEUED attempt (Some [("error", JStr exc)])
                       (Some (token lease)) None) in
    let! _ := ExecutionGuard.release_claim (uuid_str job_id) delivery in
    let! _ := await (MsgNak (fZ (Z.min (2 ^ attempt) 30))) in
    await (Metric "orbiter.jobs.requeued" 1)
  else
    let! _ := await (RecordEvent job_id EventType.FAILED attempt
                       (Some [("error", JStr exc); ("reason", JStr "retries exhausted")])
                       (Some (token lease)) None) in
    let! _ := ExecutionGuard.release_claim (uuid_str job_id) delivery in
    let! _ := await MsgTerm in
    await (Metric "orbiter.jobs.failed" 1).

(** [try ... except SimulatedFailure ... except StaleLeaseError ... except
    IllegalTransition ... finally: leases.release(lease)] *)
Definition under_lease (self : t) (fuel : nat) (job_id : uuid) (payload : dict) (attempt : Z)
    (delivery : string) (lease : Lease) : prog unit :=
  try_finally
    (try_except (attempt_job self fuel job_id payload attempt delivery lease) (λ e,
       match e with
       | SimulatedFailure exc => on_failure self job_id attempt delivery lease exc
       | StaleLeaseError _ _ _ => Ret tt
       | IllegalTransition _ _ =>
           let! _ := ExecutionGuard.release_claim (uuid_str job_id) delivery in
           await MsgTerm
       | e => Throw e
       end))
    (let! _ := LeaseManager.release lease in Ret tt).

(** [msg.nak(delay=self.rng.uniform(4.0, 9.0))] *)
Definition nak_jittered : prog unit :=
  let! delay := await (RngUniform (fZ 4) (fZ 9)) in
  await (MsgNak delay).

Definition handle (self : t) (fuel : nat) (job_id : uuid) (payload : json) (attempt : Z)
    (delivery : string) : prog unit :=
  match payload with
  | JObj payload =>
      if truthy (default JNull (dict_get payload "poison")) then await (MsgNak (float_of_decimal false 5 (-1)))
      else
        let! claim := ExecutionGuard.try_claim (guard self) (uuid_str job_id) delivery in
        match claim with
        | ALREADY_DONE => await MsgAck
        | IN_PROGRESS => nak_jittered
        | CLAIMED =>
            let! lease := LeaseManager.acquire (lease_ttl self) (uuid_str job_id) (worker_id self) in
            match lease with
            | None =>
                let! _ := ExecutionGuard.release_claim (uuid_str job_id) delivery in
                nak_jittered
            | Some lease => under_lease self fuel job_id payload attempt delivery lease
            end
        end
  | _ => Throw (AttributeError "object has no attribute 'get'")
  end.

(** [f"{self.worker_id}:{attempt}"] *)
Definition delivery_of (self : t) (attempt : Z) : string := worker_id self +:+ ":" +:+ pretty attempt.

Definition process (self : t) (fuel : nat) (msg : Msg) : prog unit :=
  let! data := of_result (msg_data msg) in
  let! j := of_result (getitem data "job_id") in
  let! job_id := of_result (uuid_of_json j) in
  let! payload := of_result (getitem data "payload") in
  let attempt := num_delivered msg in
  handle self fuel job_id payload attempt (delivery_of self attempt).

(** ** The fetch loop *)
Fixpoint process_all (self : t) (fuel : nat) (msgs : list Msg) : prog unit :=
  match msgs with
  | [] => Ret tt
  | msg :: msgs => let! _ := process self fuel msg in process_all self fuel msgs
  end.

(** [sub.fetch(1, timeout=...)] with the two [continue] clauses: [None] is a timeout. *)
Definition fetch_or_continue (timeout : Z) : prog (option (list Msg)) :=
  try_except (let! msgs := await (SubFetch 1 timeout) in Ret (Some msgs))
    (λ e, match e with TimeoutError => Ret None | e => Throw e end).

(** [while not self.shutdown.is_set()], for a number of turns.  [Ret true]: the
    loop has left because of the shutdown; [Ret false]: it is still running after
    the given turns. *)
Fixpoint run_loop (self : t) (fuel : nat) (turns : nat) : prog bool :=
  match turns with
  | 0 => Ret false
  | S turns =>
      let! stop := await StopIsSet in
      if (stop : bool) then Ret true
      else
        let! fetched := fetch_or_continue (worker_fetch_timeout_s (settings self)) in
        match fetched with
        | None => run_loop self fuel turns
        | Some msgs => let! _ := process_all self fuel msgs in run_loop self fuel turns
        end
  end.

End Worker.

(** ** The contract of a delivery

    [watch] is what an observer of the calls of one delivery remembers:
    the claim it set, the token it drew, the lease it holds, what the audit trail
    answered and how it disposed of the message. *)
Inductive disposition := Acked | Naked | Termed.

#[global] Instance disposition_eq_dec : EqDecision disposition.
Proof. solve_decision. Defined.

Record watch := mkWatch {
  claimed : bool;               (* this delivery's claim was set *)
  drawn : option Z;             (* the fencing token drawn from the counter *)
  held : option Z;              (* the token of the lease granted and not yet released *)
  finished : bool;              (* the done marker was read, or COMPLETED was accepted *)
  completed : bool;             (* COMPLETED was accepted *)
  closed : bool;                (* FAILED was accepted, or the trail refused STARTED or COMPLETED *)
  superseded : bool;            (* the fence rejected STARTED or COMPLETED *)
  lost : bool;                  (* the trail or the fence rejected REQUEUED or FAILED *)
  disposed : option disposition
}.

Definition watch_init : watch := mkWatch false None None false false false false false None.

(** What the reply to a recorded event teaches. *)
Definition after_event (event : EventType.t) {A} (r : result A) (w : watch) : watch :=
  let 'mkWatch c d h f co cl s l di := w in
  let body := bool_decide (event = EventType.STARTED ∨ event = EventType.COMPLETED) in
  match r with
  | Ok _ =>
      let done := bool_decide (event = EventType.COMPLETED) in
      mkWatch c d h (f || done) (co || done) (cl || bool_decide (event = EventType.FAILED)) s l di
  | Raise (IllegalTransition _ _) => mkWatch c d h f co (cl || body) s (l || negb body) di
  | Raise (StaleLeaseError _ _ _) => mkWatch c d h f co cl (s || body) (l || negb body) di
  | Raise _ => w
  end.

Definition dispose (how : disposition) (w : watch) : watch :=
  let 'mkWatch c d h f co cl s l _ := w in mkWatch c d h f co cl s l (Some how).

(** The events a worker records. *)
Definition worker_event (event : EventType.t) : bool :=
  bool_decide (event ∈ [EventType.STARTED; EventType.COMPLETED; EventType.REQUEUED; EventType.FAILED]).

Section contract.
Context (job : uuid) (attempt : Z) (holder delivery : string).

Let j := uuid_str job.

(** The calls a delivery is allowed to make, and what each reply changes:
    - it reads and sets only the markers of its job, the claim and the marker
      under its own name, the marker only once COMPLETED is in the trail;
    - it draws one token, after its claim, and takes the lease with that token;
    - it deletes only its own claim and its own lease;
    - it records a worker's events, of its job only, with its attempt and the
      token of the lease it holds, and none once it has disposed of the message;
    - it disposes of the message once: ack only when the job is finished, term
      only when the trail has closed the job to this delivery, nak otherwise. *)
Definition watch_call (w : watch) (R : Type) (e : eff R) : option (result R → watch) :=
  let 'mkWatch c d h f co cl s l di := w in
  match e in eff R return option (result R → watch) with
  | KvGet k =>
      if decide (k = ExecutionGuard.done_key j) then
        Some (λ r, mkWatch c d h (match r with Ok (Some _) => true | _ => f end) co cl s l di)
      else None
  | KvSetIfAbsent k v _ =>
      if decide (k = ExecutionGuard.claim_key j ∧ v = delivery) then
        Some (λ r, mkWatch (match r with Ok true => true | _ => c end) d h f co cl s l di)
      else if decide (k = ExecutionGuard.done_key j ∧ v = delivery ∧ co = true) then Some (λ _, w)
      else match d with
           | Some t =>
               if decide (k = LeaseManager.lease_key j ∧ v = LeaseManager.lease_value holder t) then
                 Some (λ r, mkWatch c d (match r with Ok true => Some t | _ => h end) f co cl s l di)
               else None
           | None => None
           end
  | KvIncr k =>
      if decide (k = LeaseManager.token_key j ∧ c = true ∧ d = None) then
        Some (λ r, mkWatch c (match r with Ok t => Some t | _ => None end) h f co cl s l di)
      else None
  | KvCompareAndDelete k v =>
      if decide (k = ExecutionGuard.claim_key j ∧ v = delivery) then Some (λ _, w)
      else match h with
           | Some t =>
               if decide (k = LeaseManager.lease_key j ∧ v = LeaseManager.lease_value holder t) then
                 Some (λ _, mkWatch c d None f co cl s l di)
               else None
           | None => None
           end
  | RecordEvent id event att _ ft _ =>
      if decide (id = job ∧ att = attempt ∧ is_Some h ∧ ft = h ∧ di = None ∧ worker_event event = true)
      then Some (λ r, after_event event r w) else None
  | MsgAck => if decide (f = true ∧ di = None) then Some (λ _, dispose Acked w) else None
  | MsgTerm => if decide (cl = true ∧ di = None) then Some (λ _, dispose Termed w) else None
  | MsgNak _ =>
      if decide (f = false ∧ cl = false ∧ s = false ∧ di = None) then Some (λ _, dispose Naked w) else None
  | RngRandom => Some (λ _, w)
  | RngUniform _ _ => Some (λ _, w)
  | Monotonic => Some (λ _, w)
  | Sleep _ => Some (λ _, w)
  | Metric _ _ => Some (λ _, w)
  | _ => None
  end.

(** How a delivery ends: its lease has been given back; if [handle] returns, the
    message has been disposed of, unless the delivery was superseded, which leaves it
    alone; if it raises, the exception is never [SimulatedFailure], and it is
    [StaleLeaseError] or [IllegalTransition] only when the rejected event was the
    REQUEUED or FAILED of a failed execution. *)
Definition watch_end {A} (w : watch) (o : result A) : Prop :=
  held w = None ∧
  match o with
  | Ok _ => disposed w = None ↔ superseded w = true
  | Raise (SimulatedFailure _) => False
  | Raise (StaleLeaseError _ _ _) | Raise (IllegalTransition _ _) => lost w = true
  | Raise _ => True
  end.

(** Exceptions of the store, the broker, the clock and the metrics. *)
Definition service_error (x : exn) : Prop :=
  match x with ExternalError _ | TimeoutError => True | _ => False end.

(** The replies a call may get. *)
Definition replies (R : Type) (e : eff R) (r : result R) : Prop :=
  match e with
  | RecordEvent _ _ _ _ _ _ => ∀ m, r ≠ Raise (SimulatedFailure m)
  | _ => ∀ x, r = Raise x → service_error x
  end.

(** [after_reply e Q w]: the call [e] is allowed in [w] and every reply leads to [Q]. *)
Abbreviation conforms := (monitored replies watch_call).

Lemma conforms_await {R B} (Q : watch → result B → Prop) w (e : eff R) next (k : R → prog B) :
  watch_call w R e = Some next →
  (∀ v, replies R e (Ok v) → conforms Q (next (Ok v)) (k v)) →
  (∀ x, replies R e (Raise x) → Q (next (Raise x)) (Raise x)) →
  conforms Q w (bind (await e) k).
Proof. apply monitored_step. Qed.

Lemma conforms_last {R} (Q : watch → result R → Prop) w (e : eff R) next :
  watch_call w R e = Some next →
  (∀ v, replies R e (Ok v) → Q (next (Ok v)) (Ok v)) →
  (∀ x, replies R e (Raise x) → Q (next (Raise x)) (Raise x)) →
  conforms Q w (await e).
Proof. intros Hc Hv Hx. simpl. rewrite Hc. intros [v|x] Hr; simpl; auto. Qed.
End contract.

Lemma lease_claim_ne r k : LeaseManager.lease_key r ≠ ExecutionGuard.claim_key k.
Proof. done. Qed.
Lemma lease_done_ne r k : LeaseManager.lease_key r ≠ ExecutionGuard.done_key k.
Proof. done. Qed.

(** Decide whether [watch_call] allows a call in a concrete [watch]. *)
Ltac allowed :=
  cbn [watch_call];
  repeat first
    [ rewrite decide_True by (repeat split; eauto)
    | rewrite decide_False
        by (intros (Hk & ?); try discriminate;
            first [ by apply lease_claim_ne in Hk | by apply lease_done_ne in Hk
                  | by apply ExecutionGuard.done_claim_ne in Hk ]) ];
  reflexivity.

(** Any error that no clause of [handle] catches. *)
Definition uncaught (x : exn) : Prop :=
  match x with
  | IllegalTransition _ _ | StaleLeaseError _ _ _ | SimulatedFailure _ => False
  | _ => True
  end.

Lemma service_uncaught x : service_error x → uncaught x.
Proof. by destruct x. Qed.

Lemma int_of_float_uncaught f x : int_of_float f = Raise x → uncaught x.
Proof. destruct f; simpl; try (intros [= <-]; done); by destruct (trunc _); intros [= <-]. Qed.

Lemma float_of_int_uncaught n x : float_of_int_py n = Raise x → uncaught x.
Proof. unfold float_of_int_py. destruct (float_of_int n); by intros [= <-]. Qed.

Lemma int_of_json_uncaught v x : int_of_json v = Raise x → uncaught x.
Proof.
  destruct v as [|b|z|f|s|l|l]; simpl; try by intros [= <-].
  - apply int_of_float_uncaught.
  - unfold int_of_str. destruct (sign_of _) as [neg l].
    destruct (digits10 _ _ _ _) as [[[v n] [|c r]]|]; try destruct (_ && _)%nat; by intros [= <-].
Qed.

Lemma float_of_json_uncaught v x : float_of_json v = Raise x → uncaught x.
Proof.
  destruct v as [|b|z|f|s|l|l]; simpl; try by intros [= <-].
  - apply float_of_int_uncaught.
  - unfold float_of_str. destruct (sign_of _) as [neg l]. repeat case_decide; try done.
    destruct (decimal10 _ _); by intros [= <-].
Qed.

Lemma failure_rate_uncaught p x : Worker.failure_rate_of p = Raise x → uncaught x.
Proof. unfold Worker.failure_rate_of. destruct (dict_get p _); [apply float_of_json_uncaught|done]. Qed.

Lemma getitem_uncaught v k x : getitem v k = Raise x → uncaught x.
Proof. destruct v as [| | | | | |l]; simpl; try destruct (dict_get l k); by intros [= <-]. Qed.

(** The execution changes nothing an observer tracks who lets the dice, the clock and
    sleeping pass; it reports its elapsed time, or fails as drawn, or is interrupted. *)
Section execution.
Context {St : Type} (δ : St → ∀ R, eff R → option (result R → St)) (st : St).
Context (Hrandom : δ st _ RngRandom = Some (λ _, st)) (Hclock : δ st _ Monotonic = Some (λ _, st)).
Context (Hsleep : ∀ d, δ st _ (Sleep d) = Some (λ _, st)).

Lemma monitored_result {A B} (Q : St → result B → Prop) (r : result A) (k : A → prog B) :
  (∀ x, r = Raise x → uncaught x) →
  (∀ v, monitored replies δ Q st (k v)) → (∀ x, uncaught x → Q st (Raise x)) →
  monitored replies δ Q st (bind (of_result r) k).
Proof. intros Hr Hk Hx. destruct r as [v|x]; simpl; auto. Qed.

Lemma monitored_sleep_all Q steps :
  Q st (Ok tt) → (∀ x, uncaught x → Q st (Raise x)) → monitored replies δ Q st (sleep_all steps).
Proof.
  intros Hok Hx. induction steps as [|step steps IH]; [done|]. cbn [sleep_all].
  eapply monitored_step; [apply Hsleep|done|]. intros x Hr. by apply Hx, service_uncaught, Hr.
Qed.

Lemma monitored_execute Q fuel d fr :
  (∀ ms, Q st (Ok [("elapsed_ms", JInt ms)])) →
  (∀ m, Q st (Raise (SimulatedFailure m))) →
  (∀ x, uncaught x → Q st (Raise x)) →
  monitored replies δ Q st (execute fuel d fr).
Proof using Hrandom Hclock Hsleep.
  intros Hok Hsim Hx.
  assert (Hs : ∀ x, service_error x → Q st (Raise x)) by auto using service_uncaught.
  unfold execute.
  eapply monitored_step; [exact Hrandom| |intros x Hr; by apply Hs, Hr]. intros u _.
  eapply monitored_step; [exact Hclock| |intros x Hr; by apply Hs, Hr]. intros t0 _.
  apply monitored_result; [apply float_of_int_uncaught| |done]. intros f.
  destruct (slices fuel (f / fZ 1000)%float) as [steps|]; [|by apply Hx].
  apply monitored_bind, monitored_sleep_all; [|done].
  eapply monitored_step; [exact Hclock| |intros x Hr; by apply Hs, Hr]. intros t1 _.
  apply monitored_result; [apply int_of_float_uncaught| |done]. intros ms.
  destruct (u <? fr)%float; simpl; auto.
Qed.
End execution.

Section proofs.
Context (job : uuid) (attempt : Z) (holder delivery : string).

Let j := uuid_str job.
Abbreviation conforms := (monitored replies (watch_call job attempt holder delivery)).

(** Holding the lease, before the trail has answered. *)
Definition leased (t : Z) : watch := mkWatch true (Some t) (Some t) false false false false false None.

Definition attempt_end (t : Z) (w : watch) (o : result unit) : Prop :=
  held w = Some t ∧
  match o with
  | Ok _ => is_Some (disposed w) ∧ superseded w = false
  | Raise (SimulatedFailure _) => w = leased t
  | Raise (StaleLeaseError _ _ _) => superseded w = true ∧ disposed w = None
  | Raise (IllegalTransition _ _) => closed w = true ∧ disposed w = None ∧ superseded w = false
  | Raise _ => True
  end.

Context (self : Worker.t) (fuel : nat).

(** The lease holder once COMPLETED is in the trail. *)
Definition succeeded (t : Z) (di : option disposition) : watch :=
  mkWatch true (Some t) (Some t) true true false false false di.

Lemma conforms_attempt t payload :
  conforms (attempt_end t) (leased t)
    (Worker.attempt_job self fuel job payload attempt delivery (mkLease j holder t)).
Proof.
  unfold Worker.attempt_job. cbn [token].
  assert (Hun : ∀ x, uncaught x → attempt_end t (leased t) (Raise x)) by (by intros []).
  assert (Hun' : ∀ di x, service_error x → attempt_end t (succeeded t di) (Raise x)) by (by intros ? []).
  eapply conforms_await; [unfold leased; allowed| |by intros []]. intros v1 _.
  cbv beta; change (after_event _ _ _) with (leased t).
  apply monitored_result; [apply getitem_uncaught| |done]. intros d.
  apply monitored_result; [apply int_of_json_uncaught| |done]. intros ms.
  apply monitored_result; [apply failure_rate_uncaught| |done]. intros fr.
  apply monitored_bind, monitored_execute; [done..| |done|done]. intros el.
  eapply conforms_await; [unfold leased; allowed| |by intros []]. intros v2 _.
  cbv beta; change (after_event _ _ _) with (succeeded t None).
  apply monitored_bind. unfold ExecutionGuard.mark_done.
  eapply conforms_await; [unfold succeeded; allowed| |intros x Hr; by apply (Hun' None), Hr]. intros v3 _.
  eapply conforms_await; [unfold succeeded; allowed| |intros x Hr; by apply (Hun' None), Hr]. intros v4 _.
  cbn [monitored].
  eapply conforms_await; [allowed| |intros x Hr; by apply (Hun' (Some Acked)), Hr]. intros v5 _.
  eapply conforms_await; [reflexivity| |intros x Hr; by apply (Hun' (Some Acked)), Hr]. intros v6 _.
  eapply conforms_last; [reflexivity| |intros x Hr; by apply (Hun' (Some Acked)), Hr]. by split; [|split].
Qed.

Definition clause_end (t : Z) (w : watch) (o : result unit) : Prop :=
  held w = Some t ∧
  match o with
  | Ok _ => disposed w = None ↔ superseded w = true
  | Raise (SimulatedFailure _) => False
  | Raise (StaleLeaseError _ _ _) | Raise (IllegalTransition _ _) => lost w = true
  | Raise _ => True
  end.

Lemma clause_end_service t w x : held w = Some t → service_error x → clause_end t w (Raise x).
Proof. by destruct x. Qed.

Lemma conforms_release_claim {B} (Q : watch → result B → Prop) w k :
  (∀ x, service_error x → Q w (Raise x)) → conforms Q w (k tt) →
  conforms Q w (bind (ExecutionGuard.release_claim j delivery) k).
Proof.
  intros Hx Hk. apply monitored_bind. unfold ExecutionGuard.release_claim.
  eapply conforms_await; [destruct w; allowed|done|]. intros x Hr. by apply Hx, Hr.
Qed.

Lemma conforms_failure t m :
  conforms (clause_end t) (leased t) (Worker.on_failure self job attempt delivery (mkLease j holder t) m).
Proof.
  unfold Worker.on_failure. cbn [token]. destruct (attempt <? _)%Z.
  - eapply conforms_await; [unfold leased; allowed| |intros [] Hr; try done; by edestruct Hr]. intros v1 _.
    cbv beta; change (after_event _ _ _) with (leased t).
    apply conforms_release_claim; [intros x; by apply clause_end_service|].
    eapply conforms_await; [unfold leased; allowed| |intros x Hr; by apply clause_end_service, Hr]. intros v2 _.
    eapply conforms_last; [reflexivity|done|]. intros x Hr. by apply clause_end_service, Hr.
  - eapply conforms_await; [unfold leased; allowed| |intros [] Hr; try done; by edestruct Hr]. intros v1 _.
    apply conforms_release_claim; [intros x; by apply clause_end_service|].
    eapply conforms_await; [allowed| |intros x Hr; by apply clause_end_service, Hr]. intros v2 _.
    eapply conforms_last; [reflexivity|done|]. intros x Hr. by apply clause_end_service, Hr.
Qed.

Lemma conforms_lease t payload :
  conforms watch_end (leased t)
    (Worker.under_lease self fuel job payload attempt delivery (mkLease j holder t)).
Proof.
  unfold Worker.under_lease. apply monitored_try_finally.
  eapply monitored_mono with (Q := clause_end t).
  { intros w r [Hh Hr]. destruct w; cbn [held] in Hh; subst. unfold LeaseManager.release.
    eapply conforms_await; [allowed| |].
    - intros b _. by split.
    - intros x Hx. specialize (Hx x eq_refl). destruct r as [[]|y]; (split; [done|]); by destruct x. }
  apply monitored_try_except. eapply monitored_mono; [|apply conforms_attempt].
  intros w [[]|x]; [intros (Hh & [? Hd] & Hs)|].
  { split; [done|]. rewrite Hd, Hs. done. }
  destruct x; intros [Hh Hw]; try done.
  - destruct Hw as (Hcl & Hd & Hs). apply conforms_release_claim; [intros x; by apply clause_end_service|].
    destruct w; cbn [held disposed closed superseded] in *; subst. eapply conforms_last; [allowed|by split|].
    intros x Hx. by apply clause_end_service, Hx.
  - destruct Hw as [Hs Hd]. split; [done|]. by rewrite Hs, Hd.
  - subst w. apply conforms_failure.
Qed.
End proofs.

Abbreviation admissible := (Forall (λ s : step_of, match s with Step e r => replies _ e r end)).

Section handle.
Context (self : Worker.t) (fuel : nat) (job : uuid) (attempt : Z) (delivery : string).

Let j := uuid_str job.
Abbreviation observe := (watch_call job attempt (Worker.worker_id self) delivery).

Lemma conforms_nak w :
  finished w = false → closed w = false → superseded w = false → disposed w = None → held w = None →
  monitored replies observe watch_end w Worker.nak_jittered.
Proof.
  intros. unfold Worker.nak_jittered. destruct w; cbn [finished closed superseded disposed held] in *; subst.
  eapply conforms_await; [done| |intros x Hr; specialize (Hr x eq_refl); by destruct x]. intros v _.
  eapply conforms_last; [done|done|]. intros x Hr; specialize (Hr x eq_refl); by destruct x.
Qed.

Lemma conforms_handle payload :
  monitored replies observe watch_end watch_init (Worker.handle self fuel job payload attempt delivery).
Proof.
  assert (Hx : ∀ w (x : exn), held w = None → service_error x → watch_end (A:=unit) w (Raise x)) by (by intros w []).
  destruct payload as [| | | | | |payload]; try done. cbn [Worker.handle].
  destruct (truthy _).
  { eapply conforms_last; [done|done|]. intros x Hr. by apply Hx, Hr. }
  apply monitored_bind. unfold ExecutionGuard.try_claim, watch_init.
  eapply conforms_await; [allowed| |intros x Hr; by apply Hx, Hr]. intros [v|] _.
  { cbn [monitored]. eapply conforms_last; [allowed|done|]. intros x Hr. by apply Hx, Hr. }
  eapply conforms_await; [allowed| |intros x Hr; by apply Hx, Hr]. intros [] _; cbn [monitored negb]; [|by apply conforms_nak].
  apply monitored_bind. unfold LeaseManager.acquire.
  eapply conforms_await; [allowed| |intros x Hr; by apply Hx, Hr]. intros t _.
  eapply conforms_await; [allowed| |intros x Hr; by apply Hx, Hr]. intros [] _; cbn [monitored negb].
  - apply conforms_lease.
  - apply conforms_release_claim; [intros x; by apply Hx|]. by apply conforms_nak.
Qed.

(** ** What the flags of an observer stand for *)

Definition recorded (event : EventType.t) (t : Z) (tr : list step_of) : Prop :=
  ∃ det res st, Step (RecordEvent job event attempt det (Some t) res) (Ok st) ∈ tr.

Definition refused (event : EventType.t) (t : Z) (tr : list step_of) : Prop :=
  ∃ det res s ev, Step (RecordEvent job event attempt det (Some t) res) (Raise (IllegalTransition s ev)) ∈ tr.

Definition marker_seen (tr : list step_of) : Prop :=
  ∃ v, Step (KvGet (ExecutionGuard.done_key j)) (Ok (Some v)) ∈ tr.

(** The token was drawn and the lease granted with it. *)
Definition granted (t : Z) (tr : list step_of) : Prop :=
  Step (KvIncr (LeaseManager.token_key j)) (Ok t) ∈ tr ∧
  ∃ ttl, Step (KvSetIfAbsent (LeaseManager.lease_key j)
                 (LeaseManager.lease_value (Worker.worker_id self) t) ttl) (Ok true) ∈ tr.

Definition evidence (w : watch) (tr : list step_of) : Prop :=
  (∀ t, drawn w = Some t → Step (KvIncr (LeaseManager.token_key j)) (Ok t) ∈ tr) ∧
  (∀ t, held w = Some t → granted t tr) ∧
  (finished w = true → marker_seen tr ∨ ∃ t, granted t tr ∧ recorded EventType.COMPLETED t tr) ∧
  (closed w = true →
     ∃ t, granted t tr ∧
       (recorded EventType.FAILED t tr ∨ refused EventType.STARTED t tr ∨ refused EventType.COMPLETED t tr)).

Lemma granted_app t tr tr' : granted t tr → granted t (tr ++ tr').
Proof. intros [? [ttl ?]]. split; [|exists ttl]; set_solver. Qed.
Lemma recorded_app event t tr tr' : recorded event t tr → recorded event t (tr ++ tr').
Proof. intros (d & r & st & ?). exists d, r, st. set_solver. Qed.
Lemma refused_app event t tr tr' : refused event t tr → refused event t (tr ++ tr').
Proof. intros (d & r & s & ev & ?). exists d, r, s, ev. set_solver. Qed.
Lemma marker_seen_app tr tr' : marker_seen tr → marker_seen (tr ++ tr').
Proof. intros [v ?]. exists v. set_solver. Qed.

Lemma evidence_app w tr tr' : evidence w tr → evidence w (tr ++ tr').
Proof.
  intros (Hd & Hh & Hf & Hc). split_and!.
  - intros t Ht. apply elem_of_app. auto.
  - intros t Ht. apply granted_app. auto.
  - intros H. destruct (Hf H) as [?|(t & ? & ?)]; [left|right; exists t]; auto using granted_app, recorded_app, marker_seen_app.
  - intros H. destruct (Hc H) as (t & ? & Ht). exists t. split; [by apply granted_app|].
    destruct Ht as [?|[?|?]]; auto using recorded_app, refused_app.
Qed.

(** An accepted or refused event is evidence for the flag it sets. *)
Lemma evidence_event w tr event att det ft res r :
  evidence w (tr ++ [Step (RecordEvent job event att det ft res) r]) →
  att = attempt → is_Some (held w) → ft = held w →
  evidence (after_event event r w) (tr ++ [Step (RecordEvent job event att det ft res) r]).
Proof.
  intros Hev -> [t Ht] ->. pose proof Hev as (_ & Hh & Hf & Hc).
  specialize (Hh t Ht). rewrite Ht in *. clear Ht.
  set (tr' := tr ++ _) in *.
  assert (Hin : Step (RecordEvent job event attempt det (Some t) res) r ∈ tr') by (subst tr'; set_solver).
  clearbody tr'. destruct w as [c d h f co cl s l di]. cbn [held finished closed] in *.
  destruct Hev as (Hd & Hh' & _). destruct r as [st|x]; [|destruct x]; cbn [after_event]; split_and!; try done.
  all: cbn [finished closed]; intros [H|H%bool_decide_eq_true_1]%orb_true_iff; auto.
  - subst event. right. exists t. split; [done|]. by exists det, res, st.
  - subst event. exists t. split; [done|]. left. by exists det, res, st.
  - exists t. split; [done|]. right. destruct H as [-> | ->]; [left|right]; by eexists det, res, _, _.
Qed.

Lemma evidence_step w tr R (e : eff R) r next :
  evidence w tr → observe w R e = Some next → evidence (next r) (tr ++ [Step e r]).
Proof.
  intros Hev. apply (evidence_app w tr [Step e r]) in Hev. pose proof Hev as (Hd & Hh & Hf & Hc).
  destruct w as [c d h f co cl s l di]. cbn [drawn held finished closed] in *.
  destruct e; cbn [watch_call]; try done; try (intros [= <-]; exact Hev).
  - case_decide; [|done]. subst. intros [= <-]. split_and!; [done|done| |done]. cbn [finished].
    destruct r as [[v|]|]; [|done..]. intros _. left. exists v. set_solver.
  - case_decide; [intros [= <-]; exact Hev|]. case_decide; [intros [= <-]; exact Hev|].
    destruct d as [t|]; [|done]. case_decide as Hk; [|done]. destruct Hk as [-> ->]. intros [= <-].
    split_and!; [done| |done|done]. cbn [held].
    destruct r as [[]|]; [|done..]. intros t' [= <-]. split; [by apply Hd|]. exists ttl_s. set_solver.
  - case_decide as Hk; [|done]. destruct Hk as (-> & -> & ->). intros [= <-].
    split_and!; [|done..]. cbn [drawn]. destruct r as [t|]; [|done]. intros t' [= <-]. set_solver.
  - case_decide; [intros [= <-]; exact Hev|]. destruct h as [t|]; [|done].
    case_decide; [|done]. intros [= <-]. by split_and!.
  - case_decide as Hk; [|done]. destruct Hk as (-> & Ha & Hh' & Hft & _). intros [= <-].
    exact (evidence_event _ _ _ _ _ _ _ _ Hev Ha Hh' Hft).
  - case_decide; [|done]. intros [= <-]. exact Hev.
  - case_decide; [|done]. intros [= <-]. exact Hev.
  - case_decide; [|done]. intros [= <-]. exact Hev.
Qed.

Lemma evidence_run tr0 tr w w' :
  evidence w tr0 → monitor_run observe w tr = Some w' → evidence w' (tr0 ++ tr).
Proof.
  revert tr0 w. induction tr as [|[R e r] tr IH]; intros tr0 w Hev; cbn [monitor_run].
  - intros [= <-]. by rewrite app_nil_r.
  - destruct (observe w R e) as [next|] eqn:E; [|done]. intros H.
    rewrite cons_middle, app_assoc. eapply IH; [|exact H]. by apply evidence_step with w.
Qed.

Lemma evidence_init : evidence watch_init [].
Proof. by split_and!. Qed.
End handle.

(** A delivery that succeeds, call by call. *)
Definition sample_worker : Worker.t := Worker.mk default_settings "w1".
Definition sample_payload : dict := [("duration_ms", JInt 50); ("poison", JBool false)].

Definition claim_steps : list step_of :=
  [Step (KvGet (ExecutionGuard.done_key (uuid_str 1))) (Ok None);
   Step (KvSetIfAbsent (ExecutionGuard.claim_key (uuid_str 1)) "w1:1" (fZ 20)) (Ok true);
   Step (KvIncr (LeaseManager.token_key (uuid_str 1))) (Ok 7%Z);
   Step (KvSetIfAbsent (LeaseManager.lease_key (uuid_str 1)) (LeaseManager.lease_value "w1" 7) (fZ 20)) (Ok true);
   Step (RecordEvent 1 EventType.STARTED 1 None (Some 7%Z) None) (Ok JobState.RUNNING);
   Step RngRandom (Ok (fZ 0));
   Step Monotonic (Ok (fZ 100))] ++
  ((λ s, Step (Sleep s) (Ok tt)) <$> default [] (slices 9 (fZ 50 / fZ 1000)%float)) ++
  [Step Monotonic (Ok (fZ 101))].

Definition success_steps : list step_of :=
  claim_steps ++
  [Step (RecordEvent 1 EventType.COMPLETED 1 None (Some 7%Z) (Some [("elapsed_ms", JInt 1000)])) (Ok JobState.SUCCEEDED);
   Step (KvSetIfAbsent (ExecutionGuard.done_key (uuid_str 1)) "w1:1" (fZ 3600)) (Ok true);
   Step (KvCompareAndDelete (ExecutionGuard.claim_key (uuid_str 1)) "w1:1") (Ok true)].

Definition closing_steps : list step_of :=
  [Step (Metric "orbiter.jobs.completed" 1) (Ok tt);
   Step (Metric "orbiter.job.duration" 1000) (Ok tt);
   Step (KvCompareAndDelete (LeaseManager.lease_key (uuid_str 1)) (LeaseManager.lease_value "w1" 7)) (Ok true)].

Lemma sample_run :
  runs (Worker.handle sample_worker 9 1 (JObj sample_payload) 1 "w1:1")
    (success_steps ++ Step MsgAck (Ok tt) :: closing_steps) (Ok tt).
Proof.
  repeat eapply runs_call. apply runs_ret.
Qed.

(** A delivery whose execution fails while a newer holder has taken the job over:
    the fence rejects the REQUEUED event. *)
Definition failing_payload : dict := ("failure_rate", JInt 1) :: sample_payload.

Definition superseded_steps : list step_of :=
  claim_steps ++
  [Step (RecordEvent 1 EventType.REQUEUED 1 (Some [("error", JStr "simulated failure after 1000ms")]) (Some 7%Z) None)
     (Raise (StaleLeaseError (uuid_str 1) 7 8));
   Step (KvCompareAndDelete (LeaseManager.lease_key (uuid_str 1)) (LeaseManager.lease_value "w1" 7)) (Ok false)].

Lemma superseded_run :
  runs (Worker.handle sample_worker 9 1 (JObj failing_payload) 1 "w1:1") superseded_steps
    (Raise (StaleLeaseError (uuid_str 1) 7 8)).
Proof. repeat eapply runs_call. apply runs_throw. Qed.

(** An exception that [handle] lets out ends the fetch loop. *)
Lemma run_loop_raise self fuel turns msg msgs data id jv payload tr x :
  msg_data msg = Ok data → getitem data "job_id" = Ok jv → uuid_of_json jv = Ok id →
  getitem data "payload" = Ok payload →
  runs (Worker.handle self fuel id payload (num_delivered msg) (Worker.delivery_of self (num_delivered msg))) tr (Raise x) →
  runs (Worker.run_loop self fuel (S turns))
    (Step StopIsSet (Ok false) ::
     Step (SubFetch 1 (worker_fetch_timeout_s (Worker.settings self))) (Ok (msg :: msgs)) :: tr) (Raise x).
Proof.
  intros Hd Hj Hu Hp Hr. cbn [Worker.run_loop bind await]. apply runs_call. cbn [bind].
  unfold Worker.fetch_or_continue. cbn [bind await try_except]. apply runs_call. cbn [bind try_except].
  cbn [Worker.process_all]. do 2 apply runs_bind_raise.
  unfold Worker.process. rewrite Hd. cbn [of_result bind]. rewrite Hj. cbn [of_result bind].
  rewrite Hu. cbn [of_result bind]. by rewrite Hp.
Qed.

(** ** The verdict on a failed execution *)

(** What becomes of a worker: it goes on; the trail has raised an exception for the
    verdict on a failed execution of a job; the lease has been given back after that,
    and an exception is on its way out. *)
Inductive fate := Going | Rejected (id : uuid) (x : exn) | Falling (x : exn).

Definition verdict_event (event : EventType.t) : bool :=
  match event with EventType.REQUEUED | EventType.FAILED => true | _ => false end.

(** After a rejected verdict the only call is the release of the job's lease. *)
Definition fate_call (w : fate) (R : Type) (e : eff R) : option (result R → fate) :=
  match w with
  | Going =>
      match e in eff R return option (result R → fate) with
      | RecordEvent id event _ _ _ _ =>
          if verdict_event event then Some (λ r, match r with Ok _ => Going | Raise x => Rejected id x end)
          else Some (λ _, Going)
      | _ => Some (λ _, Going)
      end
  | Rejected id x =>
      match e in eff R return option (result R → fate) with
      | KvCompareAndDelete k _ =>
          if decide (k = LeaseManager.lease_key (uuid_str id))
          then Some (λ r, Falling (match r with Ok _ => x | Raise y => y end)) else None
      | _ => None
      end
  | Falling _ => None
  end.

(** How a worker's program ends. *)
Definition fate_end {A} (w : fate) (o : result A) : Prop :=
  match w with Going => True | Rejected _ _ => False | Falling x => o = Raise x end.

Section fate.
Context (self : Worker.t) (fuel : nat).

Abbreviation fated := (monitored (λ _ _ _, True) fate_call).

(** Calls that are no verdict. *)
Abbreviation plain := (λ (R : Type) (e : eff R),
  match e with RecordEvent _ event _ _ _ _ => verdict_event event = false | _ => True end).

Lemma fated_plain {A} (p : prog A) : calls_ok plain p → fated (λ w _, w = Going) Going p.
Proof. apply calls_ok_monitored. intros R []; cbn [fate_call]; try done. intros H. by rewrite H. Qed.

Ltac plain_calls :=
  repeat first
    [ apply calls_ok_bind; [|intros ?] | apply calls_ok_of_result | apply calls_ok_await; done | exact I | case_match ].

Lemma plain_sleep steps : calls_ok plain (sleep_all steps).
Proof. induction steps as [|s steps IH]; cbn [sleep_all]; [done|]. by apply calls_ok_bind; [apply calls_ok_await|]. Qed.

Lemma plain_execute ms fr : calls_ok plain (execute fuel ms fr).
Proof. unfold execute. repeat first [apply plain_sleep|progress plain_calls]. Qed.

Lemma plain_attempt job payload attempt delivery lease :
  calls_ok plain (Worker.attempt_job self fuel job payload attempt delivery lease).
Proof. unfold Worker.attempt_job, ExecutionGuard.mark_done. repeat first [apply plain_execute|apply plain_sleep|progress plain_calls]. Qed.

(** The clause for a failed execution: its first call is the verdict. *)
Lemma fated_failure job attempt delivery lease m :
  fated (λ w o, w = Going ∨ ∃ x, w = Rejected job x ∧ o = Raise x) Going (Worker.on_failure self job attempt delivery lease m).
Proof.
  assert (Hrest : ∀ p : prog unit, calls_ok plain p → fated (λ w o, w = Going ∨ ∃ x, w = Rejected job x ∧ o = Raise x) Going p).
  { intros p Hp. eapply monitored_mono; [|by apply fated_plain]. by left. }
  unfold Worker.on_failure, ExecutionGuard.release_claim. destruct (_ <? _)%Z;
    (eapply monitored_step; [reflexivity|intros v _; apply Hrest; plain_calls|]); intros x _; right; by exists x.
Qed.

Lemma fated_lease job payload attempt delivery lease :
  resource lease = uuid_str job → fated fate_end Going (Worker.under_lease self fuel job payload attempt delivery lease).
Proof.
  intros Hl. unfold Worker.under_lease, LeaseManager.release. rewrite Hl. apply monitored_try_finally, monitored_try_except.
  assert (Hfin : ∀ w o, w = Going ∨ (∃ x, w = Rejected job x ∧ o = Raise x) → fated
    (λ w rc, match rc with Ok _ => fate_end w (o : result unit) | Raise e => fate_end w (@Raise unit e) end) w
    (let! _ := await (KvCompareAndDelete (LeaseManager.lease_key (uuid_str job))
       (LeaseManager.lease_value (holder lease) (token lease))) in Ret tt)).
  { intros w o [->|(x & -> & ->)].
    - by eapply monitored_step.
    - eapply monitored_step; [cbn [fate_call]; by rewrite decide_True|done|done]. }
  eapply monitored_mono; [|apply fated_plain, plain_attempt]. intros w [[]|x] ->; [by apply Hfin; left|].
  destruct x; try (by apply Hfin; left).
  - eapply monitored_mono; [|apply fated_plain; unfold ExecutionGuard.release_claim; plain_calls].
    intros w o ->. by apply Hfin; left.
  - eapply monitored_mono; [|apply fated_failure]. intros w o. apply Hfin.
Qed.

Lemma fated_handle job payload attempt delivery : fated fate_end Going (Worker.handle self fuel job payload attempt delivery).
Proof.
  assert (Hplain : ∀ p : prog unit, calls_ok plain p → fated fate_end Going p).
  { intros p Hp. eapply monitored_mono; [|by apply fated_plain]. by intros w o ->. }
  destruct payload as [| | | | | |payload]; try done. unfold Worker.handle, Worker.nak_jittered, ExecutionGuard.release_claim.
  destruct (truthy _); [by apply Hplain, calls_ok_await|].
  apply monitored_bind. eapply monitored_mono; [|apply fated_plain; unfold ExecutionGuard.try_claim; plain_calls].
  intros w [[]|x] ->; [|by apply Hplain, calls_ok_await|apply Hplain; plain_calls|done].
  apply monitored_bind. unfold LeaseManager.acquire.
  eapply monitored_step; [reflexivity|intros tok _|done]. eapply monitored_step; [reflexivity|intros [] _|done]; cbn [monitored negb].
  - by apply fated_lease.
  - apply Hplain. plain_calls.
Qed.

Lemma fated_bind {A B} (m : prog A) (f : A → prog B) :
  fated fate_end Going m → (∀ a, fated fate_end Going (f a)) → fated fate_end Going (bind m f).
Proof.
  intros Hm Hf. apply monitored_bind. eapply monitored_mono; [|exact Hm].
  intros [|id y|y] [a|x]; cbn [fate_end]; try done. by intros [= ->].
Qed.

Lemma fated_calls {A} (p : prog A) : calls_ok plain p → fated fate_end Going p.
Proof. intros Hp. eapply monitored_mono; [|by apply fated_plain]. by intros w o ->. Qed.

Lemma fated_loop turns : fated fate_end Going (Worker.run_loop self fuel turns).
Proof.
  induction turns as [|turns IH]; cbn [Worker.run_loop]; [done|].
  apply fated_bind; [by apply fated_calls, calls_ok_await|]. intros []; [done|].
  apply fated_bind.
  { apply fated_calls. unfold Worker.fetch_or_continue. apply calls_ok_try_except; [plain_calls|]. by intros []. }
  intros [msgs|]; [|done]. apply fated_bind; [|done].
  induction msgs as [|msg msgs IHm]; cbn [Worker.process_all]; [done|]. apply fated_bind; [|done]. unfold Worker.process.
  repeat (apply fated_bind; [apply fated_calls, calls_ok_of_result|intros ?]). apply fated_handle.
Qed.
End fate.

(** * Properties *)

(** C6: the contract of a delivery.  Whatever the store, the repository, the broker,
    the clock and the generator answer (any reply, any service failure at any
    call), every call [handle] makes is one its contract allows at that point
    ([watch_call]: own keys only, one token, fenced writes, at most one disposition,
    nothing recorded after it), and it ends as the contract says ([watch_end]): the
    release of a lease it was granted has been called for; if it returns, it has
    disposed of the message, unless its STARTED or COMPLETED was rejected with
    [StaleLeaseError] (then it has not); if it raises, that is not [SimulatedFailure],
    and [StaleLeaseError] or [IllegalTransition] only for the REQUEUED or FAILED of a
    failed execution.  Whether a run that raises has disposed of the message is left
    open. *)
Theorem delivery_contract (self : Worker.t) (fuel : nat) (job : uuid) (payload : json) (attempt : Z)
    (delivery : string) (tr : list step_of) (o : result unit) :
  runs (Worker.handle self fuel job payload attempt delivery) tr o → admissible tr →
  ∃ w, monitor_run (watch_call job attempt (Worker.worker_id self) delivery) watch_init tr = Some w ∧
       watch_end w o.
Proof. intros Hr Ha. eapply monitored_runs; [apply conforms_handle|exact Hr|exact Ha]. Qed.

Lemma delivery_contract_witness :
  ∃ w, monitor_run (watch_call 1 1 "w1" "w1:1") watch_init (success_steps ++ Step MsgAck (Ok tt) :: closing_steps) = Some w ∧
       watch_end w (Ok tt).
Proof.
  apply (delivery_contract sample_worker 9 1 (JObj sample_payload) 1 "w1:1" _ (Ok tt) sample_run).
  repeat constructor; done.
Defined.

(** C21: writes are fenced and dispositions are truthful.  In every run of [handle],
    at each point: an event is recorded for this job and attempt only, with a
    token this run drew from the job's counter and was granted the lease with;
    the message is acked only after the done marker was read or COMPLETED was
    accepted, and terminated only after FAILED was accepted or the trail refused
    the delivery. *)
Theorem delivery_truthful (self : Worker.t) (fuel : nat) (job : uuid) (payload : json) (attempt : Z)
    (delivery : string) (tr1 tr2 : list step_of) (R : Type) (e : eff R) (r : result R) (o : result unit) :
  runs (Worker.handle self fuel job payload attempt delivery) (tr1 ++ Step e r :: tr2) o →
  admissible (tr1 ++ Step e r :: tr2) →
  match e with
  | RecordEvent id _ att _ ft _ => id = job ∧ att = attempt ∧ ∃ t, ft = Some t ∧ granted self job t tr1
  | MsgAck =>
      marker_seen job tr1 ∨
      ∃ t, granted self job t tr1 ∧ recorded job attempt EventType.COMPLETED t tr1
  | MsgTerm =>
      ∃ t, granted self job t tr1 ∧
        (recorded job attempt EventType.FAILED t tr1 ∨
         refused job attempt EventType.STARTED t tr1 ∨ refused job attempt EventType.COMPLETED t tr1)
  | _ => True
  end.
Proof.
  intros Hr Ha. destruct (monitored_runs _ _ _ _ _ _ _ (conforms_handle self fuel job attempt delivery payload) Hr Ha)
    as (w & Hw & _).
  apply monitor_run_app in Hw as (w1 & next & Hw1 & Hn & _).
  pose proof (evidence_run self job attempt delivery [] tr1 _ _ (evidence_init _ _ _) Hw1) as (_ & Hh & Hf & Hc).
  destruct w1 as [c d h f co cl s l di]. cbn [held finished closed app] in *.
  destruct e; cbn [watch_call] in Hn; try done; case_decide as Hk; try done.
  - destruct Hk as (-> & -> & [t Ht] & -> & _). split_and!; [done..|]. exists t. auto.
  - apply Hf, Hk.
  - apply Hc, Hk.
Qed.

Lemma delivery_truthful_witness :
  marker_seen 1 success_steps ∨
  ∃ t, granted sample_worker 1 t success_steps ∧ recorded 1 1 EventType.COMPLETED t success_steps.
Proof.
  apply (delivery_truthful sample_worker 9 1 (JObj sample_payload) 1 "w1:1" success_steps closing_steps
           unit MsgAck (Ok tt) (Ok tt) sample_run). repeat constructor; done.
Defined.

Definition failing_msg : Msg :=
  mkMsg (Ok (JObj [("job_id", JStr (uuid_str 1)); ("payload", JObj failing_payload)])) 1.

(** C40: an exception for the verdict on a failed execution takes the worker down.  The
    clauses for [StaleLeaseError] and [IllegalTransition] guard the body of the [try]
    only, not the clause for [SimulatedFailure].  In every run of the fetch loop of any
    worker, whatever it fetches and whatever its calls answer: if the record of a
    REQUEUED or FAILED event raises an exception, as [StaleLeaseError] when the fence
    rejects it, then exactly one more call is made, the release of the job's lease, and
    the loop ends with that exception, or with the one the release raised: no further
    message is processed or fetched. *)
Theorem rejected_requeue_stops_worker (self : Worker.t) (fuel turns : nat) (tr1 tr2 : list step_of) (id : uuid)
    (event : EventType.t) (att : Z) (det : option dict) (ft : option Z) (res : option dict) (x : exn) (o : result bool) :
  runs (Worker.run_loop self fuel turns) (tr1 ++ Step (RecordEvent id event att det ft res) (Raise x) :: tr2) o →
  event = EventType.REQUEUED ∨ event = EventType.FAILED →
  ∃ v r, tr2 = [Step (KvCompareAndDelete (LeaseManager.lease_key (uuid_str id)) v) r] ∧
    o = Raise (match r with Ok _ => x | Raise y => y end).
Proof.
  intros Hr Hev.
  destruct (monitored_runs _ _ _ _ _ _ _ (fated_loop self fuel turns) Hr) as (w & Hw & Hend).
  { apply Forall_true. by intros []. }
  apply monitor_run_app in Hw as (w1 & next & _ & Hn & Hw2). destruct w1 as [|? ?|?]; try done. cbn [fate_call] in Hn.
  replace (verdict_event event) with true in Hn by (by destruct Hev as [-> | ->]). injection Hn as <-.
  destruct tr2 as [|[R e r] tr2]; [injection Hw2 as <-; done|]. cbn [monitor_run] in Hw2.
  destruct e; try done. cbn [fate_call] in Hw2. case_decide as Hk; [|done]. subst key.
  destruct tr2 as [|[R e r'] tr2]; [|done]. injection Hw2 as <-. eauto.
Qed.

Lemma rejected_requeue_stops_worker_witness :
  ∃ v r, [Step (KvCompareAndDelete (LeaseManager.lease_key (uuid_str 1)) (LeaseManager.lease_value "w1" 7)) (Ok false)] =
    [Step (KvCompareAndDelete (LeaseManager.lease_key (uuid_str 1)) v) r] ∧
    @Raise bool (StaleLeaseError (uuid_str 1) 7 8) = Raise (match r with Ok _ => StaleLeaseError (uuid_str 1) 7 8 | Raise y => y end).
Proof.
  apply (rejected_requeue_stops_worker sample_worker 9 3
    (Step StopIsSet (Ok false) :: Step (SubFetch 1 5) (Ok [failing_msg; failing_msg]) :: claim_steps)
    _ 1 EventType.REQUEUED 1 (Some [("error", JStr "simulated failure after 1000ms")]) (Some 7%Z) None).
  - apply (run_loop_raise sample_worker 9 2 failing_msg [failing_msg] _ 1 _ (JObj failing_payload) superseded_steps _
      eq_refl eq_refl); [by apply UUID_str|reflexivity|]. exact superseded_run.
  - by left.
Defined.
