(* ===== verification/Retry.v ===== *)
(** * Retry delays ([src/orbiter/worker/main.py])

    How long a delivery asks the broker to wait before it sends the message again. *)
From Stdlib Require Import Floats.SpecFloat.
From S2P Require Import Prelude PyFloat PyJson Model StateMachine PyUuid KVStore Effects Fencing.
From S2P Require Import Idempotency Config Executor PyNum Worker.

Open Scope prog_scope.

(** From half a second to half a minute. *)
Definition delay_ok (d : float) : bool := (float_of_decimal false 5 (-1) <=? d)%float && (d <=? fZ 30)%float.

Definition delay_call (u : unit) (R : Type) (e : eff R) : option (result R → unit) :=
  match e in eff R return option (result R → unit) with
  | MsgNak d => if delay_ok d then Some (λ _, tt) else None
  | _ => Some (λ _, tt)
  end.

(** [random.uniform(a, b)] answers between its bounds. *)
Definition uniform_ok (R : Type) (e : eff R) (r : result R) : Prop :=
  match e in eff R return result R → Prop with
  | RngUniform a b => λ r, ∀ v, r = Ok v → (a <=? v)%float = true ∧ (v <=? b)%float = true
  | _ => λ _, True
  end r.

(** Every delay asked for is within the bounds. *)
Abbreviation delays p := (monitored uniform_ok delay_call (λ _ _, True) tt p).

Lemma delays_bind {A B} (m : prog A) (f : A → prog B) : delays m → (∀ a, delays (f a)) → delays (bind m f).
Proof.
  intros Hm Hf. apply monitored_bind. eapply monitored_mono; [|exact Hm]. by intros [] [a|x] _.
Qed.

Lemma delays_try_except {A} (m : prog A) h : delays m → (∀ x, delays (h x)) → delays (try_except m h).
Proof.
  intros Hm Hh. apply monitored_try_except. eapply monitored_mono; [|exact Hm]. by intros [] [a|x] _.
Qed.

Lemma delays_try_finally {A} (m : prog A) c : delays m → delays c → delays (try_finally m c).
Proof.
  intros Hm Hc. apply monitored_try_finally. eapply monitored_mono; [|exact Hm]. intros [] r _.
  eapply monitored_mono; [|exact Hc]. by intros [] [[]|x] _.
Qed.

Lemma delays_of_result {A} (r : result A) : delays (of_result r).
Proof. by apply monitored_of_result. Qed.

Lemma delays_await {R} (e : eff R) : delay_call tt R e = Some (λ _, tt) → delays (await e).
Proof. intros He. by eapply monitored_await. Qed.

Create HintDb delays.

Ltac delays :=
  repeat first
    [ solve [eauto 2 with delays] | apply delays_bind; [|intros ?] | apply delays_try_except; [|intros ?] | apply delays_try_finally
    | apply delays_of_result | by apply delays_await | done
    | match goal with |- monitored _ _ _ _ (match ?x with _ => _ end) => destruct x end ].

Lemma delays_sleep_all steps : delays (sleep_all steps).
Proof. induction steps as [|step steps IH]; [done|]. apply delays_bind; [by apply delays_await|done]. Qed.

#[local] Hint Resolve delays_sleep_all : delays.

Lemma delays_execute fuel d fr : delays (execute fuel d fr).
Proof. unfold execute. delays. Qed.
#[local] Hint Resolve delays_execute : delays.

Lemma delays_attempt self fuel job payload attempt delivery lease :
  delays (Worker.attempt_job self fuel job payload attempt delivery lease).
Proof. unfold Worker.attempt_job, ExecutionGuard.mark_done. delays. Qed.
#[local] Hint Resolve delays_attempt : delays.

(** [min(2**attempt, 30)] seconds, from the first delivery on. *)
Lemma backoff_ok attempt : (1 ≤ attempt)%Z → delay_ok (fZ (Z.min (2 ^ attempt) 30)) = true.
Proof.
  intros Ha. destruct (decide (attempt < 5)%Z) as [Hlt|Hge].
  - assert (attempt = 1 ∨ attempt = 2 ∨ attempt = 3 ∨ attempt = 4)%Z as [->|[->|[->| ->]]] by lia; vm_compute; reflexivity.
  - rewrite Z.min_r; [vm_compute; reflexivity|]. transitivity (2 ^ 5)%Z; [lia|]. apply Z.pow_le_mono_r; lia.
Qed.

Lemma jitter_ok d : (fZ 4 <=? d)%float = true → (d <=? fZ 9)%float = true → delay_ok d = true.
Proof.
  intros H1 H2. apply andb_true_iff. split.
  - eapply fleb_trans; [|exact H1]. vm_compute. reflexivity.
  - eapply fleb_trans; [exact H2|]. vm_compute. reflexivity.
Qed.

Lemma delays_nak d : delay_ok d = true → delays (await (MsgNak d)).
Proof. intros H. apply delays_await. cbn [delay_call]. by rewrite H. Qed.

Lemma delays_jittered : delays Worker.nak_jittered.
Proof.
  unfold Worker.nak_jittered. apply monitored_bind. eapply monitored_await; [reflexivity|].
  intros [d|x] Hd; [|done]. destruct (Hd d eq_refl). by apply delays_nak, jitter_ok.
Qed.
#[local] Hint Resolve delays_nak backoff_ok delays_jittered : delays.

Lemma delays_on_failure self job attempt delivery lease exc :
  (1 ≤ attempt)%Z → delays (Worker.on_failure self job attempt delivery lease exc).
Proof.
  intros Ha. unfold Worker.on_failure, ExecutionGuard.release_claim. delays. by apply delays_nak, backoff_ok.
Qed.
#[local] Hint Resolve delays_on_failure : delays.

Lemma delays_handle self fuel job payload attempt delivery :
  (1 ≤ attempt)%Z → delays (Worker.handle self fuel job payload attempt delivery).
Proof.
  intros Ha. unfold Worker.handle, Worker.under_lease, ExecutionGuard.try_claim, ExecutionGuard.release_claim,
    LeaseManager.acquire, LeaseManager.release. delays.
Qed.

(** * Properties *)

(** C37: a message sent back is never lost to a delay.  In every run of [handle], from
    the first delivery on, in which [random.uniform] answers between its bounds and
    every other call answers anything: each delay a nak asks for is a number of
    seconds between 0.5 and 30, however often the message was delivered. *)
Theorem nak_delay_bounded (self : Worker.t) (fuel : nat) (job : uuid) (payload : json) (attempt : Z)
    (delivery : string) (tr : list step_of) (o : result unit) (d : float) (r : result unit) :
  (1 ≤ attempt)%Z → runs (Worker.handle self fuel job payload attempt delivery) tr o →
  Forall (λ s, match s with Step e r => uniform_ok _ e r end) tr → Step (MsgNak d) r ∈ tr →
  (float_of_decimal false 5 (-1) <=? d)%float = true ∧ (d <=? fZ 30)%float = true.
Proof.
  intros Ha Hr Hu Hin. pose proof (delays_handle self fuel job payload attempt delivery Ha) as Hd.
  destruct (monitored_runs _ _ _ _ _ _ _ Hd Hr Hu) as ([] & Hm & _).
  apply list_elem_of_split in Hin as (tr1 & tr2 & ->). apply monitor_run_app in Hm as ([] & next & _ & Hn & _).
  cbn [delay_call] in Hn. destruct (delay_ok d) eqn:E; [|done]. by apply andb_true_iff.
Qed.

(** A delivery that finds its job in progress elsewhere and backs off. *)
Definition busy_steps : list step_of :=
  [Step (KvGet (ExecutionGuard.done_key (uuid_str 1))) (Ok None);
   Step (KvSetIfAbsent (ExecutionGuard.claim_key (uuid_str 1)) "w1:2" (fZ 20)) (Ok false);
   Step (RngUniform (fZ 4) (fZ 9)) (Ok (fZ 6));
   Step (MsgNak (fZ 6)) (Ok tt)].

Lemma nak_delay_bounded_witness :
  (float_of_decimal false 5 (-1) <=? fZ 6)%float = true ∧ (fZ 6 <=? fZ 30)%float = true.
Proof.
  apply (nak_delay_bounded sample_worker 9 1 (JObj sample_payload) 2 "w1:2" busy_steps (Ok tt) (fZ 6) (Ok tt)).
  - lia.
  - repeat eapply runs_call. apply runs_ret.
  - do 2 (apply Forall_cons; split; [exact I|]). apply Forall_cons; split; [|apply Forall_cons; split; [exact I|constructor]].
    intros v Hv. assert (v = fZ 6) as -> by congruence. split; vm_compute; reflexivity.
  - apply list_elem_of_lookup. exists 3. reflexivity.
Defined.
