(* ===== verification/Valkey.v ===== *)
(** * The Valkey store ([src/orbiter/kv/valkey.py])

    [ValkeyKV] is the store of production: four commands of a server that is not
    part of the repository, one of them a script.  The server is given by its
    documented commands, as a class with laws; the client answers as the reference
    store of [KVStore] with millisecond deadlines, as long as no key is used both
    as a counter and as an entry, and the keys of the platform are not. *)
From Stdlib Require Import Floats.SpecFloat.
From S2P Require Import Prelude PyFloat PyJson Model PyUuid KVStore Effects Fencing Idempotency Config Executor PyNum.
From S2P Require Import Worker.

(** ** The server

    Commands carry the server's clock in milliseconds.  [redis_view now r k] is
    what GET finds at [now]; [redis_expired] decides whether a deadline has passed
    (at the deadline itself, the documented accuracy of one millisecond leaves it
    open). *)
Class RedisServer (R : Type) := {
  redis_get : Z → string → R → option string * R;
  redis_set_nx_px : Z → string → string → Z → R → bool * R;
  redis_incr : Z → string → R → result Z * R;
  redis_del : Z → string → R → Z * R;
  redis_view : Z → R → string → option string;
  redis_expired : Z → Z → bool
}.
Arguments redis_expired R {_} _ _.

(** Largest value of an integer the server keeps. *)
Definition INT64_MAX : Z := 9223372036854775807.

Class RedisLaws (R : Type) `{!RedisServer R} := {
  redis_get_reply now k r : (redis_get now k r).1 = redis_view now r k;
  redis_get_view now k r now' k' :
    (now ≤ now')%Z → redis_view now' (redis_get now k r).2 k' = redis_view now' r k';

  redis_set_reply now k v px r :
    (1 ≤ px)%Z → (now + px ≤ INT64_MAX)%Z → (redis_set_nx_px now k v px r).1 = true ↔ redis_view now r k = None;
  redis_set_view now k v px r now' k' :
    (1 ≤ px)%Z → (now + px ≤ INT64_MAX)%Z → (now ≤ now')%Z →
    redis_view now' (redis_set_nx_px now k v px r).2 k' =
      if decide (k' = k ∧ redis_view now r k = None)
      then (if redis_expired R (now + px) now' then None else Some v)
      else redis_view now' r k';

  redis_incr_new now k r :
    redis_view now r k = None →
    (redis_incr now k r).1 = Ok 1%Z ∧
    ∀ now' k', (now ≤ now')%Z →
      redis_view now' (redis_incr now k r).2 k' = if decide (k' = k) then Some (pretty 1%Z) else redis_view now' r k';
  redis_incr_old now k r n :
    redis_view now r k = Some (pretty n) → (0 ≤ n < INT64_MAX)%Z →
    (redis_incr now k r).1 = Ok (n + 1)%Z ∧
    ∀ now' k', (now ≤ now')%Z →
      redis_view now' (redis_incr now k r).2 k' =
        if decide (k' = k)
        then (λ _, pretty (n + 1)%Z) <$> redis_view now' r k    (* the deadline is kept *)
        else redis_view now' r k';

  redis_del_reply now k r : (redis_del now k r).1 = if decide (redis_view now r k = None) then 0%Z else 1%Z;
  redis_del_view now k r now' k' :
    (now ≤ now')%Z →
    redis_view now' (redis_del now k r).2 k' = if decide (k' = k) then None else redis_view now' r k';

  redis_before deadline now : (now < deadline)%Z → redis_expired R deadline now = false;
  redis_after deadline now : (deadline < now)%Z → redis_expired R deadline now = true;
  redis_expired_later deadline now now' :
    (now ≤ now')%Z → redis_expired R deadline now = true → redis_expired R deadline now' = true
}.

(** ** The client *)
Module ValkeyKV.
Section client.
Context {R : Type} `{!RedisServer R}.

(** The reading of the server's clock at an instant. *)
Context (clock : float → Z).

(** [max(1, math.ceil(ttl_s * 1000))] *)
Definition px (ttl_s : float) : result Z :=
  let f := (ttl_s * fZ 1000)%float in
  match f with
  | S754_nan => Raise (ValueError "cannot convert float NaN to integer")
  | S754_infinity _ => Raise (OverflowError "cannot convert float infinity to integer")
  | _ => match ceil f with Some z => Ok (Z.max 1 z) | None => Raise (ValueError "") end
  end.

Definition get (now : float) (key : string) (r : R) : option string * R := redis_get (clock now) key r.

Definition set_if_absent (now : float) (key value : string) (ttl_s : float) (r : R) : result bool * R :=
  match px ttl_s with
  | Raise e => (Raise e, r)
  | Ok px => let '(ok, r) := redis_set_nx_px (clock now) key value px r in (Ok ok, r)
  end.

Definition incr (now : float) (key : string) (r : R) : result Z * R := redis_incr (clock now) key r.

(** [_COMPARE_AND_DELETE]: the script runs at one reading of the clock, with
    nothing in between. *)
Definition COMPARE_AND_DELETE (now : Z) (KEYS1 ARGV1 : string) (r : R) : Z * R :=
  let '(v, r) := redis_get now KEYS1 r in
  if decide (v = Some ARGV1) then redis_del now KEYS1 r else (0%Z, r).

(** [bool(deleted)] *)
Definition compare_and_delete (now : float) (key expected : string) (r : R) : bool * R :=
  let '(deleted, r) := COMPARE_AND_DELETE (clock now) key expected r in (negb (deleted =? 0)%Z, r).

(** The four operations as calls of the protocol. *)
Definition call (now : float) (c : kv_call) (r : R) : result kv_reply * R :=
  match c with
  | CGet k => let '(v, r) := get now k r in (Ok (RGet v), r)
  | CSet k v ttl => let '(b, r) := set_if_absent now k v ttl r in (result_bind b (λ b, Ok (RBool b)), r)
  | CIncr k => let '(n, r) := incr now k r in (result_bind n (λ n, Ok (RInt n)), r)
  | CCad k v => let '(b, r) := compare_and_delete now k v r in (Ok (RBool b), r)
  end.

Fixpoint trace (calls : list (float * kv_call)) (r : R) : list (result kv_reply) :=
  match calls with
  | [] => []
  | (now, c) :: calls => let '(a, r) := call now c r in a :: trace calls r
  end.

End client.

Example px_examples :
  px (fZ 20) = Ok 20000%Z ∧ px (fZ 3600) = Ok 3600000%Z ∧ px (fZ 0) = Ok 1%Z ∧
  px (float_of_decimal false 15 (-5)) = Ok 1%Z ∧ px (float_of_decimal false 10001 (-7)) = Ok 2%Z.
Proof. vm_compute. done. Qed.
End ValkeyKV.

(** ** The reference *)

(** [n < f], exactly. *)
Definition below (n : Z) (f : float) : bool :=
  match f with
  | S754_zero _ => (n <? 0)%Z
  | S754_infinity s => negb s
  | S754_nan => false
  | S754_finite s m e =>
      let v := if s then Zneg m else Zpos m in
      if (0 <=? e)%Z then (n <? v * 2 ^ e)%Z else (n * 2 ^ (- e) <? v)%Z
  end.

(** An entry with a TTL of [ttl] seconds is alive [elapsed] milliseconds after it was
    set: the milliseconds of the TTL are not over, or it is the very millisecond. *)
Definition alive (elapsed : Z) (ttl : float) : bool := (elapsed <? 1)%Z || below elapsed (ttl * fZ 1000)%float.

(** An entry set at [t] has lapsed at [t']: not while it is alive; in the first
    millisecond in which it is not, if the server counts a deadline as passed that is
    just being reached; and in every later one. *)
Definition in_ms {R : Type} `{!RedisServer R} (clock : float → Z) (t ttl t' : float) : bool :=
  let elapsed := (clock t' - clock t)%Z in
  if alive elapsed ttl then false
  else if alive (elapsed - 1) ttl then redis_expired R (clock t') (clock t')
  else true.

Lemma below_ceil f z n : ceil f = Some z → below n f = (n <? z)%Z.
Proof.
  destruct f as [s|s| |s m e]; try done; cbn [ceil below]; [by intros [= <-]|]. intros [= <-].
  set (v := if s then Zneg m else Zpos m). destruct (Z.leb_spec 0 e) as [He|He].
  - by rewrite Z.shiftl_mul_pow2 by done.
  - rewrite Z.shiftr_div_pow2 by lia. assert (0 < 2 ^ (- e))%Z by (apply Z.pow_pos_nonneg; lia).
    pose proof (Z.div_mod (- v) (2 ^ (- e)) ltac:(lia)). pose proof (Z.mod_pos_bound (- v) (2 ^ (- e)) ltac:(lia)).
    apply eq_true_iff_eq. rewrite !Z.ltb_lt. nia.
Qed.

(** What the server is given as expiry is how many milliseconds the entry is alive. *)
Lemma px_alive ttl p : ValkeyKV.px ttl = Ok p → (1 ≤ p)%Z ∧ ∀ n, alive n ttl = (n <? p)%Z.
Proof.
  unfold ValkeyKV.px, alive. intros H.
  assert (Hp : ∃ z, ceil (ttl * fZ 1000)%float = Some z ∧ p = Z.max 1 z).
  { destruct (ttl * fZ 1000)%float as [s|s| |s m e]; try done; simpl in *; injection H as <-; eauto. }
  destruct Hp as (z & Hz & ->). split; [lia|]. intros n. rewrite (below_ceil _ z n Hz). lia.
Qed.

(** So for every TTL, but for one that is infinite. *)
Lemma alive_cases ttl : (∀ n, alive n ttl = true) ∨ ∃ p, (1 ≤ p)%Z ∧ ∀ n, alive n ttl = (n <? p)%Z.
Proof.
  destruct (ValkeyKV.px ttl) as [p|x] eqn:Hp; [right; exists p; by apply px_alive|]. unfold alive. unfold ValkeyKV.px in Hp.
  destruct (ttl * fZ 1000)%float as [s|[]| |s m e]; try done; cbn [below negb].
  - right. exists 1%Z. split; [done|]. intros n. lia.
  - left. intros n. by rewrite orb_true_r.
  - right. exists 1%Z. split; [done|]. intros n. lia.
Qed.

Lemma in_ms_deadline {R : Type} `{!RedisServer R, !RedisLaws R} clock t ttl t' p :
  (1 ≤ p)%Z → (∀ n, alive n ttl = (n <? p)%Z) → in_ms (R := R) clock t ttl t' = redis_expired R (clock t + p) (clock t').
Proof.
  intros Hp Ha. unfold in_ms. rewrite !Ha. destruct (Z.ltb_spec (clock t' - clock t) p) as [H|H].
  - symmetry. apply redis_before. lia.
  - destruct (Z.ltb_spec (clock t' - clock t - 1) p) as [H'|H'].
    + f_equal. lia.
    + symmetry. apply redis_after. lia.
Qed.

Example alive_examples :
  alive 19999 (fZ 20) = true ∧ alive 20000 (fZ 20) = false ∧ alive 0 (fZ 0) = true ∧ alive 1 (fZ 0) = false ∧
  alive 1 (float_of_decimal false 10001 (-7)) = true ∧ alive 2 (float_of_decimal false 10001 (-7)) = false.
Proof. vm_compute. done. Qed.

(** ** Refinement *)

(** Keys of counters and keys of entries are kept apart. *)
Definition separated (counter_key : string → bool) (c : kv_call) : Prop :=
  match c with
  | CIncr k => counter_key k = true
  | CGet k | CSet k _ _ | CCad k _ => counter_key k = false
  end.

(** The TTL has a value in milliseconds: its thousandfold is a number, and finite. *)
Definition finite_ms (ttl : float) : Prop :=
  match (ttl * fZ 1000)%float with S754_nan | S754_infinity _ => False | _ => True end.

Definition ttl_ok (c : kv_call) : Prop :=
  match c with
  | CSet _ _ ttl => finite_ms ttl
  | _ => True
  end.

(** The deadline is an integer the server can keep. *)
Definition deadline_ok (clock : float → Z) (now : float) (c : kv_call) : Prop :=
  match c with
  | CSet _ _ ttl => alive (INT64_MAX - clock now) ttl = false
  | _ => True
  end.

Lemma px_total ttl : finite_ms ttl → ∃ p, ValkeyKV.px ttl = Ok p.
Proof. unfold finite_ms, ValkeyKV.px. destruct (ttl * fZ 1000)%float; try done; cbn [ceil]; eauto. Qed.

Section refinement.
Context {R : Type} `{!RedisServer R, !RedisLaws R}.
Context (clock : float → Z) (counter_key : string → bool).
Context (clock_mono : ∀ t t', (t <=? t')%float = true → (clock t ≤ clock t')%Z).

Abbreviation lapsed := (in_ms (R := R) clock).
Abbreviation reference := (SpecKV.t lapsed).

#[local] Instance in_ms_lapse : Lapse lapsed.
Proof.
  intros t ttl t1 t2 Ht. destruct (alive_cases ttl) as [Ha|(p & Hp & Ha)].
  - unfold in_ms. by rewrite Ha.
  - rewrite !(in_ms_deadline clock t ttl _ p Hp Ha). apply redis_expired_later. by apply clock_mono.
Qed.

(** The server [r] holds what the reference [m] holds, for readers from [t] on:
    entries as they are, counters in decimal. *)
Record sim (t : float) (n : Z) (r : R) (m : reference) : Prop := {
  sim_entry t' k : (t <=? t')%float = true → counter_key k = false →
    redis_view (clock t') r k = kv_view t' m k;
  sim_counter t' k : (t <=? t')%float = true → counter_key k = true →
    redis_view (clock t') r k = if (kv_count m k =? 0)%Z then None else Some (pretty (kv_count m k));
  sim_bound k : (0 ≤ kv_count m k ≤ n)%Z
}.

(** A call that leaves the counters alone and changes entries the same way on both sides. *)
Lemma sim_entries t now n r m r' m' :
  sim t n r m → (t <=? now)%float = true →
  (∀ k, kv_count m' k = kv_count m k) →
  (∀ t' k, (now <=? t')%float = true → counter_key k = true → redis_view (clock t') r' k = redis_view (clock t') r k) →
  (∀ t' k, (now <=? t')%float = true → counter_key k = false → redis_view (clock t') r' k = kv_view t' m' k) →
  sim now n r' m'.
Proof.
  intros [He Hc Hb] Ht Hm Hk Hv. split.
  - done.
  - intros t' k Ht' Hck. rewrite Hk, Hm by done. apply Hc; eauto with orbiter.
  - intros k. by rewrite Hm.
Qed.

Lemma sim_get t now n r m k :
  sim t n r m → (t <=? now)%float = true → counter_key k = false →
  (ValkeyKV.get clock now k r).1 = kv_view now m k ∧
  sim now n (ValkeyKV.get clock now k r).2 m.
Proof.
  intros Hs Ht Hk. pose proof (fleb_self_r _ _ Ht) as Hnow. unfold ValkeyKV.get. split.
  - rewrite redis_get_reply. by apply (sim_entry _ _ _ _ Hs).
  - apply (sim_entries t now n r m); [done|done|done|..]; intros t' k' Ht' Hk'; rewrite redis_get_view by auto.
    + done.
    + apply (sim_entry _ _ _ _ Hs); eauto with orbiter.
Qed.

Lemma sim_set t now n r m k v ttl p :
  sim t n r m → (t <=? now)%float = true → counter_key k = false → ValkeyKV.px ttl = Ok p →
  deadline_ok clock now (CSet k v ttl) →
  (ValkeyKV.set_if_absent clock now k v ttl r).1 = Ok (kv_set_if_absent now k v ttl m).1 ∧
  sim now n (ValkeyKV.set_if_absent clock now k v ttl r).2 (kv_set_if_absent now k v ttl m).2.
Proof.
  intros Hs Ht Hk Hp Hd. pose proof (fleb_self_r _ _ Ht) as Hnow.
  destruct (px_alive ttl p Hp) as [Hp1 Ha]. cbn [deadline_ok] in Hd. rewrite Ha in Hd. apply Z.ltb_ge in Hd.
  assert (Hmax : (clock now + p ≤ INT64_MAX)%Z) by lia.
  pose proof (sim_entry _ _ _ _ Hs now k Ht Hk) as Hv.
  unfold ValkeyKV.set_if_absent. rewrite Hp.
  pose proof (redis_set_reply (clock now) k v p r Hp1 Hmax) as Hr.
  pose proof (redis_set_view (clock now) k v p r) as Hw.
  pose proof (kv_set_reply now k v ttl m) as Hr'.
  destruct (redis_set_nx_px (clock now) k v p r) as [b r']; cbn [fst snd] in *. rewrite Hv in Hr, Hw. split.
  - f_equal. by eapply bool_reply.
  - apply (sim_entries t now n r m); [done|done|apply kv_set_count|..];
      intros t' k' Ht' Hk'; rewrite Hw by auto.
    + rewrite decide_False; [done|]. intros [-> _]. congruence.
    + rewrite kv_set_view by done. unfold kv_lapsed; simpl. rewrite (in_ms_deadline clock _ ttl _ p Hp1 Ha).
      case_decide; [done|]. apply (sim_entry _ _ _ _ Hs); eauto with orbiter.
Qed.

Lemma sim_cad t now n r m k v :
  sim t n r m → (t <=? now)%float = true → counter_key k = false →
  (ValkeyKV.compare_and_delete clock now k v r).1 = (kv_compare_and_delete now k v m).1 ∧
  sim now n (ValkeyKV.compare_and_delete clock now k v r).2 (kv_compare_and_delete now k v m).2.
Proof.
  intros Hs Ht Hk. pose proof (fleb_self_r _ _ Ht) as Hnow.
  destruct (sim_get t now n r m k Hs Ht Hk) as [Hg Hs1]. unfold ValkeyKV.get in *.
  unfold ValkeyKV.compare_and_delete, ValkeyKV.COMPARE_AND_DELETE.
  pose proof (kv_cad_reply now k v m) as Hr.
  destruct (redis_get (clock now) k r) as [g r1]; cbn [fst snd] in *. subst g.
  pose proof (sim_entry _ _ _ _ Hs1 now k Hnow Hk) as Hv.
  destruct (decide (kv_view now m k = Some v)) as [E|E].
  - pose proof (redis_del_reply (clock now) k r1) as Hd. pose proof (redis_del_view (clock now) k r1) as Hdv.
    destruct (redis_del (clock now) k r1) as [d r2]; cbn [fst snd] in *.
    rewrite Hv, E, decide_False in Hd by done. subst d. split; [symmetry; by apply Hr|].
    apply (sim_entries now now n r1 m); [done|done|apply kv_cad_count|..];
      intros t' k' Ht' Hk'; rewrite Hdv by auto.
    + rewrite decide_False; [done|]. intros ->. congruence.
    + rewrite kv_cad_view by done. destruct (decide (k' = k)); [by rewrite decide_True|].
      rewrite decide_False by (by intros []). apply (sim_entry _ _ _ _ Hs1); eauto with orbiter.
  - cbn [fst snd Z.eqb negb]. split; [destruct (kv_compare_and_delete now k v m).1; [by destruct E; apply Hr|done]|].
    apply (sim_entries now now n r1 m); [done|done|apply kv_cad_count|done|].
    intros t' k' Ht' Hk'. rewrite kv_cad_view by done. rewrite decide_False by (by intros []).
    by apply (sim_entry _ _ _ _ Hs1).
Qed.

Lemma sim_incr t now n r m k :
  sim t n r m → (t <=? now)%float = true → counter_key k = true → (n < INT64_MAX)%Z →
  (ValkeyKV.incr clock now k r).1 = Ok (kv_incr k m).1 ∧
  sim now (n + 1) (ValkeyKV.incr clock now k r).2 (kv_incr k m).2.
Proof.
  intros Hs Ht Hk Hn. pose proof (fleb_self_r _ _ Ht) as Hnow. unfold ValkeyKV.incr.
  pose proof (sim_counter _ _ _ _ Hs now k Ht Hk) as Hv. pose proof (sim_bound _ _ _ _ Hs k) as Hb.
  assert (Hi : (redis_incr (clock now) k r).1 = Ok (kv_count m k + 1)%Z ∧
    ∀ t' k', (now <=? t')%float = true →
      redis_view (clock t') (redis_incr (clock now) k r).2 k' =
        if decide (k' = k) then Some (pretty (kv_count m k + 1)%Z) else redis_view (clock t') r k').
  { destruct (kv_count m k =? 0)%Z eqn:E.
    - apply Z.eqb_eq in E. rewrite E. destruct (redis_incr_new (clock now) k r Hv) as [Hr Hw]. split; [done|].
      intros t' k' Ht'. apply Hw. auto.
    - destruct (redis_incr_old (clock now) k r (kv_count m k) Hv) as [Hr Hw]; [lia|]. split; [done|].
      intros t' k' Ht'. rewrite Hw by auto. case_decide; [|done].
      rewrite (sim_counter _ _ _ _ Hs t' k) by eauto with orbiter. by rewrite E. }
  destruct Hi as [Hr Hw]. rewrite kv_incr_reply. split; [done|]. split.
  - intros t' k' Ht' Hk'. rewrite Hw, decide_False by (congruence || done). rewrite kv_incr_view.
    apply (sim_entry _ _ _ _ Hs); eauto with orbiter.
  - intros t' k' Ht' Hk'. rewrite Hw, kv_incr_count by done. case_decide as E.
    + subst k'. by rewrite (proj2 (Z.eqb_neq _ _)) by lia.
    + apply (sim_counter _ _ _ _ Hs); eauto with orbiter.
  - intros k'. rewrite kv_incr_count. pose proof (sim_bound _ _ _ _ Hs k'). case_decide; lia.
Qed.

Lemma sim_weaken t n n' r m : sim t n r m → (n ≤ n')%Z → sim t n' r m.
Proof. intros [He Hc Hb] Hn. split; [done|done|]. intros k. specialize (Hb k). lia. Qed.

(** One call: the same reply, and still in step. *)
Lemma sim_call t now n r m c :
  sim t n r m → (t <=? now)%float = true → separated counter_key c → ttl_ok c → deadline_ok clock now c → (n < INT64_MAX)%Z →
  (ValkeyKV.call clock now c r).1 = Ok (kv_do now c m).1 ∧
  sim now (n + 1) (ValkeyKV.call clock now c r).2 (kv_do now c m).2.
Proof.
  intros Hs Ht Hc Hp Hd Hn. destruct c as [k|k v ttl|k|k v]; cbn [separated ttl_ok ValkeyKV.call kv_do] in *.
  - destruct (sim_get t now n r m k Hs Ht Hc) as [Hr Hs'].
    pose proof (kv_get_reply now k m) as Hr'. destruct (ValkeyKV.get clock now k r) as [a r'].
    cbn in *. subst a. split; [done|]. eapply sim_weaken; [done|lia].
  - destruct (px_total ttl Hp) as [p Hp']. clear Hp. rename Hp' into Hp. destruct (sim_set t now n r m k v ttl p Hs Ht Hc Hp Hd) as [Hr Hs'].
    destruct (ValkeyKV.set_if_absent clock now k v ttl r) as [a r'], (kv_set_if_absent now k v ttl m) as [b m'].
    cbn in *. subst a. split; [done|]. eapply sim_weaken; [done|lia].
  - destruct (sim_incr t now n r m k Hs Ht Hc Hn) as [Hr Hs'].
    destruct (ValkeyKV.incr clock now k r) as [a r'], (kv_incr k m) as [b m']. cbn in *. by subst a.
  - destruct (sim_cad t now n r m k v Hs Ht Hc) as [Hr Hs'].
    destruct (ValkeyKV.compare_and_delete clock now k v r) as [a r'], (kv_compare_and_delete now k v m) as [b m'].
    cbn in *. subst a. split; [done|]. eapply sim_weaken; [done|lia].
Qed.

Lemma sim_trace calls t n r m :
  sim t n r m → monotonic t calls = true → Forall (λ c, separated counter_key c.2) calls →
  Forall (λ c, ttl_ok c.2 ∧ deadline_ok clock c.1 c.2) calls → (n + Z.of_nat (length calls) ≤ INT64_MAX)%Z →
  ValkeyKV.trace clock calls r = Ok <$> kv_trace calls m.
Proof.
  revert t n r m. induction calls as [|[now c] calls IH]; intros t n r m Hs Hm Hc Hp Hn; [done|].
  simpl in Hm. apply andb_true_iff in Hm as [Ht Hm]. apply Forall_cons in Hc as [Hc Hcs].
  apply Forall_cons in Hp as [[Hp Hd] Hps]. cbn [length] in Hn.
  destruct (sim_call t now n r m c Hs Ht Hc Hp Hd) as [Hr Hs']; [lia|].
  cbn [ValkeyKV.trace kv_trace]. destruct (ValkeyKV.call clock now c r) as [a r'], (kv_do now c m) as [b m'].
  cbn in *. subst a. f_equal. apply (IH now (n + 1)%Z); [done..|lia].
Qed.
End refinement.

(** ** A server

    A concrete server that satisfies the laws: one table of values with optional
    deadlines. *)
Module MemoryServer.

(** Decimal digits, without a sign. *)
Fixpoint decimal (acc : N) (s : string) : option N :=
  match s with
  | "" => Some acc
  | String c s =>
      let d := N_of_ascii c in
      if ((48 <=? d) && (d <=? 57))%N then decimal (acc * 10 + (d - 48)) s else None
  end.

Lemma decimal_digit acc d s : (d < 10)%N → decimal acc (String (pretty_N_char d) s) = decimal (acc * 10 + d) s.
Proof.
  intros Hd.
  assert (Hc : (d = 0 ∨ d = 1 ∨ d = 2 ∨ d = 3 ∨ d = 4 ∨ d = 5 ∨ d = 6 ∨ d = 7 ∨ d = 8 ∨ d = 9)%N) by lia.
  by destruct_or! Hc; subst.
Qed.

Lemma decimal_go n s : (0 < n)%N → decimal 0 (pretty_N_go n s) = decimal n s.
Proof.
  revert s. induction (N.lt_wf_0 n) as [n _ IH]; intros s Hn.
  assert (Hm : (n `mod` 10 < 10)%N) by (apply N.mod_lt; lia).
  assert (Hdm : (n = 10 * (n `div` 10) + n `mod` 10)%N) by (apply N.div_mod; lia).
  rewrite pretty_N_go_step by done. destruct (decide (n `div` 10 = 0)%N) as [E|E].
  - rewrite E, pretty_N_go_0, decimal_digit by done. f_equal. lia.
  - rewrite IH, decimal_digit by (done || lia || by apply N.div_lt). f_equal. lia.
Qed.

Lemma decimal_pretty z : (0 ≤ z)%Z → decimal 0 (pretty z) = Some (Z.to_N z).
Proof.
  intros Hz. destruct z as [|p|p]; [done| |lia].
  change (pretty (Z.pos p)) with (pretty (N.pos p)). unfold pretty, pretty_N.
  rewrite decide_False by done. by rewrite decimal_go.
Qed.

Abbreviation t := (gmap string (string * option Z)).

Definition expired (deadline now : Z) : bool := (deadline <? now)%Z.

Definition view (now : Z) (r : t) (k : string) : option string :=
  match r !! k with
  | Some (v, Some deadline) => if expired deadline now then None else Some v
  | Some (v, None) => Some v
  | None => None
  end.

Definition set_nx_px (now : Z) (k v : string) (px : Z) (r : t) : bool * t :=
  match view now r k with
  | Some _ => (false, r)
  | None => (true, <[k := (v, Some (now + px)%Z)]> r)
  end.

Definition incr (now : Z) (k : string) (r : t) : result Z * t :=
  match view now r k with
  | None => (Ok 1%Z, <[k := (pretty 1%Z, None)]> r)
  | Some v =>
      match decimal 0 v with
      | Some n =>
          if (Z.of_N n <? INT64_MAX)%Z
          then (Ok (Z.of_N n + 1)%Z, alter (λ e, (pretty (Z.of_N n + 1)%Z, e.2)) k r)
          else (Raise (ExternalError "increment or decrement would overflow"), r)
      | None => (Raise (ExternalError "value is not an integer or out of range"), r)
      end
  end.

#[global] Instance server : RedisServer t := {
  redis_get now k r := (view now r k, r);
  redis_set_nx_px := set_nx_px;
  redis_incr := incr;
  redis_del now k r := (if decide (view now r k = None) then 0%Z else 1%Z, delete k r);
  redis_view := view;
  redis_expired := expired
}.

Lemma server_view_insert now r k e k' :
  view now (<[k := e]> r) k' = if decide (k' = k) then view now {[k := e]} k else view now r k'.
Proof.
  unfold view. rewrite lookup_insert, lookup_singleton_eq.
  repeat case_decide; congruence || by subst.
Qed.

#[global] Instance server_laws : RedisLaws t.
Proof.
  split; cbn; intros.
  - done.
  - done.
  - unfold set_nx_px. destruct (view now r k); naive_solver.
  - unfold set_nx_px. destruct (view now r k) eqn:E; cbn.
    + rewrite decide_False by (by intros []). done.
    + rewrite server_view_insert. unfold view at 1. rewrite lookup_singleton_eq.
      destruct (decide (k' = k)); [by rewrite decide_True|by rewrite decide_False by (by intros [])].
  - unfold incr. rewrite H. cbn. split; [done|]. intros now' k' _. rewrite server_view_insert. unfold view at 1.
    by rewrite lookup_singleton_eq.
  - unfold incr. rewrite H, decimal_pretty, Z2N.id by lia. rewrite (proj2 (Z.ltb_lt _ _)) by lia. cbn.
    split; [done|]. intros now' k' _. unfold view. rewrite lookup_alter.
    destruct (decide (k' = k)) as [->|]; [rewrite decide_True by done|by rewrite decide_False].
    destruct (r !! k) as [[v [d|]]|]; cbn; [|done..]. by destruct (expired d now').
  - done.
  - unfold view. rewrite lookup_delete. destruct (decide (k' = k)); [by rewrite decide_True|by rewrite decide_False].
  - unfold expired. lia.
  - unfold expired. lia.
  - unfold expired in *. lia.
Qed.
End MemoryServer.

(** ** The keys of the platform *)

(** Counters are the keys that end in ":token". *)
Definition token_named (k : string) : bool := bool_decide (chars ":token" `suffix_of` chars k).

Lemma token_key_named r : token_named (LeaseManager.token_key r) = true.
Proof.
  apply bool_decide_eq_true. unfold LeaseManager.token_key. rewrite !chars_app, app_assoc. by eexists.
Qed.

(** A key that ends in another character is no counter. *)
Lemma not_token_named k c : last (chars k) = Some c → c ≠ "n"%char → token_named k = false.
Proof.
  intros Hl Hc. apply bool_decide_eq_false. intros [l E]. rewrite E, last_app in Hl. by injection Hl.
Qed.

Lemma done_key_named j : token_named (ExecutionGuard.done_key j) = false.
Proof. apply (not_token_named _ "e"); [|done]. unfold ExecutionGuard.done_key. by rewrite !chars_app, !last_app. Qed.

Lemma claim_key_named j : token_named (ExecutionGuard.claim_key j) = false.
Proof. apply (not_token_named _ "m"); [|done]. unfold ExecutionGuard.claim_key. by rewrite !chars_app, !last_app. Qed.

(** Job ids have no "n": the lease of a job is not the counter of another. *)
Lemma lease_key_named id : token_named (LeaseManager.lease_key (uuid_str id)) = false.
Proof.
  assert (Hn : "n"%char ∉ chars (uuid_str id)).
  { unfold uuid_str, chars. rewrite String.list_ascii_of_string_of_list_ascii. apply uuid_chars_not; [|done].
    intros (d & Hd & E). pose proof (proj1 (hex_char_spec d Hd)) as Hv. by rewrite <- E in Hv. }
  destruct (last (chars (uuid_str id))) as [c|] eqn:El.
  - apply (not_token_named _ c).
    + unfold LeaseManager.lease_key. by rewrite chars_app, last_app, El.
    + intros ->. by apply Hn, last_Some_elem_of.
  - apply last_None in El. pose proof (uuid_str_length id) as Hlen. by rewrite El in Hlen.
Qed.

(** The store calls of a program. *)
Definition store_call {R} (e : eff R) : option kv_call :=
  match e with
  | KvGet k => Some (CGet k)
  | KvSetIfAbsent k v ttl => Some (CSet k v ttl)
  | KvIncr k => Some (CIncr k)
  | KvCompareAndDelete k v => Some (CCad k v)
  | _ => None
  end.

(** Every store call keeps the keys apart and has a TTL. *)
Abbreviation served := (λ (R : Type) (e : eff R), ∀ c, store_call e = Some c → separated token_named c ∧ ttl_ok c).

Ltac store_call_ok :=
  intros ? [= <-]; cbn [separated ttl_ok]; split;
  [lazymatch goal with
   | |- token_named (ExecutionGuard.done_key _) = _ => apply done_key_named
   | |- token_named (ExecutionGuard.claim_key _) = _ => apply claim_key_named
   | |- token_named (LeaseManager.lease_key _) = _ => apply lease_key_named
   | |- token_named (LeaseManager.token_key _) = _ => apply token_key_named
   end|exact I || assumption].

Section worker.
Context (self : Worker.t) (job : uuid).
Context (Hlease : finite_ms (Worker.lease_ttl self)).
Context (Hdone : finite_ms (ExecutionGuard.done_ttl_s (Worker.guard self))).

Let j := uuid_str job.

Lemma served_try_claim d : calls_ok served (ExecutionGuard.try_claim (Worker.guard self) j d).
Proof.
  apply calls_ok_bind; [apply calls_ok_await; store_call_ok|]. intros [v|]; [done|].
  apply calls_ok_bind; [apply calls_ok_await; store_call_ok|]. by intros [].
Qed.

Lemma served_release_claim d : calls_ok served (ExecutionGuard.release_claim j d).
Proof. apply calls_ok_bind; [apply calls_ok_await; store_call_ok|done]. Qed.

Lemma served_mark_done d : calls_ok served (ExecutionGuard.mark_done (Worker.guard self) j d).
Proof. repeat first [apply calls_ok_bind; [apply calls_ok_await; store_call_ok|intros ?]|done]. Qed.

Lemma served_acquire h : calls_ok served (LeaseManager.acquire (Worker.lease_ttl self) j h).
Proof. repeat first [apply calls_ok_bind; [apply calls_ok_await; store_call_ok|intros ?]|done]. Qed.

Lemma served_release l : resource l = j → calls_ok served (LeaseManager.release l).
Proof. intros E. apply calls_ok_await. rewrite E. store_call_ok. Qed.

Lemma served_sleep_all steps : calls_ok served (sleep_all steps).
Proof. induction steps as [|s steps IH]; simpl; [done|]. split; [done|]. by intros []. Qed.

Lemma served_execute fuel d fr : calls_ok served (execute fuel d fr).
Proof.
  unfold execute. apply calls_ok_bind; [by apply calls_ok_await|intros u].
  apply calls_ok_bind; [by apply calls_ok_await|intros started].
  apply calls_ok_bind; [apply calls_ok_of_result|intros f].
  destruct (slices fuel _) as [steps|]; [|done].
  apply calls_ok_bind; [apply served_sleep_all|intros _].
  apply calls_ok_bind; [by apply calls_ok_await|intros ended].
  apply calls_ok_bind; [apply calls_ok_of_result|intros el]. by destruct (_ <? _)%float.
Qed.

Lemma served_attempt fuel payload attempt d l :
  calls_ok served (Worker.attempt_job self fuel job payload attempt d l).
Proof.
  unfold Worker.attempt_job.
  repeat first
    [ apply calls_ok_bind;
        [first [apply calls_ok_of_result|apply served_execute|apply served_mark_done|by apply calls_ok_await]|intros ?]
    | by apply calls_ok_await ].
  match goal with v : json |- _ => destruct v; done || by apply calls_ok_await end.
Qed.

Lemma served_on_failure attempt d l x : calls_ok served (Worker.on_failure self job attempt d l x).
Proof.
  unfold Worker.on_failure. destruct (_ <? _)%Z;
    repeat first
      [ apply calls_ok_bind; [first [apply served_release_claim|by apply calls_ok_await]|intros ?]
      | by apply calls_ok_await ].
Qed.

Lemma served_under_lease fuel payload attempt d l :
  resource l = j → calls_ok served (Worker.under_lease self fuel job payload attempt d l).
Proof.
  intros Hl. unfold Worker.under_lease. apply calls_ok_try_finally.
  - apply calls_ok_try_except; [apply served_attempt|]. intros x. destruct x; try done.
    + apply calls_ok_bind; [apply served_release_claim|intros _]. by apply calls_ok_await.
    + apply served_on_failure.
  - apply calls_ok_bind; [by apply served_release|done].
Qed.

Lemma served_nak : calls_ok served Worker.nak_jittered.
Proof. apply calls_ok_bind; [by apply calls_ok_await|intros ?; by apply calls_ok_await]. Qed.

Lemma served_handle fuel payload attempt d : calls_ok served (Worker.handle self fuel job payload attempt d).
Proof.
  destruct payload as [| | | | | |payload]; try done. unfold Worker.handle.
  destruct (truthy _); [by apply calls_ok_await|].
  apply calls_ok_bind; [apply served_try_claim|]. intros []; [|by apply calls_ok_await|apply served_nak].
  unfold LeaseManager.acquire. cbn [bind await calls_ok]. split; [store_call_ok|].
  intros [tok|x]; cbn [bind calls_ok]; [|done]. split; [store_call_ok|].
  intros [[]|x]; cbn [bind calls_ok negb]; [| |done].
  - by apply served_under_lease.
  - apply calls_ok_bind; [apply served_release_claim|intros _; apply served_nak].
Qed.
End worker.

(** * Properties *)

(** C20: the Valkey client implements the protocol.  For every server with the
    documented commands, empty at the start, and every clock of it that does not go
    back, whatever calls arrive, at times that never go back, as long as counters and
    entries use different keys, the thousandfold of every TTL is finite, no deadline is
    beyond [INT64_MAX] and there are at most [INT64_MAX] calls: the client raises nothing and answers exactly as the
    reference store, in which an entry set for [ttl] seconds is there as long as the
    milliseconds that have passed are fewer than [ttl * 1000], and in its first
    millisecond in any case ([alive]), and is gone afterwards; whether it is still
    there in the one millisecond in which the TTL is reached is the server's choice,
    as the documentation of the server leaves it ([in_ms]). *)
Theorem valkey_refines_reference {R : Type} `{!RedisServer R, !RedisLaws R} (clock : float → Z)
    (counter_key : string → bool) (start : float) (calls : list (float * kv_call)) (r : R) :
  (∀ t t', (t <=? t')%float = true → (clock t ≤ clock t')%Z) →
  (∀ now k, redis_view now r k = None) →
  monotonic start calls = true →
  Forall (λ c, separated counter_key c.2) calls → Forall (λ c, ttl_ok c.2 ∧ deadline_ok clock c.1 c.2) calls →
  (Z.of_nat (length calls) ≤ INT64_MAX)%Z →
  ValkeyKV.trace clock calls r =
    Ok <$> kv_trace calls (SpecKV.init (lapsed := in_ms (R := R) clock)).
Proof.
  intros Hc Hr Hm Hs Ht Hl. apply (sim_trace clock counter_key Hc calls start 0); [|done..].
  split; [intros; by rewrite Hr|intros; by rewrite Hr|]. intros k. done.
Qed.

Definition valkey_calls : list (float * kv_call) :=
  [(fZ 0, CIncr "orbiter:lease:a:token"); (fZ 0, CSet "orbiter:lease:a" "w1:1" (fZ 20));
   (fZ 5, CIncr "orbiter:lease:a:token"); (fZ 5, CSet "orbiter:lease:a" "w2:2" (fZ 20));
   (fZ 19, CGet "orbiter:lease:a"); (fZ 21, CCad "orbiter:lease:a" "w1:1")].

(** A server whose clock makes one leap. *)
Definition leap (t : float) : Z := if (fZ 20 <=? t)%float then 21000 else 3.

Lemma valkey_refines_reference_witness :
  ValkeyKV.trace leap valkey_calls (∅ : MemoryServer.t) =
    Ok <$> kv_trace valkey_calls (SpecKV.init (lapsed := in_ms (R := MemoryServer.t) leap)) ∧
  ValkeyKV.trace leap valkey_calls (∅ : MemoryServer.t) =
    [Ok (RInt 1); Ok (RBool true); Ok (RInt 2); Ok (RBool false); Ok (RGet (Some "w1:1")); Ok (RBool false)].
Proof.
  split; [|vm_compute; reflexivity].
  apply (valkey_refines_reference (R := MemoryServer.t) leap token_named (fZ 0)).
  - intros t t' Ht. unfold leap. destruct (fZ 20 <=? t)%float eqn:E; [by rewrite (fleb_trans _ _ _ E Ht)|].
    destruct (fZ 20 <=? t')%float; lia.
  - done.
  - vm_compute. reflexivity.
  - repeat constructor; vm_compute; reflexivity.
  - repeat (constructor; [split; vm_compute; exact I || reflexivity|]). constructor.
  - vm_compute. discriminate.
Defined.

(** The worker keeps counters and entries apart.  Whatever replies the calls of
    a delivery get, every call it makes on the store increments a key that ends in
    ":token" or reads, sets or deletes one that does not, with a TTL that has a
    value in milliseconds: what [valkey_refines_reference] asks of the calls, but for
    the bounds of the server's integers, for the fleet as a whole. *)
Theorem worker_keeps_keys_apart (self : Worker.t) (fuel : nat) (job : uuid) (payload : json) (attempt : Z)
    (delivery : string) (tr : list step_of) (o : result unit) (R : Type) (e : eff R) (r : result R) (c : kv_call) :
  finite_ms (Worker.lease_ttl self) → finite_ms (ExecutionGuard.done_ttl_s (Worker.guard self)) →
  runs (Worker.handle self fuel job payload attempt delivery) tr o → Step e r ∈ tr → store_call e = Some c →
  separated token_named c ∧ ttl_ok c.
Proof.
  intros Hl Hd Hr Hin. exact (calls_ok_runs served _ tr o R e r (served_handle self job Hl Hd fuel payload attempt delivery) Hr Hin c).
Qed.

Lemma worker_keeps_keys_apart_witness :
  separated token_named (CGet (ExecutionGuard.done_key (uuid_str 1))) ∧ ttl_ok (CGet (ExecutionGuard.done_key (uuid_str 1))).
Proof.
  apply (worker_keeps_keys_apart sample_worker 9 1 (JObj sample_payload) 1 "w1:1" (success_steps ++ Step MsgAck (Ok tt) :: closing_steps)
           (Ok tt) (option string) (KvGet (ExecutionGuard.done_key (uuid_str 1))) (Ok None)).
  - vm_compute. exact I.
  - vm_compute. exact I.
  - exact sample_run.
  - apply list_elem_of_here.
  - reflexivity.
Defined.
