(* ===== verification/World.v ===== *)
(** * One delivery in a quiet world

    The services a worker calls, put together: the repository's tables, a store
    that keeps its laws, a clock that sleeping advances, a random generator.
    The theorems run [process] to its end in it: what a delivery of a queued
    job, of a failing one and of an obsolete one leaves behind. *)
From Stdlib Require Import Floats.SpecFloat.
From S2P Require Import Prelude PyFloat PyJson Model StateMachine PyUuid KVStore Effects Fencing.
From S2P Require Import Idempotency Repo Config Executor PyNum Worker.

Open Scope prog_scope.

Record world (S : Type) := mkWorld {
  w_db : DB;
  w_kv : S;
  w_now : float;                      (* the monotonic clock and the store's *)
  w_wall : Z;                         (* the database's now() *)
  w_draws : list float;               (* the generator's next values of random() *)
  w_disposed : list disposition       (* what the broker was told about the message *)
}.
Arguments mkWorld {S}.
Arguments w_db {S}.
Arguments w_kv {S}.
Arguments w_now {S}.
Arguments w_wall {S}.
Arguments w_draws {S}.
Arguments w_disposed {S}.

Section world.
Context {S : Type} `{!KVStore S}.

Definition with_kv {A} (call : S → A * S) (w : world S) : result A * world S :=
  let '(r, s) := call (w_kv w) in
  (Ok r, mkWorld (w_db w) s (w_now w) (w_wall w) (w_draws w) (w_disposed w)).

Definition told (d : disposition) (w : world S) : result unit * world S :=
  (Ok tt, mkWorld (w_db w) (w_kv w) (w_now w) (w_wall w) (w_draws w) (w_disposed w ++ [d])).

(** [random()]: the next draw. *)
Definition draw (w : world S) : float * world S :=
  match w_draws w with
  | [] => (fZ 0, w)
  | u :: us => (u, mkWorld (w_db w) (w_kv w) (w_now w) (w_wall w) us (w_disposed w))
  end.

Definition serve (R : Type) (e : eff R) (w : world S) : result R * world S :=
  match e in eff R return result R * world S with
  | KvGet k => with_kv (kv_get (w_now w) k) w
  | KvSetIfAbsent k v ttl => with_kv (kv_set_if_absent (w_now w) k v ttl) w
  | KvIncr k => with_kv (kv_incr k) w
  | KvCompareAndDelete k v => with_kv (kv_compare_and_delete (w_now w) k v) w
  | RecordEvent id event att det ft res =>
      let '(r, db) := record_event (w_wall w) id event att det ft res (w_db w) in
      (r, mkWorld db (w_kv w) (w_now w) (w_wall w) (w_draws w) (w_disposed w))
  | MsgAck => told Acked w
  | MsgNak _ => told Naked w
  | MsgTerm => told Termed w
  | RngRandom => let '(u, w) := draw w in (Ok u, w)
  | RngUniform a b => let '(u, w) := draw w in (Ok (a + (b - a) * u)%float, w)
  | Monotonic => (Ok (w_now w), w)
  | Sleep s => (Ok tt, mkWorld (w_db w) (w_kv w) (w_now w + s)%float (w_wall w) (w_draws w) (w_disposed w))
  | Metric _ _ => (Ok tt, w)
  | _ => (Raise (ExternalError "not a call of the worker"), w)
  end.

Definition deliver (self : Worker.t) (fuel : nat) (msg : Msg) (w : world S) : result unit * world S :=
  interp serve (Worker.process self fuel msg) w.

(** The clock after the slices. *)
Fixpoint slept (now : float) (steps : list float) : float :=
  match steps with
  | [] => now
  | s :: steps => slept (now + s)%float steps
  end.

Definition set_now (t : float) (w : world S) : world S :=
  mkWorld (w_db w) (w_kv w) t (w_wall w) (w_draws w) (w_disposed w).

Lemma interp_sleep_all steps w :
  interp serve (sleep_all steps) w = (Ok tt, set_now (slept (w_now w) steps) w).
Proof.
  revert w. induction steps as [|s steps IH]; intros w; cbn [sleep_all slept].
  - by destruct w.
  - rewrite interp_bind, interp_await. cbn [serve]. rewrite IH. done.
Qed.

(** What an execution does: the verdict is the first draw against the failure
    rate, the clock has moved by the slices, nothing else has changed. *)
Lemma interp_execute fuel ms fr w d steps u us el :
  float_of_int_py ms = Ok d → slices fuel (d / fZ 1000)%float = Some steps →
  w_draws w = u :: us → int_of_float ((slept (w_now w) steps - w_now w) * fZ 1000)%float = Ok el →
  interp serve (execute fuel ms fr) w =
    (if (u <? fr)%float then Raise (SimulatedFailure ("simulated failure after " +:+ pretty el +:+ "ms"))
     else Ok [("elapsed_ms", JInt el)],
     mkWorld (w_db w) (w_kv w) (slept (w_now w) steps) (w_wall w) us (w_disposed w)).
Proof.
  intros Hd Hs Hu He. unfold execute.
  rewrite interp_bind, interp_await. cbn [serve]. unfold draw. rewrite Hu.
  rewrite interp_bind, interp_await. cbn [serve w_now].
  rewrite interp_bind, interp_of_result, Hd, Hs.
  rewrite interp_bind, interp_sleep_all, interp_bind, interp_await.
  cbn [serve set_now w_db w_kv w_now w_wall w_draws w_disposed].
  rewrite interp_bind, interp_of_result, He.
  by destruct (u <? fr)%float.
Qed.

(** ** Programs that only talk to the store *)
Fixpoint store_only {A} (p : prog A) : Prop :=
  match p with
  | Ret _ | Throw _ => True
  | Call e k =>
      match e with
      | KvGet _ | KvSetIfAbsent _ _ _ | KvIncr _ | KvCompareAndDelete _ _ => ∀ r, store_only (k r)
      | _ => False
      end
  end.

Definition set_kv (s : S) (w : world S) : world S :=
  mkWorld (w_db w) s (w_now w) (w_wall w) (w_draws w) (w_disposed w).

Lemma interp_store_only {A} (p : prog A) w :
  store_only p →
  interp serve p w = ((on_store (w_now w) p (w_kv w)).1, set_kv (on_store (w_now w) p (w_kv w)).2 w).
Proof.
  unfold on_store. revert w. induction p as [a|x|R e k IH]; intros w Hp; [by destruct w..|].
  destruct e; try done; cbn [interp serve store_handler store_only] in *; unfold with_kv;
    case_scrutinee; by rewrite IH.
Qed.
End world.

(** Run the calls of a program whose services are evaluated. *)
Ltac run_calls :=
  cbn [interp bind await serve told set_kv set_now negb w_now w_kv w_db w_wall w_draws w_disposed].

(** The guard's and the lease manager's operations only talk to the store. *)
Ltac store_calls := repeat first [exact I | intros [[]|]; cbn | intros [[]|[]]; cbn | progress cbn | intros []; cbn].

Lemma store_only_try_claim g j d : store_only (ExecutionGuard.try_claim g j d).
Proof. store_calls. Qed.
Lemma store_only_mark_done g j d : store_only (ExecutionGuard.mark_done g j d).
Proof. store_calls. Qed.
Lemma store_only_release_claim j d : store_only (ExecutionGuard.release_claim j d).
Proof. store_calls. Qed.
Lemma store_only_acquire ttl r h : store_only (LeaseManager.acquire ttl r h).
Proof. store_calls. Qed.
Lemma store_only_release l : store_only (let! _ := LeaseManager.release l in Ret tt).
Proof. store_calls. Qed.

#[export] Hint Resolve store_only_try_claim store_only_mark_done store_only_release_claim
  store_only_acquire store_only_release : orbiter.

(** ** What the guard and the lease do to the store *)
Section store.
Context {S : Type} `{!KVStore S, !KVView S, !KVStoreLaws S}.

(** [s'] is [s] from time [t] on, except at key [k], which reads as [f]. *)
Definition differs_at (t : float) (k : string) (f : float → option string) (s s' : S) : Prop :=
  ∀ t' k', (t <=? t')%float = true →
    kv_view t' s' k' = if decide (k' = k) then f t' else kv_view t' s k'.

(** A value until it lapses; [life] is when and for how long it was set. *)
Definition until (life : float * float) (v : string) (t : float) : option string :=
  if kv_lapsed S life.1 life.2 t then None else Some v.

Lemma try_claim_CLAIMED g now j d (s : S) :
  (now <=? now)%float = true → verdict now s j = CLAIMED →
  (on_store now (ExecutionGuard.try_claim g j d) s).1 = Ok CLAIMED ∧
  differs_at now (ExecutionGuard.claim_key j) (until (now, ExecutionGuard.claim_ttl_s g) d)
    s (on_store now (ExecutionGuard.try_claim g j d) s).2 ∧
  (∀ k, kv_count (on_store now (ExecutionGuard.try_claim g j d) s).2 k = kv_count s k).
Proof.
  intros Hnow Hv. split; [by rewrite try_claim_verdict, Hv|].
  unfold verdict in Hv. destruct (kv_view now s (ExecutionGuard.done_key j)) eqn:Ed; [done|].
  destruct (kv_view now s (ExecutionGuard.claim_key j)) eqn:Ec; [done|]. clear Hv.
  unfold on_store. cbn [interp ExecutionGuard.try_claim bind await store_handler].
  pose proof (kv_get_reply now (ExecutionGuard.done_key j) s) as Hr.
  pose proof (kv_get_view now (ExecutionGuard.done_key j) s) as Hgv.
  pose proof (kv_get_count now (ExecutionGuard.done_key j) s) as Hgc.
  destruct (kv_get now (ExecutionGuard.done_key j) s) as [r s1]; cbn [fst snd] in *. subst r. rewrite Ed.
  cbn [interp bind await store_handler].
  pose proof (kv_set_view now (ExecutionGuard.claim_key j) d (ExecutionGuard.claim_ttl_s g) s1) as Hsv.
  pose proof (kv_set_count now (ExecutionGuard.claim_key j) d (ExecutionGuard.claim_ttl_s g) s1) as Hsc.
  destruct (kv_set_if_absent _ _ _ _ s1) as [b s2]; cbn [fst snd] in *.
  assert (E : (interp (store_handler now) (if negb b then Ret IN_PROGRESS else Ret CLAIMED) s2).2 = s2) by (by destruct b).
  cbn. rewrite E. split.
  - intros t' k' Ht'. rewrite Hsv by done. rewrite Hgv by done. rewrite Ec, Hgv by done.
    destruct (decide (k' = ExecutionGuard.claim_key j)); [rewrite decide_True by done|rewrite decide_False by naive_solver]; done.
  - intros k. by rewrite Hsc, Hgc.
Qed.

Lemma acquire_free now ttl r h (s : S) :
  kv_view now s (LeaseManager.lease_key r) = None →
  let n := (kv_count s (LeaseManager.token_key r) + 1)%Z in
  (on_store now (LeaseManager.acquire ttl r h) s).1 = Ok (Some (mkLease r h n)) ∧
  differs_at now (LeaseManager.lease_key r) (until (now, ttl) (LeaseManager.lease_value h n))
    s (on_store now (LeaseManager.acquire ttl r h) s).2.
Proof.
  intros Hn n. rewrite acquire_spec. cbn [fst snd]. rewrite decide_True by done. split; [done|].
  intros t' k' Ht'. rewrite kv_set_view by done. rewrite !kv_incr_view, Hn.
  destruct (decide (k' = LeaseManager.lease_key r)); [rewrite decide_True by done|rewrite decide_False by naive_solver]; done.
Qed.

(** Deleting one's own entry leaves no trace of it, expired or not. *)
Lemma cad_own now k v life (s : S) :
  (∀ t', (now <=? t')%float = true → kv_view t' s k = until life v t') →
  (now <=? now)%float = true →
  differs_at now k (λ _, None) s (kv_compare_and_delete now k v s).2.
Proof.
  intros Hv Hnow t' k' Ht'. rewrite kv_cad_view by done. rewrite (Hv now Hnow). unfold until.
  destruct (decide (k' = k)) as [->|]; [|rewrite decide_False by naive_solver; done].
  destruct (kv_lapsed S life.1 life.2 now) eqn:E.
  - rewrite decide_False by naive_solver. rewrite Hv by done. unfold until.
    by rewrite (kv_lapsed_later _ _ _ _ Ht' E).
  - by rewrite decide_True.
Qed.

Lemma differs_refl t k (s : S) : differs_at t k (λ t', kv_view t' s k) s s.
Proof. intros t' k' _. by destruct (decide (k' = k)) as [->|]. Qed.

Lemma set_differs now k v ttl (s : S) :
  kv_view now s k = None → differs_at now k (until (now, ttl) v) s (kv_set_if_absent now k v ttl s).2.
Proof.
  intros Hn t' k' Ht'. rewrite kv_set_view by done. rewrite Hn.
  destruct (decide (k' = k)); [rewrite decide_True by done|rewrite decide_False by naive_solver]; done.
Qed.

(** Claim and lease taken at [t0] and given back at [t1] leave no trace; what
    happened to the marker in between stays. *)
Lemma settle t0 t1 j d v e1 e2 f (s0 s1 s2 s3 : S) :
  (t0 <=? t1)%float = true →
  differs_at t0 (ExecutionGuard.claim_key j) (until e1 d) s0 s1 →
  differs_at t0 (LeaseManager.lease_key j) (until e2 v) s1 s2 →
  differs_at t1 (ExecutionGuard.done_key j) f s2 s3 →
  let s4 := (kv_compare_and_delete t1 (ExecutionGuard.claim_key j) d s3).2 in
  let s5 := (kv_compare_and_delete t1 (LeaseManager.lease_key j) v s4).2 in
  ∀ t' k, (t1 <=? t')%float = true →
    kv_view t' s5 k =
      if decide (k = LeaseManager.lease_key j ∨ k = ExecutionGuard.claim_key j) then None
      else if decide (k = ExecutionGuard.done_key j) then f t'
      else kv_view t' s0 k.
Proof.
  intros H01 D1 D2 D3 s4 s5.
  pose proof (fleb_self_r _ _ H01) as H11.
  pose proof (lease_claim_ne j j) as N1. pose proof (lease_done_ne j j) as N2.
  pose proof (ExecutionGuard.done_claim_ne j j) as N3.
  assert (D4 : differs_at t1 (ExecutionGuard.claim_key j) (λ _, None) s3 s4).
  { apply (cad_own _ _ _ e1); [|done]. intros t' Ht'. pose proof (fleb_trans _ _ _ H01 Ht') as H0.
    rewrite D3, decide_False, D2, decide_False, D1, decide_True by done. done. }
  assert (D5 : differs_at t1 (LeaseManager.lease_key j) (λ _, None) s4 s5).
  { apply (cad_own _ _ _ e2); [|done]. intros t' Ht'. pose proof (fleb_trans _ _ _ H01 Ht') as H0.
    rewrite D4, decide_False, D3, decide_False, D2, decide_True by done. done. }
  intros t' k Ht'. pose proof (fleb_trans _ _ _ H01 Ht') as H0.
  rewrite D5, D4, D3, D2, D1 by done. repeat case_decide; naive_solver.
Qed.

Lemma mark_done_store g now j d (s : S) :
  on_store now (ExecutionGuard.mark_done g j d) s =
    (Ok tt, (kv_compare_and_delete now (ExecutionGuard.claim_key j) d
               (kv_set_if_absent now (ExecutionGuard.done_key j) d (ExecutionGuard.done_ttl_s g) s).2).2).
Proof.
  unfold on_store. cbn. destruct (kv_set_if_absent _ _ _ _ s) as [b s1]. cbn.
  by destruct (kv_compare_and_delete _ _ _ s1).
Qed.

Lemma release_claim_store now j d (s : S) :
  on_store now (ExecutionGuard.release_claim j d) s =
    (Ok tt, (kv_compare_and_delete now (ExecutionGuard.claim_key j) d s).2).
Proof. unfold on_store. cbn. by destruct (kv_compare_and_delete _ _ _ s). Qed.

Lemma release_lease_store now l (s : S) :
  on_store now (let! _ := LeaseManager.release l in Ret tt) s =
    (Ok tt, (kv_compare_and_delete now (LeaseManager.lease_key (resource l))
               (LeaseManager.lease_value (holder l) (token l)) s).2).
Proof. unfold on_store. cbn. by destruct (kv_compare_and_delete _ _ _ s). Qed.
End store.

(** ** A delivery from end to end *)
Section delivery.
Context {S : Type} `{!KVStore S, !KVView S, !KVStoreLaws S}.
Context (self : Worker.t) (fuel : nat) (id : uuid) (p : dict) (attempt : Z) (delivery : string).

Let j := uuid_str id.

(** What an execution of the payload needs and finds: a duration and a rate that
    convert, the slices of the duration, the draw, and the elapsed time. *)
Record runnable (w : world S) (fr u : float) (us : list float) (t1 : float) (el : Z) : Prop := {
  run_duration : ∃ v ms f steps,
    dict_get p "duration_ms" = Some v ∧ int_of_json v = Ok ms ∧ float_of_int_py ms = Ok f ∧
    slices fuel (f / fZ 1000)%float = Some steps ∧ t1 = slept (w_now w) steps;
  run_rate : Worker.failure_rate_of p = Ok fr;
  run_draw : w_draws w = u :: us;
  run_elapsed : int_of_float ((t1 - w_now w) * fZ 1000)%float = Ok el;
  run_clock : (w_now w <=? t1)%float = true
}.

Lemma record_accepted now event cur next att det tok res row db :
  jobs db !! id = Some row → jr_state row = JobState.value cur → apply (Some cur) event = Ok next →
  (jr_fence_token row ≤ tok)%Z →
  record_event now id event att det (Some tok) res db =
    (Ok next, write_event now id row event next att det tok res db).
Proof.
  intros Hrow Hst Ha Ht. rewrite record_event_eq, apply_event_eq, Hrow, Hst, JobState_of_value, Ha.
  cbn [token_of]. by rewrite (proj2 (Z.leb_le _ _) Ht).
Qed.

(** The row an accepted event leaves. *)
Lemma write_event_row now row event next att det tok res db :
  ∃ row', jobs (write_event now id row event next att det tok res db) !! id = Some row' ∧
    jr_state row' = JobState.value next ∧ jr_fence_token row' = tok.
Proof. eexists. split; [apply lookup_insert_eq|done]. Qed.

Lemma attempt_runs w row cur lease fr u us t1 el :
  runnable w fr u us t1 el →
  jobs (w_db w) !! id = Some row → jr_state row = JobState.value cur →
  apply (Some cur) EventType.STARTED = Ok JobState.RUNNING →
  (jr_fence_token row ≤ token lease)%Z →
  let db1 := write_event (w_wall w) id row EventType.STARTED JobState.RUNNING attempt None (token lease) None (w_db w) in
  let w1 := mkWorld db1 (w_kv w) t1 (w_wall w) us (w_disposed w) in
  interp serve (Worker.attempt_job self fuel id p attempt delivery lease) w =
    if (u <? fr)%float
    then (Raise (SimulatedFailure ("simulated failure after " +:+ pretty el +:+ "ms")), w1)
    else
      interp serve
        (let! _ := await (RecordEvent id EventType.COMPLETED attempt None (Some (token lease)) (Some [("elapsed_ms", JInt el)])) in
         let! _ := ExecutionGuard.mark_done (Worker.guard self) j delivery in
         let! _ := await MsgAck in
         let! _ := await (Metric "orbiter.jobs.completed" 1) in
         await (Metric "orbiter.job.duration" el)) w1.
Proof.
  intros [(v & ms & f & steps & Hv & Hms & Hf & Hsl & ->) Hfr Hdr Hel _] Hrow Hst Hap Ht db1 w1.
  unfold Worker.attempt_job. rewrite interp_bind, interp_await. cbn [serve].
  rewrite (record_accepted _ _ cur JobState.RUNNING _ _ _ _ row) by done.
  rewrite interp_bind. cbn [getitem]. rewrite Hv. cbn [of_result interp].
  rewrite interp_bind, Hms. cbn [of_result interp].
  rewrite interp_bind, Hfr. cbn [of_result interp].
  rewrite interp_bind, (interp_execute _ _ _ _ f steps u us el) by done.
  by destruct (u <? fr)%float.
Qed.

(** The event that closes the attempt, the state it leads to and what the broker is told. *)
Definition verdict_of (failed : bool) : EventType.t * JobState.t * disposition :=
  if negb failed then (EventType.COMPLETED, JobState.SUCCEEDED, Acked)
  else if (attempt <? max_deliver (Worker.settings self))%Z then (EventType.REQUEUED, JobState.QUEUED, Naked)
  else (EventType.FAILED, JobState.FAILED, Termed).

(** The store after the clauses, before the lease is released. *)
Definition guard_after (failed : bool) (t1 : float) (s : S) : S :=
  if negb failed then (on_store t1 (ExecutionGuard.mark_done (Worker.guard self) j delivery) s).2
  else (on_store t1 (ExecutionGuard.release_claim j delivery) s).2.

Lemma interp_store_bind {A B} (m : prog A) (k : A → prog B) w a s :
  store_only m → on_store (w_now w) m (w_kv w) = (Ok a, s) →
  interp serve (bind m k) w = interp serve (k a) (set_kv s w).
Proof. intros Hm E. rewrite interp_bind, interp_store_only by done. by rewrite E. Qed.

Lemma pair_fst {A B} (x : A * B) a : x.1 = a → x = (a, x.2).
Proof. destruct x. by intros <-. Qed.

Lemma on_failure_runs w row lease m :
  jobs (w_db w) !! id = Some row → jr_state row = JobState.value JobState.RUNNING →
  (jr_fence_token row ≤ token lease)%Z →
  let '(ev, st, disp) := verdict_of true in
  ∃ det, interp serve (Worker.on_failure self id attempt delivery lease m) w =
    (Ok tt, mkWorld (write_event (w_wall w) id row ev st attempt det (token lease) None (w_db w))
              (guard_after true (w_now w) (w_kv w)) (w_now w) (w_wall w) (w_draws w) (w_disposed w ++ [disp])).
Proof.
  intros Hrow Hst Ht. unfold verdict_of, Worker.on_failure. cbn [negb].
  destruct (attempt <? _)%Z; eexists; rewrite interp_bind, interp_await; cbn [serve].
  - rewrite (record_accepted _ _ JobState.RUNNING JobState.QUEUED _ _ _ _ row) by done.
    erewrite interp_store_bind; [|auto with orbiter|apply release_claim_store].
    unfold guard_after. rewrite release_claim_store. by run_calls.
  - rewrite (record_accepted _ _ JobState.RUNNING JobState.FAILED _ _ _ _ row) by done.
    erewrite interp_store_bind; [|auto with orbiter|apply release_claim_store].
    unfold guard_after. rewrite release_claim_store. by run_calls.
Qed.

Lemma under_lease_runs w row cur n fr u us t1 el :
  runnable w fr u us t1 el →
  jobs (w_db w) !! id = Some row → jr_state row = JobState.value cur →
  apply (Some cur) EventType.STARTED = Ok JobState.RUNNING →
  (jr_fence_token row ≤ n)%Z →
  let lease := mkLease j (Worker.worker_id self) n in
  let failed := (u <? fr)%float in
  let '(ev, st, disp) := verdict_of failed in
  let db1 := write_event (w_wall w) id row EventType.STARTED JobState.RUNNING attempt None n None (w_db w) in
  ∃ row1 det res, jobs db1 !! id = Some row1 ∧
    interp serve (Worker.under_lease self fuel id p attempt delivery lease) w =
      (Ok tt, mkWorld (write_event (w_wall w) id row1 ev st attempt det n res db1)
                (on_store t1 (let! _ := LeaseManager.release lease in Ret tt) (guard_after failed t1 (w_kv w))).2
                t1 (w_wall w) us (w_disposed w ++ [disp])).
Proof.
  intros Hrun Hrow Hst Hap Ht lease failed.
  pose proof (attempt_runs w row cur lease fr u us t1 el Hrun Hrow Hst Hap Ht) as Hatt. cbn zeta in Hatt.
  cbn [token lease] in Hatt. fold failed in Hatt.
  destruct (write_event_row (w_wall w) row EventType.STARTED JobState.RUNNING attempt None n None (w_db w))
    as (row1 & Hrow1 & Hst1 & Hn1).
  set (db1 := write_event _ _ _ _ _ _ _ _ _ _) in *.
  set (w1 := mkWorld db1 _ _ _ _ _) in *.
  unfold Worker.under_lease. destruct failed eqn:Hf.
  - pose proof (on_failure_runs w1 row1 lease ("simulated failure after " +:+ pretty el +:+ "ms") Hrow1 Hst1
      ltac:(cbn; lia)) as Hfail.
    destruct (verdict_of true) as [[ev st] disp]. destruct Hfail as [det Hfail].
    exists row1, det, None. split; [done|].
    rewrite interp_try_finally, interp_try_except, Hatt, Hfail.
    rewrite interp_store_only by auto with orbiter. cbn [w_now w_kv]. by rewrite !release_lease_store.
  - cbn [verdict_of negb]. exists row1, None, (Some [("elapsed_ms", JInt el)]). split; [done|].
    rewrite interp_try_finally, interp_try_except, Hatt.
    rewrite interp_bind, interp_await. cbn [serve]. subst w1. cbn [w_db w_wall w_kv w_now w_draws w_disposed].
    rewrite (record_accepted _ _ JobState.RUNNING JobState.SUCCEEDED _ _ _ _ row1) by (done || lia).
    erewrite interp_store_bind; [|auto with orbiter|apply mark_done_store]. run_calls.
    rewrite interp_store_only by auto with orbiter. cbn [w_now w_kv]. unfold guard_after. cbn [negb].
    by rewrite mark_done_store, !release_lease_store.
Qed.

(** A delivery that gets its claim and its lease goes on under the lease. *)
Lemma handle_granted w :
  truthy (default JNull (dict_get p "poison")) = false →
  (w_now w <=? w_now w)%float = true →
  verdict (w_now w) (w_kv w) j = CLAIMED → kv_view (w_now w) (w_kv w) (LeaseManager.lease_key j) = None →
  let n := (kv_count (w_kv w) (LeaseManager.token_key j) + 1)%Z in
  ∃ e1 e2 s1 s2,
    differs_at (w_now w) (ExecutionGuard.claim_key j) (until e1 delivery) (w_kv w) s1 ∧
    differs_at (w_now w) (LeaseManager.lease_key j)
      (until e2 (LeaseManager.lease_value (Worker.worker_id self) n)) s1 s2 ∧
    kv_count s2 (LeaseManager.token_key j) = n ∧
    interp serve (Worker.handle self fuel id (JObj p) attempt delivery) w =
    interp serve (Worker.under_lease self fuel id p attempt delivery (mkLease j (Worker.worker_id self) n))
      (set_kv s2 w).
Proof.
  intros Hp Hnow Hv Hl n.
  destruct (try_claim_CLAIMED (Worker.guard self) (w_now w) j delivery (w_kv w) Hnow Hv) as (Hr1 & D1 & C1).
  set (s1 := (on_store _ (ExecutionGuard.try_claim _ _ _) _).2) in *.
  assert (Hl1 : kv_view (w_now w) s1 (LeaseManager.lease_key j) = None).
  { rewrite D1 by done. rewrite decide_False by apply lease_claim_ne. done. }
  destruct (acquire_free (w_now w) (Worker.lease_ttl self) j (Worker.worker_id self) s1 Hl1) as [Hr2 D2].
  pose proof (acquire_count (w_now w) (Worker.lease_ttl self) j (Worker.worker_id self) s1) as C2.
  rewrite C1 in Hr2, D2, C2. fold n in Hr2, D2, C2.
  eexists _, _, s1, _. split; [exact D1|]. split; [exact D2|]. split; [exact C2|].
  cbn [Worker.handle]. rewrite Hp.
  erewrite interp_store_bind; [|auto with orbiter|exact (pair_fst _ _ Hr1)]. cbv iota beta.
  by erewrite interp_store_bind; [|auto with orbiter|exact (pair_fst _ _ Hr2)].
Qed.
End delivery.

(** What [process] reads from the message of a job. *)
Definition decodes (msg : Msg) (id : uuid) (p : dict) : Prop :=
  ∃ data jv, msg_data msg = Ok data ∧ getitem data "job_id" = Ok jv ∧ uuid_of_json jv = Ok id ∧
    getitem data "payload" = Ok (JObj p).

Lemma process_handle self fuel msg id p :
  decodes msg id p →
  Worker.process self fuel msg =
  Worker.handle self fuel id (JObj p) (num_delivered msg) (Worker.delivery_of self (num_delivered msg)).
Proof.
  intros (data & jv & Hd & Hj & Hu & Hp). unfold Worker.process.
  rewrite Hd. cbn [of_result bind]. rewrite Hj. cbn [of_result bind].
  rewrite Hu. cbn [of_result bind]. by rewrite Hp.
Qed.

Lemma process_decodes {S} `{!KVStore S} self fuel msg id p (w : world S) :
  decodes msg id p →
  deliver self fuel msg w =
  interp serve (Worker.handle self fuel id (JObj p) (num_delivered msg) (Worker.delivery_of self (num_delivered msg))) w.
Proof.
  intros Hd. unfold deliver. by rewrite (process_handle self fuel msg id p Hd).
Qed.

(** A delivery that does not get its claim leaves every key as it was. *)
Lemma try_claim_refused {S} `{!KVStore S, !KVView S, !KVStoreLaws S} g now j d (s : S) :
  (now <=? now)%float = true → verdict now s j ≠ CLAIMED →
  ∀ t' k, (now <=? t')%float = true → kv_view t' (on_store now (ExecutionGuard.try_claim g j d) s).2 k = kv_view t' s k.
Proof.
  intros Hnow Hv t' k Ht'. unfold on_store. cbn [interp ExecutionGuard.try_claim bind await store_handler].
  pose proof (kv_get_reply now (ExecutionGuard.done_key j) s) as Hr.
  pose proof (kv_get_view now (ExecutionGuard.done_key j) s) as Hgv.
  destruct (kv_get now (ExecutionGuard.done_key j) s) as [r s1]; cbn [fst snd] in *. subst r.
  unfold verdict in Hv. destruct (kv_view now s (ExecutionGuard.done_key j)); [by apply Hgv|].
  destruct (kv_view now s (ExecutionGuard.claim_key j)) as [v|] eqn:Ec; [|done].
  cbn [interp bind await store_handler].
  pose proof (kv_set_view now (ExecutionGuard.claim_key j) d (ExecutionGuard.claim_ttl_s g) s1 t' k Ht') as Hsv.
  destruct (kv_set_if_absent _ _ _ _ s1) as [b s2]; cbn [fst snd] in *.
  rewrite Hgv, decide_False in Hsv by (rewrite ?Ec; naive_solver).
  rewrite <- (Hgv t' k Ht'), <- Hsv. by destruct b.
Qed.

(** A lease that is held: a token is drawn in vain. *)
Lemma acquire_taken {S} `{!KVStore S, !KVView S, !KVStoreLaws S} now ttl r h (s : S) :
  kv_view now s (LeaseManager.lease_key r) ≠ None →
  (on_store now (LeaseManager.acquire ttl r h) s).1 = Ok None ∧
  ∀ t' k, (now <=? t')%float = true → kv_view t' (on_store now (LeaseManager.acquire ttl r h) s).2 k = kv_view t' s k.
Proof.
  intros Hn. rewrite acquire_spec. cbn [fst snd]. rewrite decide_False by done. split; [done|].
  intros t' k Ht'. rewrite kv_set_view, decide_False by (rewrite ?kv_incr_view; naive_solver). apply kv_incr_view.
Qed.

Lemma interp_nak {S} `{!KVStore S} (w : world S) :
  ∃ us, interp serve Worker.nak_jittered w =
    (Ok tt, mkWorld (w_db w) (w_kv w) (w_now w) (w_wall w) us (w_disposed w ++ [Naked])).
Proof.
  unfold Worker.nak_jittered. rewrite interp_bind, interp_await. cbn [serve]. unfold draw.
  destruct (w_draws w) as [|u us]; eexists; by run_calls.
Qed.

(** A delivery of a job the trail has closed: STARTED is refused, nothing is written. *)
Lemma under_lease_refused {S} `{!KVStore S} self fuel id p attempt delivery (w : world S) row cur lease :
  jobs (w_db w) !! id = Some row → jr_state row = JobState.value cur →
  apply (Some cur) EventType.STARTED = Raise (IllegalTransition (Some cur) EventType.STARTED) →
  interp serve (Worker.under_lease self fuel id p attempt delivery lease) w =
    (Ok tt, mkWorld (w_db w)
              (on_store (w_now w) (let! _ := LeaseManager.release lease in Ret tt)
                 (on_store (w_now w) (ExecutionGuard.release_claim (uuid_str id) delivery) (w_kv w)).2).2
              (w_now w) (w_wall w) (w_draws w) (w_disposed w ++ [Termed])).
Proof.
  intros Hrow Hst Hap. unfold Worker.under_lease. rewrite interp_try_finally, interp_try_except.
  assert (Ha : interp serve (Worker.attempt_job self fuel id p attempt delivery lease) w =
               (Raise (IllegalTransition (Some cur) EventType.STARTED), w)).
  { unfold Worker.attempt_job. rewrite interp_bind, interp_await. cbn [serve].
    rewrite record_event_eq, apply_event_eq, Hrow, Hst, JobState_of_value, Hap. by destruct w. }
  rewrite Ha. erewrite interp_store_bind; [|auto with orbiter|apply release_claim_store]. run_calls.
  rewrite interp_store_only by auto with orbiter. run_calls. by rewrite release_claim_store, !release_lease_store.
Qed.

(** * Properties *)

(** A delivery in a quiet system, from its claim to its answer. *)
Lemma delivery_runs {S : Type} `{!KVStore S, !KVView S, !KVStoreLaws S}
    (self : Worker.t) (fuel : nat) (msg : Msg) (id : uuid) (p : dict) (w : world S)
    (row : JobRow) (cur : JobState.t) (log : list JobEvent) (fr u : float) (us : list float) (t1 : float) (el : Z) :
  decodes msg id p → truthy (default JNull (dict_get p "poison")) = false →
  runnable fuel p w fr u us t1 el →
  jobs (w_db w) !! id = Some row → jr_state row = JobState.value cur → log_of id (w_db w) = Ok log →
  apply (Some cur) EventType.STARTED = Ok JobState.RUNNING →
  (jr_fence_token row ≤ kv_count (w_kv w) (LeaseManager.token_key (uuid_str id)))%Z →
  verdict (w_now w) (w_kv w) (uuid_str id) = CLAIMED →
  kv_view (w_now w) (w_kv w) (LeaseManager.lease_key (uuid_str id)) = None →
  let failed := (u <? fr)%float in
  let '(event, state, disp) := verdict_of self (num_delivered msg) failed in
  let w' := (deliver self fuel msg w).2 in
  (deliver self fuel msg w).1 = Ok tt ∧
  w_disposed w' = w_disposed w ++ [disp] ∧
  (∃ d, log_of id (w_db w') =
          Ok (log ++ [mkJobEvent EventType.STARTED (num_delivered msg) (JObj []) (w_wall w);
                      mkJobEvent event (num_delivered msg) d (w_wall w)])) ∧
  (∃ row', jobs (w_db w') !! id = Some row' ∧ jr_state row' = JobState.value state ∧
           jr_fence_token row' = (kv_count (w_kv w) (LeaseManager.token_key (uuid_str id)) + 1)%Z) ∧
  (∀ t' k, (t1 <=? t')%float = true →
     kv_view t' (w_kv w') k =
       if decide (k = LeaseManager.lease_key (uuid_str id) ∨ k = ExecutionGuard.claim_key (uuid_str id)) then None
       else if decide (k = ExecutionGuard.done_key (uuid_str id)) then
         (if failed then kv_view t' (w_kv w) k
          else until (S := S) (t1, ExecutionGuard.done_ttl_s (Worker.guard self))
                 (Worker.delivery_of self (num_delivered msg)) t')
       else kv_view t' (w_kv w) k) ∧
  (kv_count (w_kv w) (LeaseManager.token_key (uuid_str id)) + 1 ≤ kv_count (w_kv w') (LeaseManager.token_key (uuid_str id)))%Z.
Proof.
  intros Hdec Hp Hrun Hrow Hst Hlog Hap Hft Hv Hl failed.
  pose proof (run_clock _ _ _ _ _ _ _ _ Hrun) as H01. pose proof (fleb_self_l _ _ H01) as H00.
  rewrite (process_decodes self fuel msg id p w Hdec).
  set (att := num_delivered msg). set (d := Worker.delivery_of self att).
  destruct (handle_granted self fuel id p att d w Hp H00 Hv Hl) as (e1 & e2 & s1 & s2 & D1 & D2 & C2 & ->).
  set (n := (kv_count (w_kv w) _ + 1)%Z) in *.
  assert (Hrun2 : runnable fuel p (set_kv s2 w) fr u us t1 el) by (by destruct Hrun).
  pose proof (under_lease_runs self fuel id p att d (set_kv s2 w) row cur n fr u us t1 el Hrun2 Hrow Hst Hap
                ltac:(lia)) as Hul. cbn zeta in Hul. fold failed in Hul.
  destruct (verdict_of self att failed) as [[event state] disp].
  destruct Hul as (row1 & det & res & Hrow1 & ->). cbn [fst snd w_disposed w_db w_kv set_kv].
  split; [done|]. split; [done|]. split; [|split; [|split]].
  - exists (detail_or_empty det). rewrite !log_write_event, !decide_True by done. rewrite Hlog. simpl.
    by rewrite <- app_assoc.
  - apply write_event_row.
  - rewrite release_lease_store. intros t' k Ht'. unfold guard_after. destruct failed; cbn [negb].
    + rewrite release_claim_store. cbn [snd resource holder token].
      rewrite (settle _ _ _ _ _ _ _ _ _ _ _ _ H01 D1 D2 (differs_refl _ _ _)) by done.
      repeat case_decide; try done. subst k. pose proof (fleb_trans _ _ _ H01 Ht').
      rewrite D2, decide_False, D1, decide_False by (done || apply ExecutionGuard.done_claim_ne || done). done.
    + rewrite mark_done_store. cbn [snd resource holder token].
      assert (Hn : kv_view t1 s2 (ExecutionGuard.done_key (uuid_str id)) = None).
      { rewrite D2, decide_False, D1, decide_False by (done || apply ExecutionGuard.done_claim_ne).
        destruct (kv_view t1 (w_kv w) _) as [v|] eqn:E; [|done].
        apply (kv_view_later _ _ _ _ _ H01) in E. unfold verdict in Hv. by rewrite E in Hv. }
      by rewrite (settle _ _ _ _ _ _ _ _ _ _ _ _ H01 D1 D2 (set_differs _ _ _ _ _ Hn)) by done.
  - rewrite release_lease_store. cbn [snd]. rewrite kv_cad_count. unfold guard_after.
    destruct failed; cbn [negb]; [rewrite release_claim_store|rewrite mark_done_store]; cbn [snd];
      rewrite kv_cad_count, ?kv_set_count, C2; lia.
Qed.

(** C14: a delivery in a quiet system does its job.  For a job that can be started
    (queued, or running after a crash), whose claim and lease are free and whose
    fence is behind the counter: [process] returns; the trail gains STARTED and
    then COMPLETED, or, when the execution fails, REQUEUED while deliveries are
    left and FAILED on the last one, all under the fresh token; the row's state
    follows; the broker gets exactly one answer, the matching one; claim and
    lease are free again, and the done marker is set exactly on success, until
    it lapses; every other key reads as before. *)
Theorem delivery_outcome {S : Type} `{!KVStore S, !KVView S, !KVStoreLaws S}
    (self : Worker.t) (fuel : nat) (msg : Msg) (id : uuid) (p : dict) (w : world S)
    (row : JobRow) (cur : JobState.t) (log : list JobEvent) (fr u : float) (us : list float) (t1 : float) (el : Z) :
  decodes msg id p → truthy (default JNull (dict_get p "poison")) = false →
  runnable fuel p w fr u us t1 el →
  jobs (w_db w) !! id = Some row → jr_state row = JobState.value cur → log_of id (w_db w) = Ok log →
  apply (Some cur) EventType.STARTED = Ok JobState.RUNNING →
  (jr_fence_token row ≤ kv_count (w_kv w) (LeaseManager.token_key (uuid_str id)))%Z →
  verdict (w_now w) (w_kv w) (uuid_str id) = CLAIMED →
  kv_view (w_now w) (w_kv w) (LeaseManager.lease_key (uuid_str id)) = None →
  let failed := (u <? fr)%float in
  let '(event, state, disp) := verdict_of self (num_delivered msg) failed in
  let w' := (deliver self fuel msg w).2 in
  (deliver self fuel msg w).1 = Ok tt ∧
  w_disposed w' = w_disposed w ++ [disp] ∧
  (∃ d, log_of id (w_db w') =
          Ok (log ++ [mkJobEvent EventType.STARTED (num_delivered msg) (JObj []) (w_wall w);
                      mkJobEvent event (num_delivered msg) d (w_wall w)])) ∧
  (∃ row', jobs (w_db w') !! id = Some row' ∧ jr_state row' = JobState.value state ∧
           jr_fence_token row' = (kv_count (w_kv w) (LeaseManager.token_key (uuid_str id)) + 1)%Z) ∧
  (∀ t' k, (t1 <=? t')%float = true →
     kv_view t' (w_kv w') k =
       if decide (k = LeaseManager.lease_key (uuid_str id) ∨ k = ExecutionGuard.claim_key (uuid_str id)) then None
       else if decide (k = ExecutionGuard.done_key (uuid_str id)) then
         (if failed then kv_view t' (w_kv w) k
          else until (S := S) (t1, ExecutionGuard.done_ttl_s (Worker.guard self))
                 (Worker.delivery_of self (num_delivered msg)) t')
       else kv_view t' (w_kv w) k).
Proof.
  intros Hdec Hp Hrun Hrow Hst Hlog Hap Hft Hv Hl failed.
  pose proof (delivery_runs self fuel msg id p w row cur log fr u us t1 el Hdec Hp Hrun Hrow Hst Hlog Hap Hft Hv Hl) as H.
  cbn zeta in H. fold failed in H. destruct (verdict_of self (num_delivered msg) failed) as [[event state] disp].
  by destruct H as (H1 & H2 & H3 & H4 & H5 & _).
Qed.

(** A quiet world: job 1 submitted, a fresh store, a generator about to draw 0.5. *)
Definition sample_msg : Msg := mkMsg (Ok (JObj [("job_id", JStr (uuid_str 1)); ("payload", JObj sample_payload)])) 1.
Definition sample_world : world InMemoryKV.t :=
  mkWorld (submit_job 100 1 [] "key-1" sample_payload "orbiter.jobs" empty_db).2 InMemoryKV.init
    (fZ 64) 110 [float_of_decimal false 5 (-1)] [].
Definition sample_end : float := (fZ 64 + fZ 50 / fZ 1000)%float.

Lemma sample_decodes : decodes sample_msg 1 sample_payload.
Proof.
  eexists _, _. split; [reflexivity|]. split; [reflexivity|]. split; [by apply UUID_str|reflexivity].
Qed.

Lemma sample_runnable :
  runnable 9 sample_payload sample_world (fZ 0) (float_of_decimal false 5 (-1)) [] sample_end 49.
Proof.
  split.
  - exists (JInt 50), 50%Z, (fZ 50), [(fZ 50 / fZ 1000)%float].
    split; [reflexivity|]. split; [reflexivity|]. split; [reflexivity|].
    split; [vm_compute; reflexivity|reflexivity].
  - vm_compute. reflexivity.
  - reflexivity.
  - vm_compute. reflexivity.
  - vm_compute. reflexivity.
Qed.

Lemma delivery_outcome_witness :
  let w' := (deliver sample_worker 9 sample_msg sample_world).2 in
  (deliver sample_worker 9 sample_msg sample_world).1 = Ok tt ∧ w_disposed w' = [Acked] ∧
  ∃ row', jobs (w_db w') !! 1%N = Some row' ∧ jr_state row' = "succeeded" ∧ jr_fence_token row' = 1%Z.
Proof.
  pose proof (delivery_outcome sample_worker 9 sample_msg 1 sample_payload sample_world
    (mkJobRow "key-1" (JObj sample_payload) "queued" 0 0 None 100 100) JobState.QUEUED (submission_log 100)
    (fZ 0) (float_of_decimal false 5 (-1)) [] sample_end 49) as H.
  assert (E : verdict_of sample_worker (num_delivered sample_msg) (float_of_decimal false 5 (-1) <? fZ 0)%float =
              (EventType.COMPLETED, JobState.SUCCEEDED, Acked)) by (vm_compute; reflexivity).
  cbn zeta in H. rewrite E in H. destruct H as (H1 & H2 & _ & (row' & H3) & _).
  - apply sample_decodes.
  - vm_compute. reflexivity.
  - apply sample_runnable.
  - vm_compute. reflexivity.
  - reflexivity.
  - vm_compute. reflexivity.
  - reflexivity.
  - vm_compute. discriminate.
  - vm_compute. reflexivity.
  - vm_compute. reflexivity.
  - split; [exact H1|]. split; [exact H2|]. exists row'. exact H3.
Defined.

(** An obsolete delivery changes nothing.  When the trail does not allow STARTED
    (the job is finished, failed or quarantined, for instance because the done
    marker has expired), the delivery is terminated, the tables are untouched,
    and claim, lease and every other key end up free or as before. *)
Theorem delivery_obsolete {S : Type} `{!KVStore S, !KVView S, !KVStoreLaws S}
    (self : Worker.t) (fuel : nat) (msg : Msg) (id : uuid) (p : dict) (w : world S)
    (row : JobRow) (cur : JobState.t) :
  decodes msg id p → truthy (default JNull (dict_get p "poison")) = false →
  jobs (w_db w) !! id = Some row → jr_state row = JobState.value cur →
  EventType.STARTED ∉ legal_events (Some cur) →
  (w_now w <=? w_now w)%float = true →
  verdict (w_now w) (w_kv w) (uuid_str id) = CLAIMED →
  kv_view (w_now w) (w_kv w) (LeaseManager.lease_key (uuid_str id)) = None →
  let w' := (deliver self fuel msg w).2 in
  (deliver self fuel msg w).1 = Ok tt ∧ w_db w' = w_db w ∧ w_disposed w' = w_disposed w ++ [Termed] ∧
  (∀ t' k, (w_now w <=? t')%float = true → kv_view t' (w_kv w') k = kv_view t' (w_kv w) k).
Proof.
  intros Hdec Hp Hrow Hst Hle H00 Hv Hl.
  assert (Hap : apply (Some cur) EventType.STARTED = Raise (IllegalTransition (Some cur) EventType.STARTED)).
  { destruct (apply_cases (Some cur) EventType.STARTED) as [[s' Hs]|]; [|done]. exfalso. apply Hle.
    apply legal_events_spec. eauto. }
  rewrite (process_decodes self fuel msg id p w Hdec).
  set (d := Worker.delivery_of self (num_delivered msg)).
  destruct (handle_granted self fuel id p (num_delivered msg) d w Hp H00 Hv Hl) as (e1 & e2 & s1 & s2 & D1 & D2 & C2 & ->).
  rewrite (under_lease_refused _ _ _ _ _ _ (set_kv s2 w) row cur) by done.
  cbn [fst snd w_disposed w_db w_kv set_kv w_now]. split_and!; [done..|].
  intros t' k Ht'. rewrite release_lease_store, release_claim_store. cbn [snd resource holder token].
  rewrite (settle _ _ _ _ _ _ _ _ _ _ _ _ H00 D1 D2 (differs_refl _ _ _)) by done.
  assert (Habs : kv_view (w_now w) (w_kv w) (ExecutionGuard.claim_key (uuid_str id)) = None).
  { unfold verdict in Hv. by repeat case_match. }
  assert (Hnone : ∀ k, kv_view (w_now w) (w_kv w) k = None → kv_view t' (w_kv w) k = None).
  { intros k' Hk'. destruct (kv_view t' (w_kv w) k') eqn:E; [|done].
    apply (kv_view_later _ _ _ _ _ Ht') in E. congruence. }
  destruct (decide (k = _ ∨ k = _)) as [[-> | ->]|]; [by rewrite Hnone..|]. case_decide; [subst k|done].
  rewrite D2, decide_False, D1, decide_False by (done || apply ExecutionGuard.done_claim_ne). done.
Qed.

Definition finished_world : world InMemoryKV.t := mkWorld sample_db3 InMemoryKV.init (fZ 5000) 900 [] [].

Lemma delivery_obsolete_witness :
  let w' := (deliver sample_worker 9 sample_msg finished_world).2 in
  (deliver sample_worker 9 sample_msg finished_world).1 = Ok tt ∧ w_db w' = sample_db3 ∧ w_disposed w' = [Termed] ∧
  (∀ t' k, (fZ 5000 <=? t')%float = true → kv_view t' (w_kv w') k = kv_view t' InMemoryKV.init k).
Proof.
  apply (delivery_obsolete sample_worker 9 sample_msg 1 sample_payload finished_world sample_row3 JobState.SUCCEEDED).
  - apply sample_decodes.
  - reflexivity.
  - vm_compute. reflexivity.
  - reflexivity.
  - intros [s' H]%legal_events_spec. discriminate H.
  - reflexivity.
  - vm_compute. reflexivity.
  - vm_compute. reflexivity.
Defined.

(** A delivery that is not its turn changes nothing.  When the done marker is
    set, another delivery holds the claim, or another worker holds the lease, the
    message is acked in the first case and sent back in the others; the tables
    are untouched and every key reads as before. *)
Theorem delivery_refused {S : Type} `{!KVStore S, !KVView S, !KVStoreLaws S}
    (self : Worker.t) (fuel : nat) (msg : Msg) (id : uuid) (p : dict) (w : world S) :
  decodes msg id p → truthy (default JNull (dict_get p "poison")) = false →
  (w_now w <=? w_now w)%float = true →
  verdict (w_now w) (w_kv w) (uuid_str id) ≠ CLAIMED ∨
    kv_view (w_now w) (w_kv w) (LeaseManager.lease_key (uuid_str id)) ≠ None →
  let w' := (deliver self fuel msg w).2 in
  (deliver self fuel msg w).1 = Ok tt ∧ w_db w' = w_db w ∧
  w_disposed w' = w_disposed w ++
    [if decide (verdict (w_now w) (w_kv w) (uuid_str id) = ALREADY_DONE) then Acked else Naked] ∧
  (∀ t' k, (w_now w <=? t')%float = true → kv_view t' (w_kv w') k = kv_view t' (w_kv w) k).
Proof.
  intros Hdec Hp H00 Hno. rewrite (process_decodes self fuel msg id p w Hdec). cbn [Worker.handle]. rewrite Hp.
  set (d := Worker.delivery_of self (num_delivered msg)). set (j := uuid_str id) in *.
  pose proof (try_claim_verdict (Worker.guard self) (w_now w) j d (w_kv w) H00) as Hr1.
  erewrite interp_store_bind; [|auto with orbiter|exact (pair_fst _ _ Hr1)].
  pose proof (try_claim_refused (Worker.guard self) (w_now w) j d (w_kv w) H00) as Hsame.
  destruct (verdict (w_now w) (w_kv w) j) eqn:Hv; cbv iota beta.
  - destruct Hno as [?|Hl]; [done|].
    destruct (try_claim_CLAIMED (Worker.guard self) (w_now w) j d (w_kv w) H00 Hv) as (_ & D1 & _).
    set (s1 := (on_store _ (ExecutionGuard.try_claim _ _ _) _).2) in *.
    assert (Hl1 : kv_view (w_now w) s1 (LeaseManager.lease_key j) ≠ None).
    { rewrite D1 by done. by rewrite decide_False by apply lease_claim_ne. }
    destruct (acquire_taken (w_now w) (Worker.lease_ttl self) j (Worker.worker_id self) s1 Hl1) as [Hr2 V2].
    erewrite interp_store_bind; [|auto with orbiter|exact (pair_fst _ _ Hr2)]. cbv iota beta.
    erewrite interp_store_bind; [|auto with orbiter|apply release_claim_store].
    match goal with |- context [interp serve Worker.nak_jittered ?w1] => destruct (interp_nak w1) as [us ->] end.
    cbn [fst snd w_disposed w_db w_kv set_kv w_now]. split_and!; [done..|]. intros t' k Ht'.
    rewrite (cad_own _ _ _ (w_now w, ExecutionGuard.claim_ttl_s (Worker.guard self))) by
      (done || (intros t2 Ht2; rewrite V2, D1, decide_True by done; done)).
    rewrite V2, D1 by done. case_decide; [subst k|done].
    destruct (kv_view t' (w_kv w) _) eqn:E; [|done]. apply (kv_view_later _ _ _ _ _ Ht') in E.
    unfold verdict in Hv. by repeat case_match.
  - cbn [fst snd]. run_calls. split_and!; [done..|]. by apply Hsame.
  - match goal with |- context [interp serve Worker.nak_jittered ?w1] => destruct (interp_nak w1) as [us ->] end.
    cbn [fst snd w_disposed w_db w_kv set_kv w_now]. split_and!; [done..|]. by apply Hsame.
Qed.

Lemma delivery_refused_witness :
  let w := mkWorld (w_db sample_world)
             (kv_after [(fZ 60, CSet (LeaseManager.lease_key (uuid_str 1)) "w9:4" (fZ 20))] InMemoryKV.init)
             (fZ 64) 110 [] [] in
  (deliver sample_worker 9 sample_msg w).1 = Ok tt ∧ w_db (deliver sample_worker 9 sample_msg w).2 = w_db w ∧
  w_disposed (deliver sample_worker 9 sample_msg w).2 = [Naked].
Proof.
  intros w. pose proof (delivery_refused sample_worker 9 sample_msg 1 sample_payload w sample_decodes
    eq_refl eq_refl) as H.
  destruct H as (H1 & H2 & H3 & _).
  - right. vm_compute. discriminate.
  - split; [exact H1|]. split; [exact H2|exact H3].
Defined.
