(* ===== verification/Journey.v ===== *)
(** * The journey of a message

    A message that the broker hands out again after every nak, with the next number
    and after a pause, to whichever worker is free, until it is acked or terminated:
    the deliveries of [worker/main.py] one after the other in a quiet system.  The
    abstract process is a row of tries of which at most [max_deliver] are made. *)
From Stdlib Require Import Floats.SpecFloat.
From S2P Require Import Prelude PyFloat PyJson Model StateMachine PyUuid KVStore Effects Fencing.
From S2P Require Import Idempotency Repo Config Executor PyNum Worker World.

(** ** The abstract process *)

(** Tries from number [attempt] on; [true] is a failure.  The number of the last
    try and whether it succeeded. *)
Fixpoint tries (M attempt : Z) (fails : list bool) : Z * bool :=
  match fails with
  | [] => (attempt, false)
  | false :: _ => (attempt, true)
  | true :: fails => if (attempt <? M)%Z then tries M (attempt + 1) fails else (attempt, false)
  end.

Lemma tries_bounded M attempt fails : (attempt ≤ M)%Z → (attempt ≤ (tries M attempt fails).1 ≤ M)%Z.
Proof.
  revert attempt. induction fails as [|[] fails IH]; intros attempt Ha; cbn; [lia| |lia].
  destruct (Z.ltb_spec attempt M); cbn; [|lia]. specialize (IH (attempt + 1)%Z). lia.
Qed.

(** The events of such a row of tries, the last of which is number [last]. *)
Definition trail_of (attempt last : Z) (succeeded : bool) : list EventType.t :=
  mjoin (replicate (Z.to_nat (last - attempt)) [EventType.STARTED; EventType.REQUEUED]) ++
  [EventType.STARTED; if succeeded then EventType.COMPLETED else EventType.FAILED].

Lemma trail_of_next attempt last b :
  (attempt < last)%Z →
  trail_of attempt last b = [EventType.STARTED; EventType.REQUEUED] ++ trail_of (attempt + 1) last b.
Proof.
  intros H. unfold trail_of. replace (Z.to_nat (last - attempt)) with (Datatypes.S (Z.to_nat (last - (attempt + 1)))) by lia.
  done.
Qed.

Section journey.
Context {S : Type} `{!KVStore S, !KVView S, !KVStoreLaws S}.
Context (fuel : nat) (body : document) (M : Z).

(** A worker that gets the message: when, with which draws, and when it is done. *)
Record visit := mkVisit {
  v_worker : Worker.t;
  v_now : float;
  v_wall : Z;
  v_draw : float;
  v_draws : list float;
  v_end : float;
  v_elapsed : Z
}.

Definition arrive (v : visit) (w : world S) : world S :=
  mkWorld (w_db w) (w_kv w) (v_now v) (v_wall v) (v_draw v :: v_draws v) [].

(** The number of the last delivery and the world after it. *)
Fixpoint journey (attempt : Z) (visits : list visit) (w : world S) : Z * world S :=
  match visits with
  | [] => (attempt, w)
  | v :: visits =>
      let w' := (deliver (v_worker v) fuel (mkMsg body attempt) (arrive v w)).2 in
      if bool_decide (w_disposed w' = [Naked]) then journey (attempt + 1) visits w' else (attempt, w')
  end.

Context (id : uuid) (p : dict) (fr : float).

(** The payload runs at each visit, and visits follow each other. *)
Inductive ready (now : float) : list visit → Prop :=
  | ready_nil : ready now []
  | ready_cons v visits :
      (now <=? v_now v)%float = true → max_deliver (Worker.settings (v_worker v)) = M →
      (∀ w : world S, runnable fuel p (arrive v w) fr (v_draw v) (v_draws v) (v_end v) (v_elapsed v)) →
      ready (v_end v) visits → ready now (v :: visits).

(** The job waits, its keys are free, its fence is not ahead. *)
Record waiting (now : float) (log : list JobEvent) (w : world S) : Prop := {
  wt_row : ∃ row cur, jobs (w_db w) !! id = Some row ∧ jr_state row = JobState.value cur ∧
             apply (Some cur) EventType.STARTED = Ok JobState.RUNNING ∧
             (jr_fence_token row ≤ kv_count (w_kv w) (LeaseManager.token_key (uuid_str id)))%Z;
  wt_log : log_of id (w_db w) = Ok log;
  wt_free k : k ∈ [ExecutionGuard.done_key (uuid_str id); ExecutionGuard.claim_key (uuid_str id); LeaseManager.lease_key (uuid_str id)] →
    kv_view now (w_kv w) k = None
}.

Lemma waiting_later now now' log w : (now <=? now')%float = true → waiting now log w → waiting now' log w.
Proof.
  intros Hle [H1 H2 H3]. split; [done..|]. intros k Hk. destruct (kv_view now' (w_kv w) k) as [v|] eqn:E; [|done].
  apply (kv_view_later _ _ _ _ _ Hle) in E. by rewrite H3 in E.
Qed.

Context (Hbody : ∀ n, decodes (mkMsg body n) id p).
Context (Hpoison : truthy (default JNull (dict_get p "poison")) = false).

(** One delivery: the trail, the state and the answer follow its verdict, and after a
    nak the job waits again. *)
Lemma visit_once now log attempt v visits w :
  waiting now log w → ready now (v :: visits) →
  let '(event, state, disp) := verdict_of (v_worker v) attempt (v_draw v <? fr)%float in
  let w' := (deliver (v_worker v) fuel (mkMsg body attempt) (arrive v w)).2 in
  ∃ log', w_disposed w' = [disp] ∧ log_of id (w_db w') = Ok log' ∧ type <$> log' = (type <$> log) ++ [EventType.STARTED; event] ∧
    (∃ row, jobs (w_db w') !! id = Some row ∧ jr_state row = JobState.value state) ∧
    (disp = Naked → waiting (v_end v) log' w').
Proof.
  intros Hw Hr. inversion Hr as [|? ? Hle HM Hrun Hvs]; subst.
  destruct (waiting_later _ _ _ _ Hle Hw) as [(row & cur & Hrow & Hst & Hap & Hft) Hlog Hfree].
  assert (Hver : verdict (w_now (arrive v w)) (w_kv (arrive v w)) (uuid_str id) = CLAIMED)
    by (unfold verdict; cbn [arrive w_now w_kv]; by rewrite !Hfree by set_solver).
  pose proof (delivery_runs (v_worker v) fuel (mkMsg body attempt) id p (arrive v w) row cur log fr (v_draw v) (v_draws v)
    (v_end v) (v_elapsed v) (Hbody attempt) Hpoison (Hrun w) Hrow Hst Hlog Hap Hft Hver ltac:(apply Hfree; set_solver)) as H.
  cbn zeta in H. cbn [num_delivered] in H. destruct (verdict_of _ _ _) as [[event state] disp] eqn:Hv.
  destruct H as (_ & Hd & (det & Hlog') & (row' & Hrow' & Hst' & Hft') & Hview & Hcount).
  eexists. split; [exact Hd|]. split; [exact Hlog'|]. split; [by rewrite fmap_app|]. split; [by exists row'|].
  intros ->. assert (state = JobState.QUEUED ∧ (v_draw v <? fr)%float = true) as [-> Hfail].
  { revert Hv. unfold verdict_of. destruct (v_draw v <? fr)%float; cbn [negb]; [|done]. destruct (attempt <? _)%Z; [|done]. by intros [= _ <-]. }
  pose proof (fleb_self_r _ _ (run_clock _ _ _ _ _ _ _ _ (Hrun w))) as Hend.
  split; [|exact Hlog'|].
  - exists row', JobState.QUEUED. split_and!; [done|done|done|]. rewrite Hft'. exact Hcount.
  - intros k Hk. rewrite Hview by done. repeat case_decide; [done| |set_solver]. rewrite Hfail.
    apply (waiting_later _ _ _ _ (run_clock _ _ _ _ _ _ _ _ (Hrun w)) (waiting_later _ _ _ _ Hle Hw)). set_solver.
Qed.
End journey.

(** Each draw against the rate: did the delivery fail? *)
Abbreviation failures fr visits := ((λ v, v_draw v <? fr)%float <$> visits).

(** Two workers, two draws: the first fails at rate 1/2, the second does not. *)
Definition retry_payload : dict := [("duration_ms", JInt 50); ("failure_rate", JFloat (float_of_decimal false 5 (-1)))].

Definition retry_body : document := Ok (JObj [("job_id", JStr (uuid_str 1)); ("payload", JObj retry_payload)]).

Definition retry_world : world InMemoryKV.t :=
  mkWorld (submit_job 100 1 [] "key-1" retry_payload "orbiter.jobs" empty_db).2 InMemoryKV.init (fZ 0) 100 [] [].

(** A visit at second [t] that draws [x] hundredths. *)
Definition retry_visit (worker : string) (t x : Z) (el : Z) : visit :=
  mkVisit (Worker.mk default_settings worker) (fZ t) (100 + t) (float_of_decimal false x (-2)) []
    (fZ t + fZ 50 / fZ 1000)%float el.

Definition retry_visits : list visit :=
  [retry_visit "w1" 64 25 49; retry_visit "w2" 128 75 50; retry_visit "w1" 256 25 50; retry_visit "w2" 512 25 49;
   retry_visit "w1" 1024 25 49].

Abbreviation half := (float_of_decimal false 5 (-1)).

Lemma retry_runnable v (w : world InMemoryKV.t) :
  v_end v = (v_now v + fZ 50 / fZ 1000)%float → int_of_float ((v_end v - v_now v) * fZ 1000)%float = Ok (v_elapsed v) →
  (v_now v <=? v_end v)%float = true →
  runnable 9 retry_payload (arrive v w) half (v_draw v) (v_draws v) (v_end v) (v_elapsed v).
Proof.
  intros He Hel Hle. split; [|vm_compute; reflexivity|reflexivity|exact Hel|exact Hle].
  exists (JInt 50), 50%Z, (fZ 50), [(fZ 50 / fZ 1000)%float]. split; [reflexivity|]. split; [reflexivity|]. split; [reflexivity|].
  split; [vm_compute; reflexivity|exact He].
Qed.

Lemma retry_ready : ready (S := InMemoryKV.t) 9 5 retry_payload half (fZ 0) retry_visits.
Proof.
  unfold retry_visits.
  do 5 (apply ready_cons; [vm_compute; reflexivity|vm_compute; reflexivity|
    intros w; apply retry_runnable; [reflexivity|vm_compute; reflexivity|vm_compute; reflexivity]|]). apply ready_nil.
Qed.

Lemma retry_waiting : waiting 1 (fZ 0) (submission_log 100) retry_world.
Proof.
  split.
  - eexists _, JobState.QUEUED. split; [vm_compute; reflexivity|]. split; [reflexivity|]. split; [reflexivity|]. vm_compute. discriminate.
  - vm_compute. reflexivity.
  - intros k _. reflexivity.
Qed.

(** * Properties *)

(** C4: every job comes to an end within [max_deliver] deliveries.  Take a job that
    can be started and whose keys are free, and let the broker hand its message out
    again after every nak, to any workers, in a quiet system: the deliveries are
    those of the abstract row of tries; the first that does not fail leaves the job
    SUCCEEDED and the message acked; if the first [max_deliver] all fail, the last of
    them leaves the job FAILED and the message terminated; the trail holds a STARTED
    and a REQUEUED for each earlier try, then STARTED and the final event. *)
Theorem job_ends {S : Type} `{!KVStore S, !KVView S, !KVStoreLaws S}
    (fuel : nat) (body : document) (M : Z) (id : uuid) (p : dict) (fr : float)
    (now : float) (log : list JobEvent) (attempt : Z) (visits : list visit) (w : world S) :
  decodes (mkMsg body 0) id p → truthy (default JNull (dict_get p "poison")) = false →
  waiting id now log w → ready (S := S) fuel M p fr now visits → (attempt ≤ M < attempt + Z.of_nat (length visits))%Z →
  let '(last, succeeded) := tries M attempt (failures fr visits) in
  let out := journey fuel body attempt visits w in
  out.1 = last ∧ (attempt ≤ last ≤ M)%Z ∧
  w_disposed out.2 = [if succeeded : bool then Acked else Termed] ∧
  (∃ row, jobs (w_db out.2) !! id = Some row ∧
     jr_state row = JobState.value (if succeeded then JobState.SUCCEEDED else JobState.FAILED)) ∧
  ∃ log', log_of id (w_db out.2) = Ok log' ∧ type <$> log' = (type <$> log) ++ trail_of attempt last succeeded.
Proof.
  intros Hdec Hp. revert now log attempt w. induction visits as [|v visits IH]; intros now log attempt w Hw Hr Hlen.
  { cbn in Hlen. lia. }
  pose proof (visit_once fuel body M id p fr (λ _, Hdec) Hp now log attempt v visits w Hw Hr) as Hone.
  pose proof (tries_bounded M attempt (failures fr (v :: visits)) (proj1 Hlen)) as Hb.
  inversion Hr as [|? ? Hle HM Hrun Hvs]; subst. unfold verdict_of in Hone. rewrite fmap_cons in *. cbn [tries journey length] in *.
  destruct (v_draw v <? fr)%float; cbn [negb] in Hone.
  - destruct (Z.ltb_spec attempt (max_deliver (Worker.settings (v_worker v)))) as [Hlt|Hge]; cbn [fst] in Hb.
    + destruct Hone as (log' & Hd & Hlog & Htypes & _ & Hwait). rewrite Hd, bool_decide_true by done.
      pose proof (tries_bounded (max_deliver (Worker.settings (v_worker v))) (attempt + 1) (failures fr visits) ltac:(lia)) as Hb'.
      specialize (IH (v_end v) log' (attempt + 1)%Z _ (Hwait eq_refl) Hvs ltac:(lia)).
      destruct (tries _ (attempt + 1) _) as [last ok]. cbn [fst] in *. destruct IH as (E1 & _ & E2 & E3 & log2 & E4 & E5).
      split; [done|]. split; [lia|]. split; [done|]. split; [done|]. exists log2. split; [done|].
      rewrite E5, Htypes, (trail_of_next attempt) by lia. by rewrite <- app_assoc.
    + destruct Hone as (log' & Hd & Hlog & Htypes & Hrow & _). rewrite Hd, bool_decide_false by done. cbn [fst snd].
      split_and!; [done|lia|lia|done|done|]. exists log'. split; [done|]. rewrite Htypes. unfold trail_of. by rewrite Z.sub_diag.
  - destruct Hone as (log' & Hd & Hlog & Htypes & Hrow & _). rewrite Hd, bool_decide_false by done. cbn [fst snd] in *.
    split_and!; [done|lia|lia|done|done|]. exists log'. split; [done|]. rewrite Htypes. unfold trail_of. by rewrite Z.sub_diag.
Qed.

Lemma job_ends_witness :
  let out := journey 9 retry_body 1 retry_visits retry_world in
  out.1 = 2%Z ∧ w_disposed out.2 = [Acked] ∧
  (∃ row, jobs (w_db out.2) !! 1%N = Some row ∧ jr_state row = "succeeded") ∧
  ∃ log', log_of 1 (w_db out.2) = Ok log' ∧ type <$> log' =
    [EventType.SUBMITTED; EventType.ENQUEUED; EventType.STARTED; EventType.REQUEUED; EventType.STARTED; EventType.COMPLETED].
Proof.
  pose proof (job_ends 9 retry_body 5 1 retry_payload half (fZ 0) (submission_log 100) 1 retry_visits retry_world) as H.
  assert (E : tries 5 1 (failures half retry_visits) = (2%Z, true)) by (vm_compute; reflexivity). rewrite E in H.
  destruct H as (H1 & _ & H2 & H3 & H4).
  - eexists _, _. split; [reflexivity|]. split; [reflexivity|]. split; [by apply UUID_str|reflexivity].
  - reflexivity.
  - exact retry_waiting.
  - exact retry_ready.
  - cbn. lia.
  - split; [exact H1|]. split; [exact H2|]. split; [exact H3|exact H4].
Defined.
