(* ===== verification/System.v ===== *)
(** * The fleet

    Any number of deliveries, on any workers, run [handle] at the same time over
    the shared tables and the shared store, one external call at a time, in any
    order.  The broker may deliver anything to anyone, as often as it likes; a
    delivery may die between two calls; a call may fail before or after it took
    effect; time passes as it will; submissions, operator replays, quarantines
    and the relay's marks happen in between. *)
From Stdlib Require Import Floats.SpecFloat.
From stdpp Require Import sorting.
From S2P Require Import Prelude PyFloat PyJson Model StateMachine PyUuid KVStore Effects Fencing.
From S2P Require Import Idempotency Repo Config Executor PyNum Worker.

Section fleet.
Context {S : Type} `{!KVStore S, !KVView S, !KVStoreLaws S}.

(** An event a worker's call committed: by which delivery, for which job, under
    which token. *)
Record write := mkWrite { wr_by : nat; wr_job : uuid; wr_token : Z; wr_event : EventType.t }.

Record shared := mkShared {
  sh_db : DB;
  sh_kv : S;
  sh_now : float;
  sh_wall : Z;
  sh_writes : list write
}.

(** A delivery under way; [pr_watch] is its observer's memory and has no influence. *)
Record proc := mkProc {
  pr_worker : Worker.t;
  pr_job : uuid;
  pr_attempt : Z;
  pr_delivery : string;
  pr_code : prog unit;
  pr_watch : watch
}.

Record fleet := mkFleet { fl_shared : shared; fl_procs : gmap nat proc; fl_next : nat }.

Definition set_store (s : S) (sh : shared) : shared :=
  mkShared (sh_db sh) s (sh_now sh) (sh_wall sh) (sh_writes sh).

(** The effect of a call of delivery [n] on the shared state, and its reply if it
    is determined by it. *)
Definition commit (n : nat) (R : Type) (e : eff R) (sh : shared) : option (result R) * shared :=
  match e in eff R return option (result R) * shared with
  | KvGet k => let '(r, s) := kv_get (sh_now sh) k (sh_kv sh) in (Some (Ok r), set_store s sh)
  | KvSetIfAbsent k v ttl =>
      let '(r, s) := kv_set_if_absent (sh_now sh) k v ttl (sh_kv sh) in (Some (Ok r), set_store s sh)
  | KvIncr k => let '(r, s) := kv_incr k (sh_kv sh) in (Some (Ok r), set_store s sh)
  | KvCompareAndDelete k v =>
      let '(r, s) := kv_compare_and_delete (sh_now sh) k v (sh_kv sh) in (Some (Ok r), set_store s sh)
  | RecordEvent id event att det ft res =>
      let '(r, db) := record_event (sh_wall sh) id event att det ft res (sh_db sh) in
      let writes :=
        match r, ft with
        | Ok _, Some t => sh_writes sh ++ [mkWrite n id t event]
        | _, _ => sh_writes sh
        end in
      (Some r, mkShared db (sh_kv sh) (sh_now sh) (sh_wall sh) writes)
  | _ => (None, sh)
  end.

(** What a call may answer: the reply of its effect (any value where the shared
    state does not determine it), or a failure, with or without the effect. *)
Inductive answers (n : nat) (sh : shared) (R : Type) (e : eff R) : result R → shared → Prop :=
  | ans_reply r sh' : commit n R e sh = (Some r, sh') → answers n sh R e r sh'
  | ans_any v sh' : commit n R e sh = (None, sh') → answers n sh R e (Ok v) sh'
  | ans_lost x : service_error x → answers n sh R e (Raise x) (commit n R e sh).2
  | ans_failed x : service_error x → answers n sh R e (Raise x) sh.

Definition observed (pr : proc) (R : Type) (e : eff R) (r : result R) : watch :=
  match watch_call (pr_job pr) (pr_attempt pr) (Worker.worker_id (pr_worker pr)) (pr_delivery pr) (pr_watch pr) R e with
  | Some next => next r
  | None => pr_watch pr
  end.

Definition set_db (db : DB) (sh : shared) : shared :=
  mkShared db (sh_kv sh) (sh_now sh) (sh_wall sh) (sh_writes sh).

(** The transactions of the other processes: API, operator, dead-letter listener, relay. *)
Inductive others (wall : Z) (db : DB) : DB → Prop :=
  | other_submit id carrier key payload subject :
      others wall db (submit_job wall id carrier key payload subject db).2
  | other_replay id subject : others wall db (replay_job wall id subject db).2
  | other_quarantine id att det :
      others wall db (record_event wall id EventType.DEAD_LETTERED att det None None db).2
  | other_publish ids : others wall db (mark_published wall ids db).

Inductive fleet_step : fleet → fleet → Prop :=
  | fleet_deliver sh procs n self fuel job payload attempt delivery :
      fleet_step (mkFleet sh procs n)
        (mkFleet sh
           (<[n := mkProc self job attempt delivery (Worker.handle self fuel job payload attempt delivery) watch_init]> procs)
           (Datatypes.S n))
  | fleet_call sh procs next n self job attempt delivery R (e : eff R) k w r sh' :
      procs !! n = Some (mkProc self job attempt delivery (Call e k) w) →
      answers n sh R e r sh' →
      fleet_step (mkFleet sh procs next)
        (mkFleet sh'
           (<[n := mkProc self job attempt delivery (k r)
                     (observed (mkProc self job attempt delivery (Call e k) w) R e r)]> procs) next)
  | fleet_gone sh procs next n :                     (* finished, or killed *)
      fleet_step (mkFleet sh procs next) (mkFleet sh (delete n procs) next)
  | fleet_time sh procs next now wall :
      (sh_now sh <=? now)%float = true →
      fleet_step (mkFleet sh procs next) (mkFleet (mkShared (sh_db sh) (sh_kv sh) now wall (sh_writes sh)) procs next)
  | fleet_other sh procs next db :
      others (sh_wall sh) (sh_db sh) db →
      fleet_step (mkFleet sh procs next) (mkFleet (set_db db sh) procs next).

(** A store with no keys and no counters, in an empty database. *)
Definition fleet_start (s : S) (now : float) (wall : Z) : fleet := mkFleet (mkShared empty_db s now wall []) ∅ 0.


(** ** What a call changes *)

Abbreviation counter sh id := (kv_count (sh_kv sh) (LeaseManager.token_key (uuid_str id))).

(** The tables and the writes are as they were, no counter went back. *)
Definition quiet (sh sh' : shared) : Prop :=
  sh_db sh' = sh_db sh ∧ sh_writes sh' = sh_writes sh ∧
  ∀ k, (kv_count (sh_kv sh) k ≤ kv_count (sh_kv sh') k)%Z.

(** Delivery [n] has recorded an event of [id] under token [t]. *)
Definition wrote (n : nat) (id : uuid) (t : Z) (sh sh' : shared) : Prop :=
  ∃ row cur event next att det res,
    jobs (sh_db sh) !! id = Some row ∧ JobState_of (jr_state row) = Ok cur ∧
    apply (Some cur) event = Ok next ∧ (jr_fence_token row ≤ t)%Z ∧ worker_event event = true ∧
    sh' = mkShared (write_event (sh_wall sh) id row event next att det t res (sh_db sh)) (sh_kv sh) (sh_now sh)
            (sh_wall sh) (sh_writes sh ++ [mkWrite n id t event]).

Lemma quiet_refl sh : quiet sh sh.
Proof. by split_and!. Qed.

Definition records {R} (e : eff R) : bool :=
  match e with RecordEvent _ _ _ _ _ _ => true | _ => false end.

Lemma commit_quiet n R (e : eff R) sh :
  records e = false →
  quiet sh (commit n R e sh).2.
Proof.
  intros Hne. destruct e; cbn [commit]; try apply quiet_refl; try done.
  - pose proof (kv_get_count (sh_now sh) key (sh_kv sh)) as H. destruct (kv_get _ _ _).
    split_and!; [done..|]. intros k. by rewrite <- (H k).
  - pose proof (kv_set_count (sh_now sh) key value ttl_s (sh_kv sh)) as H. destruct (kv_set_if_absent _ _ _ _ _).
    split_and!; [done..|]. intros k. by rewrite <- (H k).
  - pose proof (kv_incr_count key (sh_kv sh)) as H. destruct (kv_incr _ _).
    split_and!; [done..|]. intros k. cbn [snd set_store sh_kv] in *. rewrite (H k). case_decide; subst; lia.
  - pose proof (kv_cad_count (sh_now sh) key expected (sh_kv sh)) as H. destruct (kv_compare_and_delete _ _ _ _).
    split_and!; [done..|]. intros k. by rewrite <- (H k).
Qed.

Lemma commit_record n id event att det t res sh :
  worker_event event = true →
  let c := commit n JobState.t (RecordEvent id event att det (Some t) res) sh in
  quiet sh c.2 ∧ (∀ r, c.1 = Some r → ∀ m, r ≠ Raise (SimulatedFailure m)) ∨ wrote n id t sh c.2 ∧ ∃ st, c.1 = Some (Ok st).
Proof.
  intros Hev. cbn [commit]. rewrite record_event_eq, apply_event_eq.
  destruct (jobs (sh_db sh) !! id) as [row|] eqn:Hrow; [|left; split; [done|naive_solver]].
  destruct (JobState_of (jr_state row)) as [cur|x] eqn:Hcur.
  2:{ left. split; [done|]. intros r [= <-] m. revert Hcur. unfold JobState_of.
      destruct (list_find _ _) as [[]|]; naive_solver. }
  destruct (apply (Some cur) event) as [next|x] eqn:Hap.
  2:{ left. split; [done|]. intros r [= <-] m. destruct (apply_cases (Some cur) event) as [[? H]|H]; congruence. }
  cbn [token_of]. destruct (Z.leb_spec (jr_fence_token row) t); [|left; split; [done|naive_solver]].
  right. split; [|naive_solver]. by exists row, cur, event, next, att, det, res.
Qed.

Lemma answers_replies n sh R (e : eff R) r sh' : records e = false → answers n sh R e r sh' → replies R e r.
Proof.
  intros Hrec Ha.
  assert (H : ∀ x, r = Raise x → service_error x).
  { intros x ->. inversion Ha as [r0 sh0 E|v sh0 E|x0 Hx|x0 Hx]; subst; try done.
    destruct e; try done; cbn [commit] in E; by case_match. }
  by destruct e.
Qed.

(** A call that records nothing leaves the tables. *)
Lemma answers_quiet n sh R (e : eff R) r sh' : records e = false → answers n sh R e r sh' → quiet sh sh'.
Proof.
  intros Hrec Ha. pose proof (commit_quiet n R e sh Hrec) as Hq.
  inversion Ha as [r0 sh0 E|v sh0 E|x Hx|x Hx]; subst; rewrite ?E in Hq; auto using quiet_refl.
Qed.

(** Only drawing changes the token an observer has seen drawn. *)
Lemma watch_drawn job att holder delivery w R (e : eff R) next :
  watch_call job att holder delivery w R e = Some next → records e = false →
  (∀ t, held w = Some t → drawn w = Some t) → ∀ r,
  (∀ t, held (next r) = Some t → drawn (next r) = Some t) ∧
  (drawn (next r) = drawn w ∨
   drawn w = None ∧ ∀ n sh sh', answers n sh R e r sh' →
     drawn (next r) = None ∨
     ∃ t, drawn (next r) = Some t ∧ t = (counter sh job + 1)%Z ∧ counter sh' job = t).
Proof.
  destruct w as [c d h f co cl s l di]. intros Hc Hrec Hh r. cbn [held drawn] in *.
  destruct e; cbn [watch_call] in Hc; try done; try (injection Hc as <-; by auto).
  - case_decide; [|done]. injection Hc as <-. by auto.
  - case_decide; [injection Hc as <-; by auto|]. case_decide; [injection Hc as <-; by auto|].
    destruct d as [t|]; [|done]. case_decide; [|done]. injection Hc as <-. split; [|by left].
    cbn [held drawn]. destruct r as [[]|]; auto.
  - case_decide as Hk; [|done]. destruct Hk as (-> & -> & ->). injection Hc as <-. cbn [held drawn]. split.
    + intros t Ht. by specialize (Hh t Ht).
    + right. split; [done|]. intros n sh sh' Ha. destruct r as [t|x]; [|by left]. right. exists t. split; [done|].
      inversion Ha as [r0 sh0 E|v sh0 E|x Hx|x Hx]; subst; cbn [commit] in E.
      * pose proof (kv_incr_reply (LeaseManager.token_key (uuid_str job)) (sh_kv sh)) as Hr.
        pose proof (kv_incr_count (LeaseManager.token_key (uuid_str job)) (sh_kv sh) (LeaseManager.token_key (uuid_str job))) as Hn.
        destruct (kv_incr _ _) as [v s']. cbn [fst snd] in *. rewrite decide_True in Hn by done.
        simplify_eq. split; [done|]. exact Hn.
      * by destruct (kv_incr _ _).
  - case_decide; [injection Hc as <-; by auto|]. destruct h as [t|]; [|done].
    case_decide; [|done]. injection Hc as <-. split; [done|by left].
  - case_decide; [|done]. injection Hc as <-. by auto.
  - case_decide; [|done]. injection Hc as <-. by auto.
  - case_decide; [|done]. injection Hc as <-. by auto.
Qed.

(** What an answered call of a conforming delivery does to the shared state and
    to the token its observer has seen it draw. *)
Lemma answers_change n sh job att self delivery w R (e : eff R) r sh' next :
  answers n sh R e r sh' → watch_call job att (Worker.worker_id self) delivery w R e = Some next →
  (∀ t, held w = Some t → drawn w = Some t) →
  replies R e r ∧ (∀ t, held (next r) = Some t → drawn (next r) = Some t) ∧
  ((quiet sh sh' ∧
    (drawn (next r) = drawn w ∨
     drawn w = None ∧ ∃ t, drawn (next r) = Some t ∧ t = (counter sh job + 1)%Z ∧ counter sh' job = t)) ∨
   (∃ t, drawn w = Some t ∧ drawn (next r) = drawn w ∧ wrote n job t sh sh')).
Proof.
  intros Ha Hc Hh. destruct (records e) eqn:Hrec.
  - destruct e; try done. destruct w as [c d h f co cl s l di]. cbn [watch_call] in Hc.
    case_decide as Hk; [|done]. destruct Hk as (-> & -> & [t Ht] & -> & _ & Hev).
    cbn [held drawn] in *. subst h. specialize (Hh t eq_refl). subst d.
    assert (Hd : drawn (next r) = Some t ∧ held (next r) = Some t).
    { injection Hc as <-. destruct r as [?|[]]; done. }
    destruct Hd as [Hd1 Hd2]. rewrite Hd1, Hd2. clear Hc.
    destruct (commit_record n job event att detail t result sh Hev) as [[Hq Hs]|[Hw [st Hst]]].
    + inversion Ha as [r0 sh0 E|v sh0 E|x Hx|x Hx]; subst.
      * rewrite E in Hq, Hs. split; [intros m; by apply (Hs r)|]. split; [done|]. left. auto.
      * exfalso. cbn [commit] in E. by destruct (record_event _ _ _ _ _ _ _ _).
      * split; [by intros m [= ->]|]. split; [done|]. left. auto.
      * split; [by intros m [= ->]|]. split; [done|]. left. auto using quiet_refl.
    + inversion Ha as [r0 sh0 E|v sh0 E|x Hx|x Hx]; subst.
      * rewrite E in Hst, Hw. injection Hst as ->. split; [done|]. split; [done|]. right. by exists t.
      * by rewrite E in Hst.
      * split; [by intros m [= ->]|]. split; [done|]. right. by exists t.
      * split; [by intros m [= ->]|]. split; [done|]. left. auto using quiet_refl.
  - pose proof (answers_quiet _ _ _ _ _ _ Hrec Ha) as Hq.
    split; [by eapply answers_replies|].
    destruct (watch_drawn _ _ _ _ _ _ _ _ Hc Hrec Hh r) as [Hh' [Hd|[Hd Hk]]].
    + split; [done|]. left. auto.
    + split; [done|]. left. split; [done|].
      destruct (Hk n sh sh' Ha) as [E|?]; [left; by rewrite E, Hd|by right].
Qed.

(** ** The invariant *)

(** [a] was written before [b]: tokens do not go back, and a token is one delivery's. *)
Definition ordered (a b : write) : Prop :=
  wr_job a = wr_job b → (wr_token a ≤ wr_token b)%Z ∧ (wr_token a = wr_token b ↔ wr_by a = wr_by b).

Definition writes_of (id : uuid) (l : list write) : list write := filter (λ wr, wr_job wr = id) l.

Record shared_ok (sh : shared) : Prop := {
  so_db : rtc repo_step empty_db (sh_db sh);
  so_counts k : (0 ≤ kv_count (sh_kv sh) k)%Z;
  so_fence id row : jobs (sh_db sh) !! id = Some row → (jr_fence_token row ≤ counter sh id)%Z;
  so_written wr : wr ∈ sh_writes sh →
    ∃ row, jobs (sh_db sh) !! wr_job wr = Some row ∧ (wr_token wr ≤ jr_fence_token row)%Z;
  so_order : StronglySorted ordered (sh_writes sh);
  so_log id log : log_of id (sh_db sh) = Ok log →
    filter (λ ev, worker_event ev = true) (type <$> log) = wr_event <$> writes_of id (sh_writes sh)
}.

Record procs_ok (sh : shared) (procs : gmap nat proc) (next : nat) : Prop := {
  po_fresh n pr : procs !! n = Some pr → n < next;
  po_fresh_writes wr : wr ∈ sh_writes sh → wr_by wr < next;
  po_code n pr : procs !! n = Some pr →
    monitored replies
      (watch_call (pr_job pr) (pr_attempt pr) (Worker.worker_id (pr_worker pr)) (pr_delivery pr))
      watch_end (pr_watch pr) (pr_code pr);
  po_held n pr t : procs !! n = Some pr → held (pr_watch pr) = Some t → drawn (pr_watch pr) = Some t;
  po_drawn n pr t : procs !! n = Some pr → drawn (pr_watch pr) = Some t → (t ≤ counter sh (pr_job pr))%Z;
  po_distinct n m pr pr' t : procs !! n = Some pr → procs !! m = Some pr' → n ≠ m →
    pr_job pr = pr_job pr' → drawn (pr_watch pr) = Some t → drawn (pr_watch pr') ≠ Some t;
  po_own wr pr : wr ∈ sh_writes sh → procs !! wr_by wr = Some pr →
    pr_job pr = wr_job wr ∧ drawn (pr_watch pr) = Some (wr_token wr);
  po_foreign wr n pr : wr ∈ sh_writes sh → procs !! n = Some pr → n ≠ wr_by wr →
    pr_job pr = wr_job wr → drawn (pr_watch pr) ≠ Some (wr_token wr)
}.

Lemma shared_ok_db sh : shared_ok sh → db_ok (sh_db sh).
Proof. intros H. by apply reachable_ok, so_db. Qed.

Lemma quiet_shared_ok sh sh' : quiet sh sh' → shared_ok sh → shared_ok sh'.
Proof.
  intros (Edb & Ewr & Hc) [H1 H2 H3 H4 H5 H6]. split; rewrite ?Edb, ?Ewr; try done.
  - intros k. specialize (H2 k). specialize (Hc k). lia.
  - intros id row Hrow. specialize (H3 id row Hrow). specialize (Hc (LeaseManager.token_key (uuid_str id))). lia.
Qed.

(** Written tokens are behind the counter. *)
Lemma written_counter sh wr : shared_ok sh → wr ∈ sh_writes sh → (wr_token wr ≤ counter sh (wr_job wr))%Z.
Proof.
  intros Hok Hwr. destruct (so_written sh Hok wr Hwr) as (row & Hrow & Ht).
  pose proof (so_fence sh Hok _ _ Hrow). lia.
Qed.

Lemma wrote_shared_ok n id t sh sh' :
  wrote n id t sh sh' → shared_ok sh → (t ≤ counter sh id)%Z →
  (∀ wr, wr ∈ sh_writes sh → wr_job wr = id → wr_token wr = t ↔ wr_by wr = n) →
  shared_ok sh'.
Proof.
  intros (row & cur & event & next & att & det & res & Hrow & Hcur & Hap & Hf & Hev & ->) Hok Ht Hn.
  assert (Hrp : event ≠ EventType.REPLAYED) by (by intros ->).
  pose proof Hok as [H1 H2 H3 H4 H5 H6]. split; cbn [sh_db sh_kv sh_writes].
  - eapply rtc_r; [exact H1|].
    replace (write_event _ _ _ _ _ _ _ _ _ _) with (record_event (sh_wall sh) id event att det (Some t) res (sh_db sh)).2.
    + by apply step_record.
    + rewrite record_event_eq, apply_event_eq, Hrow, Hcur, Hap. cbn [token_of]. by rewrite (proj2 (Z.leb_le _ _) Hf).
  - done.
  - intros id' row'. cbn [jobs write_event]. rewrite lookup_insert. case_decide; [|apply H3].
    subst. by intros [= <-].
  - intros wr Hwr. cbn [jobs write_event]. rewrite lookup_insert.
    apply elem_of_app in Hwr as [Hwr|Hwr].
    + destruct (H4 wr Hwr) as (row' & Hr' & Ht'). case_decide as E; [|by eauto].
      rewrite <- E, Hrow in Hr'. injection Hr' as <-. eexists. split; [done|]. cbn. lia.
    + apply list_elem_of_singleton in Hwr as ->. cbn [wr_job wr_token]. rewrite decide_True by done.
      eexists. split; [done|]. cbn. lia.
  - apply StronglySorted_app. split_and!; [|done|repeat constructor].
    intros a b Ha ->%list_elem_of_singleton Hj. cbn [wr_job wr_token wr_by] in *. split; [|by apply Hn].
    destruct (H4 a Ha) as (row' & Hr' & Ht'). rewrite Hj, Hrow in Hr'. injection Hr' as <-. lia.
  - intros id' log'. rewrite log_write_event. unfold writes_of. rewrite filter_app, fmap_app.
    destruct (decide (id' = id)) as [->|Hne].
    + destruct (log_of id (sh_db sh)) as [log|] eqn:El; [|done]. cbn [result_bind]. intros [= <-].
      rewrite fmap_app, filter_app, (H6 id log El). f_equal. simpl.
      rewrite !filter_cons_True by done. done.
    + intros Hlog. rewrite (filter_cons_False _ (mkWrite _ _ _ _)) by (cbn; congruence).
      rewrite filter_nil, app_nil_r. by apply H6.
Qed.

(** An event that is not a worker's, recorded under the row's own token. *)
Lemma foreign_event_ok now id row cur event next att det sh db' :
  shared_ok sh → jobs (sh_db sh) !! id = Some row → JobState_of (jr_state row) = Ok cur →
  apply (Some cur) event = Ok next → worker_event event = false →
  let db := write_event now id row event next att det (jr_fence_token row) None (sh_db sh) in
  jobs db' = jobs db → job_events db' = job_events db → rtc repo_step empty_db db' →
  shared_ok (set_db db' sh).
Proof.
  intros [H1 H2 H3 H4 H5 H6] Hrow Hcur Hap Hev db Hj He Hr.
  assert (Hl : ∀ id', log_of id' db' = log_of id' db) by (intros; unfold log_of, rows_of; by rewrite He).
  split; cbn [sh_db sh_kv sh_writes set_db]; rewrite ?Hj; try done.
  - intros id' row'. subst db. cbn [jobs write_event]. rewrite lookup_insert. case_decide; [|apply H3].
    subst. intros [= <-]. cbn. by apply H3.
  - intros wr Hwr. destruct (H4 wr Hwr) as (row' & Hr' & Ht). subst db. cbn [jobs write_event]. rewrite lookup_insert.
    case_decide as E; [|by eauto]. rewrite <- E, Hrow in Hr'. injection Hr' as <-. eexists. by split.
  - intros id' log'. rewrite Hl. subst db. rewrite log_write_event. case_decide; [subst|apply H6].
    destruct (log_of id (sh_db sh)) as [log|] eqn:El; [|done]. cbn [result_bind]. intros [= <-].
    rewrite fmap_app, filter_app. simpl. rewrite filter_cons_False by (by rewrite Hev).
    rewrite filter_nil, app_nil_r. by apply H6.
Qed.

Lemma others_shared_ok sh db : others (sh_wall sh) (sh_db sh) db → shared_ok sh → shared_ok (set_db db sh).
Proof.
  intros Ho Hok. pose proof Hok as [H1 H2 H3 H4 H5 H6]. pose proof (shared_ok_db sh Hok) as Hdb.
  assert (Hsame : shared_ok (set_db (sh_db sh) sh)) by (by destruct sh).
  assert (Hr : rtc repo_step empty_db db).
  { eapply rtc_r; [exact H1|]. destruct Ho; constructor. done. }
  destruct Ho as [id carrier key payload subject|id subject|id att det|ids].
  - revert Hr. rewrite submit_job_eq. destruct (job_by_key key (sh_db sh)) eqn:Hk; [done|].
    destruct (jobs (sh_db sh) !! id) eqn:Hi; [done|]. cbn [snd]. intros Hr.
    split; cbn [sh_db sh_kv sh_writes set_db]; try done.
    + intros id' row'. cbn [jobs write_submission]. rewrite lookup_insert. case_decide; [|apply H3].
      subst. intros [= <-]. cbn. apply H2.
    + intros wr Hwr. destruct (H4 wr Hwr) as (row' & Hr' & Ht). cbn [jobs write_submission].
      rewrite lookup_insert_ne by congruence. by eauto.
    + intros id' log'. rewrite log_write_submission by done. case_decide; [subst id'|apply H6].
      intros [= <-]. unfold writes_of.
      assert (E : filter (λ wr, wr_job wr = id) (sh_writes sh) = []).
      { destruct (filter _ _) as [|wr l] eqn:E; [done|]. exfalso.
        assert (Hin : wr ∈ filter (λ wr, wr_job wr = id) (sh_writes sh)) by (rewrite E; set_solver).
        apply list_elem_of_filter in Hin as [Hj Hin]. destruct (H4 wr Hin) as (row' & Hr' & _). congruence. }
      by rewrite E.
  - revert Hr. rewrite replay_job_eq, apply_event_eq. destruct (jobs (sh_db sh) !! id) as [row|] eqn:Hrow; [|done].
    destruct (JobState_of (jr_state row)) as [cur|] eqn:Hcur; [|done].
    destruct (apply (Some cur) EventType.REPLAYED) as [next|] eqn:Hap; [|done].
    cbn [token_of]. rewrite Z.leb_refl. intros Hr. by eapply foreign_event_ok.
  - revert Hr. rewrite record_event_eq, apply_event_eq. destruct (jobs (sh_db sh) !! id) as [row|] eqn:Hrow; [|done].
    destruct (JobState_of (jr_state row)) as [cur|] eqn:Hcur; [|done].
    destruct (apply (Some cur) EventType.DEAD_LETTERED) as [next|] eqn:Hap; [|done].
    cbn [token_of]. rewrite Z.leb_refl. intros Hr. by eapply foreign_event_ok.
  - split; try done.
Qed.

(** ** Deliveries *)

Lemma procs_ok_quiet sh sh' procs next : quiet sh sh' → procs_ok sh procs next → procs_ok sh' procs next.
Proof.
  intros (_ & Ewr & Hc) [H1 H2 H3 H4 H5 H6 H7 H8]. split; rewrite ?Ewr; try done.
  intros n pr t Hp Hd. specialize (H5 n pr t Hp Hd). specialize (Hc (LeaseManager.token_key (uuid_str (pr_job pr)))). lia.
Qed.

Lemma procs_ok_delete sh procs next n : procs_ok sh procs next → procs_ok sh (delete n procs) next.
Proof.
  intros [H1 H2 H3 H4 H5 H6 H7 H8].
  assert (Hd : ∀ m pr, delete n procs !! m = Some pr → procs !! m = Some pr).
  { intros m pr. rewrite lookup_delete. case_decide; naive_solver. }
  split; eauto.
Qed.

Lemma procs_ok_deliver sh procs next self fuel job payload attempt delivery :
  procs_ok sh procs next →
  procs_ok sh (<[next := mkProc self job attempt delivery (Worker.handle self fuel job payload attempt delivery) watch_init]> procs)
    (Datatypes.S next).
Proof.
  intros [H1 H2 H3 H4 H5 H6 H7 H8]. split.
  - intros n pr. rewrite lookup_insert. case_decide; [lia|]. intros Hp. specialize (H1 n pr Hp). lia.
  - intros wr Hwr. specialize (H2 wr Hwr). lia.
  - intros n pr. rewrite lookup_insert. case_decide; [|apply H3]. intros [= <-]. cbn. apply conforms_handle.
  - intros n pr t. rewrite lookup_insert. case_decide; [|apply H4]. by intros [= <-].
  - intros n pr t. rewrite lookup_insert. case_decide; [|apply H5]. by intros [= <-].
  - intros n m pr pr' t. rewrite !lookup_insert. repeat case_decide; try naive_solver.
  - intros wr pr Hwr. rewrite lookup_insert. case_decide as E; [|by apply H7]. specialize (H2 wr Hwr). lia.
  - intros wr n pr Hwr. rewrite lookup_insert. case_decide; [by intros [= <-]|by apply H8].
Qed.

(** A call that keeps the token its delivery has drawn, and writes only under it. *)
Lemma procs_ok_keep sh sh' procs next n pr pr' l :
  procs_ok sh procs next → procs !! n = Some pr →
  pr_job pr' = pr_job pr → drawn (pr_watch pr') = drawn (pr_watch pr) →
  (∀ t, held (pr_watch pr') = Some t → drawn (pr_watch pr') = Some t) →
  monitored replies (watch_call (pr_job pr') (pr_attempt pr') (Worker.worker_id (pr_worker pr')) (pr_delivery pr'))
    watch_end (pr_watch pr') (pr_code pr') →
  (∀ k, (kv_count (sh_kv sh) k ≤ kv_count (sh_kv sh') k)%Z) →
  sh_writes sh' = sh_writes sh ++ l →
  (∀ wr, wr ∈ l → wr_by wr = n ∧ wr_job wr = pr_job pr ∧ drawn (pr_watch pr) = Some (wr_token wr)) →
  procs_ok sh' (<[n := pr']> procs) next.
Proof.
  intros [H1 H2 H3 H4 H5 H6 H7 H8] Hn Ej Ed Hh Hm Hc Ew Hl.
  assert (Hold : ∀ m q, <[n := pr']> procs !! m = Some q →
    ∃ q0, procs !! m = Some q0 ∧ pr_job q = pr_job q0 ∧ drawn (pr_watch q) = drawn (pr_watch q0)).
  { intros m q. rewrite lookup_insert. case_decide; [subst; intros [= <-]|]; eauto. }
  split.
  - intros m q Hq. destruct (Hold m q Hq) as (q0 & Hq0 & _). by eapply H1.
  - intros wr. rewrite Ew. intros [Hwr|Hwr]%elem_of_app; [by apply H2|].
    destruct (Hl wr Hwr) as [-> _]. by eapply H1.
  - intros m q. rewrite lookup_insert. case_decide; [by intros [= <-]|apply H3].
  - intros m q t. rewrite lookup_insert. case_decide; [by intros [= <-]; apply Hh|apply H4].
  - intros m q t Hq. destruct (Hold m q Hq) as (q0 & Hq0 & -> & ->). intros Ht.
    specialize (H5 m q0 t Hq0 Ht). specialize (Hc (LeaseManager.token_key (uuid_str (pr_job q0)))). lia.
  - intros m1 m2 q1 q2 t Hq1 Hq2 Hne. destruct (Hold m1 q1 Hq1) as (q10 & Hq10 & -> & ->).
    destruct (Hold m2 q2 Hq2) as (q20 & Hq20 & -> & ->). by apply (H6 m1 m2).
  - intros wr q. rewrite Ew. intros [Hwr|Hwr]%elem_of_app Hq.
    + destruct (Hold _ q Hq) as (q0 & Hq0 & -> & ->). by apply H7.
    + destruct (Hl wr Hwr) as (Hb & Hj & Hd). destruct (Hold _ q Hq) as (q0 & Hq0 & -> & ->).
      rewrite Hb, Hn in Hq0. injection Hq0 as <-. done.
  - intros wr m q. rewrite Ew. intros [Hwr|Hwr]%elem_of_app Hq Hne Hj.
    + destruct (Hold m q Hq) as (q0 & Hq0 & Hj0 & ->). eapply H8; [done|done|done|congruence].
    + destruct (Hl wr Hwr) as (Hb & Hjw & Hd). destruct (Hold m q Hq) as (q0 & Hq0 & Hj0 & ->).
      rewrite Hb in Hne. eapply (H6 n m pr q0); [done|done|done|congruence|done].
Qed.

(** A call that draws a fresh token. *)
Lemma procs_ok_draw sh sh' procs next n pr pr' t :
  shared_ok sh → procs_ok sh procs next → procs !! n = Some pr → quiet sh sh' →
  pr_job pr' = pr_job pr → drawn (pr_watch pr) = None → drawn (pr_watch pr') = Some t →
  t = (counter sh (pr_job pr) + 1)%Z → counter sh' (pr_job pr) = t →
  (∀ t, held (pr_watch pr') = Some t → drawn (pr_watch pr') = Some t) →
  monitored replies (watch_call (pr_job pr') (pr_attempt pr') (Worker.worker_id (pr_worker pr')) (pr_delivery pr'))
    watch_end (pr_watch pr') (pr_code pr') →
  procs_ok sh' (<[n := pr']> procs) next.
Proof.
  intros Hsh Hpr Hn Hq Ej Ed0 Ed Et Ec Hh Hm. pose proof (procs_ok_quiet _ _ _ _ Hq Hpr) as [K1 K2 K3 K4 K5 K6 K7 K8].
  destruct Hpr as [H1 H2 H3 H4 H5 H6 H7 H8]. destruct Hq as (Edb & Ewr & Hc).
  assert (Hnew : ∀ m q, procs !! m = Some q → pr_job q = pr_job pr → drawn (pr_watch q) ≠ Some t).
  { intros m q Hqm Hj Hd. specialize (H5 m q t Hqm Hd). rewrite Hj in H5. lia. }
  assert (Hwnew : ∀ wr, wr ∈ sh_writes sh → wr_job wr = pr_job pr → wr_token wr ≠ t).
  { intros wr Hwr Hj Hd. pose proof (written_counter sh wr Hsh Hwr) as Hle. rewrite Hj in Hle. lia. }
  split.
  - intros m q. rewrite lookup_insert. case_decide; [subst; intros _; by eapply H1|apply K1].
  - done.
  - intros m q. rewrite lookup_insert. case_decide; [by intros [= <-]|apply K3].
  - intros m q t0. rewrite lookup_insert. case_decide; [by intros [= <-]; apply Hh|apply K4].
  - intros m q t0. rewrite lookup_insert. case_decide; [|apply K5].
    intros [= <-]. rewrite Ed, Ej, Ec. intros [= <-]. done.
  - intros m1 m2 q1 q2 t0. rewrite !lookup_insert. repeat case_decide; subst; [done| | |apply K6].
    + intros [= <-] Hq2 _ Hj. rewrite Ed. intros [= <-]. apply (Hnew m2); [done|congruence].
    + intros Hq1 [= <-] _ Hj Hd. rewrite Ed. intros [= <-]. apply (Hnew m1 q1); [done|congruence|done].
  - intros wr q. rewrite Ewr. intros Hwr. rewrite lookup_insert. case_decide as E; [|by rewrite <- Ewr in Hwr; apply K7].
    subst n. destruct (H7 wr pr Hwr Hn) as [_ Hd]. congruence.
  - intros wr m q. rewrite Ewr. intros Hwr. rewrite lookup_insert. case_decide; [|by apply H8].
    intros [= <-] _ Hj. rewrite Ed. intros [= E]. apply (Hwnew wr Hwr); congruence.
Qed.

Definition inv (f : fleet) : Prop :=
  shared_ok (fl_shared f) ∧ procs_ok (fl_shared f) (fl_procs f) (fl_next f).

Lemma inv_start s now wall : (∀ k, (0 ≤ kv_count s k)%Z) → inv (fleet_start s now wall).
Proof.
  intros Hc. split; split; cbn; try done; try (intros; set_solver).
  - constructor.
Qed.

Lemma inv_step f f' : fleet_step f f' → inv f → inv f'.
Proof.
  intros Hs [Hsh Hpr]. destruct Hs as [sh procs n self fuel job payload attempt delivery
    |sh procs next n self job attempt delivery R e k w r sh' Hn Ha|sh procs next n|sh procs next now wall Ht
    |sh procs next db Ho]; cbn [fl_shared fl_procs fl_next] in *.
  - split; [done|]. by apply procs_ok_deliver.
  - pose proof (po_code _ _ _ Hpr n _ Hn) as Hcode.
    cbn [pr_job pr_attempt pr_worker pr_delivery pr_watch pr_code monitored] in Hcode.
    destruct (watch_call _ _ _ _ _ _ _) as [nx|] eqn:Hw; [|done].
    destruct (answers_change _ _ _ _ _ _ _ _ _ _ _ _ Ha Hw (λ t, po_held _ _ _ Hpr n _ t Hn)) as (Hre & Hh & Hch).
    specialize (Hcode r Hre).
    unfold observed. cbn [pr_job pr_attempt pr_worker pr_delivery pr_watch]. rewrite Hw.
    destruct Hch as [[Hq [Hd|(Hd0 & t & Hd & Et & Ec)]]|(t & Hd & Hd' & Hwr)].
    + split; [by eapply quiet_shared_ok|]. destruct Hq as (_ & Ew & Hc).
      eapply (procs_ok_keep sh sh' procs next n _ _ []); [done|exact Hn|done..| |set_solver].
      by rewrite app_nil_r.
    + split; [by eapply quiet_shared_ok|]. by eapply procs_ok_draw.
    + assert (Hown : ∀ wr, wr ∈ sh_writes sh → wr_job wr = job → wr_token wr = t ↔ wr_by wr = n).
      { intros wr Hin Hj. split.
        - intros E. destruct (decide (wr_by wr = n)) as [|Hne]; [done|]. exfalso.
          eapply (po_foreign _ _ _ Hpr wr n); [done|exact Hn|done|done|]. cbn. congruence.
        - intros <-. destruct (po_own _ _ _ Hpr wr _ Hin Hn) as [_ E]. cbn in E. congruence. }
      split.
      * eapply wrote_shared_ok; [exact Hwr|done| |done]. by apply (po_drawn _ _ _ Hpr n _ t Hn).
      * destruct Hwr as (row & cur & event & nst & att & det & res & _ & _ & _ & _ & _ & ->).
        eapply (procs_ok_keep sh _ procs next n _ _ [mkWrite n job t event]); [done|exact Hn|done..|].
        intros wr ->%list_elem_of_singleton. done.
  - split; [done|]. by apply procs_ok_delete.
  - split; [by destruct Hsh|by destruct Hpr].
  - split; [by apply others_shared_ok|by destruct Hpr].
Qed.

Lemma inv_reachable f f' : rtc fleet_step f f' → inv f → inv f'.
Proof. induction 1; eauto using inv_step. Qed.

(** ** Schedules *)

(** A reply for a call whose answer the shared state does not determine. *)
Definition some_reply (x : float) (R : Type) (e : eff R) : option R :=
  match e in eff R return option R with
  | RngRandom => Some x
  | RngUniform _ _ => Some x
  | Monotonic => Some x
  | Sleep _ => Some tt
  | MsgAck => Some tt
  | MsgNak _ => Some tt
  | MsgTerm => Some tt
  | Metric _ _ => Some tt
  | _ => None
  end.

Inductive action :=
  | Deliver (self : Worker.t) (fuel : nat) (job : uuid) (payload : json) (attempt : Z)
  | Act (n : nat) (x : float)           (* delivery n makes its next call; x if its reply is free *)
  | Fault (n : nat) (applied : bool)    (* its next call fails, after or before its effect *)
  | Kill (n : nat)
  | Time (now : float) (wall : Z)
  | Submit (id : uuid) (key : string) (payload : dict)
  | Quarantine (id : uuid) (att : Z)
  | Replay (id : uuid).

Definition advance (n : nat) (pr : proc) (R : Type) (e : eff R) (k : result R → prog unit) (r : result R)
    (sh' : shared) (f : fleet) : fleet :=
  mkFleet sh'
    (<[n := mkProc (pr_worker pr) (pr_job pr) (pr_attempt pr) (pr_delivery pr) (k r) (observed pr R e r)]> (fl_procs f))
    (fl_next f).

Definition act (a : action) (f : fleet) : fleet :=
  let sh := fl_shared f in
  match a with
  | Deliver self fuel job payload attempt =>
      let d := Worker.delivery_of self attempt in
      mkFleet sh (<[fl_next f := mkProc self job attempt d (Worker.handle self fuel job payload attempt d) watch_init]>
                    (fl_procs f)) (Datatypes.S (fl_next f))
  | Act n x =>
      match fl_procs f !! n with
      | Some pr =>
          match pr_code pr with
          | Call e k =>
              match commit n _ e sh with
              | (Some r, sh') => advance n pr _ e k r sh' f
              | (None, sh') =>
                  match some_reply x _ e with Some v => advance n pr _ e k (Ok v) sh' f | None => f end
              end
          | _ => f
          end
      | None => f
      end
  | Fault n applied =>
      match fl_procs f !! n with
      | Some pr =>
          match pr_code pr with
          | Call e k =>
              advance n pr _ e k (Raise (ExternalError "connection lost"))
                (if (applied : bool) then (commit n _ e sh).2 else sh) f
          | _ => f
          end
      | None => f
      end
  | Kill n => mkFleet sh (delete n (fl_procs f)) (fl_next f)
  | Time now wall =>
      if (sh_now sh <=? now)%float
      then mkFleet (mkShared (sh_db sh) (sh_kv sh) now wall (sh_writes sh)) (fl_procs f) (fl_next f) else f
  | Submit id key payload =>
      mkFleet (set_db (submit_job (sh_wall sh) id [] key payload "orbiter.jobs" (sh_db sh)).2 sh) (fl_procs f) (fl_next f)
  | Quarantine id att =>
      mkFleet (set_db (record_event (sh_wall sh) id EventType.DEAD_LETTERED att None None None (sh_db sh)).2 sh)
        (fl_procs f) (fl_next f)
  | Replay id =>
      mkFleet (set_db (replay_job (sh_wall sh) id "orbiter.jobs" (sh_db sh)).2 sh) (fl_procs f) (fl_next f)
  end.

Lemma act_steps a f : rtc fleet_step f (act a f).
Proof.
  destruct f as [sh procs next], a as [self fuel job payload attempt|n x|n applied|n|now wall|id key payload|id att|id];
    cbn [act fl_shared fl_procs fl_next].
  - apply rtc_once. constructor.
  - destruct (procs !! n) as [[self job att d code w]|] eqn:Hn; [|apply rtc_refl]. cbn [pr_code].
    destruct code as [| |R e k]; [apply rtc_refl..|].
    destruct (commit n R e sh) as [[r|] sh'] eqn:Hc; [apply rtc_once, fleet_call; [done|by constructor]|].
    destruct (some_reply x R e); [|apply rtc_refl]. apply rtc_once, fleet_call; [done|by constructor].
  - destruct (procs !! n) as [[self job att d code w]|] eqn:Hn; [|apply rtc_refl]. cbn [pr_code].
    destruct code as [| |R e k]; [apply rtc_refl..|]. apply rtc_once, fleet_call; [done|].
    destruct applied; by constructor.
  - apply rtc_once. constructor.
  - destruct (sh_now sh <=? now)%float eqn:E; [|apply rtc_refl]. apply rtc_once. by constructor.
  - apply rtc_once. constructor. constructor.
  - apply rtc_once. constructor. constructor.
  - apply rtc_once. constructor. constructor.
Qed.

Definition schedule (l : list action) (f : fleet) : fleet := foldl (λ f a, act a f) f l.

Lemma schedule_steps l f : rtc fleet_step f (schedule l f).
Proof.
  revert f. induction l as [|a l IH]; intros f; [apply rtc_refl|]. etrans; [apply act_steps|apply IH].
Qed.
End fleet.

(** The late worker: "w1" starts job 1 under token 1 and is then silent past its
    lease; "w2" takes over under token 2 and starts it again; "w1" comes back
    with a failed execution and is rejected; "w2" completes. *)
Definition acts (n : nat) (k : nat) (x : float) : list action := replicate k (Act n x).

Definition takeover : list action :=
  [Submit 1 "key-1" failing_payload; Deliver sample_worker 9 1 (JObj failing_payload) 1] ++
  acts 0 9 (fZ 0) ++
  [Time (fZ 60) 160; Deliver (Worker.mk default_settings "w2") 9 1 (JObj failing_payload) 2] ++
  acts 1 5 (fZ 60) ++ acts 0 2 (fZ 61) ++ acts 1 11 (fZ 62).

Definition takeover_fleet : fleet := schedule takeover (fleet_start InMemoryKV.init (fZ 0) 100).

Definition takeover_writes : list write :=
  [mkWrite 0 1 1 EventType.STARTED; mkWrite 1 1 2 EventType.STARTED; mkWrite 1 1 2 EventType.COMPLETED].

(** In that schedule the late worker ends with an exception no clause catches. *)
Example takeover_ends :
  sh_writes (fl_shared takeover_fleet) = takeover_writes ∧
  pr_code <$> (fl_procs takeover_fleet !! 0) = Some (Throw (StaleLeaseError (uuid_str 1) 1 2)) ∧
  pr_code <$> (fl_procs takeover_fleet !! 1) = Some (Ret tt).
Proof. vm_compute. done. Qed.

Lemma takeover_log : ∃ log, replay_events 1 (sh_db (fl_shared takeover_fleet)) = Ok log ∧
  type <$> log = [EventType.SUBMITTED; EventType.ENQUEUED; EventType.STARTED; EventType.STARTED; EventType.COMPLETED].
Proof. vm_compute. eexists. split; reflexivity. Qed.

Lemma takeover_reachable : rtc fleet_step (fleet_start InMemoryKV.init (fZ 0) 100) takeover_fleet.
Proof. apply schedule_steps. Qed.

Lemma inmemory_counts k : (0 ≤ kv_count InMemoryKV.init k)%Z.
Proof. done. Qed.

(** Writes of one job in a list sorted by [ordered]: sessions do not interleave. *)
Lemma ordered_sessions id l l1 a l2 b l3 :
  StronglySorted ordered l → writes_of id l = l1 ++ a :: l2 ++ b :: l3 →
  (wr_token a ≤ wr_token b)%Z ∧ (wr_token a = wr_token b ↔ wr_by a = wr_by b) ∧
  (wr_by a = wr_by b → Forall (λ c, wr_by c = wr_by a) l2).
Proof.
  intros Hs Hl.
  assert (Hf : StronglySorted ordered (writes_of id l)) by (by apply StronglySorted_filter).
  assert (Hid : Forall (λ c, wr_job c = id) (writes_of id l)).
  { apply Forall_forall. intros c Hc. by apply list_elem_of_filter in Hc as [Hc _]. }
  rewrite Hl in Hf, Hid. apply StronglySorted_app in Hf as (_ & _ & Hf).
  apply Forall_app in Hid as [_ Hid]. apply Forall_cons in Hid as [Hida Hid].
  apply Forall_app in Hid as [Hid2 Hid]. apply Forall_cons in Hid as [Hidb _].
  inversion Hf as [|? ? Hf2 Ha]; subst. apply Forall_app in Ha as [Ha2 Hab]. apply Forall_cons in Hab as [Hab _].
  apply StronglySorted_app in Hf2 as (H2b & _ & _).
  destruct Hab as [Hle Heq]; [congruence|]. split; [done|]. split; [done|]. intros E. apply Heq in E.
  rewrite Forall_forall in Ha2. rewrite Forall_forall in Hid2. apply Forall_forall. intros c Hc.
  specialize (Hid2 c Hc). destruct (Ha2 c Hc) as [Hac Haceq]; [congruence|].
  destruct (H2b c b) as [Hcb _]; [done|set_solver|congruence|].
  symmetry. apply Haceq. lia.
Qed.

(** * Properties *)

(** C5: fencing holds across the fleet.  In every state any interleaving can reach
    (duplicate and concurrent deliveries, crashes, lost replies, expired leases),
    the worker events of a job's audit trail are, in order, the committed writes
    of its deliveries; their tokens never go back, a token belongs to one
    delivery, and the writes of a delivery are contiguous: once a newer holder
    has written, no older one ever does. *)
Theorem fleet_sessions {S : Type} `{!KVStore S, !KVView S, !KVStoreLaws S} (s : S) (now : float) (wall : Z)
    (f : fleet) (id : uuid) (log : list JobEvent) :
  (∀ k, (0 ≤ kv_count s k)%Z) → rtc fleet_step (fleet_start s now wall) f →
  replay_events id (sh_db (fl_shared f)) = Ok log →
  filter (λ ev, worker_event ev = true) (type <$> log) =
    wr_event <$> writes_of id (sh_writes (fl_shared f)) ∧
  ∀ l1 a l2 b l3, writes_of id (sh_writes (fl_shared f)) = l1 ++ a :: l2 ++ b :: l3 →
    (wr_token a ≤ wr_token b)%Z ∧ (wr_token a = wr_token b ↔ wr_by a = wr_by b) ∧
    (wr_by a = wr_by b → Forall (λ c, wr_by c = wr_by a) l2).
Proof.
  intros Hc Hr Hlog. destruct (inv_reachable _ _ Hr (inv_start s now wall Hc)) as [Hsh _].
  pose proof (shared_ok_db _ Hsh) as Hdb. unfold replay_events in Hlog.
  rewrite select_events_rows in Hlog by apply Hdb. split; [by apply (so_log _ Hsh)|].
  intros l1 a l2 b l3 Hl. eapply ordered_sessions; [apply (so_order _ Hsh)|exact Hl].
Qed.

Lemma fleet_sessions_witness :
  ∃ log, replay_events 1 (sh_db (fl_shared takeover_fleet)) = Ok log ∧
    filter (λ ev, worker_event ev = true) (type <$> log) =
      wr_event <$> writes_of 1 (sh_writes (fl_shared takeover_fleet)).
Proof.
  destruct takeover_log as (log & Hlog & _). exists log. split; [exact Hlog|].
  apply (fleet_sessions InMemoryKV.init (fZ 0) 100 takeover_fleet 1 log inmemory_counts takeover_reachable Hlog).
Defined.

(** C9: the audit trail stays the truth under concurrency.  In every reachable state
    of the fleet, every job's log replays to the state its row shows, with no
    double completion, and the row's fence never runs ahead of the job's token
    counter, so the next lease can always write. *)
Theorem fleet_trail_consistent {S : Type} `{!KVStore S, !KVView S, !KVStoreLaws S} (s : S) (now : float) (wall : Z)
    (f : fleet) (id : uuid) (row : JobRow) :
  (∀ k, (0 ≤ kv_count s k)%Z) → rtc fleet_step (fleet_start s now wall) f →
  jobs (sh_db (fl_shared f)) !! id = Some row →
  (∃ log st, replay_events id (sh_db (fl_shared f)) = Ok log ∧ replay log = Ok st ∧
     jr_state row = JobState.value st ∧ counts_ok log st) ∧
  (jr_fence_token row ≤ kv_count (sh_kv (fl_shared f)) (LeaseManager.token_key (uuid_str id)))%Z.
Proof.
  intros Hc Hr Hrow. destruct (inv_reachable _ _ Hr (inv_start s now wall Hc)) as [Hsh _].
  pose proof (shared_ok_db _ Hsh) as Hdb. split; [|by apply (so_fence _ Hsh)].
  destruct (ok_jobs _ Hdb id row Hrow) as (log & Hlog & (st & Hs & Hst) & _).
  exists log, st. unfold replay_events. rewrite select_events_rows by apply Hdb.
  split; [done|]. split; [done|]. split; [done|]. by apply replay_counts.
Qed.

Lemma fleet_trail_consistent_witness :
  ∃ row, jobs (sh_db (fl_shared takeover_fleet)) !! 1%N = Some row ∧
    (jr_fence_token row ≤ kv_count (sh_kv (fl_shared takeover_fleet)) (LeaseManager.token_key (uuid_str 1)))%Z.
Proof.
  destruct (jobs (sh_db (fl_shared takeover_fleet)) !! 1%N) as [row|] eqn:E; [|vm_compute in E; discriminate E].
  exists row. split; [reflexivity|].
  apply (fleet_trail_consistent InMemoryKV.init (fZ 0) 100 takeover_fleet 1 row inmemory_counts takeover_reachable E).
Defined.
