(* ===== verification/Relay.v ===== *)
(** * The outbox relay ([src/orbiter/relay/outbox_relay.py])

    [relay_once] as a program, the poll loop, and relays at work on the shared
    outbox: any number of them, killed at any call, while submissions go on. *)
From Stdlib Require Import Floats.SpecFloat.
From stdpp Require Import sorting.
From S2P Require Import Prelude PyFloat PyJson Model StateMachine PyUuid KVStore Effects Fencing Repo Config.
From S2P Require Import Telemetry.

Open Scope prog_scope.

(** A row of the batch: id, subject, payload. *)
Abbreviation batch_row := (Z * string * json)%type.

Abbreviation headers := (list (string * string)).

(** [headers[k] = v] *)
Fixpoint set_header (h : headers) (k v : string) : headers :=
  match h with
  | [] => [(k, v)]
  | (k0, v0) :: h => if decide (k0 = k) then (k, v) :: h else (k0, v0) :: set_header h k v
  end.

Definition get_header (h : headers) (k : string) : option string :=
  snd <$> head (filter (λ p, p.1 = k) h).

Definition msg_id (id : Z) : string := "outbox-" +:+ pretty id.

Section relay.
(** [current_carrier()] inside the span of row [id]: trace headers of the telemetry
    library, others for each row.  No modelled code reads them but for the message
    id, which they do not touch; a row that is published again has the same. *)
Context (carrier : Z → headers).

(** [headers = {"Nats-Msg-Id": ...}; headers.update(current_carrier())] *)
Definition headers_of (id : Z) : headers :=
  foldl (λ h p, set_header h p.1 p.2) [("Nats-Msg-Id", msg_id id)] (carrier id).

(** The loop over the rows; [body.get] needs the payload to be an object, and the
    trace context must be one as well: [context_from] raises exactly when
    [carrier_items] does ([context_from_raises]). *)
Fixpoint publish_rows (rows : list batch_row) : prog unit :=
  match rows with
  | [] => Ret tt
  | (id, subject, payload) :: rows =>
      match payload with
      | JObj l =>
          let! _ := of_result (carrier_items (dict_get l "traceparent")) in
          let! _ := await (JsPublish subject (Ok payload) (headers_of id)) in
          publish_rows rows
      | _ => Throw (AttributeError "object has no attribute 'get'")
      end
  end.

Definition ids_of (rows : list batch_row) : list Z := (λ r, r.1.1) <$> rows.

(** [async with conn.transaction()]: the body, then commit; rollback if it raises. *)
Definition in_transaction {A} (body : prog A) : prog A :=
  let! _ := await TxBegin in
  let! a := try_except body (λ e, let! _ := await TxRollback in Throw e) in
  let! _ := await TxCommit in
  Ret a.

Definition relay_once (settings : Settings) : prog nat :=
  in_transaction (
    let! rows := await (SelectUnpublished (relay_batch_size settings)) in
    let! _ := publish_rows rows in
    let! _ := (match rows with
               | [] => Ret tt
               | _ => await (MarkPublished (ids_of rows))
               end) in
    Ret (length rows)).

(** The poll loop, for a number of turns.  An empty batch waits for the stop event,
    at most the poll interval.  [Ret true]: left because of the stop event. *)
Fixpoint poll (settings : Settings) (turns : nat) : prog bool :=
  match turns with
  | 0 => Ret false
  | S turns =>
      let! stop := await StopIsSet in
      if (stop : bool) then Ret true
      else
        let! published := relay_once settings in
        let! _ := (match published with
                   | 0 => try_except (await (StopWait (relay_poll_interval_s settings)))
                            (λ e, match e with TimeoutError => Ret tt | e => Throw e end)
                   | _ => Ret tt
                   end) in
        poll settings turns
  end.

(** ** The outbox as the relay sees it *)

(** SELECT ... WHERE published_at IS NULL ORDER BY id LIMIT n FOR UPDATE SKIP LOCKED *)
Definition select_unpublished (limit : Z) (locked : list Z) (db : DB) : list batch_row :=
  (λ o, (ob_id o, ob_subject o, ob_payload o)) <$>
    take (Z.to_nat limit)
      (merge_sort (by_id ob_id) (filter (λ o, ob_published_at o = None ∧ ob_id o ∉ locked) (outbox db))).

(** ** What every run of [relay_once] does *)

Record rwatch := mkRwatch {
  rw_rows : option (list batch_row);    (* the batch, once selected *)
  rw_sent : nat;                        (* how many of its rows the broker has accepted *)
  rw_marks : list Z;                    (* the ids marked in the open transaction *)
  rw_failed : bool                      (* some call raised *)
}.

Definition rwatch_init : rwatch := mkRwatch None 0 [] false.

Definition fail_if {A} (r : result A) (w : rwatch) : rwatch :=
  match r with Ok _ => w | Raise _ => mkRwatch (rw_rows w) (rw_sent w) (rw_marks w) true end.

(** The contract: one batch; its rows in order, each under its own id; the marks
    only for a batch that was accepted whole; the commit only if nothing failed. *)
Definition relay_call (limit : Z) (w : rwatch) (R : Type) (e : eff R) : option (result R → rwatch) :=
  match e in eff R return option (result R → rwatch) with
  | TxBegin => Some (λ r, fail_if r w)
  | SelectUnpublished n =>
      if decide (n = limit ∧ rw_rows w = None) then
        Some (λ r, match r with
                   | Ok rows => mkRwatch (Some rows) 0 (rw_marks w) (rw_failed w)
                   | Raise _ => fail_if r w
                   end)
      else None
  | JsPublish subject data h =>
      match rw_rows w with
      | Some rows =>
          match rows !! rw_sent w with
          | Some (id, s, p) =>
              if decide (subject = s ∧ data = Ok p ∧ h = headers_of id ∧ rw_failed w = false) then
                Some (λ r, match r with
                           | Ok _ => mkRwatch (rw_rows w) (S (rw_sent w)) (rw_marks w) (rw_failed w)
                           | Raise _ => fail_if r w
                           end)
              else None
          | None => None
          end
      | None => None
      end
  | MarkPublished ids =>
      match rw_rows w with
      | Some rows =>
          if decide (ids = ids_of rows ∧ rw_sent w = length rows ∧ rw_failed w = false) then
            Some (λ r, match r with
                       | Ok _ => mkRwatch (rw_rows w) (rw_sent w) ids (rw_failed w)
                       | Raise _ => fail_if r w
                       end)
          else None
      | None => None
      end
  | TxCommit =>
      match rw_rows w with
      | Some rows => if decide (rw_marks w = ids_of rows ∧ rw_failed w = false) then Some (λ r, fail_if r w) else None
      | None => None
      end
  | TxRollback => if rw_failed w then Some (λ r, fail_if r w) else Some (λ r, mkRwatch (rw_rows w) (rw_sent w) (rw_marks w) true)
  | _ => None
  end.

Abbreviation relay_conforms limit := (monitored (λ _ _ _, True) (relay_call limit)).

(** The rows after the first [k]: publishing them leaves the whole batch accepted. *)
Lemma conforms_publish limit rows k (Q : rwatch → result unit → Prop) :
  k ≤ length rows →
  Q (mkRwatch (Some rows) (length rows) [] false) (Ok tt) →
  (∀ j x, Q (mkRwatch (Some rows) j [] true) (Raise x)) →
  (∀ j x, Q (mkRwatch (Some rows) j [] false) (Raise x)) →
  relay_conforms limit Q (mkRwatch (Some rows) k [] false) (publish_rows (drop k rows)).
Proof.
  intros Hk Hok Hx Hx'. remember (drop k rows) as tl eqn:Htl. revert k Hk Htl.
  induction tl as [|[[id s] p] tl IH]; intros k Hk Htl.
  - assert (k = length rows) as ->; [|done]. apply (f_equal length) in Htl. rewrite length_drop in Htl. simpl in Htl. lia.
  - assert (Hl : rows !! k = Some (id, s, p)).
    { pose proof (lookup_drop rows k 0) as H. rewrite <- Htl, Nat.add_0_r in H. done. }
    destruct p as [| | | | | |l]; cbn [publish_rows monitored]; try by apply Hx'.
    destruct (carrier_items _) as [c|x]; [|by apply Hx']. cbn. rewrite Hl. rewrite decide_True by done.
    intros [[]|x] _; cbn; [|by apply Hx]. apply IH.
    + by apply lookup_lt_Some in Hl.
    + replace (S k) with (k + 1) by lia. rewrite <- drop_drop, <- Htl. done.
Qed.

Definition relay_end (w : rwatch) (o : result nat) : Prop :=
  match o with
  | Ok n => ∃ rows, rw_rows w = Some rows ∧ n = length rows ∧ rw_sent w = n ∧ rw_failed w = false
  | Raise _ => rw_failed w = true
  end.

Lemma conforms_relay_once settings :
  relay_conforms (relay_batch_size settings) relay_end rwatch_init (relay_once settings).
Proof.
  unfold relay_once, in_transaction.
  apply monitored_bind. eapply monitored_await; [done|]. intros [[]|x] _; [|done]. cbn [fail_if].
  apply monitored_bind, monitored_try_except, monitored_bind.
  eapply monitored_await; [cbn; rewrite decide_True by done; reflexivity|].
  intros [rows|x] _; [|cbn; by intros [[]|y] _]. cbn [rwatch_init rw_marks rw_failed].
  apply monitored_bind. pose proof (conforms_publish (relay_batch_size settings) rows 0) as Hp.
  rewrite drop_0 in Hp. apply Hp; [lia| |cbn; by intros ? ? [[]|y] _|cbn; by intros ? ? [[]|y] _]. clear Hp.
  apply monitored_bind. destruct rows as [|row rows].
  - cbn. intros [[]|x] _; [|done]. by exists [].
  - eapply monitored_await; [cbn; rewrite decide_True by done; reflexivity|].
    intros [[]|x] _; [|cbn; by intros [[]|y] _]. cbn [monitored rw_rows rw_sent rw_failed].
    apply monitored_bind. eapply monitored_await; [cbn; rewrite decide_True by done; reflexivity|].
    intros [[]|x] _; [|done]. by exists (row :: rows).
Qed.

(** ** Relays at work *)

Definition sent_msg : Type := string * document * headers.

(** The message of an outbox row. *)
Definition msg_of (o : OutboxRow) : sent_msg := (ob_subject o, Ok (ob_payload o), headers_of (ob_id o)).

(** A relay in the middle of [relay_once]: the rows it has locked, the marks of
    its open transaction. *)
Record rproc := mkRproc { rp_code : prog nat; rp_watch : rwatch; rp_locked : list Z; rp_pending : list Z }.

Record rsys := mkRsys {
  rs_db : DB;
  rs_wall : Z;
  rs_sent : list sent_msg;              (* everything the broker was given *)
  rs_procs : gmap nat rproc
}.

Definition locked_by_others (n : nat) (procs : gmap nat rproc) : list Z :=
  concat (rp_locked <$> (map_to_list (delete n procs)).*2).

(** The effect of a call of relay [n]: reply (if determined), tables, broker, locks, marks. *)
Definition rcommit (n : nat) (st : rsys) (lk pd : list Z) (R : Type) (e : eff R)
    : option (result R) * DB * list sent_msg * list Z * list Z :=
  match e in eff R return option (result R) * DB * list sent_msg * list Z * list Z with
  | SelectUnpublished limit =>
      let rows := select_unpublished limit (locked_by_others n (rs_procs st)) (rs_db st) in
      (Some (Ok rows), rs_db st, rs_sent st, lk ++ ids_of rows, pd)
  | JsPublish s d h => (Some (Ok tt), rs_db st, rs_sent st ++ [(s, d, h)], lk, pd)
  | MarkPublished ids => (Some (Ok tt), rs_db st, rs_sent st, lk, pd ++ ids)
  | TxBegin => (Some (Ok tt), rs_db st, rs_sent st, lk, pd)
  | TxCommit => (Some (Ok tt), mark_published (rs_wall st) pd (rs_db st), rs_sent st, [], [])
  | TxRollback => (Some (Ok tt), rs_db st, rs_sent st, [], [])
  | _ => (None, rs_db st, rs_sent st, lk, pd)
  end.

Definition robserve (limit : Z) (w : rwatch) (R : Type) (e : eff R) (r : result R) : rwatch :=
  match relay_call limit w R e with Some next => next r | None => w end.

(** What the other processes do to the tables. *)
Inductive writers (wall : Z) (db : DB) : DB → Prop :=
  | writer_submit id carrier key payload subject : writers wall db (submit_job wall id carrier key payload subject db).2
  | writer_replay id subject : writers wall db (replay_job wall id subject db).2
  | writer_record id event att det ft res :
      event ≠ EventType.REPLAYED → writers wall db (record_event wall id event att det ft res db).2.

(** What a relay does: it starts, makes its next call, is gone. *)
Inductive ract (settings : Settings) : rsys → rsys → Prop :=
  | ract_start st n :
      rs_procs st !! n = None →
      ract settings st (mkRsys (rs_db st) (rs_wall st) (rs_sent st)
        (<[n := mkRproc (relay_once settings) rwatch_init [] []]> (rs_procs st)))
  | ract_call st n R (e : eff R) k w lk pd r db sent lk' pd' :
      rs_procs st !! n = Some (mkRproc (Call e k) w lk pd) →
      rcommit n st lk pd R e = (Some r, db, sent, lk', pd') →
      ract settings st (mkRsys db (rs_wall st) sent
        (<[n := mkRproc (k r) (robserve (relay_batch_size settings) w R e r) lk' pd']> (rs_procs st)))
  | ract_lost st n R (e : eff R) k w lk pd o x db sent lk' pd' :  (* done, but the answer is lost *)
      rs_procs st !! n = Some (mkRproc (Call e k) w lk pd) →
      rcommit n st lk pd R e = (o, db, sent, lk', pd') →
      ract settings st (mkRsys db (rs_wall st) sent
        (<[n := mkRproc (k (Raise x)) (robserve (relay_batch_size settings) w R e (Raise x)) lk' pd']> (rs_procs st)))
  | ract_failed st n R (e : eff R) k w lk pd x :
      rs_procs st !! n = Some (mkRproc (Call e k) w lk pd) →
      ract settings st (mkRsys (rs_db st) (rs_wall st) (rs_sent st)
        (<[n := mkRproc (k (Raise x)) (robserve (relay_batch_size settings) w R e (Raise x)) lk pd]> (rs_procs st)))
  | ract_gone st n :                        (* finished, or killed: its transaction is rolled back *)
      ract settings st (mkRsys (rs_db st) (rs_wall st) (rs_sent st) (delete n (rs_procs st))).

Inductive rstep (settings : Settings) : rsys → rsys → Prop :=
  | rstep_relay st st' : ract settings st st' → rstep settings st st'
  | rstep_writer st wall db :
      writers wall (rs_db st) db →
      rstep settings st (mkRsys db wall (rs_sent st) (rs_procs st)).

Definition rs_start (wall : Z) : rsys := mkRsys empty_db wall [] ∅.

(** *** Invariant *)

(** The batch is rows of the outbox; the rows accepted so far are with the broker,
    and so are those marked. *)
Record rproc_ok (settings : Settings) (db : DB) (sent : list sent_msg) (pr : rproc) : Prop := {
  rp_conforms : relay_conforms (relay_batch_size settings) relay_end (rp_watch pr) (rp_code pr);
  rp_rows rows row : rw_rows (rp_watch pr) = Some rows → row ∈ rows →
    ∃ o, o ∈ outbox db ∧ row = (ob_id o, ob_subject o, ob_payload o);
  rp_done rows i id s p : rw_rows (rp_watch pr) = Some rows → i < rw_sent (rp_watch pr) →
    rows !! i = Some (id, s, p) → (s, Ok p, headers_of id) ∈ sent;
  rp_marks id : id ∈ rp_pending pr → ∃ o, o ∈ outbox db ∧ ob_id o = id ∧ msg_of o ∈ sent
}.

Record rinv (settings : Settings) (st : rsys) : Prop := {
  ri_db : rtc repo_step empty_db (rs_db st);
  ri_published o : o ∈ outbox (rs_db st) → ob_published_at o ≠ None → msg_of o ∈ rs_sent st;
  ri_sent m : m ∈ rs_sent st → ∃ o, o ∈ outbox (rs_db st) ∧ m = msg_of o;
  ri_procs n pr : rs_procs st !! n = Some pr → rproc_ok settings (rs_db st) (rs_sent st) pr
}.

(** The same row, apart from its publication time. *)
Definition same_row (o o' : OutboxRow) : Prop :=
  ob_id o = ob_id o' ∧ ob_subject o = ob_subject o' ∧ ob_payload o = ob_payload o'.

Lemma same_row_msg o o' : same_row o o' → msg_of o = msg_of o'.
Proof. intros (H1 & H2 & H3). unfold msg_of. by rewrite H1, H2, H3. Qed.

Definition rows_kept (db db' : DB) : Prop := ∀ o, o ∈ outbox db → ∃ o', o' ∈ outbox db' ∧ same_row o o'.

Lemma rproc_ok_kept settings db db' sent sent' pr :
  rows_kept db db' → sent ⊆ sent' → rproc_ok settings db sent pr → rproc_ok settings db' sent' pr.
Proof.
  intros Hk Hs [H1 H2 H3 H4]. split; [done| | |].
  - intros rows row Hr Hin. destruct (H2 rows row Hr Hin) as (o & Ho & ->).
    destruct (Hk o Ho) as (o' & Ho' & E1 & E2 & E3). exists o'. by rewrite E1, E2, E3.
  - intros rows i id s p Hr Hi Hl. apply Hs. by eapply H3.
  - intros id Hid. destruct (H4 id Hid) as (o & Ho & <- & Hm). destruct (Hk o Ho) as (o' & Ho' & E).
    exists o'. split; [done|]. split; [symmetry; apply E|]. rewrite <- (same_row_msg o o' E). auto.
Qed.

Lemma mark_kept wall ids db : rows_kept db (mark_published wall ids db).
Proof.
  intros o Ho. exists (if decide (ob_id o ∈ ids)
     then mkOutboxRow (ob_id o) (ob_job_id o) (ob_subject o) (ob_payload o) (ob_created_at o) (Some wall) else o).
  split; [|by case_decide]. unfold mark_published. cbn [outbox]. apply list_elem_of_fmap. by exists o.
Qed.

Lemma writers_append wall db db' :
  writers wall db db' →
  repo_step db db' ∧ ∃ l, outbox db' = outbox db ++ l ∧ Forall (λ o, ob_published_at o = None) l.
Proof.
  intros H. split; [destruct H; by constructor|].
  destruct H as [id carrier' key payload subject|id subject|id event att det ft res Hev].
  - rewrite submit_job_eq. destruct (job_by_key key db); [exists []; by rewrite app_nil_r|].
    destruct (jobs db !! id); [exists []; by rewrite app_nil_r|]. eexists. split; [done|]. by repeat constructor.
  - rewrite replay_job_eq, apply_event_eq. repeat case_match; simplify_eq/=;
      try (exists []; by rewrite app_nil_r). eexists. split; [done|]. by repeat constructor.
  - rewrite record_event_eq, apply_event_eq. repeat case_match; simplify_eq/=; exists []; by rewrite app_nil_r.
Qed.

Lemma select_unpublished_rows limit locked db row :
  row ∈ select_unpublished limit locked db →
  ∃ o, o ∈ outbox db ∧ ob_published_at o = None ∧ row = (ob_id o, ob_subject o, ob_payload o).
Proof.
  unfold select_unpublished. intros (o & -> & Ho)%list_elem_of_fmap.
  apply elem_of_take in Ho as (i & Ho & _). apply list_elem_of_lookup_2 in Ho.
  rewrite merge_sort_Permutation in Ho. apply list_elem_of_filter in Ho as [[? ?] ?]. eauto.
Qed.

Lemma outbox_id_inj db o1 o2 :
  rtc repo_step empty_db db → o1 ∈ outbox db → o2 ∈ outbox db → ob_id o1 = ob_id o2 → o1 = o2.
Proof.
  intros Hr H1 H2 E. apply reachable_ok in Hr as [[_ [Hs _] _ _ _ _] _].
  induction Hs as [|a l Hs IH Ha]; [set_solver|]. rewrite Forall_forall in Ha.
  apply elem_of_cons in H1 as [->|H1]; apply elem_of_cons in H2 as [->|H2]; auto.
  - specialize (Ha _ H2). lia.
  - specialize (Ha _ H1). lia.
Qed.

(** A reply that is the effect's, or lost. *)
Definition reply_or_lost {R} (o : option (result R)) (r : result R) : Prop := o = Some r ∨ ∃ x, r = Raise x.

Lemma elem_of_ids rows id : id ∈ ids_of rows → ∃ i s p, rows !! i = Some (id, s, p).
Proof.
  unfold ids_of. intros ([[id' s] p] & -> & [i Hi]%list_elem_of_lookup)%list_elem_of_fmap. eauto.
Qed.

(** Marking rows that were handed over leaves every published row handed over. *)
Lemma mark_published_sent wall ids db (sent : list sent_msg) :
  rtc repo_step empty_db db →
  (∀ o, o ∈ outbox db → ob_published_at o ≠ None → msg_of o ∈ sent) →
  (∀ id, id ∈ ids → ∃ o, o ∈ outbox db ∧ ob_id o = id ∧ msg_of o ∈ sent) →
  ∀ o, o ∈ outbox (mark_published wall ids db) → ob_published_at o ≠ None → msg_of o ∈ sent.
Proof.
  intros Hdb Hpub Hmarks o' Ho' Hp. unfold mark_published in Ho'. cbn [outbox] in Ho'.
  apply list_elem_of_fmap in Ho' as (o0 & -> & Ho0). revert Hp. case_decide as Hin; [|by apply Hpub].
  intros _. destruct (Hmarks _ Hin) as (o1 & Ho1 & E & Hm).
  assert (o1 = o0) as ->; [|done]. eapply outbox_id_inj; [exact Hdb|done..].
Qed.

(** Rows that keep their content keep their messages. *)
Lemma rows_kept_sent db db' (sent : list sent_msg) :
  rows_kept db db' → (∀ m, m ∈ sent → ∃ o, o ∈ outbox db ∧ m = msg_of o) →
  ∀ m, m ∈ sent → ∃ o, o ∈ outbox db' ∧ m = msg_of o.
Proof.
  intros Hk Hs m Hm. destruct (Hs m Hm) as (o' & Ho' & ->). destruct (Hk o' Ho') as (o1 & Ho1 & E).
  exists o1. split; [done|]. by apply same_row_msg.
Qed.

(** A call of a relay keeps the invariant of its own state. *)
Lemma rcall_ok settings st n R (e : eff R) k w lk pd o r db sent lk' pd' :
  rinv settings st → rs_procs st !! n = Some (mkRproc (Call e k) w lk pd) →
  rcommit n st lk pd R e = (o, db, sent, lk', pd') → reply_or_lost o r →
  rproc_ok settings db sent (mkRproc (k r) (robserve (relay_batch_size settings) w R e r) lk' pd') ∧
  rows_kept (rs_db st) db ∧ rs_sent st ⊆ sent ∧ rtc repo_step empty_db db ∧
  (∀ o, o ∈ outbox db → ob_published_at o ≠ None → msg_of o ∈ sent) ∧
  (∀ m, m ∈ sent → ∃ o, o ∈ outbox db ∧ m = msg_of o).
Proof.
  intros [Hdb Hpub Hsent Hprocs] Hn Hc Hr. destruct (Hprocs n _ Hn) as [Hcon Hrows Hdone Hmarks].
  cbn [rp_watch rp_code rp_pending monitored] in *. unfold robserve.
  destruct (relay_call _ w R e) as [next|] eqn:Hcall; [|done]. specialize (Hcon r I).
  assert (Hkept : rows_kept (rs_db st) (rs_db st)) by (intros o' Ho'; by exists o').
  destruct w as [rows sn mk fl].
  destruct e; cbn [relay_call rcommit rw_rows rw_sent rw_marks rw_failed] in *; try done.
  - (* TxBegin *)
    simplify_eq. split; [|by split_and!]. split; cbn; [done|..]; destruct r; by cbn.
  - (* SelectUnpublished *)
    case_decide; [|done]. simplify_eq. split; [|by split_and!]. split; [done| | |done].
    + cbn [rp_watch]. destruct r as [sel|x]; cbn; [|done]. intros rows0 row [= <-] Hin.
      destruct Hr as [[= <-]|[x ?]]; [|done]. apply select_unpublished_rows in Hin as (o' & ? & _ & ?). eauto.
    + cbn [rp_watch]. destruct r as [sel|x]; cbn; [lia|done].
  - (* MarkPublished *)
    destruct rows as [rows|]; [|done]. case_decide as Hk; [|done]. destruct Hk as (-> & -> & ->). simplify_eq.
    split; [|by split_and!]. split; [done|destruct r; by cbn..|].
    cbn [rp_pending]. intros id [Hid|Hid]%elem_of_app; [by apply Hmarks|].
    apply elem_of_ids in Hid as (i & s & p & Hi).
    destruct (Hrows rows (id, s, p) eq_refl (list_elem_of_lookup_2 _ _ _ Hi)) as (o' & Ho' & [= -> -> ->]).
    exists o'. split; [done|]. split; [done|]. eapply (Hdone rows i); [done| |done]. by apply lookup_lt_Some in Hi.
  - (* TxCommit *)
    destruct rows as [rows|]; [|done]. case_decide as Hk; [|done]. destruct Hk as [-> ->]. simplify_eq.
    pose proof (mark_kept (rs_wall st) pd (rs_db st)) as Hkept'.
    split_and!; [|done|done|eapply rtc_r; [exact Hdb|constructor]|by apply mark_published_sent|by eapply rows_kept_sent].
    apply (rproc_ok_kept settings (rs_db st) _ (rs_sent st)); [done|done|].
    split; [done|destruct r; by cbn..|cbn; set_solver].
  - (* TxRollback *)
    simplify_eq. destruct fl; simplify_eq; (split; [|by split_and!]); (split; [done|..]);
      destruct r; cbn; try done; set_solver.
  - (* JsPublish *)
    destruct rows as [rows|]; [|done]. destruct (rows !! sn) as [[[id s] p]|] eqn:Hl; [|done].
    case_decide as Hk; [|done]. destruct Hk as (-> & -> & -> & ->). simplify_eq.
    destruct (Hrows rows (id, s, p) eq_refl (list_elem_of_lookup_2 _ _ _ Hl)) as (o' & Ho' & [= -> -> ->]).
    assert (Hsub : rs_sent st ⊆ rs_sent st ++ [msg_of o']) by set_solver.
    split_and!; [|done|done|done| |].
    + split; [done|destruct r; by cbn| |].
      * cbn [rp_watch]. destruct r as [[]|x]; cbn [rw_rows rw_sent fail_if]; intros rows0 i id s p [= <-] Hi Hli;
          apply elem_of_app; [|left; by eapply Hdone].
        destruct (decide (i = sn)) as [->|]; [|left; eapply Hdone; [done| |done]; lia].
        right. rewrite Hl in Hli. injection Hli as <- <- <-. set_solver.
      * cbn [rp_pending]. intros id Hid. destruct (Hmarks id Hid) as (o1 & ? & ? & ?). exists o1. split_and!; [done..|].
        set_solver.
    + intros o1 Ho1 Hp. apply elem_of_app. left. by apply Hpub.
    + intros m [Hm|Hm]%elem_of_app; [by apply Hsent|]. apply list_elem_of_singleton in Hm as ->. by exists o'.
Qed.

Lemma rinv_call settings st n R (e : eff R) k w lk pd o r db sent lk' pd' :
  rinv settings st → rs_procs st !! n = Some (mkRproc (Call e k) w lk pd) →
  rcommit n st lk pd R e = (o, db, sent, lk', pd') → reply_or_lost o r →
  rinv settings (mkRsys db (rs_wall st) sent
    (<[n := mkRproc (k r) (robserve (relay_batch_size settings) w R e r) lk' pd']> (rs_procs st))).
Proof.
  intros Hi Hn Hc Hr. destruct (rcall_ok _ _ _ _ _ _ _ _ _ _ _ _ _ _ _ Hi Hn Hc Hr) as (H1 & H2 & H3 & H4 & H5 & H6).
  split; cbn [rs_db rs_sent rs_procs]; [done..|]. intros m pr. rewrite lookup_insert. case_decide; [by intros [= <-]|].
  intros Hm. eapply rproc_ok_kept; [exact H2|exact H3|]. by apply (ri_procs _ _ Hi m).
Qed.

(** A failed call teaches nothing about the batch. *)
Lemma relay_call_raise limit w R (e : eff R) next x :
  relay_call limit w R e = Some next →
  rw_rows (next (Raise x)) = rw_rows w ∧ rw_sent (next (Raise x)) = rw_sent w.
Proof.
  destruct w as [rows sn mk fl], e; cbn [relay_call rw_rows rw_sent rw_failed rw_marks]; try done.
  - by intros [= <-].
  - case_decide; [|done]. by intros [= <-].
  - destruct rows as [rows|]; [|done]. case_decide; [|done]. by intros [= <-].
  - destruct rows as [rows|]; [|done]. case_decide; [|done]. by intros [= <-].
  - destruct fl; by intros [= <-].
  - destruct rows as [rows|]; [|done]. destruct (rows !! sn) as [[[id s] p]|]; [|done].
    case_decide; [|done]. by intros [= <-].
Qed.

Lemma rinv_act settings st st' : ract settings st st' → rinv settings st → rinv settings st'.
Proof.
  intros Hs Hi. destruct Hs as [st n Hn|st n R e k w lk pd r db sent lk' pd' Hn Hc
    |st n R e k w lk pd o x db sent lk' pd' Hn Hc|st n R e k w lk pd x Hn|st n].
  - destruct Hi as [H1 H2 H3 H4]. split; cbn [rs_db rs_sent rs_procs]; [done..|]. intros m pr. rewrite lookup_insert.
    case_decide; [|by apply H4]. intros [= <-]. split; cbn; try done; [apply conforms_relay_once|set_solver].
  - eapply rinv_call; [done|exact Hn|exact Hc|by left].
  - eapply rinv_call; [done|exact Hn|exact Hc|]. right. eauto.
  - destruct (ri_procs _ _ Hi n _ Hn) as [Hcon Hrows Hdone Hmarks]. pose proof Hi as [H1 H2 H3 H4].
    split; cbn [rs_db rs_sent rs_procs]; [done..|]. intros m pr. rewrite lookup_insert. case_decide; [|by apply H4].
    intros [= <-]. cbn [rp_watch rp_code rp_pending monitored] in *. unfold robserve.
    destruct (relay_call _ w R e) as [next|] eqn:Hcall; [|done]. specialize (Hcon (Raise x) I).
    assert (E : rw_rows (next (Raise x)) = rw_rows w ∧ rw_sent (next (Raise x)) = rw_sent w).
    { by eapply relay_call_raise. }
    destruct E as [E1 E2]. split; cbn [rp_watch rp_code rp_pending]; rewrite ?E1, ?E2; done.
  - destruct Hi as [H1 H2 H3 H4]. split; cbn [rs_db rs_sent rs_procs]; [done..|]. intros m pr.
    rewrite lookup_delete. case_decide; [done|]. apply H4.
Qed.

Lemma rinv_step settings st st' : rstep settings st st' → rinv settings st → rinv settings st'.
Proof.
  intros Hs Hi. destruct Hs as [st st' Ha|st wall db Hw]; [by eapply rinv_act|].
  - destruct Hi as [H1 H2 H3 H4]. apply writers_append in Hw as (Hstep & l & El & Hl).
    assert (Hk : rows_kept (rs_db st) db) by (intros o Ho; exists o; rewrite El, elem_of_app; split; [by left|done]).
    split; cbn [rs_db rs_sent rs_procs].
    + eapply rtc_r; eauto.
    + intros o. rewrite El. intros [Ho|Ho]%elem_of_app; [by apply H2|].
      rewrite Forall_forall in Hl. by specialize (Hl o Ho).
    + intros m Hm. destruct (H3 m Hm) as (o & Ho & ->). exists o. rewrite El, elem_of_app. split; [by left|done].
    + intros n pr Hn. eapply rproc_ok_kept; [exact Hk|done|]. by apply (H4 n).
Qed.

Lemma rinv_reachable settings wall st : rtc (rstep settings) (rs_start wall) st → rinv settings st.
Proof.
  intros H. assert (Hi : rinv settings (rs_start wall)).
  { split; cbn; try done; intros; set_solver. }
  induction H; eauto using rinv_step.
Qed.

(** Trace headers that leave the message id alone. *)
Lemma get_set_header h k v k' : k ≠ k' → get_header (set_header h k v) k' = get_header h k'.
Proof.
  intros Hne. unfold get_header. induction h as [|[k0 v0] h IH]; cbn [set_header].
  - by rewrite filter_cons_False.
  - case_decide; subst; rewrite !filter_cons; repeat case_decide; simplify_eq/=; done.
Qed.

Lemma headers_of_id id : Forall (λ p, p.1 ≠ "Nats-Msg-Id") (carrier id) → get_header (headers_of id) "Nats-Msg-Id" = Some (msg_id id).
Proof.
  unfold headers_of. generalize (carrier id). intros c Hc.
  assert (H : ∀ h, get_header (foldl (λ h p, set_header h p.1 p.2) h c) "Nats-Msg-Id" = get_header h "Nats-Msg-Id").
  { induction Hc as [|p l Hp Hl IH]; intros h; [done|]. cbn. by rewrite IH, get_set_header. }
  by rewrite H.
Qed.

Lemma msg_id_inj id1 id2 : msg_id id1 = msg_id id2 → id1 = id2.
Proof. intros H%string_app_inv_head. by apply (inj pretty). Qed.

(** ** A relay that is not disturbed *)

(** The unpublished rows, in the order of the table. *)
Definition backlog (db : DB) : list OutboxRow := filter (λ o, ob_published_at o = None) (outbox db).

(** Tables, broker, marks of the open transaction. *)
Definition rserve (wall : Z) (R : Type) (e : eff R) (st : DB * list sent_msg * list Z)
    : result R * (DB * list sent_msg * list Z) :=
  let '(db, sent, pd) := st in
  match e in eff R return result R * (DB * list sent_msg * list Z) with
  | TxBegin => (Ok tt, st)
  | SelectUnpublished limit => (Ok (select_unpublished limit [] db), st)
  | JsPublish s d h => (Ok tt, (db, sent ++ [(s, d, h)], pd))
  | MarkPublished ids => (Ok tt, (db, sent, pd ++ ids))
  | TxCommit => (Ok tt, (mark_published wall pd db, sent, []))
  | TxRollback => (Ok tt, (db, sent, []))
  | _ => (Raise (ExternalError "not a call of the relay"), st)
  end.

Definition relay_pass (settings : Settings) (wall : Z) (st : DB * list sent_msg) : result nat * (DB * list sent_msg) :=
  let '(r, (db, sent, _)) := interp (rserve wall) (relay_once settings) (st.1, st.2, []) in (r, (db, sent)).

Fixpoint relay_passes (settings : Settings) (wall : Z) (k : nat) (st : DB * list sent_msg) : DB * list sent_msg :=
  match k with
  | 0 => st
  | S k => relay_passes settings wall k (relay_pass settings wall st).2
  end.

(** A payload [relay_once] can handle: an object whose trace context is one. *)
Definition relayable (p : json) : Prop :=
  match p with JObj l => ∃ c, carrier_items (dict_get l "traceparent") = Ok c | _ => False end.

Lemma interp_publish_rows wall rows db sent pd :
  Forall (λ r : batch_row, relayable r.2) rows →
  interp (rserve wall) (publish_rows rows) (db, sent, pd) =
    (Ok tt, (db, sent ++ ((λ r : batch_row, (r.1.2, Ok r.2, headers_of r.1.1)) <$> rows), pd)).
Proof.
  intros H. revert sent. induction H as [|[[id s] p] rows Hp _ IH]; intros sent.
  - cbn. by rewrite app_nil_r.
  - destruct p as [| | | | | |l]; try done. destruct Hp as [c Hp]. cbn [publish_rows snd] in *. rewrite Hp.
    cbn [of_result bind]. rewrite interp_bind, interp_await. cbn [rserve].
    rewrite IH, <- app_assoc. done.
Qed.

Lemma outbox_objects db : rtc repo_step empty_db db →
  Forall (λ o, relayable (ob_payload o)) (outbox db).
Proof.
  intros H. assert (Hg : ∀ db0, rtc repo_step db0 db →
    Forall (λ o, relayable (ob_payload o)) (outbox db0) →
    Forall (λ o, relayable (ob_payload o)) (outbox db)).
  { clear H. induction 1 as [|x y z Hs _ IH]; intros Hf; [done|]. apply IH. clear IH.
    destruct Hs as [now id c key payload subject|now id event att det ft res Hev|now id subject|now ids].
    - rewrite submit_job_eq. destruct (job_by_key key x), (jobs x !! id); cbn; try done.
      apply Forall_app. split; [done|]. repeat constructor. by eexists.
    - rewrite record_event_eq, apply_event_eq. by repeat case_match.
    - rewrite replay_job_eq, apply_event_eq. repeat case_match; simplify_eq/=; try done.
      apply Forall_app. split; [done|]. repeat constructor. by eexists.
    - unfold mark_published. cbn [outbox]. apply Forall_fmap. eapply Forall_impl; [exact Hf|].
      intros o Ho. cbn. by case_decide. }
  eapply Hg; [exact H|constructor].
Qed.

Lemma select_backlog limit db :
  rtc repo_step empty_db db →
  select_unpublished limit [] db =
    (λ o, (ob_id o, ob_subject o, ob_payload o)) <$> take (Z.to_nat limit) (backlog db).
Proof.
  intros Hr. unfold select_unpublished. f_equal. f_equal.
  assert (E : filter (λ o, ob_published_at o = None ∧ ob_id o ∉ []) (outbox db) = backlog db).
  { unfold backlog. apply list_filter_iff. intros o. set_solver. }
  rewrite E. apply reachable_ok in Hr as [[_ [Hs _] _ _ _ _] _].
  apply (StronglySorted_filter _ (λ o, ob_published_at o = None)) in Hs. fold (backlog db) in Hs.
  by apply merge_sort_by_id.
Qed.

Definition mark_row (wall : Z) (ids : list Z) (o : OutboxRow) : OutboxRow :=
  if decide (ob_id o ∈ ids)
  then mkOutboxRow (ob_id o) (ob_job_id o) (ob_subject o) (ob_payload o) (ob_created_at o) (Some wall) else o.

Lemma mark_rows_ext wall ids ids' (l : list OutboxRow) :
  (∀ o, o ∈ l → ob_id o ∈ ids ↔ ob_id o ∈ ids') → mark_row wall ids <$> l = mark_row wall ids' <$> l.
Proof.
  intros H. apply list_fmap_ext. intros i o Ho%list_elem_of_lookup_2. unfold mark_row.
  specialize (H o Ho). repeat case_decide; tauto.
Qed.

Lemma mark_row_published wall ids o : ob_published_at (mark_row wall ids o) = None ↔ ob_published_at o = None ∧ ob_id o ∉ ids.
Proof. unfold mark_row. case_decide; cbn; naive_solver. Qed.

(** Marking the first [n] unpublished rows leaves the others. *)
Lemma backlog_mark_rows wall n (l : list OutboxRow) :
  StronglySorted (λ a b, (ob_id a < ob_id b)%Z) l →
  filter (λ o, ob_published_at o = None)
    (mark_row wall (ob_id <$> take n (filter (λ o, ob_published_at o = None) l)) <$> l) =
  drop n (filter (λ o, ob_published_at o = None) l).
Proof.
  intros Hs. revert n. induction Hs as [|o l Hs IH Ha]; intros n; [by destruct n|].
  rewrite Forall_forall in Ha. rewrite (filter_cons _ o). case_decide as Ho.
  - destruct n as [|n].
    + specialize (IH 0). rewrite take_0, drop_0, fmap_nil in *. rewrite fmap_cons.
      rewrite filter_cons_True by (apply mark_row_published; set_solver). rewrite IH.
      unfold mark_row. by rewrite decide_False by set_solver.
    + rewrite firstn_cons, skipn_cons, !fmap_cons. rewrite filter_cons_False by (rewrite mark_row_published; set_solver).
      rewrite <- IH. f_equal. apply mark_rows_ext. intros o' Ho'. specialize (Ha o' Ho').
      rewrite elem_of_cons. naive_solver lia.
  - rewrite fmap_cons, filter_cons_False by (rewrite mark_row_published; tauto). apply IH.
Qed.

Lemma ids_of_rows (l : list OutboxRow) : ids_of ((λ o, (ob_id o, ob_subject o, ob_payload o)) <$> l) = ob_id <$> l.
Proof. unfold ids_of. by rewrite <- list_fmap_compose. Qed.

(** One undisturbed pass publishes and marks the oldest rows, at most a batch. *)
Lemma relay_pass_spec settings wall db sent :
  rtc repo_step empty_db db →
  let rows := take (Z.to_nat (relay_batch_size settings)) (backlog db) in
  relay_pass settings wall (db, sent) =
    (Ok (length rows), (mark_published wall (ob_id <$> rows) db, sent ++ (msg_of <$> rows))).
Proof.
  intros Hr rows. unfold relay_pass, relay_once, in_transaction. cbn [fst snd].
  rewrite interp_bind, interp_await. cbn [rserve].
  rewrite interp_bind, interp_try_except, interp_bind, interp_await. cbn [rserve].
  rewrite select_backlog by done. fold rows.
  set (brows := _ <$> rows). rewrite interp_bind, interp_publish_rows.
  2:{ pose proof (outbox_objects db Hr) as Ho. subst brows. apply Forall_fmap. rewrite Forall_forall in Ho.
      apply Forall_forall. intros o Hin. cbn. apply Ho. subst rows. apply elem_of_take in Hin as (i & Hin & _).
      by apply list_elem_of_lookup_2, list_elem_of_filter in Hin as [_ Hin]. }
  assert (Em : (λ r : batch_row, (r.1.2, Ok r.2, headers_of r.1.1)) <$> brows = msg_of <$> rows).
  { subst brows. by rewrite <- list_fmap_compose. }
  rewrite Em. assert (El : length brows = length rows) by (subst brows; by rewrite length_fmap).
  assert (Ei : ids_of brows = ob_id <$> rows) by apply ids_of_rows.
  rewrite <- El, <- Ei. clearbody brows rows. rewrite interp_bind. destruct brows as [|b brows].
  - cbn. unfold mark_published, ids_of. cbn. do 3 f_equal.
  - rewrite interp_await. cbn [rserve interp]. cbn. done.
Qed.

Lemma relay_passes_spec settings wall k db sent :
  rtc repo_step empty_db db →
  let n := k * Z.to_nat (relay_batch_size settings) in
  rtc repo_step empty_db (relay_passes settings wall k (db, sent)).1 ∧
  backlog (relay_passes settings wall k (db, sent)).1 = drop n (backlog db) ∧
  (relay_passes settings wall k (db, sent)).2 = sent ++ (msg_of <$> take n (backlog db)).
Proof.
  revert db sent. induction k as [|k IH]; intros db sent Hr; cbn zeta; cbn [relay_passes].
  - rewrite drop_0, take_0. cbn. by rewrite app_nil_r.
  - rewrite relay_pass_spec by done. cbn [snd]. set (b := Z.to_nat (relay_batch_size settings)) in *.
    set (rows := take b (backlog db)).
    assert (Hr' : rtc repo_step empty_db (mark_published wall (ob_id <$> rows) db)).
    { eapply rtc_r; [exact Hr|constructor]. }
    assert (Hb : backlog (mark_published wall (ob_id <$> rows) db) = drop b (backlog db)).
    { pose proof (reachable_ok db Hr) as [[_ [Hs _] _ _ _ _] _].
      apply (backlog_mark_rows wall b (outbox db)) in Hs. exact Hs. }
    destruct (IH _ (sent ++ (msg_of <$> rows)) Hr') as (H1 & H2 & H3). rewrite H2, H3, Hb.
    split; [done|]. split.
    + by rewrite drop_drop.
    + subst rows. rewrite <- app_assoc, <- fmap_app. do 2 f_equal. change (S k * b) with (b + k * b).
      apply take_take_drop.
Qed.
End relay.

(** A run of two relays: the first is killed after its publish, before its mark; the
    second publishes the row again and commits. *)
Definition submitted : DB := (submit_job 100 1 [] "key-1" [("duration_ms", JInt 10)] "orbiter.jobs" empty_db).2.

Definition trace_carrier (id : Z) : headers := [("traceparent", "00-0af7-b7ad-0" +:+ pretty id)].

(** What relay [n] does next, if its reply is determined. *)
Definition relay_next (settings : Settings) (n : nat) (st : rsys) : rsys :=
  match rs_procs st !! n with
  | Some (mkRproc (Call e k) w lk pd) =>
      match rcommit n st lk pd _ e with
      | (Some r, db, sent, lk', pd') =>
          mkRsys db (rs_wall st) sent
            (<[n := mkRproc (k r) (robserve trace_carrier (relay_batch_size settings) w _ e r) lk' pd']> (rs_procs st))
      | _ => st
      end
  | _ => st
  end.

Lemma relay_next_steps settings n st : rtc (rstep trace_carrier settings) st (relay_next settings n st).
Proof.
  unfold relay_next. destruct (rs_procs st !! n) as [[[| |R e k] w lk pd]|] eqn:Hn; try apply rtc_refl.
  destruct (rcommit n st lk pd R e) as [[[[[r|] db] sent] lk'] pd'] eqn:Hc; [|apply rtc_refl].
  apply rtc_once, rstep_relay. by eapply ract_call.
Qed.

Fixpoint relay_calls (settings : Settings) (n k : nat) (st : rsys) : rsys :=
  match k with 0 => st | S k => relay_calls settings n k (relay_next settings n st) end.

Lemma relay_calls_steps settings n k st : rtc (rstep trace_carrier settings) st (relay_calls settings n k st).
Proof.
  revert st. induction k as [|k IH]; intros st; [apply rtc_refl|]. etrans; [apply relay_next_steps|apply IH].
Qed.

Definition start_relay (n : nat) (st : rsys) : rsys :=
  mkRsys (rs_db st) (rs_wall st) (rs_sent st)
    (<[n := mkRproc (relay_once trace_carrier default_settings) rwatch_init [] []]> (rs_procs st)).

Definition killed : rsys := relay_calls default_settings 0 3 (start_relay 0 (mkRsys submitted 100 [] ∅)).
Definition recovered : rsys :=
  relay_calls default_settings 0 5 (start_relay 0 (mkRsys (rs_db killed) 100 (rs_sent killed) (delete 0 (rs_procs killed)))).

Lemma recovered_reachable : rtc (rstep trace_carrier default_settings) (rs_start 100) recovered.
Proof.
  eapply rtc_l; [apply (rstep_writer _ _ (rs_start 100) 100 submitted), writer_submit|].
  eapply rtc_l; [by apply rstep_relay, (ract_start _ _ _ 0)|].
  etrans; [apply (relay_calls_steps default_settings 0 3)|].
  eapply rtc_l; [apply rstep_relay, (ract_gone _ _ _ 0)|].
  eapply rtc_l; [by apply rstep_relay, (ract_start _ _ _ 0)|].
  apply (relay_calls_steps default_settings 0 5).
Qed.

(** The row was sent twice, under one id, and is marked. *)
Example recovered_sends :
  (λ m : sent_msg, get_header m.2 "Nats-Msg-Id") <$> rs_sent recovered = [Some "outbox-1"; Some "outbox-1"] ∧
  length (backlog (rs_db killed)) = 1 ∧ length (backlog (rs_db recovered)) = 0.
Proof. vm_compute. done. Qed.

(** * Properties *)

(** C15: at-least-once transport, without loss and without inventions.  However many
    relays run, whatever calls fail before or after taking effect, wherever a
    relay is killed, and whatever the other processes write meanwhile: a row
    marked published has been handed to the broker; every message handed over is
    that of an existing outbox row, subject and payload unchanged; and two
    messages with the same Nats-Msg-Id are the same message, so deduplication
    can drop repetitions only. *)
Theorem relay_at_least_once (carrier : Z → headers) (settings : Settings) (wall : Z) (st : rsys) :
  (∀ i, Forall (λ p, p.1 ≠ "Nats-Msg-Id") (carrier i)) →
  rtc (rstep carrier settings) (rs_start wall) st →
  (∀ o, o ∈ outbox (rs_db st) → ob_published_at o ≠ None → msg_of carrier o ∈ rs_sent st) ∧
  (∀ m, m ∈ rs_sent st → ∃ o, o ∈ outbox (rs_db st) ∧ m = msg_of carrier o) ∧
  (∀ m1 m2, m1 ∈ rs_sent st → m2 ∈ rs_sent st →
     get_header m1.2 "Nats-Msg-Id" = get_header m2.2 "Nats-Msg-Id" → m1 = m2).
Proof.
  intros Hc Hr. apply rinv_reachable in Hr as [Hdb Hp Hs _]. split; [done|]. split; [done|].
  intros m1 m2 H1 H2. destruct (Hs m1 H1) as (o1 & Ho1 & ->). destruct (Hs m2 H2) as (o2 & Ho2 & ->).
  cbn [snd msg_of]. rewrite !headers_of_id by done. intros E%(inj Some)%msg_id_inj.
  by rewrite (outbox_id_inj _ _ _ Hdb Ho1 Ho2 E).
Qed.

Lemma relay_at_least_once_witness :
  Forall (λ o, ob_published_at o ≠ None → msg_of trace_carrier o ∈ rs_sent recovered) (outbox (rs_db recovered)).
Proof.
  apply Forall_forall.
  apply (relay_at_least_once trace_carrier default_settings 100 recovered).
  - repeat constructor. discriminate.
  - exact recovered_reachable.
Defined.

(** C32: the relay drains the outbox.  Undisturbed, [k] passes hand over the
    [k * batch] oldest unpublished rows, in the order of their ids, mark exactly
    those, and leave the rest; enough passes leave none. *)
Theorem relay_drains (carrier : Z → headers) (settings : Settings) (wall : Z) (db : DB) (sent : list sent_msg) (k : nat) :
  rtc repo_step empty_db db →
  let n := k * Z.to_nat (relay_batch_size settings) in
  let st := relay_passes carrier settings wall k (db, sent) in
  st.2 = sent ++ (msg_of carrier <$> take n (backlog db)) ∧
  backlog st.1 = drop n (backlog db) ∧
  (length (backlog db) ≤ n → backlog st.1 = []).
Proof.
  intros Hr n st. destruct (relay_passes_spec carrier settings wall k db sent Hr) as (_ & H2 & H3).
  split; [done|]. split; [done|]. intros Hle. subst st n. rewrite H2. by apply drop_ge.
Qed.

Lemma relay_drains_witness :
  (relay_passes trace_carrier default_settings 200 1 (sample_db5, [])).2 = msg_of trace_carrier <$> backlog sample_db5 ∧
  backlog (relay_passes trace_carrier default_settings 200 1 (sample_db5, [])).1 = [].
Proof.
  destruct (relay_drains trace_carrier default_settings 200 sample_db5 [] 1 sample_db5_reachable) as (H1 & _ & H3).
  split; [rewrite H1; vm_compute; reflexivity|]. apply H3. apply (bool_decide_unpack _). vm_compute. exact I.
Defined.
