(* ===== verification/RelayOnce.v ===== *)
(** * Relays side by side ([src/orbiter/relay/outbox_relay.py])

    FOR UPDATE SKIP LOCKED keeps the batches of relays that run at the same time
    apart.  As long as no call fails and no relay dies, every outbox row is handed to
    the broker at most once, however many relays share the table; the repetitions
    that [Relay.v] allows come from failures only. *)
From Stdlib Require Import Floats.SpecFloat.
From stdpp Require Import sorting.
From S2P Require Import Prelude PyFloat PyJson Model StateMachine PyUuid KVStore Effects Fencing Repo Config.
From S2P Require Import Telemetry Relay.

Open Scope prog_scope.

Section once.
Context (carrier : Z → headers) (settings : Settings).
Context (Hcarrier : ∀ i, Forall (λ p, p.1 ≠ "Nats-Msg-Id") (carrier i)).

(** What relays and writers do when nothing fails: a relay is gone only after it has
    returned. *)
Inductive rcalm : rsys → rsys → Prop :=
  | calm_start st n :
      rs_procs st !! n = None →
      rcalm st (mkRsys (rs_db st) (rs_wall st) (rs_sent st)
        (<[n := mkRproc (relay_once carrier settings) rwatch_init [] []]> (rs_procs st)))
  | calm_call st n R (e : eff R) k w lk pd r db sent lk' pd' :
      rs_procs st !! n = Some (mkRproc (Call e k) w lk pd) →
      rcommit n st lk pd R e = (Some r, db, sent, lk', pd') →
      rcalm st (mkRsys db (rs_wall st) sent
        (<[n := mkRproc (k r) (robserve carrier (relay_batch_size settings) w R e r) lk' pd']> (rs_procs st)))
  | calm_done st n a w lk pd :
      rs_procs st !! n = Some (mkRproc (Ret a) w lk pd) →
      rcalm st (mkRsys (rs_db st) (rs_wall st) (rs_sent st) (delete n (rs_procs st)))
  | calm_writer st wall db :
      writers wall (rs_db st) db →
      rcalm st (mkRsys db wall (rs_sent st) (rs_procs st)).

Lemma rcalm_rstep st st' : rcalm st st' → rstep carrier settings st st'.
Proof.
  intros []; [by apply rstep_relay, ract_start|by eapply rstep_relay, ract_call|apply rstep_relay, ract_gone|by apply rstep_writer].
Qed.

(** ** One relay without failures *)

(** Its calls return; the rows it gets can be relayed. *)
Definition calm_reply (R : Type) (e : eff R) (r : result R) : Prop :=
  match e in eff R return result R → Prop with
  | SelectUnpublished _ => λ r, ∃ rows, r = Ok rows ∧ Forall (λ row : batch_row, relayable row.2) rows
  | _ => λ r, ∃ v, r = Ok v
  end r.

(** It never rolls back and selects nothing after its commit, which the observer
    remembers. *)
Definition calm_step (committed : bool) (R : Type) (e : eff R) : option (result R → bool) :=
  match e in eff R return option (result R → bool) with
  | TxRollback => None
  | SelectUnpublished _ => if committed then None else Some (λ _, false)
  | TxCommit => Some (λ _, true)
  | _ => Some (λ _, committed)
  end.

Abbreviation commits := (monitored calm_reply calm_step (λ b r, b = true ∧ ∃ n : nat, r = Ok n)).

Lemma calm_publish_rows rows (Q : bool → result unit → Prop) :
  Forall (λ row : batch_row, relayable row.2) rows → Q false (Ok tt) →
  monitored calm_reply calm_step Q false (publish_rows carrier rows).
Proof.
  intros Hr HQ. induction Hr as [|[[id s] p] rows Hp _ IH]; [done|].
  destruct p as [| | | | | |l]; try done. destruct Hp as [c Hp]. cbn [publish_rows snd] in *. rewrite Hp.
  cbn [of_result bind]. apply monitored_bind. eapply monitored_await; [done|]. intros r [[] ->]. exact IH.
Qed.

Lemma calm_relay_once : commits false (relay_once carrier settings).
Proof.
  unfold relay_once, in_transaction. apply monitored_bind. eapply monitored_await; [done|]. intros r [[] ->].
  apply monitored_bind, monitored_try_except, monitored_bind. eapply monitored_await; [done|].
  intros r (rows & -> & Hrows). apply monitored_bind, calm_publish_rows; [done|].
  apply monitored_bind. destruct rows as [|row rows].
  - cbn. intros r [[] ->]. cbn. eauto.
  - eapply monitored_await; [done|]. intros r [[] ->]. cbn. intros r [[] ->]. cbn. eauto.
Qed.

(** ** The invariant *)

Definition published (db : DB) (id : Z) : Prop := ∃ o, o ∈ outbox db ∧ ob_id o = id ∧ ob_published_at o ≠ None.

Definition header_of (m : sent_msg) : option string := get_header m.2 "Nats-Msg-Id".

Definition was_sent (sent : list sent_msg) (id : Z) : Prop := Some (msg_id id) ∈ header_of <$> sent.

Record cproc_ok (db : DB) (sent : list sent_msg) (pr : rproc) : Prop := {
  cp_code : ∃ b, commits b (rp_code pr) ∧ (b = true → rp_locked pr = []);
  cp_none : rw_rows (rp_watch pr) = None → rp_locked pr = [] ∧ rw_marks (rp_watch pr) = [];
  cp_nodup rows : rw_rows (rp_watch pr) = Some rows → NoDup (ids_of rows);
  cp_batch rows id : rw_rows (rp_watch pr) = Some rows → id ∈ ids_of rows → id ∈ rp_locked pr ∨ published db id;
  cp_locked id : id ∈ rp_locked pr ∨ id ∈ rp_pending pr → ∃ rows, rw_rows (rp_watch pr) = Some rows ∧ id ∈ ids_of rows;
  cp_unsent rows i row : rw_rows (rp_watch pr) = Some rows → rw_sent (rp_watch pr) ≤ i → rows !! i = Some row →
    row.1.1 ∈ rp_locked pr ∧ ¬ published db row.1.1 ∧ ¬ was_sent sent row.1.1;
  cp_marks id : id ∈ rw_marks (rp_watch pr) → id ∈ rp_pending pr ∨ published db id;
  cp_whole rows : rw_rows (rp_watch pr) = Some rows → rw_marks (rp_watch pr) ≠ [] → rw_sent (rp_watch pr) = length rows
}.

Record cinv (st : rsys) : Prop := {
  ci_relay : rinv carrier settings st;
  ci_nodup : NoDup (header_of <$> rs_sent st);
  ci_sent id : was_sent (rs_sent st) id → published (rs_db st) id ∨ ∃ n pr, rs_procs st !! n = Some pr ∧ id ∈ rp_locked pr;
  ci_disjoint n n' pr pr' id : rs_procs st !! n = Some pr → rs_procs st !! n' = Some pr' →
    id ∈ rp_locked pr → id ∈ rp_locked pr' → n = n';
  ci_procs n pr : rs_procs st !! n = Some pr → cproc_ok (rs_db st) (rs_sent st) pr
}.

(** What the others do leaves a relay's part true: nothing it has locked is published
    or sent by them. *)
Lemma cproc_frame db sent db' sent' pr :
  (∀ id, published db id → published db' id) →
  (∀ id, id ∈ rp_locked pr → published db' id → published db id) →
  (∀ id, id ∈ rp_locked pr → was_sent sent' id → was_sent sent id) →
  cproc_ok db sent pr → cproc_ok db' sent' pr.
Proof.
  intros Hp Hp' Hs [H1 H2 H3 H4 H5 H6 H7 H8]. split; [done..| |done| |  |done].
  - intros rows id Hr Hid. destruct (H4 rows id Hr Hid); auto.
  - intros rows i row Hr Hi Hl. destruct (H6 rows i row Hr Hi Hl) as (? & ? & ?). split_and!; auto.
  - intros id Hid. destruct (H7 id Hid); auto.
Qed.

Lemma published_mark wall ids db id :
  published (mark_published wall ids db) id ↔ published db id ∨ id ∈ ids ∧ ∃ o, o ∈ outbox db ∧ ob_id o = id.
Proof.
  unfold published, mark_published. cbn [outbox]. split.
  - intros (o' & (o & -> & Ho)%list_elem_of_fmap & E & Hp). case_decide as Hin; cbn in *; subst id; [right; by eauto|left; by eauto].
  - intros [(o & Ho & E & Hp)|(Hin & o & Ho & E)].
    + eexists. split; [by apply list_elem_of_fmap_2|]. cbn. case_decide; by split.
    + eexists. split; [by apply list_elem_of_fmap_2|]. cbn. subst id. by rewrite decide_True.
Qed.

Lemma published_append db db' l :
  outbox db' = outbox db ++ l → Forall (λ o, ob_published_at o = None) l → ∀ id, published db' id ↔ published db id.
Proof.
  intros El Hl id. rewrite Forall_forall in Hl. unfold published. split.
  - rewrite El. intros (o & [Ho|Ho]%elem_of_app & E & Hp); [by exists o|]. by rewrite Hl in Hp.
  - intros (o & Ho & E & Hp). exists o. rewrite El, elem_of_app. auto.
Qed.

(** ** Steps *)

(** A relay's step, from what it does to the tables, the broker and its locks. *)
Lemma cinv_update st n pr pr' db sent :
  cinv st → rs_procs st !! n = Some pr →
  let st' := mkRsys db (rs_wall st) sent (<[n := pr']> (rs_procs st)) in
  rinv carrier settings st' → NoDup (header_of <$> sent) →
  (∀ id, published (rs_db st) id → published db id) →
  (∀ id, published db id → published (rs_db st) id ∨ id ∈ rp_locked pr) →
  (∀ id, was_sent sent id → was_sent (rs_sent st) id ∨ id ∈ rp_locked pr) →
  (∀ id, id ∈ rp_locked pr → id ∈ rp_locked pr' ∨ published db id) →
  (∀ id, id ∈ rp_locked pr' → id ∈ rp_locked pr ∨
     ∀ m prm, m ≠ n → rs_procs st !! m = Some prm → id ∉ rp_locked prm) →
  cproc_ok db sent pr' → cinv st'.
Proof.
  intros [C1 C2 C3 C4 C5] Hn st' Hr Hnd Hp Hp' Hs Hl Hnew Hpr'.
  assert (Hdis : ∀ m prm id, m ≠ n → rs_procs st !! m = Some prm → id ∈ rp_locked prm → id ∉ rp_locked pr).
  { intros m prm id Hm Hprm H1 H2. apply Hm. by eapply C4. }
  subst st'. split; cbn [rs_db rs_sent rs_procs]; [done|done| | |].
  - intros id Hid. destruct (decide (id ∈ rp_locked pr)) as [Hin|Hnin].
    + destruct (Hl id Hin); [right|by left]. exists n, pr'. by rewrite lookup_insert_eq.
    + destruct (Hs id Hid) as [Hid'|]; [|done]. destruct (C3 id Hid') as [|(m & prm & Hm & Hin)]; [left; by apply Hp|].
      right. exists m, prm. split; [|done]. rewrite lookup_insert_ne; [done|]. intros <-. congruence.
  - intros m m' prm prm' id. rewrite !lookup_insert. do 2 case_decide; subst; try done.
    + intros [= <-] Hm' H1 H2. destruct (Hnew id H1) as [H3|H3]; [by eapply C4|]. by destruct (H3 m' prm').
    + intros Hm [= <-] H1 H2. destruct (Hnew id H2) as [H3|H3]; [by eapply C4|]. by destruct (H3 m prm).
    + apply C4.
  - intros m prm. rewrite lookup_insert. case_decide as E; [by intros [= <-]|]. intros Hm.
    eapply cproc_frame; [exact Hp| | |by eapply C5].
    + intros id Hid Hpub. destruct (Hp' id Hpub); [done|]. by destruct (Hdis m prm id).
    + intros id Hid Hsent. destruct (Hs id Hsent); [done|]. by destruct (Hdis m prm id).
Qed.

(** The selected batch: distinct rows nobody has locked, published or sent. *)
Lemma selected_rows st n pr limit row :
  cinv st → rs_procs st !! n = Some pr → rp_locked pr = [] →
  row ∈ select_unpublished limit (locked_by_others n (rs_procs st)) (rs_db st) →
  (∀ m prm, m ≠ n → rs_procs st !! m = Some prm → row.1.1 ∉ rp_locked prm) ∧
  ¬ published (rs_db st) row.1.1 ∧ ¬ was_sent (rs_sent st) row.1.1 ∧ relayable row.2.
Proof.
  intros Hi Hn Hlk Hrow. pose proof (ri_db _ _ _ (ci_relay _ Hi)) as Hdb.
  assert (H : ∃ o, o ∈ outbox (rs_db st) ∧ ob_published_at o = None ∧ ob_id o ∉ locked_by_others n (rs_procs st) ∧
    row = (ob_id o, ob_subject o, ob_payload o)).
  { unfold select_unpublished in Hrow. apply list_elem_of_fmap in Hrow as (o & -> & Ho).
    apply elem_of_take in Ho as (i & Ho & _). apply list_elem_of_lookup_2 in Ho.
    rewrite merge_sort_Permutation in Ho. apply list_elem_of_filter in Ho as [[? ?] ?]. eauto. }
  destruct H as (o & Ho & Hnp & Hfree & ->). cbn [fst snd].
  assert (Hothers : ∀ m prm, m ≠ n → rs_procs st !! m = Some prm → ob_id o ∉ rp_locked prm).
  { intros m prm Hm Hprm Hin. apply Hfree. unfold locked_by_others. apply list_elem_of_In, in_concat.
    exists (rp_locked prm). split; [|by apply list_elem_of_In]. apply list_elem_of_In, list_elem_of_fmap_2.
    apply list_elem_of_fmap. exists (m, prm). split; [done|]. apply elem_of_map_to_list. by rewrite lookup_delete_ne. }
  assert (Hun : ¬ published (rs_db st) (ob_id o)).
  { intros (o' & Ho' & E & Hp). by rewrite (outbox_id_inj _ _ _ Hdb Ho' Ho E) in Hp. }
  split; [done|]. split; [done|]. split.
  - intros Hs. destruct (ci_sent _ Hi _ Hs) as [|(m & prm & Hm & Hin)]; [done|].
    destruct (decide (m = n)) as [->|Hne]; [|by apply (Hothers m prm)].
    assert (prm = pr) as -> by congruence. rewrite Hlk in Hin. set_solver.
  - pose proof (outbox_objects _ Hdb) as Hobj. rewrite Forall_forall in Hobj. by apply Hobj.
Qed.

Lemma selected_nodup limit locked db : rtc repo_step empty_db db → NoDup (ids_of (select_unpublished limit locked db)).
Proof.
  intros Hr. apply reachable_ok in Hr as [[_ [Hs _] _ _ _ _] _]. unfold select_unpublished. rewrite ids_of_rows, fmap_take.
  apply (sublist_NoDup _ (ob_id <$> merge_sort (by_id ob_id) (filter (λ o, ob_published_at o = None ∧ ob_id o ∉ locked) (outbox db)))).
  2:{ apply sublist_take. }
  rewrite merge_sort_Permutation. apply (sublist_NoDup _ (ob_id <$> outbox db)).
  2:{ apply fmap_sublist, sublist_filter. }
  induction Hs as [|o l Hs IH Ha]; [constructor|]. rewrite fmap_cons. apply NoDup_cons. split; [|done].
  intros (o' & E & Ho')%list_elem_of_fmap. rewrite Forall_forall in Ha. specialize (Ha o' Ho'). lia.
Qed.

Lemma elem_of_ids_of rows (row : batch_row) i : rows !! i = Some row → row.1.1 ∈ ids_of rows.
Proof. intros Hi. unfold ids_of. apply (list_elem_of_fmap_2 (λ r : batch_row, r.1.1)). by eapply list_elem_of_lookup_2. Qed.

Section call.
Context (st : rsys) (n : nat) (w : rwatch) (lk pd : list Z) (db : DB) (sent : list sent_msg) (lk' pd' : list Z).
Context (Hi : cinv st).

Abbreviation after k w' := (mkRsys db (rs_wall st) sent (<[n := mkRproc k w' lk' pd']> (rs_procs st))).

Lemma once_select limit k :
  rs_procs st !! n = Some (mkRproc (Call (SelectUnpublished limit) k) w lk pd) → rw_rows w = None →
  let rows := select_unpublished limit (locked_by_others n (rs_procs st)) (rs_db st) in
  let w' := mkRwatch (Some rows) 0 (rw_marks w) (rw_failed w) in
  db = rs_db st → sent = rs_sent st → lk' = lk ++ ids_of rows → pd' = pd →
  rinv carrier settings (after (k (Ok rows)) w') → cinv (after (k (Ok rows)) w').
Proof.
  intros Hn Hnone rows w' -> -> -> -> Hr. pose proof (ci_procs _ Hi n _ Hn) as [(b & Hb & Hbl) P2 P3 P4 P5 P6 P7 P8].
  cbn [rp_code rp_watch rp_locked rp_pending] in *. destruct (P2 Hnone) as [-> Hmk]. cbn [app] in *.
  assert (Hsel : ∀ row, row ∈ rows → _) by (intros row; exact (selected_rows st n _ limit row Hi Hn eq_refl)).
  assert (Hids : ∀ id, id ∈ ids_of rows → ∃ row, row ∈ rows ∧ row.1.1 = id)
    by (intros id (row & -> & Hrow)%list_elem_of_fmap; eauto).
  eapply cinv_update; [done|exact Hn|done|apply Hi|done|by left|by left|set_solver| |].
  - cbn [rp_locked]. intros id Hid. right. destruct (Hids id Hid) as (row & Hrow & <-). apply (Hsel row Hrow).
  - cbn [monitored calm_step] in Hb.
    split; cbn [rp_code rp_watch rp_locked rp_pending w' rw_rows rw_sent rw_marks]; try done.
    + destruct b; [done|]. exists false. split; [|done]. apply (Hb (Ok rows)). exists rows. split; [done|].
      apply Forall_forall. intros row Hrow. apply (Hsel row Hrow).
    + intros rows0 [= <-]. apply selected_nodup, (ri_db _ _ _ (ci_relay _ Hi)).
    + intros rows0 id [= <-]. by left.
    + intros id [Hid|Hid]; [by exists rows|]. destruct (P5 id (or_intror Hid)) as (rows0 & E & _). congruence.
    + intros rows0 i row [= <-] _ Hl. pose proof (list_elem_of_lookup_2 _ _ _ Hl) as Hrow.
      split; [by eapply elem_of_ids_of|]. destruct (Hsel row Hrow) as (_ & ? & ? & _). done.
Qed.

Lemma once_publish subject data h k rows row :
  rs_procs st !! n = Some (mkRproc (Call (JsPublish subject data h) k) w lk pd) →
  rw_rows w = Some rows → rows !! rw_sent w = Some row → h = headers_of carrier row.1.1 →
  let w' := mkRwatch (rw_rows w) (S (rw_sent w)) (rw_marks w) (rw_failed w) in
  db = rs_db st → sent = rs_sent st ++ [(subject, data, h)] → lk' = lk → pd' = pd →
  rinv carrier settings (after (k (Ok tt)) w') → cinv (after (k (Ok tt)) w').
Proof.
  intros Hn Hrows Hrow -> w' -> -> -> -> Hr. pose proof (ci_procs _ Hi n _ Hn) as [(b & Hb & Hbl) P2 P3 P4 P5 P6 P7 P8].
  cbn [rp_code rp_watch rp_locked rp_pending] in *.
  destruct (P6 rows _ row Hrows (Nat.le_refl _) Hrow) as (Hin & Hun & Hns).
  assert (Hh : header_of (subject, data, headers_of carrier row.1.1) = Some (msg_id row.1.1))
    by (unfold header_of; cbn [snd]; by apply headers_of_id).
  assert (Hws : ∀ id, was_sent (rs_sent st ++ [(subject, data, headers_of carrier row.1.1)]) id ↔
    was_sent (rs_sent st) id ∨ id = row.1.1).
  { intros id. unfold was_sent. rewrite fmap_app, elem_of_app. cbn [fmap list_fmap]. rewrite Hh, list_elem_of_singleton.
    split; intros [H|H]; auto; [right; by apply (inj Some), msg_id_inj in H|right; by subst]. }
  eapply cinv_update; [done|exact Hn|done| |done|by left| |by left|by left|]; cbn [rp_locked].
  - rewrite fmap_app. apply NoDup_app. split; [apply Hi|]. split; [|apply NoDup_singleton].
    intros x Hx Hx'. cbn [fmap list_fmap] in Hx'. apply list_elem_of_singleton in Hx'. subst x. rewrite Hh in Hx. by apply Hns.
  - intros id [Hid| ->]%Hws; [by left|by right].
  - split; cbn [rp_code rp_watch rp_locked rp_pending w' rw_rows rw_sent rw_marks]; try done.
    + exists b. split; [|done]. apply (Hb (Ok tt)). by exists tt.
    + intros rows0 i row0 Hr0 Hi0 Hl. destruct (P6 rows0 i row0 Hr0 ltac:(lia) Hl) as (? & ? & Hns0). split_and!; [done..|].
      intros [Hid|Hid]%Hws; [done|]. assert (rows0 = rows) as -> by congruence.
      pose proof (P3 rows Hrows) as Hnd. assert (i = rw_sent w); [|lia].
      eapply (NoDup_lookup (ids_of rows)); [done|..]; unfold ids_of; rewrite list_lookup_fmap; [by rewrite Hl|rewrite Hrow].
      cbn. by rewrite <- Hid.
    + intros rows0 Hr0 Hne. assert (rows0 = rows) as -> by congruence. apply lookup_lt_Some in Hrow. rewrite (P8 rows) in Hrow by done. lia.
Qed.

Lemma once_mark ids k rows :
  rs_procs st !! n = Some (mkRproc (Call (MarkPublished ids) k) w lk pd) →
  rw_rows w = Some rows → ids = ids_of rows → rw_sent w = length rows →
  let w' := mkRwatch (rw_rows w) (rw_sent w) ids (rw_failed w) in
  db = rs_db st → sent = rs_sent st → lk' = lk → pd' = pd ++ ids →
  rinv carrier settings (after (k (Ok tt)) w') → cinv (after (k (Ok tt)) w').
Proof.
  intros Hn Hrows -> Hall w' -> -> -> -> Hr. pose proof (ci_procs _ Hi n _ Hn) as [(b & Hb & Hbl) P2 P3 P4 P5 P6 P7 P8].
  cbn [rp_code rp_watch rp_locked rp_pending] in *.
  eapply cinv_update; [done|exact Hn|done|apply Hi|done|by left|by left|by left|by left|].
  split; cbn [rp_code rp_watch rp_locked rp_pending w' rw_rows rw_sent rw_marks]; try done.
  - exists b. split; [|done]. apply (Hb (Ok tt)). by exists tt.
  - congruence.
  - intros id [Hid|[Hid|Hid]%elem_of_app]; [apply P5; by left|apply P5; by right|by exists rows].
  - intros id Hid. left. apply elem_of_app. by right.
  - intros rows0 Hr0 _. congruence.
Qed.

Lemma once_commit k rows :
  rs_procs st !! n = Some (mkRproc (Call TxCommit k) w lk pd) →
  rw_rows w = Some rows → rw_marks w = ids_of rows →
  db = mark_published (rs_wall st) pd (rs_db st) → sent = rs_sent st → lk' = [] → pd' = [] →
  rinv carrier settings (after (k (Ok tt)) w) → cinv (after (k (Ok tt)) w).
Proof.
  intros Hn Hrows Hmk Edb -> -> -> Hr. pose proof (ci_procs _ Hi n _ Hn) as [(b & Hb & Hbl) P2 P3 P4 P5 P6 P7 P8].
  pose proof (ri_procs _ _ _ (ci_relay _ Hi) n _ Hn) as [_ R2 _ _].
  cbn [rp_code rp_watch rp_locked rp_pending] in *.
  assert (Hpub : ∀ id, id ∈ ids_of rows → published db id).
  { intros id Hid. rewrite Edb. apply published_mark. destruct (P7 id) as [Hpd|]; [by rewrite Hmk| |by left].
    right. split; [done|]. apply list_elem_of_fmap in Hid as (row & -> & Hrow).
    destruct (R2 rows row Hrows Hrow) as (o & Ho & ->). by exists o. }
  assert (Hpd : ∀ id, published db id → published (rs_db st) id ∨ id ∈ lk).
  { intros id. rewrite Edb. intros [|[Hid _]]%published_mark; [by left|]. destruct (P5 id (or_intror Hid)) as (rows0 & E & Hin).
    destruct (P4 rows0 id E Hin); auto. }
  eapply cinv_update; [done|exact Hn|done|apply Hi| |exact Hpd|by left| |cbn; set_solver|]; cbn [rp_locked].
  - intros id Hid. rewrite Edb. apply published_mark. by left.
  - intros id Hid. right. destruct (P5 id (or_introl Hid)) as (rows0 & E & Hin). apply Hpub. congruence.
  - split; cbn [rp_code rp_watch rp_locked rp_pending]; try done.
    + exists true. split; [|done]. apply (Hb (Ok tt)). by exists tt.
    + intros E. congruence.
    + intros rows0 id E Hid. right. apply Hpub. congruence.
    + set_solver.
    + intros rows0 i row E Hge Hl. assert (rows0 = rows) as -> by congruence. exfalso. apply lookup_lt_Some in Hl as Hlt.
      rewrite (P8 rows) in Hge; [lia|done|]. rewrite Hmk. destruct rows; [cbn in Hlt; lia|done].
    + intros id Hid. right. apply Hpub. by rewrite <- Hmk.
Qed.
End call.

Lemma once_begin st n k w lk pd :
  cinv st → rs_procs st !! n = Some (mkRproc (Call TxBegin k) w lk pd) →
  let st' := mkRsys (rs_db st) (rs_wall st) (rs_sent st) (<[n := mkRproc (k (Ok tt)) w lk pd]> (rs_procs st)) in
  rinv carrier settings st' → cinv st'.
Proof.
  intros Hi Hn st' Hr. pose proof (ci_procs _ Hi n _ Hn) as [(b & Hb & Hbl) P2 P3 P4 P5 P6 P7 P8].
  eapply cinv_update; [done|exact Hn|done|apply Hi|done|by left|by left|by left|by left|].
  split; try done. exists b. split; [|done]. apply (Hb (Ok tt)). by exists tt.
Qed.

Lemma cinv_call st n R (e : eff R) k w lk pd r db sent lk' pd' :
  cinv st → rs_procs st !! n = Some (mkRproc (Call e k) w lk pd) →
  rcommit n st lk pd R e = (Some r, db, sent, lk', pd') →
  let st' := mkRsys db (rs_wall st) sent
    (<[n := mkRproc (k r) (robserve carrier (relay_batch_size settings) w R e r) lk' pd']> (rs_procs st)) in
  rinv carrier settings st' → cinv st'.
Proof.
  intros Hi Hn Hc st' Hr. subst st'. revert Hr. unfold robserve.
  pose proof (rp_conforms _ _ _ _ _ (ri_procs _ _ _ (ci_relay _ Hi) n _ Hn)) as Hcon.
  pose proof (cp_code _ _ _ (ci_procs _ Hi n _ Hn)) as (b & Hb & _).
  cbn [rp_watch rp_code monitored] in Hcon, Hb.
  destruct (relay_call _ _ w R e) as [next|] eqn:Hcall; [|done]. clear Hcon.
  destruct e; cbn [relay_call rcommit calm_step] in *; try done.
  - injection Hcall as <-. injection Hc as <- <- <- <- <-. cbn [fail_if]. by apply once_begin.
  - case_decide as Hk; [|done]. destruct Hk as [-> Hnone]. injection Hcall as <-. injection Hc as <- <- <- <- <-. by eapply once_select.
  - destruct (rw_rows w) as [rows|] eqn:Hrows; [|done]. case_decide as Hk; [|done]. destruct Hk as (Hids & Hall & _).
    injection Hcall as <-. injection Hc as <- <- <- <- <-. rewrite <- Hrows. by eapply once_mark.
  - destruct (rw_rows w) as [rows|] eqn:Hrows; [|done]. case_decide as Hk; [|done]. destruct Hk as (Hids & _).
    injection Hcall as <-. injection Hc as <- <- <- <- <-. cbn [fail_if]. by eapply once_commit.
  - destruct (rw_rows w) as [rows|] eqn:Hrows; [|done]. destruct (rows !! rw_sent w) as [[[id sb] pl]|] eqn:Hl; [|done].
    case_decide as Hk; [|done]. destruct Hk as (_ & _ & -> & _). injection Hcall as <-. injection Hc as <- <- <- <- <-.
    rewrite <- Hrows. by eapply once_publish.
Qed.

Lemma cinv_step st st' : rcalm st st' → cinv st → cinv st'.
Proof.
  intros Hs Hi. pose proof (rinv_step _ _ _ _ (rcalm_rstep _ _ Hs) (ci_relay _ Hi)) as Hr.
  destruct Hs as [st n Hn|st n R e k w lk pd r db sent lk' pd' Hn Hc|st n a w lk pd Hn|st wall db Hw]; [|by eapply cinv_call|..].
  - destruct Hi as [C1 C2 C3 C4 C5]. split; cbn [rs_db rs_sent rs_procs]; [done|done| | |].
    + intros id Hid. destruct (C3 id Hid) as [|(m & pr & Hm & Hin)]; [by left|]. right. exists m, pr.
      rewrite lookup_insert_ne; [done|]. intros <-. congruence.
    + intros m m' pr pr' id. rewrite !lookup_insert. do 2 case_decide; subst; try done; try apply C4.
      * intros [= <-] _ Hin. set_solver.
      * intros _ [= <-] _ Hin. set_solver.
    + intros m pr. rewrite lookup_insert. case_decide; [|apply C5]. intros [= <-].
      split; cbn; try done; [exists false; split; [apply calm_relay_once|done]|intros id [Hid|Hid]; set_solver|intros id Hid; set_solver].
  - destruct Hi as [C1 C2 C3 C4 C5]. pose proof (C5 n _ Hn) as [(b & Hb & Hbl) _ _ _ _ _ _ _].
    cbn [rp_code rp_locked monitored] in *. destruct Hb as [-> _].
    split; cbn [rs_db rs_sent rs_procs]; [done|done| | |].
    + intros id Hid. destruct (C3 id Hid) as [|(m & pr & Hm & Hin)]; [by left|]. right. exists m, pr.
      rewrite lookup_delete_ne; [done|]. intros <-. rewrite Hn in Hm. injection Hm as <-. cbn [rp_locked] in Hin.
      rewrite Hbl in Hin by done. set_solver.
    + intros m m' pr pr' id. rewrite !lookup_delete. do 2 case_decide; try done. apply C4.
    + intros m pr. rewrite lookup_delete. case_decide; [done|]. apply C5.
  - apply writers_append in Hw as (_ & l & El & Hl). pose proof (published_append _ _ _ El Hl) as Hp.
    destruct Hi as [C1 C2 C3 C4 C5]. split; cbn [rs_db rs_sent rs_procs]; [done|done| |done|].
    + intros id Hid. destruct (C3 id Hid); [left; by apply Hp|by right].
    + intros m pr Hm. eapply cproc_frame; [..|by eapply C5]; [intros id; apply Hp|intros id _; apply Hp|done].
Qed.

Lemma cinv_reachable wall st : rtc rcalm (rs_start wall) st → cinv st.
Proof.
  intros H. assert (Hi : cinv (rs_start wall)); [|induction H; eauto using cinv_step].
  split; cbn; try done; [by apply (rinv_reachable carrier settings wall), rtc_refl|constructor|].
  intros id. unfold was_sent. cbn. set_solver.
Qed.
End once.

(** Two relays at work together: the second starts while the first holds its row. *)
Definition submit_another (st : rsys) : rsys :=
  mkRsys (submit_job 100 2 [] "key-2" [("duration_ms", JInt 10)] "orbiter.jobs" (rs_db st)).2 100 (rs_sent st) (rs_procs st).

Definition side_by_side : rsys :=
  relay_calls default_settings 0 3 (relay_calls default_settings 1 5
    (start_relay 1 (submit_another (relay_calls default_settings 0 2 (start_relay 0 (mkRsys submitted 100 [] ∅)))))).

Lemma relay_next_calm settings n st : rtc (rcalm trace_carrier settings) st (relay_next settings n st).
Proof.
  unfold relay_next. destruct (rs_procs st !! n) as [[[| |R e k] w lk pd]|] eqn:Hn; try apply rtc_refl.
  destruct (rcommit n st lk pd R e) as [[[[[r|] db] sent] lk'] pd'] eqn:Hc; [|apply rtc_refl].
  apply rtc_once. by eapply calm_call.
Qed.

Lemma relay_calls_calm settings n k st : rtc (rcalm trace_carrier settings) st (relay_calls settings n k st).
Proof.
  revert st. induction k as [|k IH]; intros st; [apply rtc_refl|]. etrans; [apply relay_next_calm|apply IH].
Qed.

Lemma side_by_side_reachable : rtc (rcalm trace_carrier default_settings) (rs_start 100) side_by_side.
Proof.
  eapply rtc_l; [apply (calm_writer _ _ (rs_start 100) 100 submitted), writer_submit|].
  eapply rtc_l; [by apply (calm_start _ _ _ 0)|].
  etrans; [apply (relay_calls_calm default_settings 0 2)|].
  eapply rtc_l; [apply (calm_writer _ _ _ 100), writer_submit|].
  eapply rtc_l; [by apply (calm_start _ _ _ 1)|].
  etrans; [apply (relay_calls_calm default_settings 1 5)|apply (relay_calls_calm default_settings 0 3)].
Qed.

(** * Properties *)

(** C16: relays side by side do not repeat each other.  However many relays poll the
    outbox at the same time, while submissions, replays and workers write, and as
    long as no call fails and no relay dies before it returns: the message ids handed
    to the broker are all different, so every row is published at most once; and no
    row is ever in the batches of two relays at once. *)
Theorem relays_publish_once (carrier : Z → headers) (settings : Settings) (wall : Z) (st : rsys) :
  (∀ i, Forall (λ p, p.1 ≠ "Nats-Msg-Id") (carrier i)) →
  rtc (rcalm carrier settings) (rs_start wall) st →
  NoDup (header_of <$> rs_sent st) ∧
  ∀ n n' pr pr' id, rs_procs st !! n = Some pr → rs_procs st !! n' = Some pr' →
    id ∈ rp_locked pr → id ∈ rp_locked pr' → n = n'.
Proof. intros Hc Hr. by destruct (cinv_reachable carrier settings Hc wall st Hr) as [_ C2 _ C4 _]. Qed.

Lemma relays_publish_once_witness :
  header_of <$> rs_sent side_by_side = [Some "outbox-2"; Some "outbox-1"] ∧
  NoDup (header_of <$> rs_sent side_by_side).
Proof.
  split; [vm_compute; reflexivity|].
  apply (relays_publish_once trace_carrier default_settings 100 side_by_side).
  - repeat constructor. discriminate.
  - exact side_by_side_reachable.
Defined.
