(* ===== verification/Dlq.v ===== *)
(** * The dead-letter listener ([src/orbiter/dlq/listener.py])

    Advisory parsing, the quarantine as a program, the listener's loop, and what
    they promise: the order of copy, record and delete, and safety of a crash at
    any call. *)
From Stdlib Require Import Floats.SpecFloat.
From S2P Require Import Prelude PyFloat PyJson Model StateMachine PyUuid KVStore Effects Fencing Repo Config.
From S2P Require Import Telemetry Executor PyNum Worker Relay.

Open Scope prog_scope.

Definition ADVISORY_TYPE : string := "io.nats.jetstream.advisory.v1.max_deliver".

Definition advisory_subject (stream consumer : string) : string :=
  "$JS.EVENT.ADVISORY.CONSUMER.MAX_DELIVERIES." +:+ stream +:+ "." +:+ consumer.

Record MaxDeliveriesAdvisory := mkAdvisory {
  stream : string;
  consumer : string;
  stream_seq : Z;
  deliveries : Z
}.

(** [except (KeyError, TypeError, ValueError)]; the two decoding errors are
    [ValueError]s. *)
Definition field_error (x : exn) : bool :=
  match x with
  | KeyError _ | TypeError _ | ValueError _ | JSONDecodeError _ | UnicodeDecodeError _ => true
  | _ => false
  end.

Section parse.
(** [str(v)] on the values of a JSON text; the text of a string is itself. *)
Context (py_str : json → string).

Definition advisory_fields (data : json) : result MaxDeliveriesAdvisory :=
  result_bind (getitem data "stream") (λ s,
  result_bind (getitem data "consumer") (λ c,
  result_bind (getitem data "stream_seq") (λ q,
  result_bind (int_of_json q) (λ seq,
  result_bind (getitem data "deliveries") (λ d,
  result_bind (int_of_json d) (λ del,
  Ok (mkAdvisory (py_str s) (py_str c) seq del))))))).

Definition parse_advisory (raw : document) : result (option MaxDeliveriesAdvisory) :=
  match raw with
  | Raise (JSONDecodeError _) | Raise (UnicodeDecodeError _) => Ok None
  | Raise x => Raise x
  | Ok data =>
      match data with
      | JObj l =>
          if decide (dict_get l "type" = Some (JStr ADVISORY_TYPE)) then
            match advisory_fields data with
            | Ok adv => Ok (Some adv)
            | Raise x => if field_error x then Ok None else Raise x
            end
          else Ok None
      | _ => Ok None
      end
  end.

Definition dlq_msg_id (settings : Settings) (seq : Z) : string :=
  "dlq-" +:+ (stream_name settings +:+ ("-" +:+ pretty seq)).

Definition quarantine_inner (settings : Settings) (adv : MaxDeliveriesAdvisory) (raw : document) (job_id : uuid) : prog unit :=
  let! _ := await (JsPublish (subject_dlq settings) raw [("Nats-Msg-Id", dlq_msg_id settings (stream_seq adv))]) in
  let! _ := try_except
    (let! _ := await (RecordEvent job_id EventType.DEAD_LETTERED (deliveries adv)
                        (Some [("stream_seq", JInt (stream_seq adv)); ("deliveries", JInt (deliveries adv))])
                        None None) in Ret tt)
    (λ e, match e with IllegalTransition _ _ => Ret tt | e => Throw e end) in
  await (JsDeleteMsg (stream_name settings) (stream_seq adv)).

Definition quarantine (settings : Settings) (adv : MaxDeliveriesAdvisory) : prog unit :=
  let! raw := await (JsGetMsg (stream_name settings) (stream_seq adv)) in
  let! body := of_result raw in
  let! j := of_result (getitem body "job_id") in
  let! job_id := of_result (uuid_of_json j) in
  let! _ := of_result (carrier_items (traceparent_of body)) in
  let! _ := quarantine_inner settings adv raw job_id in
  await (Metric "orbiter.jobs.quarantined" 1).

(** The body of the listener's loop for one advisory message. *)
Definition on_advisory (settings : Settings) (data : document) : prog unit :=
  let! adv := of_result (parse_advisory data) in
  let! _ := (match adv with
             | Some adv => try_except (quarantine settings adv) (λ _, Ret tt)
             | None => Ret tt
             end) in
  await MsgAck.

Fixpoint on_advisories (settings : Settings) (msgs : list Msg) : prog unit :=
  match msgs with
  | [] => Ret tt
  | msg :: msgs => let! _ := on_advisory settings (msg_data msg) in on_advisories settings msgs
  end.

(** The listener's loop, for a number of turns.  [Ret true]: left because of the
    stop event. *)
Fixpoint listen (settings : Settings) (turns : nat) : prog bool :=
  match turns with
  | 0 => Ret false
  | S turns =>
      let! stop := await StopIsSet in
      if (stop : bool) then Ret true
      else
        let! fetched := Worker.fetch_or_continue 1 in
        match fetched with
        | None => listen settings turns
        | Some msgs => let! _ := on_advisories settings msgs in listen settings turns
        end
  end.
End parse.

(** The ways a conversion to [int] fails: caught by [parse_advisory], or an infinity. *)
Lemma int_of_json_error v x :
  int_of_json v = Raise x →
  field_error x = true ∨ ∃ neg m, v = JFloat (S754_infinity neg) ∧ x = OverflowError m.
Proof.
  destruct v as [|b|z|f|s|l|l]; cbn [int_of_json]; try (intros [= <-]; by left).
  - destruct f as [?|neg| |? ? ?]; cbn [int_of_float].
    + destruct (trunc _); intros [= <-]; by left.
    + intros [= <-]. right. eauto.
    + intros [= <-]. by left.
    + destruct (trunc _); intros [= <-]; by left.
  - unfold int_of_str. destruct (sign_of _) as [neg l].
    destruct (digits10 _ _ _ _) as [[[v n] [|c r]]|]; try destruct (_ && _)%nat; intros [= <-]; by left.
Qed.

(** ** The order of a quarantine *)

Section order.
Context (py_str : json → string) (settings : Settings).

(** The copy of message [seq] was accepted by the quarantine stream and its job's
    trail has answered: it took the event, or refused it as inapplicable. *)
Definition copied_and_recorded (adv : MaxDeliveriesAdvisory) (h : list step_of) : Prop :=
  ∃ raw id det reply,
    Step (JsGetMsg (stream_name settings) (stream_seq adv)) (Ok raw) ∈ h ∧
    Step (JsPublish (subject_dlq settings) raw [("Nats-Msg-Id", dlq_msg_id settings (stream_seq adv))]) (Ok tt) ∈ h ∧
    Step (RecordEvent id EventType.DEAD_LETTERED (deliveries adv) (Some det) None None) reply ∈ h ∧
    ((∃ st, reply = Ok st) ∨ ∃ s ev, reply = Raise (IllegalTransition s ev)).

(** What a step of the listener presupposes. *)
Definition listener_step (adv : option MaxDeliveriesAdvisory) (h : list step_of) (s : step_of) : Prop :=
  match s with
  | Step (JsDeleteMsg st q) _ =>
      ∃ a, adv = Some a ∧ st = stream_name settings ∧ q = stream_seq a ∧ copied_and_recorded a h
  | Step MsgAck _ => Forall (λ s, match s with Step MsgAck _ => False | _ => True end) h
  | _ => True
  end.

Definition no_ack (h : list step_of) : Prop := Forall (λ s, match s with Step MsgAck _ => False | _ => True end) h.

Lemma quarantine_order adv (Q : list step_of → result unit → Prop) h :
  no_ack h → (∀ h' r, no_ack h' → Q h' r) →
  always (listener_step (Some adv)) Q h (quarantine settings adv).
Proof.
  intros Hh HQ. unfold quarantine.
  assert (Hn : ∀ h' s, no_ack h' → match s with Step MsgAck _ => False | _ => True end → no_ack (h' ++ [s])).
  { intros h' s H1 H2. apply Forall_app. by repeat constructor. }
  apply always_bind, always_await; [done|]. intros [raw|x]; [|by apply HQ, Hn].
  set (h1 := h ++ _). assert (H1 : no_ack h1) by (by apply Hn).
  apply always_bind, always_of_result. destruct raw as [body|x]; [|by apply HQ].
  apply always_bind, always_of_result. destruct (getitem body "job_id") as [jv|x]; [|by apply HQ].
  apply always_bind, always_of_result. destruct (uuid_of_json jv) as [id|x]; [|by apply HQ].
  apply always_bind, always_of_result. destruct (carrier_items _) as [c|x]; [|by apply HQ].
  apply always_bind. unfold quarantine_inner.
  apply always_bind, always_await; [done|]. intros [[]|x]; [|by apply HQ, Hn].
  set (h2 := h1 ++ _). assert (H2 : no_ack h2) by (by apply Hn).
  apply always_bind, always_try_except, always_bind, always_await; [done|]. intros rr.
  set (h3 := h2 ++ _). assert (H3 : no_ack h3) by (by apply Hn).
  assert (Hdel : (∃ st, rr = Ok st) ∨ (∃ s ev, rr = Raise (IllegalTransition s ev)) →
    always (listener_step (Some adv)) (λ h r, match r with
       | Ok _ => always (listener_step (Some adv)) Q h (await (Metric "orbiter.jobs.quarantined" 1))
       | Raise x => Q h (Raise x) end) h3 (await (JsDeleteMsg (stream_name settings) (stream_seq adv)))).
  { intros Hrr. apply always_await.
    - intros r. exists adv. split_and!; [done..|]. eexists (Ok body), id, _, rr. subst h3 h2 h1.
      split_and!; [| | |exact Hrr]; rewrite ?elem_of_app, ?list_elem_of_singleton; tauto.
    - intros [[]|x]; [|by apply HQ, Hn]. apply always_await; [done|]. intros r. apply HQ, Hn; [by apply Hn|done]. }
  destruct rr as [st|x]; [apply Hdel; eauto|]. destruct x; try by apply HQ. apply Hdel; eauto.
Qed.

Lemma on_advisory_order data :
  always (listener_step (match parse_advisory py_str data with Ok a => a | Raise _ => None end))
    (λ h o, match parse_advisory py_str data with
            | Ok _ => ∃ h' r, h = h' ++ [Step MsgAck r] ∧ o = r ∧ no_ack h'
            | Raise x => h = [] ∧ o = Raise x
            end)
    [] (on_advisory py_str settings data).
Proof.
  unfold on_advisory. apply always_bind, always_of_result. destruct (parse_advisory py_str data) as [adv|x]; [|done].
  apply always_bind. destruct adv as [adv|].
  - apply always_try_except, quarantine_order; [constructor|].
    assert (Hack : ∀ h', no_ack h' → always (listener_step (Some adv))
       (λ h o, ∃ h' r, h = h' ++ [Step MsgAck r] ∧ o = r ∧ no_ack h') h' (await MsgAck)).
    { intros h' Hh'. apply always_await; [done|]. intros r. by exists h', r. }
    intros h' [[]|x] Hh'; exact (Hack h' Hh').
  - apply always_await; [constructor|]. intros r. exists [], r. split_and!; [done|done|constructor].
Qed.
End order.

(** ** Crashing and starting over *)

(** The tables, the wall clock, the work stream by sequence number, the quarantine
    stream by message id, and the ids the broker still remembers: it drops a message
    whose id is in its duplicate window. *)
Record qworld := mkQworld {
  q_db : DB;
  q_wall : Z;
  q_stream : gmap Z document;
  q_dlq : list (string * document);
  q_window : gset string
}.

Definition qpublish (i : string) (d : document) (w : qworld) : qworld :=
  if decide (i ∈ q_window w) then w
  else mkQworld (q_db w) (q_wall w) (q_stream w) (q_dlq w ++ [(i, d)]) ({[i]} ∪ q_window w).

Definition qserve (R : Type) (e : eff R) (w : qworld) : result R * qworld :=
  match e in eff R return result R * qworld with
  | JsGetMsg _ seq =>
      (match q_stream w !! seq with Some d => Ok d | None => Raise (ExternalError "no message found") end, w)
  | JsPublish _ d h => (Ok tt, qpublish (default "" (get_header h "Nats-Msg-Id")) d w)
  | RecordEvent id event att det ft res =>
      let '(r, db) := record_event (q_wall w) id event att det ft res (q_db w) in
      (r, mkQworld db (q_wall w) (q_stream w) (q_dlq w) (q_window w))
  | JsDeleteMsg _ seq =>
      (if decide (q_stream w !! seq = None) then Raise (ExternalError "no message found") else Ok tt,
       mkQworld (q_db w) (q_wall w) (delete seq (q_stream w)) (q_dlq w) (q_window w))
  | MsgAck => (Ok tt, w)
  | Metric _ _ => (Ok tt, w)
  | _ => (Raise (ExternalError "not a call of the listener"), w)
  end.

(** While the listener is down the clock goes on and the window may forget ids. *)
Record later (w w' : qworld) : Prop := {
  later_db : q_db w' = q_db w;
  later_stream : q_stream w' = q_stream w;
  later_dlq : q_dlq w' = q_dlq w;
  later_window : q_window w' ⊆ q_window w
}.

(** Recording DEAD_LETTERED again, at whatever time, is refused and changes nothing. *)
Lemma dead_letter_twice now now' id att det db row :
  rtc repo_step empty_db db → jobs db !! id = Some row →
  let c t := record_event t id EventType.DEAD_LETTERED att det None None in
  ((∃ st, (c now db).1 = Ok st) ∨ (∃ s ev, (c now db).1 = Raise (IllegalTransition s ev))) ∧
  (∃ s ev, c now' (c now db).2 = (Raise (IllegalTransition s ev), (c now db).2)).
Proof.
  intros Hr Hrow c. destruct (reachable_ok db Hr) as [Hok _].
  destruct (ok_jobs db Hok id row Hrow) as (log & _ & (s & _ & Hst) & _).
  subst c. cbn beta. rewrite !record_event_eq, !apply_event_eq. rewrite Hrow, Hst, JobState_of_value.
  destruct (apply_cases (Some s) EventType.DEAD_LETTERED) as [[s' Ha]|Ha]; rewrite Ha.
  - cbn [token_of]. rewrite Z.leb_refl. cbn [fst snd]. split; [by left; eauto|].
    cbn [jobs write_event]. rewrite lookup_insert_eq. cbn [jr_state]. rewrite JobState_of_value.
    assert (s' = JobState.DEAD_LETTER) as -> by (by destruct s; simplify_eq/=). cbn. eauto.
  - cbn [fst snd]. split; [by right; eauto|]. rewrite Hrow, Hst, JobState_of_value, Ha. eauto.
Qed.

Section crash.
Context (settings : Settings) (adv : MaxDeliveriesAdvisory).

Abbreviation copy_id := (dlq_msg_id settings (stream_seq adv)).

(** The listener handles the advisory any number of times and is killed each time
    after some number of calls.  The number counts how often the copy's id was
    forgotten in between. *)
Inductive killed : nat → qworld → qworld → Prop :=
  | killed_never w : killed 0 w w
  | killed_again m k w w1 w2 :
      killed m w w1 → later (upto qserve k (quarantine settings adv) w1) w2 →
      killed (m + (if decide (copy_id ∈ q_window (upto qserve k (quarantine settings adv) w1) ∧ copy_id ∉ q_window w2)
                   then 1 else 0)) w w2.

Context (body jv : json) (id : uuid) (ctx : dict).
Context (Hj : getitem body "job_id" = Ok jv) (Hid : uuid_of_json jv = Ok id)
  (Hctx : carrier_items (traceparent_of body) = Ok ctx).

Let det : option dict := Some [("stream_seq", JInt (stream_seq adv)); ("deliveries", JInt (deliveries adv))].

(** The record of the quarantine, made at time [t]. *)
Definition dead_lettered (t : Z) : DB → result JobState.t * DB :=
  record_event t id EventType.DEAD_LETTERED (deliveries adv)
    (Some [("stream_seq", JInt (stream_seq adv)); ("deliveries", JInt (deliveries adv))]) None None.

(** The three effects of a quarantine, in their order. *)
Definition copied : qworld → qworld := qpublish copy_id (Ok body).
Definition recorded_dead (w : qworld) : qworld :=
  mkQworld (dead_lettered (q_wall w) (q_db w)).2 (q_wall w) (q_stream w) (q_dlq w) (q_window w).
Definition deleted (w : qworld) : qworld :=
  mkQworld (q_db w) (q_wall w) (delete (stream_seq adv) (q_stream w)) (q_dlq w) (q_window w).

Lemma copied_frame w : q_db (copied w) = q_db w ∧ q_wall (copied w) = q_wall w ∧ q_stream (copied w) = q_stream w.
Proof. unfold copied, qpublish. by case_decide. Qed.

Lemma copied_window w : copy_id ∈ q_window (copied w).
Proof. unfold copied, qpublish. case_decide; [done|]. cbn. set_solver. Qed.

(** A quarantine of a message that is there runs to its end. *)
Lemma quarantine_runs w :
  q_stream w !! stream_seq adv = Some (Ok body) →
  (∃ st, (dead_lettered (q_wall w) (q_db w)).1 = Ok st) ∨
    (∃ s ev, (dead_lettered (q_wall w) (q_db w)).1 = Raise (IllegalTransition s ev)) →
  interp qserve (quarantine settings adv) w = (Ok tt, deleted (recorded_dead (copied w))) ∧
  ∀ k, upto qserve k (quarantine settings adv) w =
    match k with 0 | 1 => w | 2 => copied w | 3 => recorded_dead (copied w) | _ => deleted (recorded_dead (copied w)) end.
Proof.
  intros Hm Hrec. destruct (copied_frame w) as (Edb & Ewall & Estream). rewrite <- Edb, <- Ewall in Hrec. rewrite <- Estream in Hm.
  assert (Hm0 := Hm). rewrite Estream in Hm0. unfold dead_lettered in Hrec. split.
  - unfold quarantine. rewrite interp_bind, interp_await. cbn [qserve]. rewrite Hm0.
    cbn [of_result bind]. rewrite Hj. cbn [of_result bind]. rewrite Hid. cbn [of_result bind]. rewrite Hctx. cbn [of_result bind].
    rewrite interp_bind. unfold quarantine_inner. rewrite interp_bind, interp_await. cbn [qserve]. fold copied.
    rewrite interp_bind, interp_try_except, interp_bind, interp_await. cbn [qserve].
    change (qpublish _ _ w) with (copied w). unfold deleted, recorded_dead, dead_lettered.
    destruct (record_event _ _ _ _ _ _ _ _) as [r db]. cbn [fst snd] in *.
    destruct Hrec as [[st ->]|(s & ev & ->)]; cbn [interp await qserve q_stream q_db q_wall q_dlq];
      (rewrite decide_False by (rewrite Hm; done)); cbn; done.
  - intros k. unfold quarantine. destruct k as [|k]; [done|]. cbn [upto bind await qserve]. rewrite Hm0. cbn [bind of_result].
    rewrite Hj. cbn [of_result bind]. rewrite Hid. cbn [of_result bind]. rewrite Hctx. cbn [of_result bind]. unfold quarantine_inner.
    destruct k as [|k]; [done|]. cbn [upto bind await qserve]. change (qpublish _ _ w) with (copied w).
    destruct k as [|k]; [done|]. cbn [upto bind await qserve try_except].
    unfold deleted, recorded_dead, dead_lettered.
    destruct (record_event _ _ _ _ _ _ _ _) as [r db]. cbn [fst snd] in *.
    destruct Hrec as [[st ->]|(s & ev & ->)]; cbn [bind try_except];
      (destruct k as [|k]; [done|]; cbn [upto bind await qserve q_wall q_db q_stream q_dlq];
       rewrite decide_False by (rewrite Hm; done); cbn [bind];
       destruct k as [|k]; [done|]; cbn; by destruct k).
Qed.

(** One of a message that is gone does nothing. *)
Lemma quarantine_gone w :
  q_stream w !! stream_seq adv = None →
  (interp qserve (quarantine settings adv) w).2 = w ∧ ∀ k, upto qserve k (quarantine settings adv) w = w.
Proof.
  intros Hm. unfold quarantine. split; [rewrite interp_bind, interp_await; cbn [qserve]; by rewrite Hm|].
  intros [|[|k]]; [done..|]. cbn [upto bind await qserve]. by rewrite Hm.
Qed.

(** How far the quarantine of [w] has come in [x], [m] times forgotten. *)
Record progress (w : qworld) (m n : nat) (x : qworld) : Prop := {
  pg_dlq : q_dlq x = q_dlq w ++ replicate n (copy_id, Ok body);
  pg_count : n + (if decide (copy_id ∈ q_window x) then 0 else 1) ≤ Datatypes.S m;
  pg_window : copy_id ∈ q_window x → 1 ≤ n ∨ copy_id ∈ q_window w;
  pg_db : q_db x = q_db w ∨ ∃ t, q_db x = (dead_lettered t (q_db w)).2;
  pg_stream : q_stream x = q_stream w ∨
    q_stream x = delete (stream_seq adv) (q_stream w) ∧ (1 ≤ n ∨ copy_id ∈ q_window w) ∧
    ∃ t, q_db x = (dead_lettered t (q_db w)).2
}.

Section restart.
Context (w : qworld) (row : JobRow).
Context (Hmsg : q_stream w !! stream_seq adv = Some (Ok body)).
Context (Hr : rtc repo_step empty_db (q_db w)) (Hrow : jobs (q_db w) !! id = Some row).

Lemma progress_copied m n x : progress w m n x → ∃ n', progress w m n' (copied x).
Proof.
  intros [H1 H2 H3 H4 H5]. unfold copied, qpublish. destruct (decide (copy_id ∈ q_window x)) as [Hin|Hin].
  - exists n. split; [done| |done..]. by rewrite decide_True.
  - exists (Datatypes.S n). split; cbn [q_dlq q_window q_db q_stream]; [| |by left; lia|done|].
    + rewrite H1, <- app_assoc. by rewrite replicate_S_end.
    + rewrite decide_True by set_solver. lia.
    + destruct H5 as [?|(? & ? & ?)]; [by left|]. right. split; [done|]. split; [left; lia|done].
Qed.

(** Whatever was recorded before, the trail answers, and has the event once. *)
Lemma progress_answer m n x :
  progress w m n x →
  ((∃ st, (dead_lettered (q_wall x) (q_db x)).1 = Ok st) ∨
   (∃ s ev, (dead_lettered (q_wall x) (q_db x)).1 = Raise (IllegalTransition s ev))) ∧
  ∃ t, (dead_lettered (q_wall x) (q_db x)).2 = (dead_lettered t (q_db w)).2.
Proof.
  intros Hp. destruct (pg_db _ _ _ _ Hp) as [->|[t ->]].
  - split; [|by eexists]. by apply (dead_letter_twice (q_wall x) 0 id _ _ _ row).
  - destruct (dead_letter_twice t (q_wall x) id (deliveries adv) det (q_db w) row Hr Hrow) as [_ (s & ev & E)].
    unfold dead_lettered in *. fold det. rewrite E. split; [right; eauto|by exists t].
Qed.

Lemma progress_recorded m n x : progress w m n x → progress w m n (recorded_dead x).
Proof.
  intros Hp. destruct (progress_answer m n x Hp) as [_ Ht]. destruct Hp as [H1 H2 H3 H4 H5].
  split; cbn [recorded_dead q_dlq q_window q_db q_stream]; [done..|by right|].
  destruct H5 as [?|(? & ? & ?)]; [by left|by right].
Qed.

Lemma progress_deleted m n x :
  progress w m n x → copy_id ∈ q_window x → (∃ t, q_db x = (dead_lettered t (q_db w)).2) → progress w m n (deleted x).
Proof.
  intros [H1 H2 H3 H4 H5] Hin Ht. split; cbn [deleted q_dlq q_window q_db q_stream]; [done..|]. right.
  split; [|by auto]. destruct H5 as [-> |(-> & _)]; [done|by rewrite delete_delete_eq].
Qed.

Lemma progress_there m n x :
  progress w m n x → q_stream x !! stream_seq adv = Some (Ok body) ∨ q_stream x !! stream_seq adv = None.
Proof. intros Hp. destruct (pg_stream _ _ _ _ Hp) as [->|[-> _]]; [by left|right; apply lookup_delete_eq]. Qed.

(** Every attempt, to wherever it comes, keeps what was achieved. *)
Lemma progress_upto m n x k : progress w m n x → ∃ n', progress w m n' (upto qserve k (quarantine settings adv) x).
Proof.
  intros Hp. destruct (progress_there m n x Hp) as [Hm|Hm].
  2: { exists n. by rewrite (proj2 (quarantine_gone x Hm)). }
  destruct (progress_answer m n x Hp) as [Ha _]. destruct (quarantine_runs x Hm Ha) as [_ ->].
  destruct (progress_copied m n x Hp) as [n' Hc]. pose proof (progress_recorded _ _ _ Hc) as Hd.
  destruct k as [|[|[|[|k]]]]; [by exists n..|by exists n'|by exists n'|]. exists n'.
  apply progress_deleted; [done|apply copied_window|]. apply (progress_answer m n' (copied x) Hc).
Qed.

Lemma progress_killed m x : killed m w x → ∃ n, progress w m n x.
Proof.
  intros Hk. remember w as w0 eqn:Ew in Hk. revert Ew. induction Hk as [w0|m k w0 w1 w2 _ IH Hl]; intros ->.
  - exists 0. split; [by rewrite app_nil_r|case_decide; lia|by right|by left|by left].
  - destruct (IH eq_refl) as [n Hn]. destruct (progress_upto m n w1 k Hn) as [n' [H1 H2 H3 H4 H5]]. exists n'.
    destruct Hl as [L1 L2 L3 L4]. split; rewrite ?L1, ?L2, ?L3; [done| |by auto|done|done].
    repeat case_decide; try lia; set_solver.
Qed.

(** A last attempt that nothing disturbs. *)
Lemma progress_end m n x :
  progress w m n x →
  let out := interp qserve (quarantine settings adv) x in
  (out.1 = Ok tt ∨ q_stream x = delete (stream_seq adv) (q_stream w)) ∧
  ∃ n', progress w m n' out.2 ∧ q_stream out.2 = delete (stream_seq adv) (q_stream w) ∧
    (1 ≤ n' ∨ copy_id ∈ q_window w) ∧ ∃ t, q_db out.2 = (dead_lettered t (q_db w)).2.
Proof.
  intros Hp out. subst out. destruct (progress_there m n x Hp) as [Hm|Hm].
  - destruct (progress_answer m n x Hp) as [Ha _]. destruct (quarantine_runs x Hm Ha) as [-> _]. split; [by left|].
    destruct (progress_copied m n x Hp) as [n' Hc]. exists n'. cbn [snd].
    assert (Hd : progress w m n' (deleted (recorded_dead (copied x)))).
    { apply progress_deleted; [by apply progress_recorded|apply copied_window|]. apply (progress_answer m n' (copied x) Hc). }
    split; [done|]. destruct (pg_stream _ _ _ _ Hd) as [E|E]; [|done].
    exfalso. cbn [deleted q_stream] in E. rewrite <- E, lookup_delete_eq in Hmsg. done.
  - rewrite (proj1 (quarantine_gone x Hm)). destruct (pg_stream _ _ _ _ Hp) as [E|E]; [by rewrite E, Hmsg in Hm|].
    split; [right; apply E|]. by exists n.
Qed.
End restart.
End crash.

(** * Properties *)

(** C19: crashing a quarantine is safe at every point.  For a poisoned message of an
    existing job, let the listener handle its advisory any number of times and be
    killed each time after any number of its calls, the clock going on in between and
    the broker forgetting message ids as its duplicate window moves on; then let it
    handle the advisory once more, undisturbed.  That last time the quarantine runs to
    its end, unless an earlier one had already deleted the message.  Afterwards the
    original is gone, nothing else of the work stream is; the tables are those of one
    DEAD_LETTERED recorded at one moment; what the quarantine stream has gained are
    copies of the message under its id, at least one if the broker did not know the id
    at the start, and at most one more than the number of times it forgot the id. *)
Theorem quarantine_crash_safe (settings : Settings) (adv : MaxDeliveriesAdvisory) (body jv : json) (id : uuid)
    (ctx : dict) (w w1 : qworld) (row : JobRow) (forgotten : nat) :
  getitem body "job_id" = Ok jv → uuid_of_json jv = Ok id → carrier_items (traceparent_of body) = Ok ctx →
  q_stream w !! stream_seq adv = Some (Ok body) →
  rtc repo_step empty_db (q_db w) → jobs (q_db w) !! id = Some row →
  killed settings adv forgotten w w1 →
  let out := interp qserve (quarantine settings adv) w1 in
  (out.1 = Ok tt ∨ q_stream w1 = delete (stream_seq adv) (q_stream w)) ∧
  q_stream out.2 = delete (stream_seq adv) (q_stream w) ∧
  (∃ t, q_db out.2 = (record_event t id EventType.DEAD_LETTERED (deliveries adv)
                        (Some [("stream_seq", JInt (stream_seq adv)); ("deliveries", JInt (deliveries adv))]) None None (q_db w)).2) ∧
  ∃ copies, q_dlq out.2 = q_dlq w ++ replicate copies (dlq_msg_id settings (stream_seq adv), Ok body) ∧
    copies ≤ 1 + forgotten ∧ (dlq_msg_id settings (stream_seq adv) ∉ q_window w → 1 ≤ copies).
Proof.
  intros Hj Hid Hctx Hm Hr Hrow Hk. cbn zeta.
  destruct (progress_killed settings adv body jv id ctx Hj Hid Hctx w row Hm Hr Hrow forgotten w1 Hk) as [n Hp].
  destruct (progress_end settings adv body jv id ctx Hj Hid Hctx w row Hm Hr Hrow forgotten n w1 Hp)
    as [H1 (n' & [H2 H3 _ _ _] & H4 & H5 & H6)].
  split; [exact H1|]. split; [exact H4|]. split; [exact H6|]. exists n'. split; [exact H2|].
  split; [case_decide; lia|]. by destruct H5.
Qed.

Definition poison_body : json := JObj [("job_id", JStr (uuid_str 2)); ("payload", JObj [("poison", JBool true)])].
Definition poison_world : qworld := mkQworld sample_db4 140 {[7%Z := Ok poison_body]} [] ∅.
Definition poison_advisory : MaxDeliveriesAdvisory := mkAdvisory "ORBITER_JOBS" "workers" 7 5.

(** The listener dies after the record, and comes back when the window has passed. *)
Definition poison_later : qworld :=
  let w := upto qserve 3 (quarantine default_settings poison_advisory) poison_world in
  mkQworld (q_db w) 900 (q_stream w) (q_dlq w) ∅.

Lemma quarantine_crash_safe_witness :
  let out := interp qserve (quarantine default_settings poison_advisory) poison_later in
  q_dlq out.2 = replicate 2 (dlq_msg_id default_settings 7, Ok poison_body) ∧ q_stream out.2 = ∅ ∧
  ∃ copies, q_dlq out.2 = [] ++ replicate copies (dlq_msg_id default_settings 7, Ok poison_body) ∧ copies ≤ 2.
Proof.
  cbn zeta. split; [vm_compute; reflexivity|]. split; [vm_compute; reflexivity|].
  assert (Hl : later (upto qserve 3 (quarantine default_settings poison_advisory) poison_world) poison_later).
  { unfold poison_later. split; cbn [q_db q_stream q_dlq q_window]; [reflexivity..|]. apply empty_subseteq. }
  pose proof (killed_again default_settings poison_advisory 0 3 _ _ _ (killed_never _ _ _) Hl) as Hk.
  assert (Hr : rtc repo_step empty_db (q_db poison_world)).
  { eapply rtc_r; [apply sample_db3_reachable|].
    apply (step_submit _ 130 2 [] "key-2" [("poison", JBool true)] "orbiter.jobs"). }
  assert (Hrow : jobs (q_db poison_world) !! 2%N =
    Some (mkJobRow "key-2" (JObj [("poison", JBool true)]) "queued" 0 0 None 130 130)) by (vm_compute; reflexivity).
  destruct (quarantine_crash_safe default_settings poison_advisory poison_body (JStr (uuid_str 2)) 2 [] poison_world poison_later
    _ _ eq_refl (UUID_str 2 eq_refl) eq_refl eq_refl Hr Hrow Hk) as (_ & _ & _ & copies & H1 & H2 & _).
  exists copies. split; [exact H1|]. etransitivity; [exact H2|]. case_decide; lia.
Defined.

(** C34: copy, record, delete, and only then the ack.  In every run of the listener's
    handling of an advisory, whatever its calls answer: the original is deleted
    only when its copy was accepted by the quarantine stream and the trail has
    taken the event or refused it as inapplicable; the advisory is acked exactly
    once, as the last call, unless parsing it raised, in which case nothing is
    called at all. *)
Theorem quarantine_ordered (py_str : json → string) (settings : Settings) (data : document) (tr : list step_of) (o : result unit) :
  runs (on_advisory py_str settings data) tr o →
  match parse_advisory py_str data with
  | Raise x => tr = [] ∧ o = Raise x
  | Ok adv =>
      (∃ tr' r, tr = tr' ++ [Step MsgAck r] ∧ o = r ∧ no_ack tr') ∧
      ∀ tr1 st seq r tr2, tr = tr1 ++ Step (JsDeleteMsg st seq) r :: tr2 →
        ∃ a, adv = Some a ∧ st = stream_name settings ∧ seq = stream_seq a ∧ copied_and_recorded settings a tr1
  end.
Proof.
  intros Hr. destruct (always_runs _ _ _ _ _ _ (on_advisory_order py_str settings data) Hr) as [HQ HP].
  destruct (parse_advisory py_str data) as [adv|x]; [|exact HQ]. split; [exact HQ|].
  intros tr1 st seq r tr2 E. exact (HP tr1 _ tr2 E).
Qed.

Definition sample_str (v : json) : string := match v with JStr s => s | _ => "" end.

Definition sample_advisory : document :=
  Ok (JObj [("type", JStr ADVISORY_TYPE); ("stream", JStr "ORBITER_JOBS"); ("consumer", JStr "workers");
            ("stream_seq", JInt 7); ("deliveries", JInt 5)]).

Lemma quarantine_ordered_witness :
  ∃ tr' r, [Step (JsGetMsg "ORBITER_JOBS" 7) (Raise TimeoutError); Step MsgAck (Ok tt)] = tr' ++ [Step MsgAck r] ∧
    Ok tt = r ∧ no_ack tr'.
Proof.
  pose proof (quarantine_ordered sample_str default_settings sample_advisory
    [Step (JsGetMsg "ORBITER_JOBS" 7) (Raise TimeoutError); Step MsgAck (Ok tt)] (Ok tt)) as H.
  assert (E : parse_advisory sample_str sample_advisory = Ok (Some poison_advisory)) by (vm_compute; reflexivity).
  unfold on_advisory in H. rewrite E in H. apply H. cbn. repeat eapply runs_call. apply runs_ret.
Defined.

(** What is to be seen of the field of a number. *)
Definition infinite (v : json) : Prop := ∃ neg, v = JFloat (S754_infinity neg).
Definition overflow : exn := OverflowError "cannot convert float infinity to integer".

(** The field is missing, or is there and is neither a number nor infinite. *)
Definition unreadable (l : dict) (k : string) : Prop :=
  match dict_get l k with Some v => ¬ infinite v ∧ ∀ z, int_of_json v ≠ Ok z | None => True end.

Definition readable (l : dict) (k : string) (z : Z) : Prop := ∃ v, dict_get l k = Some v ∧ int_of_json v = Ok z.

Definition unbounded (l : dict) (k : string) : Prop := ∃ v, dict_get l k = Some v ∧ infinite v.

(** The three are all there is, and [parse_advisory] tells them apart by what it
    gets. *)
Lemma number_cases l k :
  let r := result_bind (getitem (JObj l) k) int_of_json in
  (∃ z, r = Ok z ∧ readable l k z ∧ ¬ unreadable l k ∧ ¬ unbounded l k) ∨
  (∃ x, r = Raise x ∧ field_error x = true ∧ unreadable l k ∧ ¬ unbounded l k ∧ ∀ z, ¬ readable l k z) ∨
  (r = Raise overflow ∧ unbounded l k ∧ ¬ unreadable l k ∧ ∀ z, ¬ readable l k z).
Proof.
  unfold readable, unreadable, unbounded. cbn [getitem]. destruct (dict_get l k) as [v|]; cbn [result_bind].
  2: { right. left. eexists. split_and!; [done..| |]; naive_solver. }
  destruct (int_of_json v) as [z|x] eqn:E.
  - left. exists z. assert (¬ infinite v) by (intros [neg ->]; done). naive_solver.
  - right. destruct (int_of_json_error v x E) as [Hx|(neg & m & -> & ->)].
    + left. exists x. assert (¬ infinite v) by (intros [neg ->]; by injection E as <-).
      split_and!; [done..|naive_solver|]. intros z (v0 & [= <-] & ?). congruence.
    + right. injection E as <-. assert (infinite (JFloat (S754_infinity neg))) by (by exists neg).
      split_and!; [done|by eexists|naive_solver|]. by intros z (v0 & [= <-] & ?).
Qed.

(** An object of the advisory type whose two texts are there. *)
Definition advisory_object (raw : document) (l : dict) (s c : json) : Prop :=
  raw = Ok (JObj l) ∧ dict_get l "type" = Some (JStr ADVISORY_TYPE) ∧
  dict_get l "stream" = Some s ∧ dict_get l "consumer" = Some c.

Lemma advisory_numbers py_str raw l s c :
  advisory_object raw l s c →
  parse_advisory py_str raw =
    match result_bind (getitem (JObj l) "stream_seq") int_of_json with
    | Ok seq =>
        match result_bind (getitem (JObj l) "deliveries") int_of_json with
        | Ok del => Ok (Some (mkAdvisory (py_str s) (py_str c) seq del))
        | Raise x => if field_error x then Ok None else Raise x
        end
    | Raise x => if field_error x then Ok None else Raise x
    end.
Proof.
  intros (-> & Ht & Hs & Hc). cbn [parse_advisory]. rewrite decide_True by done. unfold advisory_fields. cbn [getitem].
  rewrite Hs, Hc. cbn [result_bind]. destruct (dict_get l "stream_seq") as [q|]; [|done]. cbn [result_bind].
  destruct (int_of_json q) as [seq|]; [|done]. cbn [result_bind]. destruct (dict_get l "deliveries") as [d|]; [|done].
  cbn [result_bind]. by destruct (int_of_json d).
Qed.

Lemma advisory_object_unique raw l s c l' s' c' :
  advisory_object raw l s c → advisory_object raw l' s' c' → l' = l ∧ s' = s ∧ c' = c.
Proof. intros (-> & _ & H1 & H2) (E & _ & H3 & H4). injection E as <-. split_and!; congruence. Qed.

(** [except (json.JSONDecodeError, UnicodeDecodeError)] *)
Definition decode_error (x : exn) : bool :=
  match x with JSONDecodeError _ | UnicodeDecodeError _ => true | _ => false end.

(** Anything else is None or another error of the decoder. *)
Lemma other_documents py_str raw :
  (∃ l s c, advisory_object raw l s c) ∨
  (∀ l s c, ¬ advisory_object raw l s c) ∧
  parse_advisory py_str raw = match raw with Raise x => if decode_error x then Ok None else Raise x | Ok _ => Ok None end.
Proof.
  destruct raw as [v|x]; [|right; split; [by intros ? ? ? [? _]|by destruct x]].
  destruct v as [| | | | | |l]; try (right; split; [by intros ? ? ? [? _]|done]).
  cbn [parse_advisory]. case_decide as Ht; [|right; split; [by intros l' s c (E & ? & _); injection E as <-|done]].
  unfold advisory_fields. cbn [getitem].
  destruct (dict_get l "stream") as [s|] eqn:Es; cbn [result_bind].
  2: { right. split; [|done]. intros l' s c (E & _ & H & _). injection E as <-. congruence. }
  destruct (dict_get l "consumer") as [c|] eqn:Ec; cbn [result_bind].
  2: { right. split; [|done]. intros l' s' c (E & _ & _ & H). injection E as <-. congruence. }
  left. by exists l, s, c.
Qed.

(** C36: what [parse_advisory] answers, and when.  Call an advisory object a JSON object
    of the advisory type with a [stream] and a [consumer].  An advisory is returned if
    and only if the text decodes to an advisory object in which [stream_seq] and
    [deliveries] convert to int, and it holds the texts and the numbers of the object.
    An exception is raised if and only if [json.loads] raised it and it is neither of
    the two decoding errors, or it is the [OverflowError] of an infinite number of an
    advisory object: its [stream_seq], or its [deliveries] if [stream_seq] converts.
    None is returned if and only if the text raised a decoding error, or decodes to
    something that is no advisory object, or to one whose [stream_seq] is missing or
    neither converts nor is infinite, or whose [stream_seq] converts and whose
    [deliveries] is missing or neither converts nor is infinite. *)
Theorem parse_advisory_outcomes (py_str : json → string) (raw : document) :
  (∀ adv, parse_advisory py_str raw = Ok (Some adv) ↔
     ∃ l s c, advisory_object raw l s c ∧ stream adv = py_str s ∧ consumer adv = py_str c ∧
       readable l "stream_seq" (stream_seq adv) ∧ readable l "deliveries" (deliveries adv)) ∧
  (∀ x, parse_advisory py_str raw = Raise x ↔
     (raw = Raise x ∧ decode_error x = false) ∨
     (x = overflow ∧ ∃ l s c, advisory_object raw l s c ∧
        (unbounded l "stream_seq" ∨ (∃ z, readable l "stream_seq" z) ∧ unbounded l "deliveries"))) ∧
  (parse_advisory py_str raw = Ok None ↔
     (∃ x, raw = Raise x ∧ decode_error x = true) ∨
     (∃ v, raw = Ok v ∧ ∀ l s c, ¬ advisory_object raw l s c) ∨
     (∃ l s c, advisory_object raw l s c ∧
        (unreadable l "stream_seq" ∨ (∃ z, readable l "stream_seq" z) ∧ unreadable l "deliveries"))).
Proof.
  destruct (other_documents py_str raw) as [(l & s & c & Ho)|[Hno ->]].
  - pose proof (proj1 Ho) as Hraw. rewrite (advisory_numbers py_str raw l s c Ho).
    assert (Hone : ∀ (P : dict → json → json → Prop), (∃ l s c, advisory_object raw l s c ∧ P l s c) ↔ P l s c).
    { intros P. split; [|by exists l, s, c]. intros (l' & s' & c' & Ho' & HP).
      by destruct (advisory_object_unique _ _ _ _ _ _ _ Ho Ho') as (-> & -> & ->). }
    setoid_rewrite Hone.
    assert (Hread : ∀ k z z', readable l k z → readable l k z' → z = z') by (intros k z z' (v & H1 & H2) (v' & H3 & H4); congruence).
    destruct (number_cases l "stream_seq") as [(z & -> & Hz & Hz1 & Hz2)|[(x & -> & Hx & Hx1 & Hx2 & Hx3)|(-> & Ho1 & Ho2 & Ho3)]].
    + destruct (number_cases l "deliveries") as [(d & -> & Hd & Hd1 & Hd2)|[(x & -> & Hx & Hx1 & Hx2 & Hx3)|(-> & Ho1 & Ho2 & Ho3)]].
      * split_and!; [intros [s' c' z' d']; cbn [stream consumer stream_seq deliveries]; split|naive_solver..].
        -- by intros [= <- <- <- <-].
        -- intros (-> & -> & H1 & H2). by rewrite (Hread _ _ _ H1 Hz), (Hread _ _ _ H2 Hd).
      * rewrite Hx. split_and!; naive_solver.
      * cbn [field_error overflow]. split_and!; naive_solver.
    + rewrite Hx. split_and!; naive_solver.
    + cbn [field_error overflow]. split_and!; naive_solver.
  - assert (Hnone : ∀ (P : dict → json → json → Prop), (∃ l s c, advisory_object raw l s c ∧ P l s c) ↔ False).
    { intros P. split; [|done]. intros (l & s & c & Ho & _). by destruct (Hno l s c). }
    setoid_rewrite Hnone. clear Hnone. destruct raw as [v|x]; [|destruct (decode_error x) eqn:Hx];
      split_and!; try naive_solver.
    + intros y. split; [done|]. intros [[[= <-] ?]|[_ []]]. congruence.
    + split; [done|]. intros [(y & [= <-] & ?)|[(v & ? & _)|[]]]; congruence.
Qed.

(** An advisory with an infinite sequence number stops the listener.  [int] of
    such a number raises [OverflowError], which no clause of [parse_advisory]
    catches: the loop ends with it, before the ack, whatever was still to come. *)
Theorem infinite_advisory_stops_listener (py_str : json → string) (settings : Settings) (s c d : json) (neg : bool)
    (n : Z) (msgs : list Msg) (turns : nat) :
  let advisory := JObj [("type", JStr ADVISORY_TYPE); ("stream", s); ("consumer", c);
                        ("stream_seq", JFloat (S754_infinity neg)); ("deliveries", d)] in
  runs (listen py_str settings (S turns))
    [Step StopIsSet (Ok false); Step (SubFetch 1 1) (Ok (mkMsg (Ok advisory) n :: msgs))]
    (Raise (OverflowError "cannot convert float infinity to integer")).
Proof. do 2 eapply runs_call. apply runs_throw. Qed.
