(* ===== verification/Views.v ===== *)
(** * Read queries of the repository ([src/orbiter/db/repo.py])

    [get_job], [list_jobs_by_state] and [list_recent_jobs], with the text form of
    timestamps.  Where SQL leaves the order of equal keys open, the table's order
    is taken. *)
From Stdlib Require Import Floats.SpecFloat.
From stdpp Require Import sorting.
From S2P Require Import Prelude PyFloat PyJson Model StateMachine PyUuid KVStore Effects Fencing Repo.

(** ** [datetime.isoformat()] of a UTC time stamp in microseconds *)

(** [n] in decimal, at least [w] digits. *)
Definition pad (w : nat) (n : Z) : string :=
  let s := pretty n in String.string_of_list_ascii (replicate (w - String.length s) "0"%char ++ chars s).

(** Year, month and day of a day count since 1970-01-01, proleptic Gregorian. *)
Definition civil (days : Z) : Z * Z * Z :=
  (let z := days + 719468 in
   let era := z / 146097 in
   let doe := z - era * 146097 in
   let yoe := (doe - doe / 1460 + doe / 36524 - doe / 146096) / 365 in
   let doy := doe - (365 * yoe + yoe / 4 - yoe / 100) in
   let mp := (5 * doy + 2) / 153 in
   let d := doy - (153 * mp + 2) / 5 + 1 in
   let m := if mp <? 10 then mp + 3 else mp - 9 in
   let y := yoe + era * 400 + (if m <=? 2 then 1 else 0) in
   (y, m, d))%Z.

Definition isoformat (us : Z) : string :=
  let secs := (us / 1000000)%Z in
  let frac := (us mod 1000000)%Z in
  let '(y, m, d) := civil (secs / 86400)%Z in
  let t := (secs mod 86400)%Z in
  pad 4 y +:+ "-" +:+ pad 2 m +:+ "-" +:+ pad 2 d +:+ "T" +:+
  pad 2 (t / 3600)%Z +:+ ":" +:+ pad 2 (t / 60 mod 60)%Z +:+ ":" +:+ pad 2 (t mod 60)%Z +:+
  (if (frac =? 0)%Z then "" else "." +:+ pad 6 frac) +:+ "+00:00".
Arguments isoformat : simpl never.

Example isoformat_examples :
  isoformat 0 = "1970-01-01T00:00:00+00:00" ∧
  isoformat 1709251199000042 = "2024-02-29T23:59:59.000042+00:00" ∧
  isoformat 951782400000000 = "2000-02-29T00:00:00+00:00".
Proof. vm_compute. done. Qed.

(** ** Queries *)

Definition event_view (e : EventRow) : json :=
  JObj [("event", JStr (er_event e)); ("attempt", JInt (er_attempt e)); ("detail", er_detail e);
        ("at", JStr (isoformat (er_at e)))].

(** The two SELECTs are two statements: the job is read from one state of the
    tables, its events from the same or a later one. *)
Definition get_job (job_id : uuid) (db db' : DB) : option json :=
  match jobs db !! job_id with
  | None => None
  | Some row =>
      Some (JObj [("id", JStr (uuid_str job_id)); ("state", JStr (jr_state row)); ("payload", jr_payload row);
                  ("attempts", JInt (jr_attempts row));
                  ("result", default JNull (jr_result row));
                  ("created_at", JStr (isoformat (jr_created_at row)));
                  ("updated_at", JStr (isoformat (jr_updated_at row)));
                  ("events", JArr (event_view <$> select_events job_id db'))])
  end.

(** ORDER BY k DESC *)
Definition newest_first {A} (k : A → Z) (a b : A) : Prop := (k b ≤ k a)%Z.

#[global] Instance newest_first_dec {A} (k : A → Z) : RelDecision (newest_first k).
Proof. intros a b. unfold newest_first. apply _. Defined.
#[global] Instance newest_first_total {A} (k : A → Z) : Total (newest_first k).
Proof. intros a b. unfold newest_first. lia. Qed.
#[global] Instance newest_first_trans {A} (k : A → Z) : Transitive (newest_first k).
Proof. intros a b c. unfold newest_first. lia. Qed.

(** The rows of [list_jobs_by_state]'s SELECT. *)
Definition select_by_state (state : JobState.t) (db : DB) : list (uuid * JobRow) :=
  take 200 (merge_sort (newest_first (λ p, jr_updated_at p.2))
              (filter (λ p, jr_state p.2 = JobState.value state) (map_to_list (jobs db)))).

Definition list_jobs_by_state (state : JobState.t) (db : DB) : list json :=
  (λ p, JObj [("id", JStr (uuid_str p.1)); ("payload", jr_payload p.2); ("attempts", JInt (jr_attempts p.2));
              ("updated_at", JStr (isoformat (jr_updated_at p.2)))]) <$> select_by_state state db.

Definition select_recent (limit : nat) (db : DB) : list (uuid * JobRow) :=
  take limit (merge_sort (newest_first (λ p, jr_created_at p.2)) (map_to_list (jobs db))).

Definition list_recent_jobs (limit : nat) (db : DB) : list json :=
  (λ p, JObj [("id", JStr (uuid_str p.1)); ("state", JStr (jr_state p.2)); ("attempts", JInt (jr_attempts p.2));
              ("created_at", JStr (isoformat (jr_created_at p.2)));
              ("updated_at", JStr (isoformat (jr_updated_at p.2)))]) <$> select_recent limit db.

(** Every listed job is there and in the state asked for; nothing newer is left
    out; and with at most 200 of them, none is missing. *)
Lemma select_by_state_spec state db :
  let l := select_by_state state db in
  length l ≤ 200 ∧
  (∀ id row, (id, row) ∈ l → jobs db !! id = Some row ∧ jr_state row = JobState.value state) ∧
  (∀ id row, jobs db !! id = Some row → jr_state row = JobState.value state →
     (id, row) ∈ l ∨ length l = 200 ∧ ∀ p, p ∈ l → (jr_updated_at row ≤ jr_updated_at p.2)%Z).
Proof.
  cbn zeta. unfold select_by_state.
  set (cand := filter (λ p, jr_state p.2 = JobState.value state) (map_to_list (jobs db))).
  set (R := newest_first (λ p : uuid * JobRow, jr_updated_at p.2)).
  assert (Hin : ∀ p, p ∈ merge_sort R cand ↔ jobs db !! p.1 = Some p.2 ∧ jr_state p.2 = JobState.value state).
  { intros [id row]. rewrite merge_sort_Permutation. subst cand. rewrite list_elem_of_filter, elem_of_map_to_list. naive_solver. }
  split; [|split].
  - rewrite length_take. lia.
  - intros id row H. apply elem_of_take in H as (i & H & _). apply list_elem_of_lookup_2, Hin in H. done.
  - intros id row Hrow Hst.
    assert (H : (id, row) ∈ merge_sort R cand) by (by apply Hin).
    apply list_elem_of_lookup in H as [i Hi]. destruct (decide (i < 200)) as [Hlt|Hge].
    + left. apply list_elem_of_lookup. exists i. by rewrite lookup_take_lt.
    + right. pose proof (lookup_lt_Some _ _ _ Hi). split; [rewrite length_take; lia|].
      intros p Hp. pose proof (StronglySorted_merge_sort R cand) as Hs.
      rewrite <- (take_drop 200 (merge_sort R cand)) in Hs.
      apply (StronglySorted_app_1_elem_of _ _ _ p (id, row) Hs Hp).
      apply list_elem_of_lookup. exists (i - 200). rewrite lookup_drop. by replace (200 + (i - 200)) with i by lia.
Qed.
