(* ===== verification/Charts.v ===== *)
(** * Benchmark charts ([scripts/make_charts.py])

    What the script reads from a k6 summary and from Prometheus, and the drawing
    calls it makes of it, in order.  The drawing library and the HTTP client are not
    part of the repository: a drawing call is a value of [draw], the response of a
    URL is the argument [fetch].  Keyword arguments that have the same value in
    every call are left out of [draw].  What a chart had printed before it raised is
    not kept. *)
From Stdlib Require Import Floats.SpecFloat.
From S2P Require Import Prelude PyFloat PyJson Model PyUuid KVStore Effects Executor PyNum.

(** ** URLs ([urllib.parse.urlencode]) *)

Definition unreserved (c : ascii) : bool :=
  let n := N_of_ascii c in
  ((48 <=? n) && (n <=? 57) || (65 <=? n) && (n <=? 90) || (97 <=? n) && (n <=? 122))%N ||
  bool_decide (c ∈ chars "_.-~").

Definition hex_upper (n : N) : ascii := ascii_of_N (if (n <? 10)%N then 48 + n else 55 + n)%N.

(** [quote_plus], one byte. *)
Definition quote_byte (c : ascii) : list ascii :=
  if unreserved c then [c]
  else if decide (c = " "%char) then ["+"%char]
  else ["%"%char; hex_upper (N_of_ascii c / 16); hex_upper (N_of_ascii c mod 16)].

Definition quote_plus (s : list ascii) : list ascii := concat (quote_byte <$> s).

Definition pair_text (kv : string * string) : list ascii := quote_plus (chars kv.1) ++ "="%char :: quote_plus (chars kv.2).

Fixpoint join_amp (l : list (list ascii)) : list ascii :=
  match l with
  | [] => []
  | [x] => x
  | x :: l => x ++ "&"%char :: join_amp l
  end.

Definition urlencode (params : list (string * string)) : list ascii := join_amp (pair_text <$> params).

(** What a server makes of it. *)
Definition hex_value (c : ascii) : option N :=
  let n := N_of_ascii c in
  if ((48 <=? n) && (n <=? 57))%N then Some (n - 48)%N
  else if ((65 <=? n) && (n <=? 70))%N then Some (n - 55)%N else None.

Fixpoint unquote (l : list ascii) : list ascii :=
  match l with
  | [] => []
  | "+"%char :: l => " "%char :: unquote l
  | "%"%char :: a :: b :: l =>
      match hex_value a, hex_value b with
      | Some x, Some y => ascii_of_N (16 * x + y) :: unquote l
      | _, _ => "%"%char :: a :: b :: unquote l
      end
  | c :: l => c :: unquote l
  end.

(** The text before the first [c] and, if there is one, the text after it. *)
Fixpoint cut (c : ascii) (l : list ascii) : list ascii * option (list ascii) :=
  match l with
  | [] => ([], None)
  | x :: l => if decide (x = c) then ([], Some l) else let '(a, b) := cut c l in (x :: a, b)
  end.

Fixpoint split_amp (fuel : nat) (l : list ascii) : list (list ascii) :=
  match fuel with
  | 0 => []
  | S fuel => match cut "&" l with (a, Some rest) => a :: split_amp fuel rest | (a, None) => [a] end
  end.

Definition parse_pair (l : list ascii) : string * string :=
  let '(k, v) := cut "=" l in
  (String.string_of_list_ascii (unquote k), String.string_of_list_ascii (unquote (default [] v))).

Definition parse_query (l : list ascii) : list (string * string) := parse_pair <$> split_amp (S (length l)) l.

Lemma unquote_quote_byte c l : unquote (quote_byte c ++ l) = c :: unquote l.
Proof. destruct c as [[] [] [] [] [] [] [] []]; reflexivity. Qed.

Lemma quote_byte_plain c : ("&"%char ∉ quote_byte c) ∧ "="%char ∉ quote_byte c.
Proof. apply (bool_decide_unpack _). destruct c as [[] [] [] [] [] [] [] []]; vm_compute; exact I. Qed.

Lemma unquote_quote s : unquote (quote_plus s) = s.
Proof.
  unfold quote_plus. induction s as [|c s IH]; [done|]. rewrite fmap_cons, concat_cons, unquote_quote_byte. by rewrite IH.
Qed.

Lemma quote_plain s : ("&"%char ∉ quote_plus s) ∧ "="%char ∉ quote_plus s.
Proof.
  unfold quote_plus. induction s as [|c s [IH1 IH2]]; [split; apply not_elem_of_nil|].
  rewrite fmap_cons, concat_cons, !not_elem_of_app. destruct (quote_byte_plain c). tauto.
Qed.

Lemma cut_at c a b : c ∉ a → cut c (a ++ c :: b) = (a, Some b).
Proof.
  induction a as [|x a IH]; cbn; intros H; [by rewrite decide_True|].
  apply not_elem_of_cons in H as [Hx Ha]. rewrite decide_False by done. by rewrite IH.
Qed.

Lemma cut_none c a : c ∉ a → cut c a = (a, None).
Proof.
  induction a as [|x a IH]; cbn; intros H; [done|].
  apply not_elem_of_cons in H as [Hx Ha]. rewrite decide_False by done. by rewrite IH.
Qed.

Lemma pair_text_plain kv : "&"%char ∉ pair_text kv.
Proof.
  unfold pair_text. rewrite not_elem_of_app, not_elem_of_cons.
  destruct (quote_plain (chars kv.1)), (quote_plain (chars kv.2)). done.
Qed.

Lemma parse_pair_text kv : parse_pair (pair_text kv) = kv.
Proof.
  unfold parse_pair, pair_text. rewrite cut_at by apply quote_plain. cbn [default from_option]. unfold id. rewrite !unquote_quote.
  destruct kv as [k v]. unfold chars. cbn [fst snd]. by rewrite !String.string_of_list_ascii_of_string.
Qed.

Lemma split_join (l : list (list ascii)) fuel :
  l ≠ [] → Forall (λ x, "&"%char ∉ x) l → length l ≤ fuel → split_amp fuel (join_amp l) = l.
Proof.
  revert fuel. induction l as [|x l IH]; intros fuel Hne Hf Hlen; [done|]. destruct fuel as [|fuel]; [simpl in Hlen; lia|].
  apply Forall_cons in Hf as [Hx Hf]. destruct l as [|y l].
  - cbn. by rewrite cut_none.
  - change (join_amp (x :: y :: l)) with (x ++ "&"%char :: join_amp (y :: l)). cbn [split_amp].
    rewrite cut_at by done. f_equal. apply IH; [done|done|simpl in *; lia].
Qed.

Lemma join_length (l : list (list ascii)) : length l ≤ S (length (join_amp l)).
Proof.
  induction l as [|x [|y l] IH]; [simpl; lia|simpl; lia|].
  change (join_amp (x :: y :: l)) with (x ++ "&"%char :: join_amp (y :: l)). rewrite length_app. cbn [length] in *. lia.
Qed.

(** The parameters a URL was built from are the ones its query decodes to. *)
Lemma urlencode_roundtrip params : params ≠ [] → parse_query (urlencode params) = params.
Proof.
  intros Hne. unfold parse_query, urlencode. rewrite split_join.
  - rewrite <- list_fmap_compose. rewrite <- (list_fmap_id params) at 2. apply list_fmap_ext. intros i kv _. apply parse_pair_text.
  - by destruct params.
  - apply Forall_fmap, Forall_true. apply pair_text_plain.
  - apply join_length.
Qed.

(** ** Colours and rates *)

Definition SURFACE : string := "#fcfcfb".
Definition INK : string := "#0b0b0b".
Definition INK_2 : string := "#52514e".
Definition MUTED : string := "#898781".
Definition GRID : string := "#e1e0d9".
Definition BASELINE : string := "#c3c2b7".
Definition RAMP : list (string * string) := [("p50", "#86b6ef"); ("p95", "#2a78d6"); ("p99", "#0d366b")].
Definition CAT : list (string * string) := [("submitted", "#2a78d6"); ("completed", "#eb6834")].
Definition RATES : list Z := [10; 25; 50; 100; 150; 200]%Z.

Definition colour (palette : list (string * string)) (name : string) : string :=
  default "" (snd <$> head (filter (λ p, p.1 = name) palette)).

(** ** Drawing calls *)

Inductive draw :=
  | Subplots (width height : float) (dpi : Z)
  | FigFacecolor (color : string)
  | Suptitle (text : string) (x : float) (ha : string) (fontsize : Z) (fontweight color : string)
  | SetTitle (text loc : string) (fontsize : float) (color : string) (pad : Z)
  | SetFacecolor (color : string)
  | Grid (on : bool) (axis color : string) (linewidth : float)
  | SetAxisbelow (on : bool)
  | SpineVisible (side : string) (on : bool)
  | SpineColor (side color : string)
  | TickParams (colors : string) (labelsize : Z)
  | TickLabelsColor (color : string)                       (* each label of both axes *)
  | Plot (xs ys : list json) (color : string) (linewidth : Z) (marker : option (string * Z)) (label : string)
  | Annotate (text : string) (x y : json) (xytext : Z * Z) (fontsize : Z) (color : string)
  | SetXlabel (text : string) (fontsize : float) (color : string)
  | SetYlabel (text : string) (fontsize : float) (color : string)
  | SetXlim (lo hi : json)
  | SetYlim (bottom : json)
  | Legend (loc : string) (fontsize : Z) (labelcolor : string)
  | TightLayout (rect : float * float * float * float)
  | Savefig (out facecolor : string)
  | Print (line : string).

Definition style_axes : list draw :=
  [SetFacecolor SURFACE; Grid true "y" GRID (float_of_decimal false 75 (-2)); SetAxisbelow true] ++
  ((λ side, SpineVisible side false) <$> ["top"; "right"]) ++
  ((λ side, SpineColor side BASELINE) <$> ["left"; "bottom"]) ++
  [TickParams MUTED 9; TickLabelsColor INK_2].

Definition new_fig (title subtitle : string) : list draw :=
  [Subplots (fZ 8) (float_of_decimal false 45 (-1)) 150; FigFacecolor SURFACE;
   Suptitle title (float_of_decimal false 6 (-2)) "left" 13 "bold" INK;
   SetTitle subtitle "left" (float_of_decimal false 95 (-1)) INK_2 10] ++ style_axes.

(** The end of both charts. *)
Definition finish (out : string) : list draw :=
  [Legend "upper left" 9 INK_2; TightLayout (fZ 0, fZ 0, fZ 1, float_of_decimal false 94 (-2)); Savefig out SURFACE;
   Print ("wrote " +:+ out)].

(** ** Latency against offered load *)

(** [f"http_req_duration{{scenario:rate{rate}}}"] *)
Definition metric_name (rate : Z) : string := "http_req_duration{scenario:rate" +:+ pretty rate +:+ "}".

(** The loop over the rates, appending to the three lists. *)
Fixpoint read_series (summary : json) (rates : list Z) (series : list json * list json * list json)
    : result (list json * list json * list json) :=
  match rates with
  | [] => Ok series
  | rate :: rates =>
      let '(p50, p95, p99) := series in
      result_bind (getitem summary "metrics") (λ metrics,
      result_bind (getitem metrics (metric_name rate)) (λ m,
      result_bind (getitem m "med") (λ med,
      result_bind (getitem m "p(95)") (λ q95,
      result_bind (getitem m "p(99)") (λ q99,
      read_series summary rates (p50 ++ [med], p95 ++ [q95], p99 ++ [q99]))))))
  end.

Definition last_of (l : list json) : json := default JNull (last l).

Definition draw_series (name : string) (ys : list json) : list draw :=
  [Plot (JInt <$> RATES) ys (colour RAMP name) 2 (Some ("o", 5%Z)) name;
   Annotate name (last_of (JInt <$> RATES)) (last_of ys) (8, 0)%Z 9 INK_2].

Definition chart_latency (summary : json) (out : string) : result (list draw) :=
  result_bind (read_series summary RATES ([], [], [])) (λ series,
  let '(p50, p95, p99) := series in
  Ok (new_fig "Submit latency vs offered load"
        "POST /jobs on the local compose stack; 30s per rate window - lower is better" ++
      draw_series "p50" p50 ++ draw_series "p95" p95 ++ draw_series "p99" p99 ++
      [SetXlabel "offered load (submissions / second)" (float_of_decimal false 95 (-1)) INK_2;
       SetYlabel "latency (ms)" (float_of_decimal false 95 (-1)) INK_2;
       SetXlim (JInt 0) (JFloat (fZ 200 * float_of_decimal false 112 (-2))%float);
       SetYlim (JInt 0)] ++
      finish out)).

(** ** Throughput over time *)

Section prometheus.
(** [urllib.request.urlopen(url, timeout=30)] and [json.load] of the response. *)
Context (fetch : string → result json).

Definition prom_url (base query : string) (start end_ step : Z) : string :=
  base +:+ "/api/v1/query_range?" +:+
  String.string_of_list_ascii
    (urlencode [("query", query); ("start", pretty start); ("end", pretty end_); ("step", pretty step)]).

(** The characters of a text, as texts: continuation bytes belong to the byte before. *)
Fixpoint characters (l : list ascii) : list (list ascii) :=
  match l with
  | [] => []
  | c :: l =>
      match characters l, l with
      | x :: xs, d :: _ =>
          if ((128 <=? N_of_ascii d) && (N_of_ascii d <? 192))%N then (c :: x) :: xs else [c] :: x :: xs
      | xs, _ => [c] :: xs
      end
  end.

(** The items [for ... in v] goes through. *)
Definition items (v : json) : result (list json) :=
  match v with
  | JArr l => Ok l
  | JObj l => Ok (JStr <$> l.*1)
  | JStr s => Ok ((λ c, JStr (String.string_of_list_ascii c)) <$> characters (chars s))
  | _ => Raise (TypeError "object is not iterable")
  end.

(** [t, v = item] *)
Definition unpack2 (v : json) : result (json * json) :=
  result_bind (items v) (λ l,
    match l with [a; b] => Ok (a, b) | _ => Raise (ValueError "wrong number of values to unpack") end).

(** [v[0]], for a true [v] *)
Definition first_item (v : json) : result json :=
  match v with
  | JArr (x :: _) => Ok x
  | JStr _ => result_bind (items v) (λ l, match l with x :: _ => Ok x | [] => Raise (LookupError "string index out of range") end)
  | JObj _ => Raise (KeyError "0")
  | _ => Raise (TypeError "object is not subscriptable")
  end.

Definition point_of (item : json) : result (float * float) :=
  result_bind (unpack2 item) (λ tv,
  result_bind (float_of_json tv.1) (λ t,
  result_bind (float_of_json tv.2) (λ v, Ok (t, v)))).

Definition prom_range (base query : string) (start end_ step : Z) : result (list (float * float)) :=
  result_bind (fetch (prom_url base query start end_ step)) (λ data,
  result_bind (getitem data "data") (λ d,
  result_bind (getitem d "result") (λ res,
  if negb (truthy res) then Ok []
  else
    result_bind (first_item res) (λ series,
    result_bind (getitem series "values") (λ values,
    result_bind (items values) (λ l, map_result point_of l)))))).

(** [(t - start) / 60] *)
Definition minutes (start : Z) (t : float) : result float :=
  result_bind (float_of_int_py start) (λ s, Ok ((t - s) / fZ 60)%float).

(** The body of the loop over the two series. *)
Definition draw_line (base : string) (start end_ : Z) (name query : string) : result (list draw) :=
  result_bind (prom_range base query start end_ 5) (λ points,
  match points with
  | [] => Ok [Print ("warning: no data for " +:+ name)]
  | _ =>
      result_bind (map_result (minutes start) points.*1) (λ xs,
      let xs := JFloat <$> xs in
      let ys := JFloat <$> points.*2 in
      Ok [Plot xs ys (colour CAT name) 2 None name; Annotate name (last_of xs) (last_of ys) (8, 0)%Z 9 INK_2])
  end).

Definition SERIES : list (string * string) :=
  [("submitted", "sum(rate(orbiter_jobs_submitted_total[15s]))");
   ("completed", "sum(rate(orbiter_jobs_completed_total[15s]))")].

Definition chart_timeline (base : string) (start end_ : Z) (out : string) : result (list draw) :=
  result_bind (map_result (λ s, draw_line base start end_ s.1 s.2) SERIES) (λ lines,
  Ok (new_fig "Throughput during the load test"
        "submissions accepted vs jobs completed; the gap is the queue absorbing overload" ++
      concat lines ++
      [SetXlabel "minutes since test start" (float_of_decimal false 95 (-1)) INK_2;
       SetYlabel "jobs / second" (float_of_decimal false 95 (-1)) INK_2;
       SetYlim (JInt 0)] ++
      finish out)).
End prometheus.

(** ** What is drawn *)

(** The lines of a chart: label and points. *)
Definition lines_of (l : list draw) : list (string * list (json * json)) :=
  omap (λ d, match d with Plot xs ys _ _ _ label => Some (label, zip xs ys) | _ => None end) l.

(** The percentiles of one rate. *)
Definition percentiles (summary : json) (rate : Z) : result (json * json * json) :=
  result_bind (getitem summary "metrics") (λ metrics,
  result_bind (getitem metrics (metric_name rate)) (λ m,
  result_bind (getitem m "med") (λ med,
  result_bind (getitem m "p(95)") (λ q95,
  result_bind (getitem m "p(99)") (λ q99, Ok (med, q95, q99)))))).

Lemma read_series_eq summary rates a b c :
  read_series summary rates (a, b, c) =
  result_bind (map_result (percentiles summary) rates) (λ l,
    Ok (a ++ ((λ q, q.1.1) <$> l), b ++ ((λ q, q.1.2) <$> l), c ++ ((λ q, q.2) <$> l))).
Proof.
  revert a b c. induction rates as [|rate rates IH]; intros a b c; cbn [read_series map_result].
  - cbn. by rewrite !app_nil_r.
  - unfold percentiles at 1. destruct (getitem summary "metrics") as [ms|]; [|done]. cbn [result_bind].
    destruct (getitem ms (metric_name rate)) as [m|]; [|done]. cbn [result_bind].
    destruct (getitem m "med"), (getitem m "p(95)"), (getitem m "p(99)"); cbn [result_bind]; try done.
    rewrite IH. destruct (map_result _ rates) as [l|]; [|done]. cbn [result_bind]. rewrite !fmap_cons, <- !app_assoc. done.
Qed.

(** The latency chart shows, for every rate, that rate's own percentiles, or the
    script raises at the first one that is missing and writes no file. *)
Theorem latency_lines (summary : json) (out : string) :
  match map_result (percentiles summary) RATES with
  | Ok l => ∃ draws, chart_latency summary out = Ok draws ∧ Savefig out SURFACE ∈ draws ∧
      lines_of draws = [("p50", zip (JInt <$> RATES) ((λ q, q.1.1) <$> l)); ("p95", zip (JInt <$> RATES) ((λ q, q.1.2) <$> l));
                        ("p99", zip (JInt <$> RATES) ((λ q, q.2) <$> l))]
  | Raise x => chart_latency summary out = Raise x
  end.
Proof.
  unfold chart_latency. rewrite read_series_eq. destruct (map_result _ RATES) as [l|x]; [|done]. cbn [result_bind].
  eexists. split; [reflexivity|]. split; [|reflexivity]. repeat (apply elem_of_app; right). apply list_elem_of_lookup. by exists 2.
Qed.

(** A line of the timeline. *)
Definition shows (fetch : string → result json) (base : string) (start end_ : Z) (s : string * string)
    (line : list (string * list (json * json))) : Prop :=
  ∃ points xs, prom_range fetch base s.2 start end_ 5 = Ok points ∧ map_result (minutes start) points.*1 = Ok xs ∧
    line = match points with [] => [] | _ => [(s.1, zip (JFloat <$> xs) (JFloat <$> points.*2))] end.

Lemma draw_line_shows fetch base start end_ s l :
  draw_line fetch base start end_ s.1 s.2 = Ok l → shows fetch base start end_ s (lines_of l).
Proof.
  unfold draw_line. destruct (prom_range fetch base s.2 start end_ 5) as [points|] eqn:E; [|done]. cbn [result_bind].
  destruct points as [|pt points].
  - intros [= <-]. exists [], []. by rewrite E.
  - destruct (map_result (minutes start) _) as [xs|] eqn:Em; [|done]. cbn [result_bind]. intros [= <-].
    exists (pt :: points), xs. by rewrite E, Em.
Qed.

Lemma lines_of_app l1 l2 : lines_of (l1 ++ l2) = lines_of l1 ++ lines_of l2.
Proof. apply omap_app. Qed.

(** The timeline shows the two series, in this order, each point in minutes since
    the start, and nothing for a series without data; the queries it asks are the
    ones its URLs decode to. *)
Theorem timeline_lines (fetch : string → result json) (base : string) (start end_ : Z) (out : string) (draws : list draw) :
  chart_timeline fetch base start end_ out = Ok draws →
  ∃ l1 l2, Forall2 (shows fetch base start end_) SERIES [l1; l2] ∧ lines_of draws = l1 ++ l2 ∧ Savefig out SURFACE ∈ draws ∧
  Forall (λ s, ∃ q, prom_url base s.2 start end_ 5 = base +:+ "/api/v1/query_range?" +:+ String.string_of_list_ascii q ∧
    parse_query q = [("query", s.2); ("start", pretty start); ("end", pretty end_); ("step", "5")]) SERIES.
Proof.
  unfold chart_timeline, SERIES. cbn [map_result].
  destruct (draw_line fetch base start end_ _ _) as [l1|] eqn:E1; [|done]. cbn [result_bind].
  destruct (draw_line fetch base start end_ (_, "sum(rate(orbiter_jobs_completed_total[15s]))").1 _) as [l2|] eqn:E2; [|done].
  cbn [result_bind]. intros Ed. pose proof (f_equal (λ r, match r with Ok x => x | Raise _ => [] end) Ed) as Ex.
  cbn beta iota in Ex. subst draws. clear Ed. exists (lines_of l1), (lines_of l2). split_and!.
  - repeat constructor; by apply draw_line_shows.
  - rewrite !lines_of_app. cbn [concat]. rewrite !lines_of_app. cbn. by rewrite !app_nil_r.
  - repeat (apply elem_of_app; right). apply list_elem_of_lookup. by exists 2.
  - repeat constructor; (eexists; split; [reflexivity|]; by rewrite urlencode_roundtrip).
Qed.

(** ** The script *)

(** *** Paths ([pathlib.PurePosixPath]) *)

Fixpoint path_parts (part l : list ascii) : list (list ascii) :=
  match l with
  | [] => [part]
  | c :: l => if decide (c = "/"%char) then part :: path_parts [] l else path_parts (part ++ [c]) l
  end.

(** Exactly two leading slashes are kept, more than two are one. *)
Definition path_root (l : list ascii) : list ascii :=
  match l with
  | "/"%char :: "/"%char :: "/"%char :: _ => ["/"%char]
  | "/"%char :: "/"%char :: _ => ["/"%char; "/"%char]
  | "/"%char :: _ => ["/"%char]
  | _ => []
  end.

Fixpoint join_slash (l : list (list ascii)) : list ascii :=
  match l with
  | [] => []
  | [x] => x
  | x :: l => x ++ "/"%char :: join_slash l
  end.

(** [str(Path(s))] *)
Definition path_str (s : string) : string :=
  let parts := filter (λ x, x ≠ [] ∧ x ≠ ["."%char]) (path_parts [] (chars s)) in
  let text := path_root (chars s) ++ join_slash parts in
  if decide (text = []) then "." else String.string_of_list_ascii text.

(** [path / name], for a relative [name] *)
Definition path_join (path name : string) : string :=
  path_str (path +:+ (if decide (last (chars path) = Some "/"%char) then "" else "/") +:+ name).

(** *** The command line *)

Record Args := mkArgs { summary_path : string; start_arg : Z; end_arg : Z; prometheus : string; out_dir : string }.

(** What has been given so far of the five options. *)
Record Options := mkOptions {
  opt_summary : option string; opt_start : option Z; opt_end : option Z; opt_prometheus : option string; opt_out_dir : option string
}.

(** One option, written in full and followed by its value; a later one replaces an
    earlier one. *)
Definition add_option (o : Options) (flag value : string) : option Options :=
  let '(mkOptions s b e p d) := o in
  let int := match int_of_str value with Ok z => Some z | Raise _ => None end in
  if decide (flag = "--summary") then Some (mkOptions (Some (path_str value)) b e p d)
  else if decide (flag = "--start") then (λ z, mkOptions s (Some z) e p d) <$> int
  else if decide (flag = "--end") then (λ z, mkOptions s b (Some z) p d) <$> int
  else if decide (flag = "--prometheus") then Some (mkOptions s b e (Some value) d)
  else if decide (flag = "--out-dir") then Some (mkOptions s b e p (Some (path_str value)))
  else None.

Fixpoint add_options (o : Options) (argv : list (string * string)) : option Options :=
  match argv with
  | [] => Some o
  | (flag, value) :: argv => match add_option o flag value with Some o => add_options o argv | None => None end
  end.

(** [parser.parse_args()]; [None] is the usage message and exit status 2. *)
Definition parse_args (argv : list (string * string)) : option Args :=
  match add_options (mkOptions None None None None None) argv with
  | Some (mkOptions (Some s) (Some b) (Some e) p d) =>
      Some (mkArgs s b e (default "http://localhost:9090" p) (default "results" d))
  | _ => None
  end.

Section main.
(** The file system and the HTTP client. *)
Context (mkdir : string → result unit) (load : string → result json) (fetch : string → result json).

(** What was drawn and printed, and how the script ended. *)
Definition main (argv : list (string * string)) : list draw * option (result unit) :=
  match parse_args argv with
  | None => ([], None)
  | Some args =>
      match mkdir (out_dir args) with
      | Raise x => ([], Some (Raise x))
      | Ok _ =>
          match load (summary_path args) with
          | Raise x => ([], Some (Raise x))
          | Ok summary =>
              match chart_latency summary (path_join (out_dir args) "latency-vs-load.png") with
              | Raise x => ([], Some (Raise x))
              | Ok l1 =>
                  match chart_timeline fetch (prometheus args) (start_arg args) (end_arg args)
                          (path_join (out_dir args) "throughput-timeline.png") with
                  | Raise x => (l1, Some (Raise x))
                  | Ok l2 => (l1 ++ l2, Some (Ok tt))
                  end
              end
          end
      end
  end.

(** The files a run has written. *)
Definition saved (l : list draw) : list string := omap (λ d, match d with Savefig out _ => Some out | _ => None end) l.

Lemma saved_app l1 l2 : saved (l1 ++ l2) = saved l1 ++ saved l2.
Proof. apply omap_app. Qed.

Lemma saved_latency summary out l : chart_latency summary out = Ok l → saved l = [out].
Proof.
  unfold chart_latency. destruct (read_series _ _ _) as [[[a b] c]|]; [|done]. cbn [result_bind]. by intros [= <-].
Qed.

Lemma saved_line base start end_ name query l : draw_line fetch base start end_ name query = Ok l → saved l = [].
Proof.
  unfold draw_line. destruct (prom_range _ _ _ _ _ _) as [[|pt points]|]; [|..|done]; cbn [result_bind]; [by intros [= <-]|].
  destruct (map_result _ _); [|done]. by intros [= <-].
Qed.

Lemma saved_timeline base start end_ out l : chart_timeline fetch base start end_ out = Ok l → saved l = [out].
Proof.
  unfold chart_timeline, SERIES. cbn [map_result].
  destruct (draw_line fetch base start end_ _ _) as [l1|] eqn:E1; [|done]. cbn [result_bind].
  destruct (draw_line fetch base start end_ (_, "sum(rate(orbiter_jobs_completed_total[15s]))").1 _) as [l2|] eqn:E2; [|done].
  cbn [result_bind]. intros Ed. pose proof (f_equal (λ r, match r with Ok x => x | Raise _ => [] end) Ed) as Ex.
  cbn beta iota in Ex. subst l. rewrite !saved_app. cbn [concat]. rewrite !saved_app.
  rewrite (saved_line _ _ _ _ _ _ E1), (saved_line _ _ _ _ _ _ E2). done.
Qed.

(** A run that succeeds has written both charts, the latency chart first; one that
    does not has written at most the latency chart; and a command line that is not
    accepted writes and draws nothing. *)
Theorem main_files argv :
  match parse_args argv with
  | None => main argv = ([], None)
  | Some args =>
      let files := [path_join (out_dir args) "latency-vs-load.png"; path_join (out_dir args) "throughput-timeline.png"] in
      match (main argv).2 with
      | Some (Ok _) => saved (main argv).1 = files
      | _ => saved (main argv).1 = [] ∨ saved (main argv).1 = take 1 files
      end
  end.
Proof.
  unfold main. destruct (parse_args argv) as [args|]; [|done]. cbn zeta.
  destruct (mkdir _); [|by left]. destruct (load _) as [summary|]; [|by left].
  destruct (chart_latency _ _) as [l1|] eqn:E1; [|by left]. apply saved_latency in E1.
  destruct (chart_timeline _ _ _ _ _) as [l2|] eqn:E2; [|by right]. apply saved_timeline in E2.
  cbn [fst snd]. by rewrite saved_app, E1, E2.
Qed.
End main.

Example path_examples :
  path_join "results" "a.png" = "results/a.png" ∧ path_join "./out//b/" "a.png" = "out/b/a.png" ∧ path_join "/" "a.png" = "/a.png" ∧
  path_str "" = "." ∧ path_str "//x" = "//x" ∧ path_str "///x/." = "/x" ∧ path_join "." "a.png" = "a.png".
Proof. vm_compute. done. Qed.

Example parse_examples :
  parse_args [("--summary", "s.json"); ("--start", "10"); ("--end", "1_000")] =
    Some (mkArgs "s.json" 10 1000 "http://localhost:9090" "results") ∧
  parse_args [("--summary", "s.json"); ("--start", "10")] = None ∧
  parse_args [("--summary", "s.json"); ("--start", "x"); ("--end", "1000")] = None.
Proof. vm_compute. done. Qed.
