(* ===== verification/Api.v ===== *)
(** * The HTTP API ([src/orbiter/api/app.py])

    The handlers over the repository and the admission controller: what they
    answer on every branch, and concurrent submissions sharing one controller. *)
From Stdlib Require Import Floats.SpecFloat.
From stdpp Require Import sorting.
From S2P Require Import Prelude PyFloat FloatBounds PyJson Model StateMachine PyUuid KVStore Effects Fencing Repo Config.
From S2P Require Import Admission Executor PyNum Worker World Views.

(** ** Requests and responses *)

Record SubmitRequest := mkSubmitRequest { sr_duration_ms : Z; sr_failure_rate : float; sr_poison : bool }.

(** The bounds of the [Field]s; what they reject is answered 422 before the handler runs. *)
Definition SubmitRequest_valid (r : SubmitRequest) : bool :=
  ((0 <=? sr_duration_ms r) && (sr_duration_ms r <=? 600000))%Z &&
  ((fZ 0 <=? sr_failure_rate r)%float && (sr_failure_rate r <=? fZ 1)%float).

(** [body.model_dump()] *)
Definition model_dump (r : SubmitRequest) : dict :=
  [("duration_ms", JInt (sr_duration_ms r)); ("failure_rate", JFloat (sr_failure_rate r)); ("poison", JBool (sr_poison r))].

Record SubmitResponse := mkSubmitResponse { sp_id : string; sp_state : string; sp_created : bool }.

(** The response model as JSON. *)
Definition SubmitResponse_dump (r : SubmitResponse) : json :=
  JObj [("id", JStr (sp_id r)); ("state", JStr (sp_state r)); ("created", JBool (sp_created r))].

Record Response := mkResponse { status_code : Z; body : json }.

(** [repr] of a state, and [str] of the exception. *)
Definition repr_state (s : option JobState.t) : string :=
  match s with
  | None => "None"
  | Some s => "<JobState." +:+ JobState.name s +:+ ": '" +:+ JobState.value s +:+ "'>"
  end.
Definition str_IllegalTransition (s : option JobState.t) (e : EventType.t) : string :=
  "event '" +:+ EventType.value e +:+ "' is not legal in state " +:+ repr_state s.

(** ** Submission *)

(** Up to the [try]: take a slot or refuse. *)
Definition submit_enter (admission : AdmissionController.t) : result unit * AdmissionController.t :=
  match AdmissionController.try_acquire admission with
  | (false, admission) =>
      (Raise (HTTPException 429 "submission capacity exceeded; retry later"
                [("Retry-After", pretty (AdmissionController.retry_after_s admission))]), admission)
  | (true, admission) => (Ok tt, admission)
  end.

(** [str(job_id)] *)
Definition str_job_id (id : option uuid) : string := match id with Some u => uuid_str u | None => "None" end.

(** From the [finally] on: give the slot back, then answer or re-raise. *)
Definition submit_leave (admission : AdmissionController.t) (outcome : result (option uuid * bool))
    : result Response * AdmissionController.t :=
  match AdmissionController.release admission with
  | Raise e => (Raise e, admission)
  | Ok admission =>
      match outcome with
      | Raise e => (Raise e, admission)
      | Ok (job_id, created) =>
          (Ok (mkResponse (if (created : bool) then 201 else 200)
                 (SubmitResponse_dump (mkSubmitResponse (str_job_id job_id) "queued" created))), admission)
      end
  end.

(** The whole handler, undisturbed; [job_id] is what [uuid4] returns, [carrier] the
    trace context. *)
Definition submit (cfg : Settings) (now : Z) (job_id : uuid) (carrier : dict) (key : string) (req : SubmitRequest)
    (st : AdmissionController.t * DB) : result Response * (AdmissionController.t * DB) :=
  let '(admission, db) := st in
  match submit_enter admission with
  | (Raise e, admission) => (Raise e, (admission, db))
  | (Ok _, admission) =>
      let '(r, db) := submit_job now job_id carrier key (model_dump req) (subject_jobs cfg) db in
      let '(o, admission) := submit_leave admission r in
      (o, (admission, db))
  end.

(** ** Status, dead letters, replay *)

(** [uuid.UUID(job_id)], [ValueError] answered 422. *)
Definition parse_id (job_id : string) : result uuid :=
  match UUID job_id with
  | Ok u => Ok u
  | Raise (ValueError _) => Raise (HTTPException 422 "job_id must be a UUID" [])
  | Raise e => Raise e
  end.

Definition status (job_id : string) (db db' : DB) : result json :=
  match parse_id job_id with
  | Raise e => Raise e
  | Ok parsed =>
      match get_job parsed db db' with
      | None => Raise (HTTPException 404 "no such job" [])
      | Some job => Ok job
      end
  end.

Definition dlq (db : DB) : list json := list_jobs_by_state JobState.DEAD_LETTER db.

Definition recent_jobs (db : DB) : list json := list_recent_jobs 25 db.

Definition replay (cfg : Settings) (now : Z) (job_id : string) (db : DB) : result json * DB :=
  match parse_id job_id with
  | Raise e => (Raise e, db)
  | Ok parsed =>
      match replay_job now parsed (subject_jobs cfg) db with
      | (Raise (IllegalTransition s e), db) =>
          (Raise (HTTPException 409 ("only dead-lettered jobs can be replayed: " +:+ str_IllegalTransition s e) []), db)
      | (Raise e, db) => (Raise e, db)
      | (Ok None, db) => (Raise (HTTPException 404 "no such job" []), db)
      | (Ok (Some state), db) => (Ok (JObj [("id", JStr job_id); ("state", JStr (JobState.value state))]), db)
      end
  end.

(** [connected]: whether the broker connection of the lifespan exists. *)
Definition chaos_kill_worker (cfg : Settings) (connected : bool) : prog json :=
  if negb connected then Throw (HTTPException 503 "no broker connection" [])
  else
    let! _ := await (NatsPublish (subject_chaos cfg) "die") in
    Ret (JObj [("chaos", JStr "one worker is about to have a very bad day")]).

Definition healthz : prog json :=
  let! _ := await SelectOne in
  Ret (JObj [("status", JStr "ok")]).

(** ** Concurrent submissions

    Requests in flight between [submit_enter] and [submit_leave] share the
    controller; the transaction of each is one atomic step, or fails. *)
Record api := mkApi {
  ap_admission : AdmissionController.t;
  ap_db : DB;
  ap_pending : gmap nat (string * SubmitRequest);
  ap_answers : list (nat * result Response)
}.

Inductive api_step (cfg : Settings) : api → api → Prop :=
  | api_admitted a n key req adm :
      ap_pending a !! n = None → submit_enter (ap_admission a) = (Ok tt, adm) →
      api_step cfg a (mkApi adm (ap_db a) (<[n := (key, req)]> (ap_pending a)) (ap_answers a))
  | api_refused a n x adm :
      submit_enter (ap_admission a) = (Raise x, adm) →
      api_step cfg a (mkApi adm (ap_db a) (ap_pending a) (ap_answers a ++ [(n, Raise x)]))
  | api_done a n key req now id carrier r db o adm :
      ap_pending a !! n = Some (key, req) →
      submit_job now id carrier key (model_dump req) (subject_jobs cfg) (ap_db a) = (r, db) →
      submit_leave (ap_admission a) r = (o, adm) →
      api_step cfg a (mkApi adm db (delete n (ap_pending a)) (ap_answers a ++ [(n, o)]))
  | api_failed a n key req what o adm :     (* the database is unreachable, or the client is gone *)
      ap_pending a !! n = Some (key, req) →
      submit_leave (ap_admission a) (Raise (ExternalError what)) = (o, adm) →
      api_step cfg a (mkApi adm (ap_db a) (delete n (ap_pending a)) (ap_answers a ++ [(n, o)]))
  | api_other a db :
      repo_step (ap_db a) db → api_step cfg a (mkApi (ap_admission a) db (ap_pending a) (ap_answers a)).

(** *** The controller and the requests in flight *)

Record api_ok (a : api) : Prop := {
  ao_inv : AdmissionController.inv (ap_admission a);
  ao_count : AdmissionController.in_flight (ap_admission a) = Z.of_nat (size (ap_pending a));
  ao_answers n x : (n, Raise x) ∈ ap_answers a → ∀ m, x ≠ RuntimeError m
}.

Lemma submit_enter_spec adm :
  AdmissionController.inv adm →
  submit_enter adm =
    if decide (AdmissionController.available adm = 0%Z)
    then (Raise (HTTPException 429 "submission capacity exceeded; retry later"
                   [("Retry-After", pretty (AdmissionController.retry_after_s adm))]), adm)
    else (Ok tt, AdmissionController.mk (AdmissionController.capacity adm) (AdmissionController.retry_after_s adm)
                   (AdmissionController.in_flight adm + 1)).
Proof.
  intros Hi. unfold submit_enter. rewrite AdmissionController.try_acquire_spec by done. by case_decide.
Qed.

Lemma submit_leave_spec adm r :
  (0 < AdmissionController.in_flight adm)%Z →
  submit_leave adm r =
    (match r with
     | Raise e => Raise e
     | Ok (job_id, created) =>
         Ok (mkResponse (if (created : bool) then 201 else 200)
               (JObj [("id", JStr (str_job_id job_id)); ("state", JStr "queued"); ("created", JBool created)]))
     end,
     AdmissionController.mk (AdmissionController.capacity adm) (AdmissionController.retry_after_s adm)
       (AdmissionController.in_flight adm - 1)).
Proof. intros Hf. unfold submit_leave. rewrite AdmissionController.release_Ok by done. by destruct r as [[? []]|]. Qed.

(** Leaving: one request less on both sides, and never an unmatched release. *)
Lemma api_ok_leave a n kr r o adm db :
  api_ok a → ap_pending a !! n = Some kr → submit_leave (ap_admission a) r = (o, adm) →
  (∀ x, r = Raise x → ∀ m, x ≠ RuntimeError m) →
  api_ok (mkApi adm db (delete n (ap_pending a)) (ap_answers a ++ [(n, o)])).
Proof.
  intros [[Hc Hf] Hn Ha] Hp Hl Hr.
  assert (Hs : size (ap_pending a) = S (size (delete n (ap_pending a)))).
  { rewrite map_size_delete_Some by eauto. pose proof (map_size_ne_0_lookup_2 (ap_pending a) n). destruct (size _); naive_solver. }
  unfold AdmissionController.in_flight in *.
  rewrite submit_leave_spec in Hl by (unfold AdmissionController.in_flight; lia). injection Hl as <- <-.
  split; cbn [ap_admission ap_pending ap_answers]; [split; cbn; unfold AdmissionController.in_flight; lia
                                                    |unfold AdmissionController.in_flight; cbn; lia|].
  intros n' x [Hx|Hx]%elem_of_app; [by eapply Ha|]. apply list_elem_of_singleton in Hx. injection Hx as -> Hx.
  destruct r as [[? ?]|y]; [done|]. injection Hx as ->. by apply Hr.
Qed.

Lemma api_ok_step cfg a a' : api_step cfg a a' → api_ok a → api_ok a'.
Proof.
  intros Hs Hok. destruct Hs as [a n key req adm Hp He|a n x adm He|a n key req now id carrier r db o adm Hp Hr Hl
    |a n key req what o adm Hp Hl|a db Hst].
  - destruct Hok as [Hi Hn Ha]. rewrite submit_enter_spec in He by done. case_decide as Hav; [done|]. injection He as <-.
    unfold AdmissionController.available, AdmissionController.in_flight, AdmissionController.inv in *.
    split; cbn [ap_admission ap_pending ap_answers]; [unfold AdmissionController.inv; cbn; lia| |done].
    unfold AdmissionController.in_flight. cbn. rewrite map_size_insert_None by done. lia.
  - destruct Hok as [Hi Hn Ha]. rewrite submit_enter_spec in He by done. case_decide; [|done]. injection He as <- <-.
    split; cbn; [done..|]. intros n' x [Hx|Hx]%elem_of_app; [by eapply Ha|].
    apply list_elem_of_singleton in Hx. by injection Hx as -> ->.
  - eapply api_ok_leave; [done|done|exact Hl|]. intros x ->. revert Hr. rewrite submit_job_eq.
    destruct (job_by_key key (ap_db a)); [done|]. destruct (jobs (ap_db a) !! id); [|done]. by intros [= <- _].
  - eapply api_ok_leave; [done|done|exact Hl|]. by intros x [= <-].
  - by destruct Hok.
Qed.

Definition api_start (adm : AdmissionController.t) (db : DB) : api := mkApi adm db ∅ [].

Lemma api_reachable_ok cfg c retry adm db a :
  AdmissionController.init c retry = Ok adm → rtc (api_step cfg) (api_start adm db) a →
  api_ok a ∧ AdmissionController.capacity (ap_admission a) = c ∧ AdmissionController.retry_after_s (ap_admission a) = retry.
Proof.
  intros Hi Hr. apply AdmissionController.init_inv in Hi as (Hinv & Hf & Hc & Hre).
  assert (H0 : api_ok (api_start adm db) ∧ AdmissionController.capacity (ap_admission (api_start adm db)) = c ∧
               AdmissionController.retry_after_s (ap_admission (api_start adm db)) = retry).
  { split; [|done]. split; cbn; [done|done|set_solver]. }
  revert H0. induction Hr as [|x y z Hs _ IH]; intros (Hok & H1 & H2); [done|]. apply IH.
  split; [by eapply api_ok_step|]. clear IH. pose proof Hok as [Hx Hn _].
  destruct Hs as [a n key req ad Hp He|a n x ad He|a n key req now id carrier r db' o ad Hp Hr Hl
    |a n key req what o ad Hp Hl|a db' Hst]; cbn [ap_admission]; try done.
  - rewrite submit_enter_spec in He by done. case_decide; [done|]. by injection He as <-.
  - rewrite submit_enter_spec in He by done. case_decide; [|done]. by injection He as <- <-.
  - assert (size (ap_pending a) ≠ 0) by (eapply map_size_ne_0_lookup_2; eauto).
    rewrite submit_leave_spec in Hl by (rewrite Hn; lia). by injection Hl as <- <-.
  - assert (size (ap_pending a) ≠ 0) by (eapply map_size_ne_0_lookup_2; eauto).
    rewrite submit_leave_spec in Hl by (rewrite Hn; lia). by injection Hl as <- <-.
Qed.

(** *** Reading while others write *)

Lemma repo_step_events db db' : repo_step db db' → ∃ l, job_events db' = job_events db ++ l.
Proof.
  intros H%repo_step_change. destruct H; cbn; try (by eexists); exists []; by rewrite app_nil_r.
Qed.

Lemma repo_steps_events id db db' :
  rtc repo_step empty_db db → rtc repo_step db db' → select_events id db `prefix_of` select_events id db'.
Proof.
  intros H0 H. assert (H1 : rtc repo_step empty_db db') by (by etrans).
  rewrite !select_events_rows by (by apply reachable_ok). clear H0 H1. unfold rows_of.
  induction H as [|x y z Hs _ IH]; [done|]. destruct (repo_step_events x y Hs) as [l El].
  etrans; [|exact IH]. rewrite El, filter_app. by eexists.
Qed.

Lemma parse_id_spec s :
  match UUID s with
  | Ok u => parse_id s = Ok u
  | Raise _ => parse_id s = Raise (HTTPException 422 "job_id must be a UUID" [])
  end.
Proof.
  unfold parse_id. destruct (UUID s) as [u|x] eqn:E; [done|]. apply UUID_error in E as [m ->]. done.
Qed.

(** An undisturbed submission, on every branch. *)
Lemma submit_answers_lemma (cfg : Settings) (now : Z) (id : uuid) (carrier : dict) (key : string) (req : SubmitRequest)
    (adm : AdmissionController.t) (db : DB) :
  AdmissionController.inv adm →
  let reply (i : uuid) (created : bool) :=
    JObj [("id", JStr (uuid_str i)); ("state", JStr "queued"); ("created", JBool created)] in
  submit cfg now id carrier key req (adm, db) =
    if decide (AdmissionController.available adm = 0%Z)
    then (Raise (HTTPException 429 "submission capacity exceeded; retry later"
                   [("Retry-After", pretty (AdmissionController.retry_after_s adm))]), (adm, db))
    else match job_by_key key db with
         | Some existing => (Ok (mkResponse 200 (reply existing false)), (adm, db))
         | None =>
             match jobs db !! id with
             | Some _ => (Raise (UniqueViolationError "jobs_pkey"), (adm, db))
             | None => (Ok (mkResponse 201 (reply id true)),
                        (adm, write_submission now id carrier key (model_dump req) (subject_jobs cfg) db))
             end
         end.
Proof.
  intros Hi reply. unfold submit. rewrite submit_enter_spec by done. case_decide as Hav; [done|].
  destruct adm as [c retry f]. unfold AdmissionController.available, AdmissionController.inv in *. cbn in *.
  rewrite submit_job_eq.
  destruct (job_by_key key db) as [i|]; [|destruct (jobs db !! id)];
    rewrite submit_leave_spec by (cbn; unfold AdmissionController.in_flight; cbn; lia);
    unfold AdmissionController.in_flight; cbn; by replace (f + 1 - 1)%Z with f by lia.
Qed.

(** * Properties *)

(** C33: admission control under concurrency.  Whatever requests arrive, finish or
    fail in whatever order, the controller counts exactly the requests in
    flight, never more than its capacity; a newcomer is refused, with 429 and
    the configured Retry-After, exactly when the capacity is used up; and no
    request is ever answered by the controller's own error for an unmatched
    release, so failed requests give their slot back too. *)
Theorem admission_bounded (cfg : Settings) (c retry : Z) (adm : AdmissionController.t) (db : DB) (a : api) :
  AdmissionController.init c retry = Ok adm → rtc (api_step cfg) (api_start adm db) a →
  AdmissionController.in_flight (ap_admission a) = Z.of_nat (size (ap_pending a)) ∧
  (Z.of_nat (size (ap_pending a)) ≤ c)%Z ∧
  ((submit_enter (ap_admission a)).1 =
     Raise (HTTPException 429 "submission capacity exceeded; retry later" [("Retry-After", pretty retry)]) ↔
   Z.of_nat (size (ap_pending a)) = c) ∧
  (∀ n m, (n, Raise (RuntimeError m)) ∉ ap_answers a).
Proof.
  intros Hi Hr. destruct (api_reachable_ok cfg c retry adm db a Hi Hr) as ([Hinv Hn Ha] & Hc & Hre).
  split; [done|]. pose proof Hinv as [_ Hle]. unfold AdmissionController.in_flight in Hn. split; [lia|]. split.
  - rewrite submit_enter_spec, Hre by done. unfold AdmissionController.available.
    case_decide; cbn [fst]; (split; [|]); try done; lia.
  - intros n m Hin. by eapply Ha.
Qed.

Definition sample_request : SubmitRequest := mkSubmitRequest 250 (fZ 0) false.

(** One slot, taken by one request; the next one is turned away. *)
Definition full_api : api :=
  mkApi (AdmissionController.mk 1 3 1) empty_db {[0 := ("key-1", sample_request)]}
    [(1, Raise (HTTPException 429 "submission capacity exceeded; retry later" [("Retry-After", "3")]))].

Lemma full_api_reachable : rtc (api_step default_settings) (api_start (AdmissionController.mk 1 3 0) empty_db) full_api.
Proof.
  eapply rtc_l; [by apply (api_admitted _ _ 0 "key-1" sample_request (AdmissionController.mk 1 3 1))|].
  eapply rtc_l; [by eapply (api_refused _ _ 1)|]. apply rtc_refl.
Qed.

Lemma admission_bounded_witness :
  (submit_enter (AdmissionController.mk 1 3 1)).1 =
     Raise (HTTPException 429 "submission capacity exceeded; retry later" [("Retry-After", "3")]).
Proof.
  apply (admission_bounded default_settings 1 3 (AdmissionController.mk 1 3 0) empty_db full_api);
    [reflexivity|exact full_api_reachable|reflexivity].
Defined.

(** C35: what a submission answers.  No free slot: 429 with Retry-After.  A key seen
    before: 200 and the id of the existing job, nothing written.  A new key: 201,
    the job with its first two events and its outbox row written.  In every case,
    errors included, the controller is afterwards as it was before. *)
Theorem submit_answers (cfg : Settings) (now : Z) (id : uuid) (carrier : dict) (key : string) (req : SubmitRequest)
    (adm : AdmissionController.t) (db : DB) :
  AdmissionController.inv adm →
  let reply (i : uuid) (created : bool) :=
    JObj [("id", JStr (uuid_str i)); ("state", JStr "queued"); ("created", JBool created)] in
  submit cfg now id carrier key req (adm, db) =
    if decide (AdmissionController.available adm = 0%Z)
    then (Raise (HTTPException 429 "submission capacity exceeded; retry later"
                   [("Retry-After", pretty (AdmissionController.retry_after_s adm))]), (adm, db))
    else match job_by_key key db with
         | Some existing => (Ok (mkResponse 200 (reply existing false)), (adm, db))
         | None =>
             match jobs db !! id with
             | Some _ => (Raise (UniqueViolationError "jobs_pkey"), (adm, db))
             | None => (Ok (mkResponse 201 (reply id true)),
                        (adm, write_submission now id carrier key (model_dump req) (subject_jobs cfg) db))
             end
         end.
Proof. apply submit_answers_lemma. Qed.

Lemma submit_answers_witness :
  (submit default_settings 200 9 [] "key-1" sample_request (AdmissionController.mk 64 1 0, sample_db5)).1 =
  Ok (mkResponse 200 (JObj [("id", JStr (uuid_str 1)); ("state", JStr "queued"); ("created", JBool false)])).
Proof.
  rewrite (submit_answers default_settings 200 9 [] "key-1" sample_request (AdmissionController.mk 64 1 0) sample_db5).
  - vm_compute. reflexivity.
  - split; cbn; lia.
Defined.

(** What a status query answers.  422 for a text that is no UUID, 404 for an
    unknown job; otherwise the job, whose reported state is the replay of the
    events read with the row, which are a prefix of the events reported, even
    when other transactions commit between the two reads. *)
Theorem status_answers (s : string) (db db' : DB) :
  rtc repo_step empty_db db → rtc repo_step db db' →
  match UUID s with
  | Raise _ => status s db db' = Raise (HTTPException 422 "job_id must be a UUID" [])
  | Ok id =>
      match jobs db !! id with
      | None => status s db db' = Raise (HTTPException 404 "no such job" [])
      | Some row =>
          ∃ l log st, status s db db' = Ok (JObj l) ∧
            dict_get l "id" = Some (JStr (uuid_str id)) ∧
            dict_get l "state" = Some (JStr (JobState.value st)) ∧
            dict_get l "events" = Some (JArr (event_view <$> select_events id db')) ∧
            select_events id db `prefix_of` select_events id db' ∧
            map_result event_of_row (select_events id db) = Ok log ∧ StateMachine.replay log = Ok st
      end
  end.
Proof.
  intros H0 H. pose proof (parse_id_spec s) as Hp. unfold status. destruct (UUID s) as [id|x]; rewrite Hp; [|done].
  unfold get_job. destruct (jobs db !! id) as [row|] eqn:Hrow; [|done].
  destruct (reachable_ok db H0) as [Hok _]. destruct (ok_jobs db Hok id row Hrow) as (log & Hlog & (st & Hs & Hst) & _).
  eexists _, log, st. split; [done|]. split; [done|]. split; [by rewrite <- Hst|]. split; [done|].
  split; [by apply repo_steps_events|]. rewrite select_events_rows by apply Hok. done.
Qed.

Lemma status_answers_witness :
  ∃ l log st, status (uuid_str 1) sample_db3 sample_db5 = Ok (JObj l) ∧
    dict_get l "id" = Some (JStr (uuid_str 1)) ∧
    dict_get l "state" = Some (JStr (JobState.value st)) ∧
    dict_get l "events" = Some (JArr (event_view <$> select_events 1 sample_db5)) ∧
    select_events 1 sample_db3 `prefix_of` select_events 1 sample_db5 ∧
    map_result event_of_row (select_events 1 sample_db3) = Ok log ∧ StateMachine.replay log = Ok st.
Proof.
  pose proof (status_answers (uuid_str 1) sample_db3 sample_db5 sample_db3_reachable sample_db5_later) as H.
  rewrite UUID_str in H by done.
  assert (E : jobs sample_db3 !! 1%N = Some sample_row3) by (vm_compute; reflexivity). rewrite E in H. exact H.
Defined.

(** What an operator's replay answers.  422 for a text that is no UUID, 404 for
    an unknown job, 409 for a job that is not dead-lettered, nothing written in
    these cases; otherwise 200 and state "queued", the REPLAYED event and a fresh
    outbox row being committed. *)
Theorem replay_answers (cfg : Settings) (now : Z) (s : string) (db : DB) :
  rtc repo_step empty_db db →
  match UUID s with
  | Raise _ => replay cfg now s db = (Raise (HTTPException 422 "job_id must be a UUID" []), db)
  | Ok id =>
      match jobs db !! id with
      | None => replay cfg now s db = (Raise (HTTPException 404 "no such job" []), db)
      | Some row =>
          ∃ st, jr_state row = JobState.value st ∧
          if decide (st = JobState.DEAD_LETTER)
          then (replay cfg now s db).1 = Ok (JObj [("id", JStr s); ("state", JStr "queued")]) ∧
               length (outbox_of id (replay cfg now s db).2) = S (length (outbox_of id db)) ∧
               length (select_events id (replay cfg now s db).2) = S (length (select_events id db))
          else replay cfg now s db =
                 (Raise (HTTPException 409 ("only dead-lettered jobs can be replayed: " +:+
                           str_IllegalTransition (Some st) EventType.REPLAYED) []), db)
      end
  end.
Proof.
  intros Hr. pose proof (parse_id_spec s) as Hp. unfold replay. destruct (UUID s) as [id|x]; rewrite Hp; [|done].
  destruct (reachable_ok db Hr) as [Hok _]. rewrite replay_job_eq.
  destruct (jobs db !! id) as [row|] eqn:Hrow; [|done].
  destruct (ok_jobs db Hok id row Hrow) as (log & _ & (st & _ & Hst) & _). exists st. split; [done|].
  rewrite apply_event_eq, Hrow, Hst, JobState_of_value. case_decide as Hdl.
  - subst st. cbn [apply row_get TRANSITIONS token_of]. rewrite decide_True by done. cbn [token_of].
    rewrite Z.leb_refl. split; [done|]. cbn [snd]. split.
    + unfold outbox_of, add_outbox. cbn [outbox write_event]. rewrite filter_app, length_app, filter_cons_True by done. cbn. lia.
    + unfold select_events. rewrite !merge_sort_Permutation. unfold add_outbox. cbn [job_events write_event].
      rewrite filter_app, length_app, filter_cons_True by done. cbn. lia.
  - by destruct st.
Qed.

Lemma replay_answers_witness :
  (replay default_settings 150 (uuid_str 2) sample_db5).1 = Ok (JObj [("id", JStr (uuid_str 2)); ("state", JStr "queued")]).
Proof.
  pose proof (replay_answers default_settings 150 (uuid_str 2) sample_db5 sample_db5_reachable) as H.
  rewrite UUID_str in H by done.
  assert (E : jobs sample_db5 !! 2%N = Some sample_row5) by (vm_compute; reflexivity). rewrite E in H.
  destruct H as (st & Hst & H). destruct st; try (vm_compute in Hst; discriminate Hst). apply H.
Defined.

Lemma float_of_small_int d : (0 ≤ d ≤ 600000)%Z → float_of_int_py d = Ok (fZ d).
Proof.
  intros Hd. unfold float_of_int_py, float_of_int. change (binary_normalize prec emax d 0 false) with (fZ d).
  destruct (Z.eq_dec d 0) as [->|Hnz]; [done|].
  assert (Hdig : (Zdigits2 d ≤ 53)%Z).
  { rewrite Zdigits2_pos by lia. pose proof (Z.log2_le_mono d 600000 ltac:(lia)) as Hl.
    change (Z.log2 600000) with 19%Z in Hl. lia. }
  destruct (fZ_small d ltac:(lia) Hdig) as (m & -> & _). done.
Qed.

(** C29: an accepted job can be executed.  The submission that is answered 201 leaves
    exactly one outbox row, on the jobs subject, whose message every worker
    decodes, at whatever delivery, to this job and this payload; the payload's
    duration, failure rate and poison flag convert as the worker converts them,
    and the execution's sleep loop ends within 6001 steps. *)
Theorem accepted_job_is_executable (cfg : Settings) (now : Z) (id : uuid) (carrier : dict) (key : string)
    (req : SubmitRequest) (adm : AdmissionController.t) (db : DB) (answer : json) (n : Z) :
  SubmitRequest_valid req = true → (id < 2 ^ 128)%N → AdmissionController.inv adm →
  (submit cfg now id carrier key req (adm, db)).1 = Ok (mkResponse 201 answer) →
  ∃ o, outbox (submit cfg now id carrier key req (adm, db)).2.2 = outbox db ++ [o] ∧
    ob_job_id o = id ∧ ob_subject o = subject_jobs cfg ∧ ob_published_at o = None ∧
    decodes (mkMsg (Ok (ob_payload o)) n) id (model_dump req) ∧
    truthy (default JNull (dict_get (model_dump req) "poison")) = sr_poison req ∧
    Worker.failure_rate_of (model_dump req) = Ok (sr_failure_rate req) ∧
    ∃ v f steps, dict_get (model_dump req) "duration_ms" = Some v ∧ int_of_json v = Ok (sr_duration_ms req) ∧
      float_of_int_py (sr_duration_ms req) = Ok f ∧ slices (Z.to_nat 6001) (f / fZ 1000)%float = Some steps.
Proof.
  intros Hval Hid Hinv. rewrite (submit_answers_lemma cfg now id carrier key req adm db Hinv).
  case_decide; [done|]. destruct (job_by_key key db); [by intros [= _]|]. destruct (jobs db !! id); [done|].
  intros _. cbn [fst snd]. eexists. split; [reflexivity|]. cbn [ob_job_id ob_subject ob_published_at ob_payload].
  assert (Hd : (0 ≤ sr_duration_ms req ≤ 600000)%Z).
  { unfold SubmitRequest_valid in Hval. apply andb_true_iff in Hval as [Hval _]. apply andb_true_iff in Hval as [? ?]. lia. }
  split_and!; [done..| |reflexivity|done|].
  - eexists _, _. split; [reflexivity|]. split; [reflexivity|]. split; [by apply UUID_str|reflexivity].
  - exists (JInt (sr_duration_ms req)), (fZ (sr_duration_ms req)).
    destruct (slices_of_duration (sr_duration_ms req) (Z.to_nat 6001) Hd) as (steps & Hs & _).
    { assert (sr_duration_ms req / 100 ≤ 6000)%Z by (apply Z.div_le_upper_bound; lia). lia. }
    exists steps. split; [reflexivity|]. split; [reflexivity|]. split; [by apply float_of_small_int|done].
Qed.

Lemma accepted_job_is_executable_witness :
  ∃ o, outbox (submit default_settings 200 9 [] "key-9" sample_request (AdmissionController.mk 64 1 0, sample_db5)).2.2
       = outbox sample_db5 ++ [o] ∧ ob_job_id o = 9%N.
Proof.
  destruct (accepted_job_is_executable default_settings 200 9 [] "key-9" sample_request (AdmissionController.mk 64 1 0)
    sample_db5 (JObj [("id", JStr (uuid_str 9)); ("state", JStr "queued"); ("created", JBool true)]) 1)
    as (o & H1 & H2 & _).
  - vm_compute. reflexivity.
  - done.
  - split; cbn; lia.
  - vm_compute. reflexivity.
  - exists o. split; [exact H1|exact H2].
Defined.
