(* ===== verification/Lifecycle.v ===== *)
(** * Set-up, shutdown and the processes as a whole

    What the services do around their loops: connections, schema, streams and
    consumers, signal handlers, the loops of [worker/main.py],
    [relay/outbox_relay.py] and [dlq/listener.py] in their [try ... finally], the
    lifespan of the API, and the entry points. *)
From Stdlib Require Import Floats.SpecFloat.
From S2P Require Import Prelude PyFloat PyJson Model Telemetry StateMachine PyUuid KVStore Effects Fencing Repo Config.
From S2P Require Import Idempotency Admission Executor PyNum Worker Relay Dlq Api.

Open Scope prog_scope.

(** [with contextlib.suppress(Exception)] *)
Definition suppress (m : prog unit) : prog unit := try_except m (λ _, Ret tt).

(** ** Tables ([db/repo.py]) *)

Definition create_pool (database_url : string) : prog unit := await (PoolCreate database_url 1 10).

Definition SCHEMA_LOCK_KEY : Z := 0x5B17E5.

Definition apply_schema : prog unit :=
  in_transaction (
    let! _ := await (AdvisoryLock SCHEMA_LOCK_KEY) in
    await ExecuteSchema).

(** ** Streams and consumers *)

(** The work queue and the consumer the workers share. *)
Definition jobs_stream (settings : Settings) : StreamConfig :=
  mkStreamConfig (stream_name settings) [subject_jobs settings] WORK_QUEUE.

Definition jobs_consumer (settings : Settings) : ConsumerConfig :=
  mkConsumerConfig (consumer_durable settings) EXPLICIT (Some (ack_wait_s settings)) (Some (max_deliver settings))
    (subject_jobs settings).

Definition ensure_stream (settings : Settings) : prog unit :=
  let! _ := suppress (await (JsAddStream (jobs_stream settings))) in
  suppress (await (JsAddConsumer (stream_name settings) (jobs_consumer settings))).

(** The quarantine, the captured advisories and the listener's consumer. *)
Definition dlq_stream (settings : Settings) : StreamConfig :=
  mkStreamConfig (dlq_stream_name settings) [subject_dlq settings] LIMITS.

Definition advisory_stream (settings : Settings) : StreamConfig :=
  mkStreamConfig (advisory_stream_name settings) [advisory_subject (stream_name settings) (consumer_durable settings)] LIMITS.

Definition dlq_consumer (settings : Settings) : ConsumerConfig :=
  mkConsumerConfig (dlq_consumer_durable settings) EXPLICIT None None
    (advisory_subject (stream_name settings) (consumer_durable settings)).

Definition ensure_streams (settings : Settings) : prog unit :=
  let! _ := suppress (await (JsAddStream (dlq_stream settings))) in
  let! _ := suppress (await (JsAddStream (advisory_stream settings))) in
  suppress (await (JsAddConsumer (advisory_stream_name settings) (dlq_consumer settings))).

(** ** The worker *)

(** [f"{socket.gethostname()}-{uuid.uuid4().hex[:8]}"] *)
Definition worker_id_of (hostname : string) (u : uuid) : string :=
  hostname +:+ "-" +:+ String.string_of_list_ascii (take 8 (hex 32 u)).

Definition new_worker (hostname : string) (u : uuid) (settings : Settings) : Worker.t :=
  Worker.mk settings (worker_id_of hostname u).

Definition worker_setup (self : Worker.t) : prog unit :=
  let settings := Worker.settings self in
  let! _ := create_pool (database_url settings) in
  let! _ := apply_schema in
  let! _ := await (KvConnect (valkey_url settings)) in
  let! _ := await (NatsConnect (nats_url settings) None) in
  let! _ := ensure_stream settings in
  let! _ := await (PullSubscribe (subject_jobs settings) (consumer_durable settings) (stream_name settings)) in
  await (NatsSubscribe (subject_chaos settings) "workers").

(** The [finally] of [run]. *)
Definition worker_closing : list (eff unit) := [NatsClose; KvClose; PoolClose].

Fixpoint close_all (closers : list (eff unit)) : prog unit :=
  match closers with
  | [] => Ret tt
  | e :: closers => let! _ := await e in close_all closers
  end.

Definition worker_run (self : Worker.t) (fuel turns : nat) : prog bool :=
  let! _ := worker_setup self in
  try_finally (Worker.run_loop self fuel turns) (close_all worker_closing).

(** [_on_chaos_message]: [os._exit], no cleanup. *)
Definition on_chaos_message : prog unit := await (Exit 1).

(** ** The relay and the listener *)

Definition relay_setup (settings : Settings) : prog unit :=
  let! _ := create_pool (database_url settings) in
  let! _ := apply_schema in
  let! _ := await (NatsConnect (nats_url settings) None) in
  ensure_stream settings.

Definition relay_run (carrier : Z → headers) (settings : Settings) (turns : nat) : prog bool :=
  let! _ := relay_setup settings in
  try_finally (poll carrier settings turns) (close_all [NatsClose; PoolClose]).

Definition listener_setup (settings : Settings) : prog unit :=
  let! _ := create_pool (database_url settings) in
  let! _ := apply_schema in
  let! _ := await (NatsConnect (nats_url settings) None) in
  let! _ := ensure_streams settings in
  await (PullSubscribe (advisory_subject (stream_name settings) (consumer_durable settings))
           (dlq_consumer_durable settings) (advisory_stream_name settings)).

Definition listener_run (py_str : json → string) (settings : Settings) (turns : nat) : prog bool :=
  let! _ := listener_setup settings in
  try_finally (listen py_str settings turns) (close_all [NatsClose; PoolClose]).

(** ** Entry points *)

(** [init_telemetry] at the start of a process. *)
Definition start_telemetry (service : string) (settings : Settings) : prog unit :=
  match (init_telemetry service (otel_endpoint settings) false).1 with
  | Some providers => await (OtelInstall providers)
  | None => Ret tt
  end.

(** The two handlers, unless the platform has none. *)
Definition add_signal_handlers : prog unit :=
  try_except (let! _ := await (AddSignalHandler "SIGTERM") in await (AddSignalHandler "SIGINT"))
    (λ e, match e with NotImplementedError => Ret tt | e => Throw e end).

Definition worker_amain (hostname : string) (u : uuid) (settings : Settings) (fuel turns : nat) : prog bool :=
  let! _ := start_telemetry "orbiter-worker" settings in
  let! _ := add_signal_handlers in
  worker_run (new_worker hostname u settings) fuel turns.

Definition relay_amain (carrier : Z → headers) (settings : Settings) (turns : nat) : prog bool :=
  let! _ := start_telemetry "orbiter-relay" settings in
  let! _ := add_signal_handlers in
  relay_run carrier settings turns.

Definition listener_amain (py_str : json → string) (settings : Settings) (turns : nat) : prog bool :=
  let! _ := start_telemetry "orbiter-dlq" settings in
  let! _ := add_signal_handlers in
  listener_run py_str settings turns.

(** ** The API *)

(** [lifespan]: [serve] is what happens between [yield] and its return, with the
    controller and whether there is a broker connection. *)
Definition lifespan (cfg : Settings) (serve : AdmissionController.t → bool → prog unit) : prog unit :=
  let! _ := create_pool (database_url cfg) in
  let! _ := apply_schema in
  let! admission := of_result (AdmissionController.init (admission_capacity cfg) (admission_retry_after_s cfg)) in
  let! connected := try_except (let! _ := await (NatsConnect (nats_url cfg) (Some 3%Z)) in Ret true) (λ _, Ret false) in
  try_finally (serve admission connected)
    (let! _ := (if (connected : bool) then await NatsClose else Ret tt) in
     await PoolClose).

Definition create_app (cfg : Settings) (serve : AdmissionController.t → bool → prog unit) : prog unit :=
  let! _ := start_telemetry "orbiter-api" cfg in
  lifespan cfg serve.

(** ** Declarations *)

Lemma suppress_runs (e : eff unit) tr o : runs (suppress (await e)) tr o → o = Ok tt ∧ ∃ r, tr = [Step e r].
Proof.
  intros Hr. apply runs_try_except_inv in Hr as [([] & Hr & ->)|(x & tr1 & tr2 & -> & Hr & Hh)].
  - apply runs_await_inv in Hr as ->. eauto.
  - apply runs_await_inv in Hr as ->. apply runs_inv in Hh as [-> ->]. eauto.
Qed.

(** A sequence whose first part never raises. *)
Lemma suppress_then {B} (e : eff unit) (k : unit → prog B) tr o :
  runs (bind (suppress (await e)) k) tr o → ∃ r tr', tr = Step e r :: tr' ∧ runs (k tt) tr' o.
Proof.
  intros Hr. apply runs_bind_inv in Hr as [(x & Hr & ->)|(u & tr1 & tr2 & -> & Hr & Hk)];
    apply suppress_runs in Hr as [Ho [r ->]]; [done|]. destruct u. eauto.
Qed.

(** Calls that a part of a program never makes. *)
Lemma runs_without {A} (P : ∀ R, eff R → Prop) (p : prog A) tr o R (e : eff R) r :
  calls_ok P p → runs p tr o → ¬ P R e → Step e r ∉ tr.
Proof. intros Hp Hr HP Hin. by apply HP, (calls_ok_runs P p tr o R e r). Qed.

(** ** Leases around the loop *)

Definition lease_named (k : string) : bool := bool_decide (chars "orbiter:lease:" `prefix_of` chars k).

(** The value of the lease a process has taken and not tried to give back. *)
Definition lease_after (h : option string) (s : step_of) : option string :=
  match s with
  | @Step R e r =>
      match e in eff R return result R → option string with
      | KvSetIfAbsent k v _ => λ r, if lease_named k then match r with Ok true => Some v | _ => h end else h
      | KvCompareAndDelete k _ => λ _, if lease_named k then None else h
      | _ => λ _, h
      end r
  end.

Definition outstanding (tr : list step_of) : option string := foldl lease_after None tr.

Lemma lease_key_is_lease r : lease_named (LeaseManager.lease_key r) = true.
Proof. apply bool_decide_eq_true. unfold LeaseManager.lease_key. rewrite chars_app. by eexists. Qed.

Lemma claim_key_no_lease j : lease_named (ExecutionGuard.claim_key j) = false.
Proof. apply bool_decide_eq_false. intros [l Hl]. unfold ExecutionGuard.claim_key in Hl. by rewrite chars_app in Hl. Qed.

Lemma done_key_no_lease j : lease_named (ExecutionGuard.done_key j) = false.
Proof. apply bool_decide_eq_false. intros [l Hl]. unfold ExecutionGuard.done_key in Hl. by rewrite chars_app in Hl. Qed.

(** The observer of a delivery knows the outstanding lease. *)
Lemma watch_lease job att holder delivery w R (e : eff R) next r :
  watch_call job att holder delivery w R e = Some next →
  lease_after (LeaseManager.lease_value holder <$> held w) (Step e r) = LeaseManager.lease_value holder <$> held (next r).
Proof.
  destruct w as [c d h f co cl s l di]. cbn [held].
  destruct e; cbn [watch_call lease_after]; try done; try (intros [= <-]; done).
  - case_decide; [|done]. by intros [= <-].
  - case_decide as E1; [destruct E1 as [-> _]; rewrite claim_key_no_lease; by intros [= <-]|].
    case_decide as E2; [destruct E2 as [-> _]; rewrite done_key_no_lease; by intros [= <-]|].
    destruct d as [t|]; [|done]. case_decide as E3; [|done]. destruct E3 as [-> ->].
    rewrite lease_key_is_lease. intros [= <-]. by destruct r as [[]|].
  - case_decide; [|done]. by intros [= <-].
  - case_decide as E1; [destruct E1 as [-> _]; rewrite claim_key_no_lease; by intros [= <-]|].
    destruct h as [t|]; [|done]. case_decide as E3; [|done]. destruct E3 as [-> ->].
    rewrite lease_key_is_lease. by intros [= <-].
  - case_decide; [|done]. intros [= <-]. by destruct r as [?|[]], event.
  - case_decide; [|done]. by intros [= <-].
  - case_decide; [|done]. by intros [= <-].
  - case_decide; [|done]. by intros [= <-].
Qed.

Lemma monitor_lease job att holder delivery w tr w' :
  monitor_run (watch_call job att holder delivery) w tr = Some w' →
  foldl lease_after (LeaseManager.lease_value holder <$> held w) tr = LeaseManager.lease_value holder <$> held w'.
Proof.
  revert w. induction tr as [|[R e r] tr IH]; intros w; cbn [monitor_run foldl]; [by intros [= ->]|].
  destruct (watch_call job att holder delivery w R e) as [next|] eqn:E; [|done].
  intros Hm. rewrite (watch_lease _ _ _ _ _ _ _ _ r E). by apply IH.
Qed.

(** No message is left with its lease outstanding, however its processing ends. *)
Lemma process_lease self fuel msg tr o :
  runs (Worker.process self fuel msg) tr o → admissible tr → outstanding tr = None.
Proof.
  unfold Worker.process. intros Hr Ha.
  destruct (msg_data msg) as [data|x]; [|by apply runs_inv in Hr as [-> _]]. cbn [of_result bind] in Hr.
  destruct (getitem data "job_id") as [jv|x]; [|by apply runs_inv in Hr as [-> _]]. cbn [of_result bind] in Hr.
  destruct (uuid_of_json jv) as [id|x]; [|by apply runs_inv in Hr as [-> _]]. cbn [of_result bind] in Hr.
  destruct (getitem data "payload") as [p|x]; [|by apply runs_inv in Hr as [-> _]]. cbn [of_result bind] in Hr.
  destruct (monitored_runs _ _ _ _ _ _ _ (conforms_handle self fuel id _ _ p) Hr Ha) as (w & Hw & Hend & _).
  pose proof (monitor_lease _ _ _ _ _ _ _ Hw) as Hl. unfold outstanding. cbn in Hl. by rewrite Hl, Hend.
Qed.

Lemma process_all_lease self fuel msgs tr o :
  runs (Worker.process_all self fuel msgs) tr o → admissible tr → outstanding tr = None.
Proof.
  revert tr. induction msgs as [|msg msgs IH]; intros tr Hr Ha; cbn [Worker.process_all] in Hr.
  - by apply runs_inv in Hr as [-> _].
  - apply runs_bind_inv in Hr as [(x & Hr & _)|(u & tr1 & tr2 & -> & Hr & Hk)]; [by eapply process_lease|].
    apply Forall_app in Ha as [Ha1 Ha2]. pose proof (process_lease _ _ _ _ _ Hr Ha1) as E.
    unfold outstanding in *. rewrite foldl_app, E. by apply IH.
Qed.

(** Processing does not look at the stop event. *)
Lemma process_no_stop self fuel msg tr o r :
  runs (Worker.process self fuel msg) tr o → admissible tr → Step StopIsSet r ∉ tr.
Proof.
  unfold Worker.process. intros Hr Ha.
  destruct (msg_data msg) as [data|x]; [|apply runs_inv in Hr as [-> _]; set_solver]. cbn [of_result bind] in Hr.
  destruct (getitem data "job_id") as [jv|x]; [|apply runs_inv in Hr as [-> _]; set_solver]. cbn [of_result bind] in Hr.
  destruct (uuid_of_json jv) as [id|x]; [|apply runs_inv in Hr as [-> _]; set_solver]. cbn [of_result bind] in Hr.
  destruct (getitem data "payload") as [p|x]; [|apply runs_inv in Hr as [-> _]; set_solver]. cbn [of_result bind] in Hr.
  destruct (monitored_runs _ _ _ _ _ _ _ (conforms_handle self fuel id _ _ p) Hr Ha) as (w & Hw & _).
  intros (tr1 & tr2 & ->)%list_elem_of_split. apply monitor_run_app in Hw as ([] & next & _ & Hn & _). done.
Qed.

Lemma process_all_no_stop self fuel msgs tr o r :
  runs (Worker.process_all self fuel msgs) tr o → admissible tr → Step StopIsSet r ∉ tr.
Proof.
  revert tr. induction msgs as [|msg msgs IH]; intros tr Hr Ha; cbn [Worker.process_all] in Hr.
  - apply runs_inv in Hr as [-> _]. set_solver.
  - apply runs_bind_inv in Hr as [(x & Hr & _)|(u & tr1 & tr2 & -> & Hr & Hk)]; [by eapply process_no_stop|].
    apply Forall_app in Ha as [Ha1 Ha2]. rewrite elem_of_app. intros [H|H]; [by eapply process_no_stop|by eapply IH].
Qed.

(** A piece of a loop: no lease is outstanding at its end or when the stop event is
    looked at, and nothing follows once it is seen set. *)
Definition clean (tr : list step_of) (o : result bool) : Prop :=
  outstanding tr = None ∧
  ∀ tr1 r tr2, tr = tr1 ++ Step StopIsSet r :: tr2 →
    outstanding tr1 = None ∧ (r = Ok true → tr2 = [] ∧ o = Ok true).

Lemma outstanding_app tr1 tr2 : outstanding tr1 = None → outstanding (tr1 ++ tr2) = outstanding tr2.
Proof. unfold outstanding. intros H. by rewrite foldl_app, H. Qed.

Lemma clean_nil o : clean [] o.
Proof. split; [done|]. by intros [] r tr2. Qed.

Lemma clean_app tr1 tr2 o :
  outstanding tr1 = None → (∀ r, Step StopIsSet r ∉ tr1) → clean tr2 o → clean (tr1 ++ tr2) o.
Proof.
  intros Ho Hn [Hc1 Hc2]. split; [by rewrite outstanding_app|]. intros l1 r l2 E.
  apply app_eq_inv in E as [(k & -> & E)|(k & -> & E)].
  - destruct k as [|s k]; cbn in E.
    + rewrite app_nil_r in Ho. destruct (Hc2 [] r l2) as [_ Hc]; auto.
    + injection E as <- ->. exfalso. apply (Hn r). set_solver.
  - rewrite outstanding_app by done. by eapply Hc2.
Qed.

(** The reply of a look at the stop event. *)
Definition stop_reply (s : step_of) : option (result bool) :=
  match s with
  | @Step R e r =>
      match e in eff R return result R → option (result bool) with
      | StopIsSet => λ r, Some r
      | _ => λ _, None
      end r
  end.

Lemma clean_cons_stop r tr o :
  (r = Ok true → tr = [] ∧ o = Ok true) → clean tr o → clean (Step StopIsSet r :: tr) o.
Proof.
  intros Hr [Hc1 Hc2]. split; [exact Hc1|]. intros [|s l1] r' l2 E; cbn in E.
  - pose proof (f_equal (λ l, stop_reply <$> head l) E) as E1. pose proof (f_equal tail E) as E2. cbn in E1, E2.
    by simplify_eq.
  - injection E as <- E. destruct (Hc2 l1 r' l2 E). done.
Qed.

Lemma fetch_runs timeout tr o : runs (Worker.fetch_or_continue timeout) tr o → ∃ r, tr = [Step (SubFetch 1 timeout) r].
Proof.
  unfold Worker.fetch_or_continue. intros Hr.
  apply runs_try_except_inv in Hr as [(a & Hr & _)|(x & tr1 & tr2 & -> & Hr & Hh)].
  - apply runs_bind_inv in Hr as [(y & Hr & _)|(msgs & l1 & l2 & -> & Hr & Hk)].
    + apply runs_await_inv in Hr as ->. eauto.
    + apply runs_await_inv in Hr as ->. apply runs_inv in Hk as [-> _]. eauto.
  - assert (Hh' : tr2 = []) by (destruct x; by apply runs_inv in Hh as [-> _]). subst. rewrite app_nil_r.
    apply runs_bind_inv in Hr as [(y & Hr & _)|(msgs & l1 & l2 & -> & Hr & Hk)].
    + apply runs_await_inv in Hr as ->. eauto.
    + by apply runs_inv in Hk as [_ ?].
Qed.

Lemma run_loop_clean self fuel turns tr o :
  runs (Worker.run_loop self fuel turns) tr o → admissible tr → clean tr o.
Proof.
  revert tr. induction turns as [|turns IH]; intros tr Hr Ha; cbn [Worker.run_loop] in Hr.
  - apply runs_inv in Hr as [-> ->]. apply clean_nil.
  - apply runs_bind_inv in Hr as [(x & Hr & ->)|(stop & tr1 & tr2 & -> & Hr & Hk)].
    { apply runs_await_inv in Hr as ->. by apply clean_cons_stop, clean_nil. }
    apply runs_await_inv in Hr as ->. apply Forall_cons in Ha as [_ Ha]. destruct stop.
    { apply runs_inv in Hk as [-> ->]. by apply clean_cons_stop, clean_nil. }
    apply clean_cons_stop; [done|]. change (admissible tr2) in Ha.
    assert (Hf : ∀ r : result (list Msg),
      let tr := [Step (SubFetch 1 (worker_fetch_timeout_s (Worker.settings self))) r] in
      outstanding tr = None ∧ ∀ r', Step StopIsSet r' ∉ tr).
    { intros r. split; [done|]. intros r' E%list_elem_of_singleton. discriminate E. }
    apply runs_bind_inv in Hk as [(x & Hr & ->)|(fetched & l1 & l2 & -> & Hr & Hk)].
    { apply fetch_runs in Hr as [r ->]. destruct (Hf r). rewrite <- (app_nil_r [_]). by apply clean_app, clean_nil. }
    apply Forall_app in Ha as [_ Ha]. apply fetch_runs in Hr as [r ->]. destruct (Hf r). apply clean_app; [done..|].
    destruct fetched as [msgs|]; [|by apply IH].
    apply runs_bind_inv in Hk as [(x & Hr & ->)|(u & l3 & l4 & -> & Hr & Hk)].
    + rewrite <- (app_nil_r l2). apply clean_app; [by eapply process_all_lease| |apply clean_nil].
      intros r'. by eapply process_all_no_stop.
    + apply Forall_app in Ha as [Ha1 Ha2].
      apply clean_app; [by eapply process_all_lease| |by apply IH]. intros r'. by eapply process_all_no_stop.
Qed.

(** Calls that neither look at the stop event nor touch entries of the store. *)
Definition idle (R : Type) (e : eff R) : Prop :=
  match e with StopIsSet | KvSetIfAbsent _ _ _ | KvCompareAndDelete _ _ => False | _ => True end.

Lemma idle_runs {A} (p : prog A) tr o :
  calls_ok idle p → runs p tr o → outstanding tr = None ∧ ∀ r, Step StopIsSet r ∉ tr.
Proof.
  intros Hp Hr. split; [|intros r; eapply (runs_without idle); [exact Hp|exact Hr|tauto]].
  unfold outstanding. assert (H : ∀ h, foldl lease_after h tr = h); [|apply H].
  induction Hr as [a|x|R e k r tr o Hr IH]; [done..|]. intros h. destruct Hp as [He Hk]. cbn [foldl].
  rewrite IH by auto. by destruct e.
Qed.

Lemma idle_suppress (e : eff unit) : idle unit e → calls_ok idle (suppress (await e)).
Proof. intros He. apply calls_ok_try_except; [by apply calls_ok_await|done]. Qed.

Lemma idle_schema : calls_ok idle apply_schema.
Proof.
  unfold apply_schema, in_transaction.
  repeat first [apply calls_ok_bind; [|intros ?] | apply calls_ok_try_except; [|intros ?] | by apply calls_ok_await | done].
Qed.

Lemma idle_setup self : calls_ok idle (worker_setup self).
Proof.
  unfold worker_setup, create_pool, ensure_stream.
  repeat first [apply idle_schema | apply idle_suppress; done | by apply calls_ok_await
               | apply calls_ok_bind; [|intros ?]].
Qed.

Lemma idle_close closers : Forall (idle unit) closers → calls_ok idle (close_all closers).
Proof.
  induction 1; cbn [close_all]; [done|]. apply calls_ok_bind; [by apply calls_ok_await|done].
Qed.

(** Before [h] ended, the stream and the consumer a subscription binds to have been
    declared: the stream captures the subject, the durable consumer filters it. *)
Definition declared (h : list step_of) (subject durable stream : string) : Prop :=
  ∃ sc cc r1 r2, Step (JsAddStream sc) r1 ∈ h ∧ Step (JsAddConsumer stream cc) r2 ∈ h ∧
    sc_name sc = stream ∧ subject ∈ sc_subjects sc ∧
    cc_durable_name cc = durable ∧ cc_filter_subject cc = subject ∧ cc_ack_policy cc = EXPLICIT.

Definition subscribes_declared (h : list step_of) (s : step_of) : Prop :=
  match s with
  | @Step R e r => match e with PullSubscribe subject durable stream => declared h subject durable stream | _ => True end
  end.

(** Programs that subscribe to nothing. *)
Definition no_subscribe (R : Type) (e : eff R) : Prop := match e with PullSubscribe _ _ _ => False | _ => True end.

Lemma always_no_subscribe {A} (Q : list step_of → result A → Prop) h (p : prog A) :
  calls_ok no_subscribe p → (∀ tr o, runs p tr o → Q (h ++ tr) o) → always subscribes_declared Q h p.
Proof.
  revert h. induction p as [a|x|R e k IH]; intros h Hp HQ; cbn.
  - rewrite <- (app_nil_r h). apply HQ, runs_ret.
  - rewrite <- (app_nil_r h). apply HQ, runs_throw.
  - destruct Hp as [He Hk]. intros r. split; [by destruct e|]. apply IH; [done|]. intros tr o Hr.
    rewrite <- app_assoc. by apply HQ, runs_call.
Qed.

Lemma no_subscribe_schema : calls_ok no_subscribe apply_schema.
Proof.
  unfold apply_schema, in_transaction.
  repeat first [apply calls_ok_bind; [|intros ?] | apply calls_ok_try_except; [|intros ?] | by apply calls_ok_await | done].
Qed.

Lemma always_step {A B} (Q : list step_of → result B → Prop) h (p : prog A) (k : A → prog B) :
  calls_ok no_subscribe p → (∀ h' x, Q h' (Raise x)) →
  (∀ tr a, runs p tr (Ok a) → always subscribes_declared Q (h ++ tr) (k a)) →
  always subscribes_declared Q h (bind p k).
Proof.
  intros Hp Hx Hk. apply always_bind, always_no_subscribe; [done|]. intros tr [a|x] Hr; [by apply Hk|apply Hx].
Qed.

Lemma ensure_stream_runs settings tr o :
  runs (ensure_stream settings) tr o →
  o = Ok tt ∧ ∃ r1 r2, tr = [Step (JsAddStream (jobs_stream settings)) r1;
                             Step (JsAddConsumer (stream_name settings) (jobs_consumer settings)) r2].
Proof.
  intros (r1 & tr' & -> & Hr)%suppress_then. apply suppress_runs in Hr as [-> [r2 ->]]. eauto.
Qed.

Lemma ensure_streams_runs settings tr o :
  runs (ensure_streams settings) tr o →
  o = Ok tt ∧ ∃ r1 r2 r3, tr = [Step (JsAddStream (dlq_stream settings)) r1;
                                Step (JsAddStream (advisory_stream settings)) r2;
                                Step (JsAddConsumer (advisory_stream_name settings) (dlq_consumer settings)) r3].
Proof.
  intros (r1 & tr' & -> & (r2 & tr'' & -> & Hr)%suppress_then)%suppress_then.
  apply suppress_runs in Hr as [-> [r3 ->]]. eauto 10.
Qed.

Lemma no_subscribe_suppress (e : eff unit) : no_subscribe unit e → calls_ok no_subscribe (suppress (await e)).
Proof. intros He. apply calls_ok_try_except; [by apply calls_ok_await|done]. Qed.

Lemma no_subscribe_ensure settings : calls_ok no_subscribe (ensure_stream settings) ∧ calls_ok no_subscribe (ensure_streams settings).
Proof. split; repeat (apply calls_ok_bind; [by apply no_subscribe_suppress|intros _]); by apply no_subscribe_suppress. Qed.

Lemma worker_setup_declares self h : always subscribes_declared (λ _ _, True) h (worker_setup self).
Proof.
  unfold worker_setup, create_pool. set (s := Worker.settings self).
  apply always_step; [by apply calls_ok_await|done|intros t1 _ _].
  apply always_step; [apply no_subscribe_schema|done|intros t2 _ _].
  apply always_step; [by apply calls_ok_await|done|intros t3 _ _].
  apply always_step; [by apply calls_ok_await|done|intros t4 _ _].
  apply always_step; [apply no_subscribe_ensure|done|intros t5 u Hr].
  apply ensure_stream_runs in Hr as (_ & r1 & r2 & ->).
  apply always_bind, always_await; [|intros [|]; [by apply always_await|done]].
  intros r. exists (jobs_stream s), (jobs_consumer s), r1, r2. cbn. split_and!; try done; set_solver.
Qed.

Lemma listener_setup_declares settings h : always subscribes_declared (λ _ _, True) h (listener_setup settings).
Proof.
  unfold listener_setup, create_pool.
  apply always_step; [by apply calls_ok_await|done|intros t1 _ _].
  apply always_step; [apply no_subscribe_schema|done|intros t2 _ _].
  apply always_step; [by apply calls_ok_await|done|intros t3 _ _].
  apply always_step; [apply no_subscribe_ensure|done|intros t4 u Hr].
  apply ensure_streams_runs in Hr as (_ & r1 & r2 & r3 & ->).
  apply always_await; [|done].
  intros r. exists (advisory_stream settings), (dlq_consumer settings), r2, r3. cbn. split_and!; try done; set_solver.
Qed.

(** * Properties *)

(** C22: a worker goes without leaving a lease behind.  In every run of [Worker.run],
    whatever its calls answer, once the loop is entered: each time the stop event
    is consulted, and when the connections are closed, every lease the worker has
    taken has been given back; the closing calls of the [finally] are made, in
    order, however the loop ends; and when the event is seen set, nothing happens
    before them: no fetch, no job. *)
Theorem worker_drains (self : Worker.t) (fuel turns : nat) (tr : list step_of) (o : result bool)
    (tr1 tr2 : list step_of) (r : result bool) :
  runs (worker_run self fuel turns) tr o → admissible tr → tr = tr1 ++ Step StopIsSet r :: tr2 →
  outstanding tr1 = None ∧
  ∃ rest closing oc, tr2 = rest ++ closing ∧ runs (close_all worker_closing) closing oc ∧
    outstanding (tr1 ++ Step StopIsSet r :: rest) = None ∧
    (r = Ok true → rest = [] ∧ o = match oc with Ok _ => Ok true | Raise x => Raise x end).
Proof.
  intros Hr Ha E. unfold worker_run in Hr.
  apply runs_bind_inv in Hr as [(x & Hr & ->)|(u & ts & tb & Eb & Hs & Hb)].
  { exfalso. apply (proj2 (idle_runs _ _ _ (idle_setup self) Hr) r). rewrite E. set_solver. }
  apply runs_try_finally_inv in Hb as (ol & oc & tl & tc & -> & Hl & Hc & ->).
  destruct (idle_runs _ _ _ (idle_setup self) Hs) as [Hos Hns].
  assert (Hcl : calls_ok idle (close_all worker_closing)) by (apply idle_close; by repeat constructor).
  destruct (idle_runs _ _ _ Hcl Hc) as [_ Hnc].
  rewrite Eb in Ha. apply Forall_app in Ha as [_ Ha]. apply Forall_app in Ha as [Hal _].
  destruct (clean_app ts tl ol Hos Hns (run_loop_clean _ _ _ _ _ Hl Hal)) as [Ho Hst]. rewrite E, app_assoc in Eb.
  destruct (app_eq_inv _ _ _ _ (eq_sym Eb)) as [(k & E1 & E2)|(k & E1 & E2)].
  - destruct k as [|s k]; cbn in E2; [exfalso; apply (Hnc r); rewrite <- E2; set_solver|].
    injection E2 as <- ->. destruct (Hst tr1 r k E1) as [H1 H2]. split; [done|].
    exists k, tc, oc. split_and!; [done|done|by rewrite <- E1|]. intros Hr. destruct (H2 Hr) as [-> ->]. by destruct oc.
  - exfalso. apply (Hnc r). rewrite E2. set_solver.
Qed.

(** A worker that starts, sees an empty queue once and is told to stop. *)
Definition idle_worker_steps : list step_of :=
  [Step (PoolCreate (database_url default_settings) 1 10) (Ok tt);
   Step TxBegin (Ok tt); Step (AdvisoryLock SCHEMA_LOCK_KEY) (Ok tt); Step ExecuteSchema (Ok tt); Step TxCommit (Ok tt);
   Step (KvConnect (valkey_url default_settings)) (Ok tt);
   Step (NatsConnect (nats_url default_settings) None) (Ok tt);
   Step (JsAddStream (jobs_stream default_settings)) (Raise (ExternalError "stream name already in use"));
   Step (JsAddConsumer "ORBITER_JOBS" (jobs_consumer default_settings)) (Ok tt);
   Step (PullSubscribe "orbiter.jobs" "workers" "ORBITER_JOBS") (Ok tt);
   Step (NatsSubscribe "orbiter.chaos" "workers") (Ok tt);
   Step StopIsSet (Ok false); Step (SubFetch 1 5) (Raise TimeoutError)].

Lemma worker_drains_witness :
  outstanding idle_worker_steps = None ∧
  ∃ rest closing oc, [Step NatsClose (Ok tt); Step KvClose (Ok tt); Step PoolClose (Ok tt)] = rest ++ closing ∧
    runs (close_all worker_closing) closing oc ∧
    outstanding (idle_worker_steps ++ Step StopIsSet (Ok true) :: rest) = None ∧
    ((Ok true : result bool) = Ok true → rest = [] ∧ Ok true = match oc with Ok _ => Ok true | Raise x => Raise x end).
Proof.
  apply (worker_drains sample_worker 9 3
           (idle_worker_steps ++ [Step StopIsSet (Ok true); Step NatsClose (Ok tt); Step KvClose (Ok tt); Step PoolClose (Ok tt)])
           (Ok true) idle_worker_steps [Step NatsClose (Ok tt); Step KvClose (Ok tt); Step PoolClose (Ok tt)] (Ok true)).
  - repeat eapply runs_call. apply runs_ret.
  - repeat constructor; intros x; try (intros [= <-]); done.
  - reflexivity.
Defined.

(** A subscription finds the consumer it binds to.  In every run of the set-up of
    the worker and of the dead-letter listener, whatever the broker answers: before
    a pull subscription is made, its stream has been declared with a subject list
    that contains the subscription's subject, and its durable consumer with exactly
    that subject as filter and explicit acks; and the declarations themselves never
    raise, so a service starts beside one that has declared them already. *)
Theorem subscriptions_match_consumers (self : Worker.t) (settings : Settings) :
  (∀ setup tr o tr1 subject durable stream r tr2,
     setup = worker_setup self ∨ setup = listener_setup settings →
     runs setup tr o → tr = tr1 ++ Step (PullSubscribe subject durable stream) r :: tr2 →
     declared tr1 subject durable stream) ∧
  (∀ ensure tr o, ensure = ensure_stream settings ∨ ensure = ensure_streams settings → runs ensure tr o → o = Ok tt).
Proof.
  split.
  - intros setup tr o tr1 subject durable stream r tr2 Hs Hr E.
    assert (Ha : always subscribes_declared (λ _ _, True) [] setup)
      by (destruct Hs as [-> | ->]; [apply worker_setup_declares|apply listener_setup_declares]).
    destruct (always_runs _ _ _ _ _ _ Ha Hr) as [_ HP]. exact (HP tr1 _ tr2 E).
  - intros ensure tr o [-> | ->] Hr; [by apply ensure_stream_runs in Hr as [? _]|by apply ensure_streams_runs in Hr as [? _]].
Qed.
