(* ===== verification/Instruments.v ===== *)
(** * Instruments

    The counters and the histogram each process declares to the meter
    ([worker/main.py], [dlq/listener.py], [api/app.py]), and that the processes
    measure with those only. *)
From Stdlib Require Import Floats.SpecFloat.
From S2P Require Import Prelude PyFloat PyJson Model Telemetry StateMachine PyUuid KVStore Effects Fencing Repo Config.
From S2P Require Import Idempotency Admission Executor PyNum Worker Relay Dlq Api Lifecycle.

Inductive instrument := Counter | Histogram.

Definition worker_instruments : list (string * instrument) :=
  [("orbiter.jobs.completed", Counter); ("orbiter.jobs.requeued", Counter); ("orbiter.jobs.failed", Counter);
   ("orbiter.job.duration", Histogram)].

Definition listener_instruments : list (string * instrument) := [("orbiter.jobs.quarantined", Counter)].

Definition api_instruments : list (string * instrument) :=
  [("orbiter.jobs.submitted", Counter); ("orbiter.admission.rejected", Counter)].

(** A measurement names a declared instrument, and a counter goes up by one. *)
Definition measured (instruments : list (string * instrument)) (R : Type) (e : eff R) : Prop :=
  match e with
  | Metric name value => ∃ kind, (name, kind) ∈ instruments ∧ (kind = Counter → value = 1%Z)
  | _ => True
  end.

Ltac declared_instrument := eexists; split; [repeat constructor|by intros].

(** The calls of a program that is not itself a loop. *)
Ltac measured_calls :=
  repeat first
    [ apply calls_ok_bind; [|intros ?] | apply calls_ok_try_except; [|intros ?] | apply calls_ok_try_finally
    | apply calls_ok_of_result | apply calls_ok_await; first [exact I|declared_instrument] | exact I | case_match ].

Lemma measured_sleep insts steps : calls_ok (measured insts) (sleep_all steps).
Proof. induction steps as [|s steps IH]; cbn [sleep_all]; [done|]. by apply calls_ok_bind; [apply calls_ok_await|]. Qed.

Lemma measured_execute insts fuel ms fr : calls_ok (measured insts) (execute fuel ms fr).
Proof. unfold execute. repeat first [apply measured_sleep|progress measured_calls]. Qed.

Lemma measured_process self fuel msg : calls_ok (measured worker_instruments) (Worker.process self fuel msg).
Proof.
  unfold Worker.process, Worker.handle, Worker.under_lease, Worker.attempt_job, Worker.on_failure, Worker.nak_jittered,
    ExecutionGuard.try_claim, ExecutionGuard.mark_done, ExecutionGuard.release_claim, LeaseManager.acquire, LeaseManager.release.
  repeat first [apply measured_execute|apply measured_sleep|progress measured_calls].
Qed.

(** ** Whole processes *)

Lemma measured_process_all self fuel msgs : calls_ok (measured worker_instruments) (Worker.process_all self fuel msgs).
Proof.
  induction msgs as [|msg msgs IH]; cbn [Worker.process_all]; [done|]. apply calls_ok_bind; [apply measured_process|done].
Qed.

Lemma measured_run_loop self fuel turns : calls_ok (measured worker_instruments) (Worker.run_loop self fuel turns).
Proof.
  induction turns as [|turns IH]; cbn [Worker.run_loop]; [done|].
  apply calls_ok_bind; [by apply calls_ok_await|]. intros []; [done|].
  apply calls_ok_bind; [unfold Worker.fetch_or_continue; measured_calls|]. intros [msgs|]; [|done].
  apply calls_ok_bind; [apply measured_process_all|done].
Qed.

Lemma measured_advisory py_str settings d : calls_ok (measured listener_instruments) (on_advisory py_str settings d).
Proof. unfold on_advisory, quarantine, quarantine_inner. measured_calls. Qed.

Lemma measured_advisories py_str settings msgs :
  calls_ok (measured listener_instruments) (on_advisories py_str settings msgs).
Proof. induction msgs as [|msg msgs IH]; cbn [on_advisories]; [done|]. apply calls_ok_bind; [apply measured_advisory|done]. Qed.

Lemma measured_listen py_str settings turns : calls_ok (measured listener_instruments) (listen py_str settings turns).
Proof.
  induction turns as [|turns IH]; cbn [listen]; [done|].
  apply calls_ok_bind; [by apply calls_ok_await|]. intros []; [done|].
  apply calls_ok_bind; [unfold Worker.fetch_or_continue; measured_calls|]. intros [msgs|]; [|done].
  apply calls_ok_bind; [apply measured_advisories|done].
Qed.

Lemma measured_close insts closers :
  Forall (measured insts unit) closers → calls_ok (measured insts) (close_all closers).
Proof. induction 1; cbn [close_all]; [done|]. by apply calls_ok_bind; [apply calls_ok_await|]. Qed.

(** Every measurement a process makes, from its start to its end, whatever the
    replies, names an instrument the process has declared, and counters go up by
    one. *)
Theorem metrics_declared (py_str : json → string) (hostname : string) (u : uuid) (settings : Settings) (fuel turns : nat) :
  calls_ok (measured worker_instruments) (worker_amain hostname u settings fuel turns) ∧
  calls_ok (measured listener_instruments) (listener_amain py_str settings turns).
Proof.
  split.
  - unfold worker_amain, start_telemetry, add_signal_handlers, worker_run, worker_setup, create_pool, apply_schema, in_transaction,
      ensure_stream, suppress. apply calls_ok_bind; [measured_calls|]. intros _. apply calls_ok_bind; [measured_calls|]. intros _.
    apply calls_ok_bind; [measured_calls|]. intros _. apply calls_ok_try_finally; [apply measured_run_loop|].
    apply measured_close. by repeat constructor.
  - unfold listener_amain, start_telemetry, add_signal_handlers, listener_run, listener_setup, create_pool, apply_schema,
      in_transaction, ensure_streams, suppress. apply calls_ok_bind; [measured_calls|]. intros _.
    apply calls_ok_bind; [measured_calls|]. intros _. apply calls_ok_bind; [measured_calls|]. intros _.
    apply calls_ok_try_finally; [apply measured_listen|]. apply measured_close. by repeat constructor.
Qed.

(** ** The API *)

(** What [submit] counts: a refusal, or a submission once it has an answer. *)
Definition submit_counts (admission : AdmissionController.t) (outcome : result (option uuid * bool)) : list (string * Z) :=
  match submit_enter admission with
  | (Raise _, _) => [("orbiter.admission.rejected", 1%Z)]
  | (Ok _, admission) =>
      match submit_leave admission outcome with
      | (Ok _, _) => [("orbiter.jobs.submitted", 1%Z)]
      | (Raise _, _) => []
      end
  end.

(** Every answer is counted once: a 429 as rejected, a 200 or 201 as submitted; a
    submission that raises is not. *)
Theorem submissions_counted (cfg : Settings) (now : Z) (job_id : uuid) (carrier : dict) (key : string) (req : SubmitRequest)
    (admission : AdmissionController.t) (db : DB) :
  let outcome := (submit_job now job_id carrier key (model_dump req) (subject_jobs cfg) db).1 in
  submit_counts admission outcome =
    match (submit cfg now job_id carrier key req (admission, db)).1 with
    | Ok _ => [("orbiter.jobs.submitted", 1%Z)]
    | Raise (HTTPException 429 _ _) => [("orbiter.admission.rejected", 1%Z)]
    | Raise _ => []
    end.
Proof.
  intros outcome. subst outcome. unfold submit_counts, submit, submit_enter.
  destruct (AdmissionController.try_acquire admission) as [[] adm]; [|done].
  rewrite submit_job_eq. unfold submit_leave. destruct (AdmissionController.release adm) as [adm'|x] eqn:Hrel.
  - destruct (job_by_key key db); [done|]. by destruct (jobs db !! job_id).
  - destruct (job_by_key key db), (jobs db !! job_id); cbn [fst]; try done.
    all: unfold AdmissionController.release in Hrel; by case_match; simplify_eq.
Qed.
