(* ===== verification/Platform.v ===== *)
(** * The tables under the platform's own transactions

    What API, workers, relays and listeners may do to the three tables, and what
    then stays true of them: messages of the outbox name their jobs and carry their
    payloads, and a message is settled once its job is closed or a newer message
    carries it. *)
From Stdlib Require Import Floats.SpecFloat.
From S2P Require Import Prelude PyFloat PyJson Model StateMachine PyUuid KVStore Effects Fencing.
From S2P Require Import Idempotency Repo Config Telemetry Executor PyNum Worker World System Relay.

(** The transactions the processes make: ids are those of [uuid.uuid4], events are
    a worker's or the listener's. *)
Inductive platform_tx (db : DB) : DB → Prop :=
  | ptx_none : platform_tx db db
  | ptx_submit now id carrier key payload subject :
      (id < 2 ^ 128)%N → platform_tx db (submit_job now id carrier key payload subject db).2
  | ptx_event now id event att det ft res :
      worker_event event = true ∨ event = EventType.DEAD_LETTERED →
      platform_tx db (record_event now id event att det ft res db).2
  | ptx_replay now id subject : platform_tx db (replay_job now id subject db).2
  | ptx_publish now ids : platform_tx db (mark_published now ids db).

(** A job that waits to be run, or is. *)
Definition job_open (row : JobRow) : Prop :=
  jr_state row = JobState.value JobState.QUEUED ∨ jr_state row = JobState.value JobState.RUNNING.

(** What a worker reads from the body of a message. *)
Definition names_job (d : document) (id : uuid) : Prop := ∃ p, decodes (mkMsg d 0) id p.

(** The body's trace carrier can be read. *)
Definition traced (d : document) : Prop := ∃ body c, d = Ok body ∧ carrier_items (traceparent_of body) = Ok c.

(** The body names the job and holds the payload it was submitted with. *)
Definition carries (d : document) (id : uuid) (row : JobRow) : Prop :=
  traced d ∧ ∃ p, jr_payload row = JObj p ∧ decodes (mkMsg d 0) id p.

Record platform_ok (db : DB) : Prop := {
  pk_reachable : rtc repo_step empty_db db;
  pk_id id row : jobs db !! id = Some row → (id < 2 ^ 128)%N;
  pk_payload id row : jobs db !! id = Some row → ∃ p, jr_payload row = JObj p;
  pk_state id row : jobs db !! id = Some row → jr_state row ≠ JobState.value JobState.SUBMITTED;
  pk_body o row : o ∈ outbox db → jobs db !! ob_job_id o = Some row → carries (Ok (ob_payload o)) (ob_job_id o) row
}.

Lemma ptx_repo db db' : platform_tx db db' → db' = db ∨ repo_step db db'.
Proof.
  intros [|now id c key p s Hid|now id ev att det ft res Hev|now id s|now ids]; [by left|right; constructor..].
  by destruct Hev as [Hev| ->]; [intros ->|].
Qed.

Lemma ptx_change db db' : platform_tx db db' → db_change db db'.
Proof. intros [->|H]%ptx_repo; [constructor|by apply repo_step_change]. Qed.

Lemma message_carries id payload rest row :
  (id < 2 ^ 128)%N → jr_payload row = JObj payload → (∃ c, carrier_items (dict_get rest "traceparent") = Ok c) →
  carries (Ok (JObj (("job_id", JStr (uuid_str id)) :: ("payload", JObj payload) :: rest))) id row.
Proof.
  intros Hid Hp [c Hc]. split; [by eexists _, c|]. exists payload. split; [done|]. eexists _, _. split; [done|]. split; [done|]. split; [by apply UUID_str|done].
Qed.

Lemma row_exists db o : platform_ok db → o ∈ outbox db → ∃ row, jobs db !! ob_job_id o = Some row.
Proof.
  intros Hok Ho. destruct (reachable_ok db (pk_reachable db Hok)) as [[_ _ _ Hfk _ _] _].
  rewrite Forall_forall in Hfk. exact (Hfk o Ho).
Qed.

Lemma row_names db o : platform_ok db → o ∈ outbox db → names_job (Ok (ob_payload o)) (ob_job_id o).
Proof.
  intros Hok Ho. destruct (row_exists db o Hok Ho) as [row Hrow]. destruct (pk_body db Hok o row Ho Hrow) as (_ & p & _ & Hd).
  by exists p.
Qed.

(** An event of the platform leads to no SUBMITTED row. *)
Lemma event_not_submitted cur event next : apply (Some cur) event = Ok next → next ≠ JobState.SUBMITTED.
Proof. by destruct cur, event; cbn; intros [= <-]. Qed.

Lemma JobState_value_inj s s' : JobState.value s = JobState.value s' → s = s'.
Proof. intros E. pose proof (JobState_of_value s) as H. rewrite E, JobState_of_value in H. by injection H. Qed.

Lemma platform_ok_tx db db' : platform_tx db db' → platform_ok db → platform_ok db'.
Proof.
  intros Ht Hok. pose proof Hok as [H1 H2 H3 H4 H5].
  assert (Hr : rtc repo_step empty_db db') by (destruct (ptx_repo _ _ Ht) as [->|]; [done|by eapply rtc_r]).
  assert (Hw : ∀ now id row event cur next att det tok res db0,
    jobs db !! id = Some row → apply (Some cur) event = Ok next →
    jobs db0 = jobs (write_event now id row event next att det tok res db) →
    rtc repo_step empty_db db0 →
    (∀ o, o ∈ outbox db0 → o ∈ outbox db ∨ ob_job_id o = id ∧ carries (Ok (ob_payload o)) id row) → platform_ok db0).
  { intros now id row event cur next att det tok res db0 Hrow Hap Ej Hr0 Hb.
    split; [done|..]; rewrite Ej; cbn [jobs write_event].
    1-3: intros id' row'; rewrite lookup_insert; (case_decide; [subst; intros [= <-]|by eauto]); cbn.
    - by eauto.
    - by eauto.
    - intros E. apply (JobState_value_inj _ JobState.SUBMITTED) in E. by eapply event_not_submitted.
    - intros o row' Ho. rewrite lookup_insert. case_decide as E.
      + intros [= <-]. rewrite <- E. destruct (Hb o Ho) as [Ho'|[_ Hc]]; [|done]. rewrite E. apply (H5 o row Ho'). by rewrite <- E.
      + intros Hrow'. destruct (Hb o Ho) as [Ho'|[E' _]]; [by apply H5|congruence]. }
  destruct Ht as [|now id c key p s Hid|now id ev att det ft res Hev|now id s|now ids]; [done|..].
  - revert Hr. rewrite submit_job_eq. destruct (job_by_key key db); [done|]. destruct (jobs db !! id) eqn:Hfresh; [done|].
    cbn [snd]. intros Hr. split; [done|..]; cbn [jobs write_submission outbox].
    1-3: intros id' row'; rewrite lookup_insert; (case_decide; [subst; intros [= <-]|by eauto]); by eauto.
    intros o row [Ho|Ho]%elem_of_app; rewrite lookup_insert.
    + case_decide as E; [|by apply H5]. destruct (row_exists db o Hok Ho) as [row' Hrow']. congruence.
    + apply list_elem_of_singleton in Ho as ->. rewrite decide_True by done. intros [= <-]. apply message_carries; [done..|by eexists].
  - revert Hr. rewrite record_event_eq, apply_event_eq. destruct (jobs db !! id) as [row|] eqn:Hrow; [|done].
    destruct (JobState_of (jr_state row)) as [cur|] eqn:Hcur; [|done].
    destruct (apply (Some cur) ev) as [next|] eqn:Hap; [|done]. destruct (_ <=? _)%Z; [|done].
    intros Hr. eapply Hw; [done|exact Hap|reflexivity|exact Hr|by left].
  - revert Hr. rewrite replay_job_eq, apply_event_eq. destruct (jobs db !! id) as [row|] eqn:Hrow; [|done].
    destruct (JobState_of (jr_state row)) as [cur|] eqn:Hcur; [|done].
    destruct (apply (Some cur) EventType.REPLAYED) as [next|] eqn:Hap; [|done]. destruct (_ <=? _)%Z; [|done].
    intros Hr. eapply Hw; [done|exact Hap|reflexivity|exact Hr|]. cbn [snd outbox add_outbox write_event].
    intros o [Ho|Ho]%elem_of_app; [by left|]. apply list_elem_of_singleton in Ho as ->. right. split; [done|].
    destruct (H3 id row Hrow) as [p Hp]. cbn [ob_payload]. rewrite Hp. apply message_carries; [by apply (H2 id row)|done|by eexists].
  - split; [done|exact H2|exact H3|exact H4|]. unfold mark_published. cbn [outbox].
    intros o row (o0 & -> & Ho0)%list_elem_of_fmap. specialize (H5 o0 row Ho0). by case_decide.
Qed.

Lemma row_id db o : platform_ok db → o ∈ outbox db → (ob_job_id o < 2 ^ 128)%N.
Proof.
  intros Hok Ho. destruct (row_exists db o Hok Ho) as [row Hrow]. by apply (pk_id db Hok _ row).
Qed.

(** *** Rows of the outbox *)

(** The row, apart from its times. *)
Definition core (o : OutboxRow) : Z * uuid * string * json := (ob_id o, ob_job_id o, ob_subject o, ob_payload o).

Lemma core_msg c o o' : core o = core o' → msg_of c o = msg_of c o'.
Proof. intros [= E1 E2 E3 E4]. unfold msg_of. by rewrite E1, E3, E4. Qed.

(** Rows stay; a row that was not there has an id above all others, and belongs to a
    job that has none or that is being replayed. *)
Lemma outbox_tx db db' :
  platform_tx db db' → platform_ok db →
  (∀ o, o ∈ outbox db → ∃ o', o' ∈ outbox db' ∧ core o' = core o) ∧
  (∀ o', o' ∈ outbox db' → (∃ o, o ∈ outbox db ∧ core o = core o') ∨
     ob_published_at o' = None ∧ ∀ o, o ∈ outbox db → (ob_id o < ob_id o')%Z).
Proof.
  intros Ht Hok. destruct (reachable_ok db (pk_reachable db Hok)) as [[_ [_ Hs] _ _ _ _] _]. rewrite Forall_forall in Hs.
  assert (Hsame : ∀ db0, outbox db0 = outbox db →
    (∀ o, o ∈ outbox db → ∃ o', o' ∈ outbox db0 ∧ core o' = core o) ∧
    (∀ o', o' ∈ outbox db0 → (∃ o, o ∈ outbox db ∧ core o = core o') ∨
       ob_published_at o' = None ∧ ∀ o, o ∈ outbox db → (ob_id o < ob_id o')%Z)).
  { intros db0 ->. split; [by eauto|]. intros o' Ho'. left. by eauto. }
  assert (Happ : ∀ db0 id s p t, outbox db0 = outbox db ++ [mkOutboxRow (outbox_seq db + 1) id s p t None] →
    (∀ o, o ∈ outbox db → ∃ o', o' ∈ outbox db0 ∧ core o' = core o) ∧
    (∀ o', o' ∈ outbox db0 → (∃ o, o ∈ outbox db ∧ core o = core o') ∨
       ob_published_at o' = None ∧ ∀ o, o ∈ outbox db → (ob_id o < ob_id o')%Z)).
  { intros db0 id s p t ->. split.
    - intros o Ho. exists o. rewrite elem_of_app. auto.
    - intros o' [Ho'|Ho']%elem_of_app; [left; by eauto|]. right. apply list_elem_of_singleton in Ho' as ->.
      split; [done|]. intros o Ho. specialize (Hs o Ho). cbn in *. lia. }
  apply ptx_change in Ht. destruct Ht as [|now id c key p s Hk Hi|now id row ev cur next att det tok res Hev Hr Hcur Ha Hf
    |now id row cur next s p Hr Hcur Ha|now ids]; [by apply Hsame|by eapply Happ|by apply Hsame|by eapply Happ|].
  split.
  - intros o Ho. destruct (mark_kept now ids db o Ho) as (o' & Ho' & _). exists (mark_row now ids o). split.
    + unfold mark_published. cbn [outbox]. by apply (list_elem_of_fmap_2 (mark_row now ids)).
    + unfold mark_row. by case_decide.
  - intros o' (o & -> & Ho)%list_elem_of_fmap. left. exists o. split; [done|]. by case_decide.
Qed.

(** *** Settled rows *)

(** The message of row [oid] is no longer what keeps its job going: the job is not
    open, or a newer row carries it. *)
Definition settled (oid : Z) (id : uuid) (db : DB) : Prop :=
  ∀ row, jobs db !! id = Some row → job_open row →
    ∃ o, o ∈ outbox db ∧ ob_job_id o = id ∧ (oid < ob_id o)%Z.

Definition has_state (id : uuid) (st : JobState.t) (db : DB) : Prop :=
  ∃ row, jobs db !! id = Some row ∧ jr_state row = JobState.value st.

Lemma settled_state id st db oid :
  has_state id st db → st ≠ JobState.QUEUED → st ≠ JobState.RUNNING → settled oid id db.
Proof.
  intros (row & Hrow & Hst) Hq Hr row' Hrow' Ho. rewrite Hrow in Hrow'. injection Hrow' as <-.
  destruct Ho as [Ho|Ho]; rewrite Hst in Ho; by apply JobState_value_inj in Ho.
Qed.

Lemma has_state_tx id st db db' :
  platform_tx db db' → platform_ok db → is_terminal st = true → has_state id st db → has_state id st db'.
Proof.
  intros Ht Hok Hterm (row & Hrow & Hst). exists row. split; [|done].
  destruct (reachable_ok db (pk_reachable db Hok)) as [Hdb _].
  by destruct (db_change_terminal db db' id row st Hdb (ptx_change _ _ Ht) Hrow Hst Hterm).
Qed.

(** Only a replay reopens a job, and it adds a row. *)
Lemma settled_tx oid id db db' :
  platform_tx db db' → platform_ok db → (∃ o, o ∈ outbox db ∧ ob_id o = oid ∧ ob_job_id o = id) →
  settled oid id db → settled oid id db'.
Proof.
  intros Ht Hok (o0 & Ho0 & <- & <-) Hset row' Hrow' Hopen.
  destruct (outbox_tx db db' Ht Hok) as [Hkeep _].
  assert (Hold : ∀ row, jobs db !! ob_job_id o0 = Some row → job_open row →
    ∃ o, o ∈ outbox db' ∧ ob_job_id o = ob_job_id o0 ∧ (ob_id o0 < ob_id o)%Z).
  { intros row Hrow Ho. destruct (Hset row Hrow Ho) as (o & Hin & Ej & Hlt). destruct (Hkeep o Hin) as (o' & Hin' & E).
    exists o'. injection E as E1 E2 _ _. split; [done|]. split; [congruence|lia]. }
  pose proof (ptx_change _ _ Ht) as Hch.
  destruct (reachable_ok db (pk_reachable db Hok)) as [[_ [_ Hs] _ Hfk _ _] _]. rewrite Forall_forall in Hs.
  rewrite Forall_forall in Hfk.
  destruct Hch as [|now id c key p s Hk Hi|now id row ev cur next att det tok res Hev Hr Hcur Ha Hf
    |now id row cur next s p Hr Hcur Ha|now ids]; [by eauto|..].
  - cbn [jobs write_submission] in Hrow'. rewrite lookup_insert in Hrow'. case_decide; [|by eauto]. subst id.
    destruct (Hfk o0 Ho0) as [? ?]. congruence.
  - cbn [jobs write_event] in Hrow'. rewrite lookup_insert in Hrow'. case_decide; [|by eauto]. subst id.
    apply (Hold row Hr). pose proof (pk_state db Hok _ _ Hr) as Hns. injection Hrow' as <-. unfold job_open in *. cbn [jr_state] in Hopen.
    assert (Hcur' : jr_state row = JobState.value cur).
    { destruct (reachable_ok db (pk_reachable db Hok)) as [Hdb _].
      destruct (ok_jobs db Hdb _ row Hr) as (log & _ & (st & _ & Hst) & _).
      rewrite Hst, JobState_of_value in Hcur. by injection Hcur as <-. }
    rewrite Hcur' in *. destruct cur; [done|by left|by right|..].
    all: destruct ev; try done; cbn in Ha; discriminate Ha || (injection Ha as <-; by destruct Hopen).
  - cbn [outbox add_outbox write_event jobs] in *. rewrite lookup_insert in Hrow'. case_decide as E; [|by eauto].
    exists (mkOutboxRow (outbox_seq db + 1) id s p now None).
    split; [rewrite elem_of_app; right; by apply list_elem_of_singleton|]. split; [done|]. cbn. specialize (Hs o0 Ho0).
      cbn in Hs. lia.
  - by eauto.
Qed.

(** What the reply of a recorded event says about its job. *)
Lemma record_reply now id event att det ft res db :
  platform_ok db →
  match record_event now id event att det ft res db with
  | (Ok next, db') => has_state id next db' ∧ ∃ cur, has_state id cur db ∧ apply (Some cur) event = Ok next
  | (Raise (IllegalTransition st _), db') =>
      db' = db ∧ ∃ cur, st = Some cur ∧ has_state id cur db ∧ apply (Some cur) event = Raise (IllegalTransition (Some cur) event)
  | (Raise _, db') => db' = db
  end.
Proof.
  intros Hok. rewrite record_event_eq, apply_event_eq. destruct (jobs db !! id) as [row|] eqn:Hrow; [|done].
  destruct (reachable_ok db (pk_reachable db Hok)) as [Hdb _].
  destruct (ok_jobs db Hdb id row Hrow) as (log & _ & (cur & _ & Hst) & _). rewrite Hst, JobState_of_value.
  assert (Hs : has_state id cur db) by (by exists row).
  destruct (apply_cases (Some cur) event) as [[next Ha]|Ha]; rewrite Ha; [|by eauto].
  destruct (_ <=? _)%Z; [|done]. split; [|by eauto]. eexists. cbn [jobs write_event]. by rewrite lookup_insert_eq.
Qed.

(** Only DEAD_LETTERED makes a job dead-lettered. *)
Lemma dead_by_event now id event att det ft res db id' :
  has_state id' JobState.DEAD_LETTER (record_event now id event att det ft res db).2 →
  has_state id' JobState.DEAD_LETTER db ∨ event = EventType.DEAD_LETTERED ∧ id' = id.
Proof.
  rewrite record_event_eq, apply_event_eq. destruct (jobs db !! id) as [row|]; [|by left].
  destruct (JobState_of (jr_state row)) as [cur|]; [|by left].
  destruct (apply (Some cur) event) as [next|] eqn:Ha; [|by left]. destruct (_ <=? _)%Z; [|by left].
  intros (row' & Hrow & Hst). cbn [snd jobs write_event] in Hrow. rewrite lookup_insert in Hrow.
  case_decide as E; [|left; by exists row']. injection Hrow as <-. cbn [jr_state] in Hst. right.
  assert (next = JobState.DEAD_LETTER) as -> by (by apply JobState_value_inj). split; [|done].
  by destruct cur, event.
Qed.

Lemma dead_by_submit now id c key p s db id' :
  has_state id' JobState.DEAD_LETTER (submit_job now id c key p s db).2 → has_state id' JobState.DEAD_LETTER db.
Proof.
  rewrite submit_job_eq. destruct (job_by_key key db); [done|]. destruct (jobs db !! id); [done|].
  intros (row & Hrow & Hst). cbn [snd jobs write_submission] in Hrow. rewrite lookup_insert in Hrow.
  case_decide; [by injection Hrow as <-|]. by exists row.
Qed.

Lemma dead_by_replay now id s db id' :
  has_state id' JobState.DEAD_LETTER (replay_job now id s db).2 → has_state id' JobState.DEAD_LETTER db.
Proof.
  rewrite replay_job_eq, apply_event_eq. destruct (jobs db !! id) as [row|]; [|done].
  destruct (JobState_of (jr_state row)) as [cur|]; [|done].
  destruct (apply (Some cur) EventType.REPLAYED) as [next|] eqn:Ha; [|done]. destruct (_ <=? _)%Z; [|done].
  intros (row' & Hrow & Hst). cbn [snd jobs write_event add_outbox] in Hrow. rewrite lookup_insert in Hrow.
  case_decide as E; [|by exists row']. injection Hrow as <-. cbn [jr_state] in Hst.
  apply (JobState_value_inj next JobState.DEAD_LETTER) in Hst as ->. by destruct cur.
Qed.

Lemma has_state_not_submitted id st db : platform_ok db → has_state id st db → st ≠ JobState.SUBMITTED.
Proof. intros Hok (row & Hrow & Hst) ->. by apply (pk_state db Hok id row). Qed.

(** DEAD_LETTERED is taken while the job is open, and refused without effect after. *)
Lemma dead_letter_cases now id att det db r db' row :
  platform_ok db → jobs db !! id = Some row → record_event now id EventType.DEAD_LETTERED att det None None db = (r, db') →
  ((∃ st, r = Ok st) ∨ (∃ st ev, r = Raise (IllegalTransition st ev))) ∧
  (job_open row → has_state id JobState.DEAD_LETTER db') ∧ (¬ job_open row → db' = db).
Proof.
  intros Hok Hrow E. pose proof (pk_state db Hok id row Hrow) as Hns.
  destruct (reachable_ok db (pk_reachable db Hok)) as [Hdb _].
  destruct (ok_jobs db Hdb id row Hrow) as (log & _ & (cur & _ & Hst) & _).
  revert E. rewrite record_event_eq, apply_event_eq, Hrow, Hst, JobState_of_value. cbn [token_of]. rewrite Z.leb_refl.
  unfold job_open. rewrite Hst in *. destruct cur; cbn [apply]; try done; intros [= <- <-].
  1-2: split; [by left; eauto|]; split; [|intros []; auto]; intros _; eexists; cbn; by rewrite lookup_insert_eq.
  all: split; [by right; eauto|]; split; [intros []; done|done].
Qed.

(** Once DEAD_LETTERED is in the trail, or refused by it, the job is not open. *)
Lemma dead_letter_settles now id att det db r db' :
  platform_ok db → record_event now id EventType.DEAD_LETTERED att det None None db = (r, db') →
  match r with Ok _ | Raise (IllegalTransition _ _) => ∀ oid, settled oid id db' | _ => True end.
Proof.
  intros Hok E. pose proof (record_reply now id EventType.DEAD_LETTERED att det None None db Hok) as H. rewrite E in H.
  destruct r as [st|x].
  - destruct H as (Hst & cur & _ & Ha). intros oid. assert (st = JobState.DEAD_LETTER) as -> by (by destruct cur; simplify_eq/=).
    by eapply settled_state.
  - destruct x; try done. destruct H as (-> & cur & _ & Hst & Ha). intros oid.
    pose proof (has_state_not_submitted _ _ _ Hok Hst). eapply settled_state; [exact Hst|by intros ->..].
Qed.

(** ** The types of the columns

    The columns hold text and JSON; the code reads them back with [JobState(...)],
    [EventType(...)], [json.loads] and [uuid.UUID]. *)

Definition job_typed (row : JobRow) : Prop :=
  (∃ st, JobState_of (jr_state row) = Ok st) ∧ (∃ p, jr_payload row = JObj p) ∧
  (jr_result row = None ∨ ∃ l, jr_result row = Some (JObj l)).

Definition event_typed (ev : EventRow) : Prop :=
  (∃ e, EventType_of (er_event ev) = Ok e) ∧ ∃ l, er_detail ev = JObj l.

(** The body the relay publishes: an object with the job's id, its payload and
    perhaps a trace carrier, also an object. *)
Definition outbox_typed (db : DB) (o : OutboxRow) : Prop :=
  ∃ row p rest, jobs db !! ob_job_id o = Some row ∧ jr_payload row = JObj p ∧
    ob_payload o = JObj (("job_id", JStr (uuid_str (ob_job_id o))) :: ("payload", JObj p) :: rest) ∧
    (rest = [] ∨ ∃ c, rest = [("traceparent", JObj c)]).

Record typed (db : DB) : Prop := {
  ty_jobs id row : jobs db !! id = Some row → job_typed row;
  ty_events ev : ev ∈ job_events db → event_typed ev;
  ty_outbox o : o ∈ outbox db → outbox_typed db o
}.

(** Rows of the outbox stay typed while payloads of jobs stay. *)
Lemma outbox_typed_kept db db' o :
  (∀ id row, jobs db !! id = Some row → ∃ row', jobs db' !! id = Some row' ∧ jr_payload row' = jr_payload row) →
  outbox_typed db o → outbox_typed db' o.
Proof.
  intros Hk (row & p & rest & Hrow & Hp & Hb & Hr). destruct (Hk _ _ Hrow) as (row' & Hrow' & E).
  exists row', p, rest. by rewrite E.
Qed.

Lemma typed_apply now id event att det ft res db : typed db → typed (apply_event now id event att det ft res db).2.
Proof.
  intros [H1 H2 H3]. rewrite apply_event_eq. destruct (jobs db !! id) as [row|] eqn:Hrow; [|done].
  destruct (JobState_of (jr_state row)) as [cur|]; [|done].
  destruct (apply (Some cur) event) as [next|]; [|done]. destruct (_ <=? _)%Z; [|done].
  destruct (H1 id row Hrow) as (_ & Hp & Hres).
  split; cbn [snd jobs job_events outbox write_event].
  - intros id' row'. rewrite lookup_insert. case_decide; [|by apply H1]. intros [= <-]. split_and!; cbn.
    + exists next. apply JobState_of_value.
    + done.
    + destruct res; [right; by eexists|done].
  - intros ev [Hev|Hev]%elem_of_app; [by apply H2|]. apply list_elem_of_singleton in Hev as ->.
    split; [exists event; apply EventType_of_value|by eexists].
  - intros o Ho. eapply outbox_typed_kept; [|by apply H3]. intros id' row' Hrow'. cbn [jobs write_event]. rewrite lookup_insert.
    case_decide; [subst|by eauto]. eexists. split; [done|]. cbn. congruence.
Qed.

Lemma typed_submit now id c key p s db : typed db → typed (submit_job now id c key p s db).2.
Proof.
  intros [H1 H2 H3]. rewrite submit_job_eq. destruct (job_by_key key db); [done|].
  destruct (jobs db !! id) eqn:Hfresh; [done|]. split; cbn [snd jobs job_events outbox write_submission].
  - intros id' row'. rewrite lookup_insert. case_decide; [|by apply H1]. intros [= <-].
    split_and!; cbn; [by exists JobState.QUEUED|by eexists|by left].
  - intros ev [Hev|Hev]%elem_of_app; [by apply H2|].
    apply elem_of_cons in Hev as [->|Hev%list_elem_of_singleton]; [|subst ev];
      (split; [eexists; by apply EventType_of_value|by eexists]).
  - intros o [Ho|Ho]%elem_of_app.
    + eapply outbox_typed_kept; [|by apply H3]. intros id' row' Hrow'. cbn [jobs write_submission]. exists row'.
      rewrite lookup_insert_ne; [done|]. intros <-. congruence.
    + apply list_elem_of_singleton in Ho as ->. eexists _, p, [("traceparent", JObj c)]. cbn [jobs write_submission ob_job_id].
      rewrite lookup_insert_eq. split_and!; [done..|]. right. by eexists.
Qed.

Lemma typed_step db db' : repo_step db db' → typed db → typed db'.
Proof.
  intros Hs Ht. destruct Hs as [now id c key p s|now id event att det ft res Hev|now id s|now ids].
  - by apply typed_submit.
  - rewrite record_event_eq. by apply typed_apply.
  - rewrite replay_job_eq. destruct (jobs db !! id) as [row|] eqn:Hrow; [|done].
    pose proof (typed_apply now id EventType.REPLAYED 0 None None None db Ht) as Ht'.
    revert Ht'. rewrite apply_event_eq, Hrow. destruct (JobState_of (jr_state row)) as [cur|]; [|done].
    destruct (apply (Some cur) EventType.REPLAYED) as [next|]; [|done]. destruct (_ <=? _)%Z; [|done]. cbn [snd].
    intros [H1 H2 H3]. split; [done|done|]. cbn [outbox add_outbox]. intros o [Ho|Ho]%elem_of_app.
    + eapply outbox_typed_kept; [|by apply H3]. intros id' row' Hrow'. by exists row'.
    + apply list_elem_of_singleton in Ho as ->. destruct (ty_jobs db Ht id row Hrow) as (_ & [p Hp] & _).
      eexists _, p, []. cbn [jobs add_outbox write_event ob_job_id ob_payload]. rewrite lookup_insert_eq, Hp.
      split_and!; [done..|by left].
  - destruct Ht as [H1 H2 H3]. split; [done|done|]. unfold mark_published. cbn [outbox].
    intros o (o0 & -> & Ho0)%list_elem_of_fmap. specialize (H3 o0 Ho0). by case_decide.
Qed.

(** * Properties *)

(** C28: the tables are well typed.  Whatever sequence of repository operations ran,
    every state reads back as a [JobState], every event as an [EventType], every
    payload, result and detail is a JSON object, and every outbox row belongs to an
    existing job and holds an object with that job's id as text, the job's payload,
    and a trace carrier object or none: none of the conversions of the readers can
    fail on them. *)
Theorem tables_typed (db : DB) :
  rtc repo_step empty_db db →
  (∀ id row, jobs db !! id = Some row → job_typed row) ∧
  (∀ ev, ev ∈ job_events db → event_typed ev) ∧
  (∀ o, o ∈ outbox db → outbox_typed db o).
Proof.
  intros Hr. assert (Ht : typed db); [|by destruct Ht].
  assert (H0 : typed empty_db) by (split; cbn; [done|intros; set_solver..]).
  revert H0. induction Hr as [|db1 db2 db3 Hs _ IH]; [done|]. intros H0. by apply IH, (typed_step db1).
Qed.

Lemma tables_typed_witness :
  ∃ row, jobs sample_db5 !! 1%N = Some row ∧ job_typed row.
Proof.
  destruct (jobs sample_db5 !! 1%N) as [row|] eqn:E; [|vm_compute in E; discriminate E].
  exists row. split; [reflexivity|]. apply (proj1 (tables_typed sample_db5 sample_db5_reachable) 1%N row E).
Defined.
