(* ===== verification/Pipeline.v ===== *)
(** * The pipeline: from a submission to the end of its message

    API, operator, relays, broker, workers and dead-letter listeners at work on one
    database, one store and one work queue, call by call and in any order.  The
    broker hands a message that is in its queue to any worker, as often as it
    likes; an ack, a term or a deletion removes it; a publication is stored under a
    fresh sequence number, or dropped as a repetition. *)
From Stdlib Require Import Floats.SpecFloat.
From stdpp Require Import sorting.
From S2P Require Import Prelude PyFloat PyJson Model StateMachine PyUuid KVStore Effects Fencing.
From S2P Require Import Idempotency Repo Config Telemetry Executor PyNum Worker World System Relay Platform Dlq.

(** ** The listener, observed *)

(** What an observer of one advisory's handling remembers: the message it has read,
    that the quarantine stream has its copy, that the trail has answered for its
    job. *)
Inductive lwatch :=
  | LIdle
  | LRead (seq : Z) (d : document)
  | LCopied (seq : Z) (d : document)
  | LRecorded (seq : Z).

#[global] Instance lwatch_idle_dec (w : lwatch) : Decision (w = LIdle).
Proof. destruct w; [by left|by right..]. Defined.

(** [uuid.UUID(body["job_id"])] *)
Definition job_of (d : document) : option uuid :=
  match result_bind d (λ body, result_bind (getitem body "job_id") uuid_of_json) with Ok id => Some id | Raise _ => None end.

Lemma names_job_of d id : names_job d id → job_of d = Some id.
Proof.
  intros (p & data & jv & Hd & Hj & Hu & _). cbn [msg_data] in Hd. subst d. unfold job_of. cbn [result_bind].
  rewrite Hj. cbn [result_bind]. by rewrite Hu.
Qed.

(** The copy of message [seq] on its way to the quarantine stream. *)
Definition copy_of (settings : Settings) (seq : Z) (d : document) : sent_msg :=
  (subject_dlq settings, d, [("Nats-Msg-Id", dlq_msg_id settings seq)]).

(** The calls of one advisory's handling: one message is read and copied,
    DEAD_LETTERED is recorded for the job it names once the copy is stored, and that
    message is deleted once the trail has answered. *)
Definition listener_call (settings : Settings) (w : lwatch) (R : Type) (e : eff R) : option (result R → lwatch) :=
  match e in eff R return option (result R → lwatch) with
  | JsGetMsg name seq =>
      if decide (name = stream_name settings ∧ w = LIdle) then
        Some (λ r, match r with Ok d => LRead seq d | Raise _ => LIdle end)
      else None
  | RecordEvent id event _ _ ft res =>
      match w with
      | LCopied seq d =>
          if decide (job_of d = Some id ∧ event = EventType.DEAD_LETTERED ∧ ft = None ∧ res = None) then
            Some (λ r, match r with Ok _ | Raise (IllegalTransition _ _) => LRecorded seq | Raise _ => w end)
          else None
      | _ => None
      end
  | JsDeleteMsg name seq =>
      match w with
      | LRecorded seq' => if decide (name = stream_name settings ∧ seq = seq') then Some (λ _, w) else None
      | _ => None
      end
  | JsPublish subject data headers =>
      match w with
      | LRead seq d =>
          if decide ((subject, data, headers) = copy_of settings seq d) then
            Some (λ r, match r with Ok _ => LCopied seq d | Raise _ => w end)
          else None
      | _ => None
      end
  | Metric _ _ => Some (λ _, w)
  | MsgAck => Some (λ _, w)
  | _ => None
  end.

Abbreviation listener_conforms settings := (monitored (λ _ _ _, True) (listener_call settings) (λ _ _, True)).

Lemma conforms_quarantine settings adv :
  listener_conforms settings LIdle (quarantine settings adv).
Proof.
  unfold quarantine. apply monitored_bind.
  eapply monitored_await; [cbn; rewrite decide_True by done; reflexivity|]. intros [raw|x] _; [|done].
  apply monitored_bind, monitored_of_result. destruct raw as [body|x]; [|done].
  apply monitored_bind, monitored_of_result. destruct (getitem body "job_id") as [jv|x] eqn:Hj; [|done].
  apply monitored_bind, monitored_of_result. destruct (uuid_of_json jv) as [id|x] eqn:Hu; [|done].
  apply monitored_bind, monitored_of_result. destruct (carrier_items _); [|done].
  assert (Hid : job_of (Ok body) = Some id) by (unfold job_of; cbn [result_bind]; rewrite Hj; cbn [result_bind]; by rewrite Hu).
  apply monitored_bind. unfold quarantine_inner. apply monitored_bind.
  eapply monitored_await; [cbn [listener_call]; rewrite decide_True by done; reflexivity|]. intros [[]|x] _; [|done].
  apply monitored_bind, monitored_try_except, monitored_bind.
  eapply monitored_await; [cbn [listener_call]; rewrite decide_True by done; reflexivity|].
  intros [st|x] _; [|destruct x; try done].
  - cbn [monitored]. cbn. rewrite decide_True by done. intros [[]|x] _; cbn; [by intros [[]|]|done].
  - cbn [monitored]. cbn. rewrite decide_True by done. intros [[]|y] _; cbn; [by intros [[]|]|done].
Qed.

Lemma conforms_on_advisory py_str settings data :
  listener_conforms settings LIdle (on_advisory py_str settings data).
Proof.
  unfold on_advisory. apply monitored_bind, monitored_of_result.
  destruct (parse_advisory py_str data) as [adv|x]; [|done]. apply monitored_bind. destruct adv as [adv|].
  - apply monitored_try_except. eapply monitored_mono; [|apply conforms_quarantine].
    intros w [[]|x] _; cbn; by intros [[]|].
  - by eapply monitored_await.
Qed.

(** ** The system *)

(** Acks and terms take the message out of the queue. *)
Definition removes {R} (e : eff R) : bool := match e with MsgAck | MsgTerm => true | _ => false end.

(** The trail refuses a COMPLETED because its job is queued again. *)
Definition refused_completion {R} (e : eff R) (r : result R) : bool :=
  match e in eff R return result R → bool with
  | RecordEvent _ EventType.COMPLETED _ _ _ _ => λ r,
      match r with Raise (IllegalTransition (Some JobState.QUEUED) _) => true | _ => false end
  | _ => λ _, false
  end r.

(** The queue after a call of a delivery of message [seq]: a removal whose reply is
    lost may have happened. *)
Inductive broker (seq : Z) {R} (e : eff R) (r : result R) (stream : gmap Z sent_msg) : gmap Z sent_msg → Prop :=
  | broker_removed : removes e = true → broker seq e r stream (delete seq stream)
  | broker_kept : (removes e = true → ∃ x, r = Raise x) → broker seq e r stream stream.

(** The message a sequence number was given to: numbers count from 1. *)
Definition log_at (log : list sent_msg) (seq : Z) : option sent_msg :=
  if decide (0 < seq)%Z then log !! Z.to_nat (seq - 1) else None.

Definition next_seq (log : list sent_msg) : Z := Z.of_nat (length log) + 1.

Lemma log_at_new log m : log_at (log ++ [m]) (next_seq log) = Some m.
Proof.
  unfold log_at, next_seq. rewrite decide_True by lia. rewrite Z.add_simpl_r, Nat2Z.id. by apply list_lookup_middle.
Qed.

Lemma log_at_prefix log log' seq m : log `prefix_of` log' → log_at log seq = Some m → log_at log' seq = Some m.
Proof. unfold log_at. case_decide; [|done]. intros Hp Hm. by eapply prefix_lookup_Some. Qed.

Lemma log_at_fresh log : log_at log (next_seq log) = None.
Proof.
  unfold log_at, next_seq. rewrite decide_True by lia. rewrite Z.add_simpl_r, Nat2Z.id. by apply lookup_ge_None_2.
Qed.

(** The queue and its log after the relays' publications went from [sent] to
    [sent']: the new message is stored under the next number, or dropped because its
    id was used before. *)
Inductive stored (sent : list sent_msg) (stream : gmap Z sent_msg) (log : list sent_msg)
    : list sent_msg → gmap Z sent_msg → list sent_msg → Prop :=
  | stored_none : stored sent stream log sent stream log
  | stored_new m : stored sent stream log (sent ++ [m]) (<[next_seq log := m]> stream) (log ++ [m])
  | stored_duplicate m m' i :
      m' ∈ sent → get_header m'.2 "Nats-Msg-Id" = Some i → get_header m.2 "Nats-Msg-Id" = Some i →
      stored sent stream log (sent ++ [m]) stream log.

(** An advisory being handled. *)
Record lproc := mkLproc { lp_code : prog unit; lp_watch : lwatch }.

Section pipeline.
Context {S : Type} `{!KVStore S, !KVView S, !KVStoreLaws S}.
Context (carrier : Z → headers) (settings : Settings) (py_str : json → string).

Record pipeline := mkPipeline {
  pl_fleet : fleet (S := S);              (* tables, store, clock and deliveries *)
  pl_stream : gmap Z sent_msg;            (* the work queue, by sequence number *)
  pl_log : list sent_msg;                 (* what it stored so far, in the order of the numbers *)
  pl_on : gmap nat (Z * sent_msg);        (* the message of each delivery *)
  pl_sent : list sent_msg;                (* everything published so far *)
  pl_relays : gmap nat rproc;
  pl_listeners : gmap nat lproc;
  pl_dlq : list sent_msg;                 (* the quarantine stream *)
  pl_refused : list sent_msg              (* messages one of whose deliveries was refused its COMPLETED *)
}.

Abbreviation db_of f := (sh_db (fl_shared f)).

Definition with_db (db : DB) (f : fleet (S := S)) : fleet (S := S) :=
  mkFleet (set_db db (fl_shared f)) (fl_procs f) (fl_next f).

Definition start_delivery (self : Worker.t) (fuel : nat) (msg : Msg) (job : uuid) (f : fleet (S := S)) : fleet (S := S) :=
  mkFleet (fl_shared f)
    (<[fl_next f := mkProc self job (num_delivered msg) (Worker.delivery_of self (num_delivered msg))
                      (Worker.process self fuel msg) watch_init]> (fl_procs f))
    (Datatypes.S (fl_next f)).

(** The relays' part of the system. *)
Definition relay_view (f : fleet (S := S)) (sent : list sent_msg) (relays : gmap nat rproc) : rsys :=
  mkRsys (db_of f) (sh_wall (fl_shared f)) sent relays.

(** The effect of a listener's call on tables, queue and quarantine stream, and its
    reply. *)
Definition lcommit (f : fleet (S := S)) (stream : gmap Z sent_msg) (dlq : list sent_msg) (R : Type) (e : eff R)
    : option (result R) * DB * gmap Z sent_msg * list sent_msg :=
  match e in eff R return option (result R) * DB * gmap Z sent_msg * list sent_msg with
  | JsGetMsg name seq =>
      (Some (if decide (name = stream_name settings) then
               match stream !! seq with Some m => Ok m.1.2 | None => Raise (ExternalError "no message found") end
             else Raise (ExternalError "stream not found")), db_of f, stream, dlq)
  | JsDeleteMsg name seq =>
      if decide (name = stream_name settings) then
        (Some (match stream !! seq with Some _ => Ok tt | None => Raise (ExternalError "no message found") end),
         db_of f, delete seq stream, dlq)
      else (Some (Raise (ExternalError "stream not found")), db_of f, stream, dlq)
  | RecordEvent id event att det ft res =>
      let '(r, db) := record_event (sh_wall (fl_shared f)) id event att det ft res (db_of f) in (Some r, db, stream, dlq)
  | JsPublish subject data headers =>
      if decide (subject = subject_dlq settings) then (Some (Ok tt), db_of f, stream, dlq ++ [(subject, data, headers)])
      else (Some (Raise (ExternalError "no response from stream")), db_of f, stream, dlq)
  | Metric _ _ => (Some (Ok tt), db_of f, stream, dlq)
  | MsgAck => (Some (Ok tt), db_of f, stream, dlq)              (* of the advisory *)
  | _ => (None, db_of f, stream, dlq)
  end.

(** A publication that is confirmed and not stored: its message id is there already. *)
Definition repeated (dlq : list sent_msg) {R} (e : eff R) (r : result R) : Prop :=
  match e in eff R return result R → Prop with
  | JsPublish subject _ headers => λ r,
      subject = subject_dlq settings ∧ r = Ok tt ∧
      ∃ m i, m ∈ dlq ∧ get_header m.2 "Nats-Msg-Id" = Some i ∧ get_header headers "Nats-Msg-Id" = Some i
  | _ => λ _, False
  end r.

Inductive lanswers (f : fleet (S := S)) (stream : gmap Z sent_msg) (dlq : list sent_msg) (R : Type) (e : eff R)
    : result R → DB → gmap Z sent_msg → list sent_msg → Prop :=
  | la_reply r db stream' dlq' :
      lcommit f stream dlq R e = (Some r, db, stream', dlq') → lanswers f stream dlq R e r db stream' dlq'
  | la_repeated r : repeated dlq e r → lanswers f stream dlq R e r (db_of f) stream dlq
  | la_lost x o db stream' dlq' :
      service_error x → lcommit f stream dlq R e = (o, db, stream', dlq') →
      lanswers f stream dlq R e (Raise x) db stream' dlq'
  | la_failed x : service_error x → lanswers f stream dlq R e (Raise x) (db_of f) stream dlq.

Definition lobserve (w : lwatch) {R} (e : eff R) (r : result R) : lwatch :=
  match listener_call settings w R e with Some next => next r | None => w end.

(** What happens without the broker handing out work or an advisory: calls and
    their replies, crashes, the passage of time, the API. *)
Inductive plocal : pipeline → pipeline → Prop :=
  | pl_call f q log on sent rel lis dlq ref n pr R (e : eff R) k r sh' seq m q' :
      fl_procs f !! n = Some pr → pr_code pr = Call e k → on !! n = Some (seq, m) →
      answers n (fl_shared f) R e r sh' → broker seq e r q q' →
      plocal (mkPipeline f q log on sent rel lis dlq ref)
        (mkPipeline (advance n pr R e k r sh' f) q' log on sent rel lis dlq
           (if refused_completion e r then ref ++ [m] else ref))
  | pl_gone f q log on sent rel lis dlq ref n :
      plocal (mkPipeline f q log on sent rel lis dlq ref)
        (mkPipeline (mkFleet (fl_shared f) (delete n (fl_procs f)) (fl_next f)) q log on sent rel lis dlq ref)
  | pl_time f q log on sent rel lis dlq ref now wall :
      (sh_now (fl_shared f) <=? now)%float = true →
      plocal (mkPipeline f q log on sent rel lis dlq ref)
        (mkPipeline (mkFleet (mkShared (db_of f) (sh_kv (fl_shared f)) now wall (sh_writes (fl_shared f)))
                       (fl_procs f) (fl_next f)) q log on sent rel lis dlq ref)
  | pl_submit f q log on sent rel lis dlq ref id trace key payload :
      (id < 2 ^ 128)%N →
      plocal (mkPipeline f q log on sent rel lis dlq ref)
        (mkPipeline (with_db (submit_job (sh_wall (fl_shared f)) id trace key payload (subject_jobs settings) (db_of f)).2 f)
           q log on sent rel lis dlq ref)
  | pl_replay f q log on sent rel lis dlq ref id :
      plocal (mkPipeline f q log on sent rel lis dlq ref)
        (mkPipeline (with_db (replay_job (sh_wall (fl_shared f)) id (subject_jobs settings) (db_of f)).2 f)
           q log on sent rel lis dlq ref)
  | pl_relay f q log on sent rel lis dlq ref st q' log' :
      ract carrier settings (relay_view f sent rel) st → stored sent q log (rs_sent st) q' log' →
      plocal (mkPipeline f q log on sent rel lis dlq ref)
        (mkPipeline (with_db (rs_db st) f) q' log' on (rs_sent st) (rs_procs st) lis dlq ref)
  | pl_listener_call f q log on sent rel lis dlq ref n R (e : eff R) k w r db q' dlq' :
      lis !! n = Some (mkLproc (Call e k) w) → lanswers f q dlq R e r db q' dlq' →
      plocal (mkPipeline f q log on sent rel lis dlq ref)
        (mkPipeline (with_db db f) q' log on sent rel (<[n := mkLproc (k r) (lobserve w e r)]> lis) dlq' ref)
  | pl_listener_gone f q log on sent rel lis dlq ref n :
      plocal (mkPipeline f q log on sent rel lis dlq ref)
        (mkPipeline f q log on sent rel (delete n lis) dlq ref).

(** The broker hands any message of the queue to any worker, and any data to a
    listener. *)
Inductive pstep : pipeline → pipeline → Prop :=
  | pl_deliver f q log on sent rel lis dlq ref seq m self fuel job payload attempt :
      q !! seq = Some m → decodes (mkMsg m.1.2 attempt) job payload →
      pstep (mkPipeline f q log on sent rel lis dlq ref)
        (mkPipeline (start_delivery self fuel (mkMsg m.1.2 attempt) job f) q log (<[fl_next f := (seq, m)]> on)
           sent rel lis dlq ref)
  | pl_listen f q log on sent rel lis dlq ref n data :
      lis !! n = None →
      pstep (mkPipeline f q log on sent rel lis dlq ref)
        (mkPipeline f q log on sent rel (<[n := mkLproc (on_advisory py_str settings data) LIdle]> lis) dlq ref)
  | pl_local p p' : plocal p p' → pstep p p'.

Definition pl_start (s : S) (now : float) (wall : Z) : pipeline :=
  mkPipeline (fleet_start s now wall) ∅ [] ∅ [] ∅ ∅ [] [].

(** *** The invariant *)

(** Sequence number [seq] was given to the message of row [o]. *)
Record on_message (db : DB) (log : list sent_msg) (seq : Z) (o : OutboxRow) : Prop := {
  om_row : o ∈ outbox db;
  om_log : log_at log seq = Some (msg_of carrier o)
}.

(** What the observer of a delivery of row [o] has learned is true of the tables. *)
Record delivery_ok (db : DB) (ref : list sent_msg) (o : OutboxRow) (pr : proc) : Prop := {
  do_job : pr_job pr = ob_job_id o;
  do_completed : completed (pr_watch pr) = true → has_state (ob_job_id o) JobState.SUCCEEDED db;
  do_finished : finished (pr_watch pr) = true → has_state (ob_job_id o) JobState.SUCCEEDED db;
  do_closed : closed (pr_watch pr) = true → settled (ob_id o) (ob_job_id o) db ∨ msg_of carrier o ∈ ref
}.

(** And so for a listener. *)
Definition listener_ok (db : DB) (log dlq : list sent_msg) (lp : lproc) : Prop :=
  listener_conforms settings (lp_watch lp) (lp_code lp) ∧
  match lp_watch lp with
  | LIdle => True
  | LRead seq d => ∃ o, on_message db log seq o ∧ d = Ok (ob_payload o)
  | LCopied seq d => ∃ o, on_message db log seq o ∧ d = Ok (ob_payload o) ∧ copy_of settings seq d ∈ dlq
  | LRecorded seq => ∃ o, on_message db log seq o ∧ settled (ob_id o) (ob_job_id o) db
  end.

(** The message of row [o] is in the queue, or no longer needed, or refused. *)
Definition accounted (db : DB) (q : gmap Z sent_msg) (ref : list sent_msg) (o : OutboxRow) : Prop :=
  (∃ seq, q !! seq = Some (msg_of carrier o)) ∨ settled (ob_id o) (ob_job_id o) db ∨ msg_of carrier o ∈ ref.

Definition deliveries_ok (db : DB) (log ref : list sent_msg) (on : gmap nat (Z * sent_msg)) (procs : gmap nat proc) : Prop :=
  ∀ n pr, procs !! n = Some pr →
    ∃ seq o, on !! n = Some (seq, msg_of carrier o) ∧ on_message db log seq o ∧ delivery_ok db ref o pr.

(** Every message ever published is accounted for. *)
Definition accounts (db : DB) (q : gmap Z sent_msg) (ref sent : list sent_msg) : Prop :=
  ∀ o, o ∈ outbox db → msg_of carrier o ∈ sent → accounted db q ref o.

(** The queue holds messages of the outbox, under the numbers given to them. *)
Definition queue_ok (db : DB) (q : gmap Z sent_msg) (log : list sent_msg) : Prop :=
  ∀ seq m, q !! seq = Some m → log_at log seq = Some m ∧ ∃ o, o ∈ outbox db ∧ m = msg_of carrier o.

(** A done marker that can be read is that of a succeeded job. *)
Definition markers_ok (sh : shared (S := S)) : Prop :=
  ∀ id v, (id < 2 ^ 128)%N → kv_view (sh_now sh) (sh_kv sh) (ExecutionGuard.done_key (uuid_str id)) = Some v →
    has_state id JobState.SUCCEEDED (sh_db sh).

(** The quarantine stream holds copies of messages, *)
Definition dlq_ok (db : DB) (log dlq : list sent_msg) : Prop :=
  ∀ m, m ∈ dlq → ∃ seq o, on_message db log seq o ∧ m = copy_of settings seq (Ok (ob_payload o)).

Definition copied_job (db : DB) (dlq : list sent_msg) (id : uuid) : Prop :=
  ∃ o seq, o ∈ outbox db ∧ ob_job_id o = id ∧ copy_of settings seq (Ok (ob_payload o)) ∈ dlq.

(** one for each dead-lettered job at least. *)
Definition dead_ok (db : DB) (dlq : list sent_msg) : Prop :=
  ∀ id, has_state id JobState.DEAD_LETTER db → copied_job db dlq id.

Record pinv (p : pipeline) : Prop := {
  pi_fleet : inv (pl_fleet p);
  pi_relay : rinv carrier settings (relay_view (pl_fleet p) (pl_sent p) (pl_relays p));
  pi_db : platform_ok (db_of (pl_fleet p));
  pi_now : (sh_now (fl_shared (pl_fleet p)) <=? sh_now (fl_shared (pl_fleet p)))%float = true;
  pi_queue : queue_ok (db_of (pl_fleet p)) (pl_stream p) (pl_log p);
  pi_markers : markers_ok (fl_shared (pl_fleet p));
  pi_on : deliveries_ok (db_of (pl_fleet p)) (pl_log p) (pl_refused p) (pl_on p) (fl_procs (pl_fleet p));
  pi_listeners n lp : pl_listeners p !! n = Some lp → listener_ok (db_of (pl_fleet p)) (pl_log p) (pl_dlq p) lp;
  pi_sent : accounts (db_of (pl_fleet p)) (pl_stream p) (pl_refused p) (pl_sent p);
  pi_dlq : dlq_ok (db_of (pl_fleet p)) (pl_log p) (pl_dlq p);
  pi_dead : dead_ok (db_of (pl_fleet p)) (pl_dlq p)
}.

(** *** What the others do leaves it true *)

Context (Hcarrier : ∀ i, Forall (λ p, p.1 ≠ "Nats-Msg-Id") (carrier i)).

(** A transaction, and additions to log, quarantine stream and refusals. *)
Record moves (db : DB) (log dlq ref : list sent_msg) (db' : DB) (log' dlq' ref' : list sent_msg) : Prop := {
  mv_tx : platform_tx db db';
  mv_log : log `prefix_of` log';
  mv_dlq : dlq ⊆ dlq';
  mv_ref : ref ⊆ ref'
}.

Lemma msg_of_id o o' : msg_of carrier o = msg_of carrier o' → ob_id o = ob_id o'.
Proof.
  intros E. apply (f_equal (λ m : sent_msg, get_header m.2 "Nats-Msg-Id")) in E. cbn [snd msg_of] in E.
  rewrite !headers_of_id in E by done. by apply (inj Some), msg_id_inj in E.
Qed.

(** A sequence number stands for one row. *)
Lemma on_message_inj db log seq o o' : platform_ok db → on_message db log seq o → on_message db log seq o' → o = o'.
Proof.
  intros Hok [H1 H2] [H3 H4]. eapply outbox_id_inj; [by apply pk_reachable|done..|]. apply msg_of_id.
  by apply (inj Some); rewrite <- H2.
Qed.

Lemma copy_of_seq seq d seq' d' i :
  get_header (copy_of settings seq d).2 "Nats-Msg-Id" = Some i →
  get_header (copy_of settings seq' d').2 "Nats-Msg-Id" = Some i → seq = seq'.
Proof.
  unfold copy_of. cbn. intros E1 E2. apply (inj Some) in E1, E2. rewrite <- E2 in E1. unfold dlq_msg_id in E1.
  apply (inj (String.append "dlq-")), (inj (String.append (stream_name settings))), (inj (String.append "-")) in E1.
  by apply (inj pretty).
Qed.

Section moving.
Context (db db' : DB) (log log' dlq dlq' ref ref' : list sent_msg).
Context (Hok : platform_ok db) (Hmv : moves db log dlq ref db' log' dlq' ref').

Lemma moves_row o : o ∈ outbox db → ∃ o', o' ∈ outbox db' ∧ core o' = core o.
Proof. apply (outbox_tx db db' (mv_tx _ _ _ _ _ _ _ _ Hmv) Hok). Qed.

Lemma moves_message seq o :
  on_message db log seq o → ∃ o', on_message db' log' seq o' ∧ core o' = core o.
Proof.
  intros [H1 H2]. destruct (moves_row o H1) as (o' & Ho' & E). exists o'. split; [|done]. split; [done|].
  rewrite (core_msg carrier _ _ E). by eapply log_at_prefix; [apply Hmv|].
Qed.

Lemma moves_settled o o' :
  o ∈ outbox db → core o' = core o → settled (ob_id o) (ob_job_id o) db → settled (ob_id o') (ob_job_id o') db'.
Proof.
  intros Ho E Hs. injection E as -> -> _ _. eapply settled_tx; [apply Hmv|done|by eauto|done].
Qed.

Lemma moves_delivery o o' pr :
  o ∈ outbox db → core o' = core o → delivery_ok db ref o pr → delivery_ok db' ref' o' pr.
Proof.
  intros Ho E [H1 H2 H3 H4]. injection E as E1 E2 E3 E4.
  assert (Hst : has_state (ob_job_id o) JobState.SUCCEEDED db → has_state (ob_job_id o') JobState.SUCCEEDED db').
  { rewrite E2. intros H. by eapply has_state_tx; [apply Hmv| | |exact H]. }
  assert (Ec : core o' = core o) by (unfold core; congruence).
  split; [congruence|auto..|]. intros Hc. rewrite (core_msg carrier _ _ Ec). destruct (H4 Hc) as [Hs|Hr].
  - left. by eapply moves_settled.
  - right. by apply (mv_ref _ _ _ _ _ _ _ _ Hmv).
Qed.

Lemma moves_deliveries on procs : deliveries_ok db log ref on procs → deliveries_ok db' log' ref' on procs.
Proof.
  intros Hd n pr Hn. destruct (Hd n pr Hn) as (seq & o & Hon & Hm & Hp).
  destruct (moves_message seq o Hm) as (o' & Hm' & E). exists seq, o'.
  rewrite (core_msg carrier _ _ E). split; [done|]. split; [done|].
  eapply moves_delivery; [apply Hm|done|done].
Qed.

Lemma moves_listener lp : listener_ok db log dlq lp → listener_ok db' log' dlq' lp.
Proof.
  intros [Hc Hw]. split; [done|]. destruct (lp_watch lp) as [|seq d|seq d|seq]; [done|..]; destruct Hw as (o & Hm & Hx);
    destruct (moves_message seq o Hm) as (o' & Hm' & E); exists o'; (split; [done|]).
  - rewrite Hx. by injection E as _ _ _ ->.
  - destruct Hx as [-> Hx]. injection E as _ _ _ ->. split; [done|]. by apply (mv_dlq _ _ _ _ _ _ _ _ Hmv).
  - eapply moves_settled; [apply Hm|done|done].
Qed.

(** A row that is new has not been sent. *)
Lemma moves_accounts (q q' : gmap Z sent_msg) sent :
  (∀ m, m ∈ sent → ∃ o, o ∈ outbox db ∧ m = msg_of carrier o) →
  (∀ seq o, o ∈ outbox db → q !! seq = Some (msg_of carrier o) → q' !! seq = Some (msg_of carrier o) ∨
     settled (ob_id o) (ob_job_id o) db ∨ msg_of carrier o ∈ ref') →
  accounts db q ref sent → accounts db' q' ref' sent.
Proof.
  intros Hsent Hrem Hacc o' Ho' Hs.
  destruct (outbox_tx db db' (mv_tx _ _ _ _ _ _ _ _ Hmv) Hok) as [_ Hback].
  destruct (Hback o' Ho') as [(o & Ho & E)|[_ Hnew]].
  - symmetry in E. rewrite (core_msg carrier _ _ E) in Hs. unfold accounted. rewrite (core_msg carrier _ _ E).
    assert (Hst : settled (ob_id o) (ob_job_id o) db → settled (ob_id o') (ob_job_id o') db') by (by apply moves_settled).
    destruct (Hacc o Ho Hs) as [(seq & Hq)|[Hset|Hr]].
    + destruct (Hrem seq o Ho Hq) as [?|[?|?]]; eauto.
    + auto.
    + right. right. by apply (mv_ref _ _ _ _ _ _ _ _ Hmv).
  - exfalso. destruct (Hsent _ Hs) as (o & Ho & E%msg_of_id). specialize (Hnew o Ho). lia.
Qed.

Lemma moves_queue_ok (q q' : gmap Z sent_msg) :
  (∀ seq m, q' !! seq = Some m → q !! seq = Some m ∨ log_at log' seq = Some m ∧ ∃ o, o ∈ outbox db' ∧ m = msg_of carrier o) →
  queue_ok db q log → queue_ok db' q' log'.
Proof.
  intros Hq Hok' seq m Hm. destruct (Hq seq m Hm) as [H|H]; [|done].
  destruct (Hok' seq m H) as (Hle & o & Ho & ->). split; [by eapply log_at_prefix; [apply Hmv|]|].
  destruct (moves_row o Ho) as (o' & Ho' & E). exists o'. split; [done|]. by rewrite (core_msg carrier _ _ E).
Qed.

Lemma moves_dlq_ok :
  (∀ m, m ∈ dlq' → m ∈ dlq ∨ ∃ seq o, on_message db log seq o ∧ m = copy_of settings seq (Ok (ob_payload o))) →
  dlq_ok db log dlq → dlq_ok db' log' dlq'.
Proof.
  intros Hnew Hd m Hm. assert (H : ∃ seq o, on_message db log seq o ∧ m = copy_of settings seq (Ok (ob_payload o)))
    by (destruct (Hnew m Hm); auto).
  destruct H as (seq & o & Ho & ->). destruct (moves_message seq o Ho) as (o' & Ho' & E). exists seq, o'.
  split; [done|]. by injection E as _ _ _ ->.
Qed.

Lemma moves_dead_ok :
  (∀ id, has_state id JobState.DEAD_LETTER db' → has_state id JobState.DEAD_LETTER db ∨ copied_job db dlq id) →
  dead_ok db dlq → dead_ok db' dlq'.
Proof.
  intros Hnew Hd id Hst. assert (H : copied_job db dlq id) by (destruct (Hnew id Hst); auto).
  destruct H as (o & seq & Ho & <- & Hin). destruct (moves_row o Ho) as (o' & Ho' & E). exists o', seq.
  injection E as _ -> _ ->. split; [done|]. split; [done|]. by apply (mv_dlq _ _ _ _ _ _ _ _ Hmv).
Qed.
End moving.

(** *** What a delivery learns *)

Lemma learns n sh job att holder delivery w R (e : eff R) next r sh' :
  watch_call job att holder delivery w R e = Some next → answers n sh R e r sh' →
  platform_ok (sh_db sh) → markers_ok sh → (job < 2 ^ 128)%N →
  (completed (next r) = true → completed w = true ∨ has_state job JobState.SUCCEEDED (sh_db sh')) ∧
  (finished (next r) = true → finished w = true ∨ has_state job JobState.SUCCEEDED (sh_db sh')) ∧
  (closed (next r) = true →
     closed w = true ∨ (∀ oid, settled oid job (sh_db sh')) ∨ refused_completion e r = true).
Proof.
  intros Hc Ha Hok Hmk Hid. destruct w as [c d h f co cl s l di].
  destruct e; cbn [watch_call] in Hc; try done; try (injection Hc as <-; by auto).
  - (* the done marker *)
    case_decide as Hk; [|done]. injection Hc as <-. cbn [completed finished closed]. split_and!; [by auto| |by auto].
    destruct r as [[v|]|x]; [|by auto..]. intros _. right.
    inversion Ha as [r0 sh0 E|v0 sh0 E|x Hx|x Hx]; subst; cbn [commit] in E.
    + pose proof (kv_get_reply (sh_now sh) (ExecutionGuard.done_key (uuid_str job)) (sh_kv sh)) as Hr.
      destruct (kv_get _ _ _) as [v1 s1]. cbn [fst] in Hr. simplify_eq. by apply (Hmk job v).
    + by destruct (kv_get _ _ _).
  - case_decide; [injection Hc as <-; by auto|]. case_decide; [injection Hc as <-; by auto|].
    destruct d as [t|]; [|done]. case_decide; [|done]. injection Hc as <-. by auto.
  - case_decide; [|done]. injection Hc as <-. by auto.
  - case_decide; [injection Hc as <-; by auto|]. destruct h as [t|]; [|done].
    case_decide; [|done]. injection Hc as <-. by auto.
  - (* an event *)
    case_decide as Hk; [|done]. destruct Hk as (-> & -> & _ & _ & _ & Hev). injection Hc as <-.
    pose proof (record_reply (sh_wall sh) job event att detail fence_token result (sh_db sh) Hok) as Hrep.
    inversion Ha as [r0 sh0 E|v0 sh0 E|x Hx|x Hx]; subst; cbn [commit] in E || idtac.
    + destruct (record_event _ _ _ _ _ _ _ _) as [r1 db1]. injection E as -> <-. cbn [sh_db].
      destruct r as [st|x]; cbn [after_event completed finished closed].
      * destruct Hrep as (Hst & cur & Hcur & Hap).
        destruct event; try done; rewrite ?orb_false_r, ?orb_true_r; try by auto.
        -- destruct cur; try done. injection Hap as <-. by auto.
        -- destruct cur; try done. injection Hap as <-. split_and!; [by auto..|]. intros _. right. left. intros oid.
           by eapply settled_state.
      * destruct x; cbn [completed finished closed]; try by auto.
        destruct Hrep as (-> & cur & -> & Hst & Hap). split_and!; [by auto..|].
        assert (Hset : cur ≠ JobState.QUEUED → cur ≠ JobState.RUNNING → ∀ oid, settled oid job (sh_db sh))
          by (intros Hq Hr oid; by eapply settled_state).
        pose proof (has_state_not_submitted _ _ _ Hok Hst) as Hns.
        destruct event; try done; rewrite ?orb_false_r; try by auto.
        -- intros _. right. left. apply Hset; by intros ->.
        -- intros _. right. destruct (decide (cur = JobState.QUEUED)) as [->|Hq]; [by right|].
           left. apply Hset; [done|by intros ->].
    + by destruct (record_event _ _ _ _ _ _ _ _).
    + destruct x; try done; cbn [after_event completed finished closed]; by auto.
    + destruct x; try done; cbn [after_event completed finished closed]; by auto.
  - case_decide; [|done]. injection Hc as <-. by auto.
  - case_decide; [|done]. injection Hc as <-. by auto.
  - case_decide; [|done]. injection Hc as <-. by auto.
Qed.
(** A call changes the tables by an event of a worker, or not at all. *)
Lemma answers_db n sh job att holder delivery w R (e : eff R) next r sh' :
  watch_call job att holder delivery w R e = Some next → answers n sh R e r sh' →
  sh_now sh' = sh_now sh ∧ sh_wall sh' = sh_wall sh ∧
  (sh_db sh' = sh_db sh ∨ ∃ event det ft res, worker_event event = true ∧
     sh_db sh' = (record_event (sh_wall sh) job event att det ft res (sh_db sh)).2).
Proof.
  intros Hc Ha.
  assert (Hcom : sh_now (commit n R e sh).2 = sh_now sh ∧ sh_wall (commit n R e sh).2 = sh_wall sh ∧
    (sh_db (commit n R e sh).2 = sh_db sh ∨ ∃ event det ft res, worker_event event = true ∧
     sh_db (commit n R e sh).2 = (record_event (sh_wall sh) job event att det ft res (sh_db sh)).2)).
  { destruct (records e) eqn:Hrec.
    - destruct e; try done. destruct w as [c d h f co cl s l di]. cbn [watch_call] in Hc. case_decide as Hk; [|done].
      destruct Hk as (-> & -> & _ & _ & _ & Hev). cbn [commit].
      destruct (record_event _ _ _ _ _ _ _ _) as [r1 db1] eqn:Er. split_and!; [done..|]. right.
      eexists _, _, _, _. split; [exact Hev|]. by rewrite Er.
    - destruct (commit_quiet n R e sh Hrec) as (Edb & _ & _). split_and!; [..|by left];
        destruct e; try done; cbn [commit]; by case_match. }
  inversion Ha as [r0 sh0 E|v sh0 E|x Hx|x Hx]; subst; try rewrite E in Hcom; [done..|]. by auto.
Qed.

Lemma event_tx (sh : shared (S := S)) id event att det ft res :
  worker_event event = true →
  platform_tx (sh_db sh) (record_event (sh_wall sh) id event att det ft res (sh_db sh)).2 ∧
  writers (sh_wall sh) (sh_db sh) (record_event (sh_wall sh) id event att det ft res (sh_db sh)).2.
Proof. intros Hev. split; constructor; [by left|]. by intros ->. Qed.

Lemma answers_tx n sh job att holder delivery w R (e : eff R) next r sh' :
  watch_call job att holder delivery w R e = Some next → answers n sh R e r sh' → platform_tx (sh_db sh) (sh_db sh').
Proof.
  intros Hc Ha. destruct (answers_db _ _ _ _ _ _ _ _ _ _ _ _ Hc Ha) as (_ & _ & [->|(ev & det & ft & rs & Hev & ->)]);
    [constructor|by apply event_tx].
Qed.

(** Markers are set by deliveries that have completed their job. *)
Lemma answers_markers n sh job att holder delivery w R (e : eff R) next r sh' :
  watch_call job att holder delivery w R e = Some next → answers n sh R e r sh' →
  (completed w = true → has_state job JobState.SUCCEEDED (sh_db sh)) → (job < 2 ^ 128)%N →
  (sh_now sh <=? sh_now sh)%float = true → platform_ok (sh_db sh) → markers_ok sh → markers_ok sh'.
Proof.
  intros Hc Ha Hdone Hid Hnow Hok Hmk.
  assert (Hcom : markers_ok (commit n R e sh).2).
  { destruct w as [c d h f co cl s l di].
    destruct e; cbn [watch_call completed] in *; try done; cbn [commit].
    - pose proof (kv_get_view (sh_now sh) key (sh_kv sh) (sh_now sh)) as Hv. destruct (kv_get _ _ _) as [v0 s0].
      intros id v. cbn [snd set_store sh_now sh_kv sh_db] in *. rewrite Hv by done. apply Hmk.
    - pose proof (kv_set_view (sh_now sh) key value ttl_s (sh_kv sh) (sh_now sh)) as Hv.
      destruct (kv_set_if_absent _ _ _ _ _) as [b0 s0]. intros id v Hb. cbn [snd set_store sh_now sh_kv sh_db] in *.
      rewrite Hv by done. destruct (decide (_ = key ∧ _)) as [[Ek _]|]; [|by apply Hmk].
      case_decide as E1; [destruct E1 as [-> _]; by apply ExecutionGuard.done_claim_ne in Ek|].
      case_decide as E2; [destruct E2 as (-> & _ & ->)|].
      + apply ExecutionGuard.done_key_inj, uuid_str_inj in Ek as ->; auto.
      + destruct d as [t|]; [|done]. case_decide as E3; [|done]. destruct E3 as [-> _].
        symmetry in Ek. by apply lease_done_ne in Ek.
    - pose proof (kv_incr_view key (sh_kv sh) (sh_now sh)) as Hv. destruct (kv_incr _ _) as [v0 s0].
      intros id v. cbn [snd set_store sh_now sh_kv sh_db] in *. rewrite Hv by done. apply Hmk.
    - pose proof (kv_cad_view (sh_now sh) key expected (sh_kv sh) (sh_now sh)) as Hv.
      destruct (kv_compare_and_delete _ _ _ _) as [b0 s0].
      intros id v Hb. cbn [snd set_store sh_now sh_kv sh_db] in *. rewrite Hv by done. destruct (decide (_ = key ∧ _)); [done|]. by apply Hmk.
    - case_decide as Hk; [|done]. destruct Hk as (_ & _ & _ & _ & _ & Hev).
      destruct (event_tx sh job_id event attempt detail fence_token result Hev) as [Htx _].
      destruct (record_event _ _ _ _ _ _ _ _) as [r1 db1]. cbn [snd] in *. intros id' v Hb Hv. cbn [sh_now sh_kv sh_db] in *.
      eapply has_state_tx; [exact Htx|done|done|]. by eapply Hmk. }
  inversion Ha as [r0 sh0 E|v sh0 E|x Hx|x Hx]; subst; try rewrite E in Hcom; done.
Qed.
(** *** Steps keep the invariant *)

(** A step that is not a delivery's. *)
Lemma pinv_move f q log on sent rel lis dlq ref db' q' log' sent' rel' lis' dlq' :
  pinv (mkPipeline f q log on sent rel lis dlq ref) → moves (db_of f) log dlq ref db' log' dlq' ref →
  inv (with_db db' f) → rinv carrier settings (relay_view (with_db db' f) sent' rel') →
  (∀ seq m, q' !! seq = Some m → q !! seq = Some m ∨ log_at log' seq = Some m ∧ ∃ o, o ∈ outbox db' ∧ m = msg_of carrier o) →
  (∀ n lp, lis' !! n = Some lp → listener_ok db' log' dlq' lp) → accounts db' q' ref sent' →
  (∀ m, m ∈ dlq' → m ∈ dlq ∨ ∃ seq o, on_message (db_of f) log seq o ∧ m = copy_of settings seq (Ok (ob_payload o))) →
  (∀ id, has_state id JobState.DEAD_LETTER db' → has_state id JobState.DEAD_LETTER (db_of f) ∨ copied_job (db_of f) dlq id) →
  pinv (mkPipeline (with_db db' f) q' log' on sent' rel' lis' dlq' ref).
Proof.
  intros [H1 H2 H3 H4 H5 H6 H7 H8 H9 H10 H11] Hmv Hi Hr Hq Hl Ha Hd Hdead. cbn [pl_fleet pl_stream pl_log pl_on pl_sent pl_relays pl_listeners pl_dlq pl_refused] in *.
  split; cbn [pl_fleet pl_stream pl_log pl_on pl_sent pl_relays pl_listeners pl_dlq pl_refused]; try done.
  - eapply platform_ok_tx; [apply Hmv|done].
  - eapply moves_queue_ok; [exact H3|exact Hmv|done|done].
  - intros id v Hb Hv. eapply has_state_tx; [apply Hmv|done|done|]. by eapply H6.
  - eapply moves_deliveries; [exact H3|exact Hmv|done].
  - eapply moves_dlq_ok; [exact H3|exact Hmv|done|done].
  - eapply moves_dead_ok; [exact H3|exact Hmv|done|done].
Qed.

(** A transaction of another process alone. *)
Lemma pinv_other f q log on sent rel lis dlq ref db' :
  pinv (mkPipeline f q log on sent rel lis dlq ref) → platform_tx (db_of f) db' →
  others (sh_wall (fl_shared f)) (db_of f) db' → writers (sh_wall (fl_shared f)) (db_of f) db' →
  (∀ id, has_state id JobState.DEAD_LETTER db' → has_state id JobState.DEAD_LETTER (db_of f)) →
  pinv (mkPipeline (with_db db' f) q log on sent rel lis dlq ref).
Proof.
  intros Hp Htx Ho Hw Hdead. pose proof Hp as [H1 H2 H3 H4 H5 H6 H7 H8 H9 H10 H11].
  cbn [pl_fleet pl_stream pl_log pl_on pl_sent pl_relays pl_listeners pl_dlq pl_refused] in *.
  assert (Hmv : moves (db_of f) log dlq ref db' log dlq ref) by (by split).
  eapply pinv_move; [exact Hp|exact Hmv| | |by left| | |by left|by eauto].
  - destruct f as [sh procs next]. by eapply inv_step; [apply fleet_other|].
  - exact (rinv_step _ _ _ _ (rstep_writer _ _ (relay_view f sent rel) _ _ Hw) H2).
  - intros n lp Hn. eapply moves_listener; [exact H3|exact Hmv|by eapply H8].
  - eapply moves_accounts; [exact H3|exact Hmv|apply (ri_sent _ _ _ H2)|by left|done].
Qed.

(** A relay changes the tables by marking rows, or not at all. *)
Lemma ract_db st st' :
  ract carrier settings st st' →
  rs_wall st' = rs_wall st ∧ (rs_db st' = rs_db st ∨ ∃ ids, rs_db st' = mark_published (rs_wall st) ids (rs_db st)).
Proof.
  assert (Hc : ∀ n lk pd R (e : eff R) o db sent lk' pd', rcommit n st lk pd R e = (o, db, sent, lk', pd') →
    db = rs_db st ∨ ∃ ids, db = mark_published (rs_wall st) ids (rs_db st)).
  { intros n lk pd R e o db sent lk' pd'. destruct e; cbn [rcommit]; intros [= _ <- _ _ _]; eauto. }
  intros H. inversion H; subst; cbn [rs_wall rs_db]; split; eauto.
Qed.

Lemma pinv_relay f q log on sent rel lis dlq ref st q' log' :
  pinv (mkPipeline f q log on sent rel lis dlq ref) →
  ract carrier settings (relay_view f sent rel) st → stored sent q log (rs_sent st) q' log' →
  pinv (mkPipeline (with_db (rs_db st) f) q' log' on (rs_sent st) (rs_procs st) lis dlq ref).
Proof.
  intros Hp Hact Hst. pose proof Hp as [H1 H2 H3 H4 H5 H6 H7 H8 H9 H10 H11].
  cbn [pl_fleet pl_stream pl_log pl_on pl_sent pl_relays pl_listeners pl_dlq pl_refused] in *.
  pose proof (rinv_act _ _ _ _ Hact H2) as Hr'. destruct (ract_db _ _ Hact) as [Ew Hdb]. cbn [relay_view rs_wall rs_db] in Ew, Hdb.
  assert (Hnew : ∀ m, m ∈ rs_sent st → ∃ o, o ∈ outbox (rs_db st) ∧ m = msg_of carrier o) by apply Hr'.
  assert (Hle : log `prefix_of` log' ∧ ∀ seq m, q' !! seq = Some m → q !! seq = Some m ∨
    log_at log' seq = Some m ∧ m ∈ rs_sent st).
  { destruct Hst as [|m|m m' i _ _ _]; [split; [done|by left]| |split; [done|by left]].
    split; [by exists [m]|]. intros seq m'. rewrite lookup_insert.
    case_decide as E; [|by left]. subst seq. intros [= <-]. right. split; [apply log_at_new|]. apply elem_of_app. right.
    by apply list_elem_of_singleton. }
  destruct Hle as [Hle Hq].
  assert (Htx : platform_tx (db_of f) (rs_db st)) by (destruct Hdb as [->|[ids ->]]; constructor).
  assert (Hmv : moves (db_of f) log dlq ref (rs_db st) log' dlq ref) by (by split).
  eapply pinv_move; [exact Hp|exact Hmv| | | | | |by left|].
  - destruct f as [sh procs next]. destruct Hdb as [->|[ids ->]]; [by destruct sh|]. by eapply inv_step; [apply fleet_other, other_publish|].
  - unfold relay_view, with_db, set_db. cbn [fl_shared sh_db sh_wall]. rewrite <- Ew. by destruct st.
  - intros seq m Hm. destruct (Hq seq m Hm) as [|[Hl Hin]]; [by left|]. right. split; [done|]. by apply Hnew.
  - intros n lp Hn. eapply moves_listener; [exact H3|exact Hmv|by eapply H8].
  - assert (Hkeep : accounts (rs_db st) q' ref sent).
    { eapply moves_accounts; [exact H3|exact Hmv|apply (ri_sent _ _ _ H2)| |done].
      intros seq o Ho Hs. left. destruct Hst as [|m|m m' i _ _ _]; [done| |done].
      destruct (H5 seq _ Hs) as [Hl _]. rewrite lookup_insert_ne; [done|]. intros <-. by rewrite log_at_fresh in Hl. }
    destruct Hst as [|m|m m' i Hm' Hi' Hi]; [done|..]; intros o Ho [Hin|Hin]%elem_of_app; try by apply Hkeep.
    + apply list_elem_of_singleton in Hin as <-. left. exists (next_seq log). by rewrite lookup_insert_eq.
    + apply list_elem_of_singleton in Hin as <-. apply Hkeep; [done|].
      destruct (Hnew m') as (o' & Ho' & E); [by apply elem_of_app; left|]. subst m'. cbn [snd msg_of] in Hi, Hi'.
      rewrite !headers_of_id in Hi, Hi' by done.
      assert (E : ob_id o' = ob_id o) by (apply msg_id_inj, (inj Some); by rewrite Hi').
      by rewrite <- (outbox_id_inj _ _ _ (ri_db _ _ _ Hr') Ho' Ho E).
  - intros id (row & Hrow & Hs). left. exists row. split; [|done]. by destruct Hdb as [Edb|[ids Edb]]; rewrite Edb in Hrow.
Qed.
(** What is in the queue under a number that was given to a row. *)
Lemma queue_row db q log seq o m :
  queue_ok db q log → on_message db log seq o → q !! seq = Some m → m = msg_of carrier o.
Proof. intros Hq [_ Hl] Hs. destruct (Hq seq m Hs) as [Hl' _]. by apply (inj Some); rewrite <- Hl. Qed.

(** Removing a message whose row is settled or refused keeps the accounts. *)
Lemma removal_accounted db (q : gmap Z sent_msg) (ref : list sent_msg) seq o seq' o' :
  platform_ok db → o ∈ outbox db → (∀ m, q !! seq = Some m → m = msg_of carrier o) →
  settled (ob_id o) (ob_job_id o) db ∨ msg_of carrier o ∈ ref →
  o' ∈ outbox db → q !! seq' = Some (msg_of carrier o') →
  delete seq q !! seq' = Some (msg_of carrier o') ∨ settled (ob_id o') (ob_job_id o') db ∨ msg_of carrier o' ∈ ref.
Proof.
  intros Hok Ho Hq Hs Ho' Hq'. rewrite lookup_delete. case_decide as E; [|by left]. subst seq'. right.
  assert (o' = o) as ->; [|done]. eapply outbox_id_inj; [by apply pk_reachable|done..|]. by apply msg_of_id, Hq.
Qed.

(** What a call of a listener does: nothing, a copy of its message, an event of its
    job once the copy is there, or the removal of a settled message; and what its
    observer has learned is true. *)
Definition listener_does (f : fleet (S := S)) (q : gmap Z sent_msg) (log dlq ref : list sent_msg)
    (db' : DB) (q' : gmap Z sent_msg) (dlq' : list sent_msg) (lp' : lproc) : Prop :=
  (db' = db_of f ∨ platform_tx (db_of f) db' ∧ others (sh_wall (fl_shared f)) (db_of f) db' ∧
     writers (sh_wall (fl_shared f)) (db_of f) db') ∧
  (∀ id, has_state id JobState.DEAD_LETTER db' → has_state id JobState.DEAD_LETTER (db_of f) ∨ copied_job (db_of f) dlq id) ∧
  (q' = q ∨ ∃ seq o, q' = delete seq q ∧ on_message (db_of f) log seq o ∧ settled (ob_id o) (ob_job_id o) (db_of f)) ∧
  (dlq' = dlq ∨ ∃ seq o, dlq' = dlq ++ [copy_of settings seq (Ok (ob_payload o))] ∧ on_message (db_of f) log seq o) ∧
  (moves (db_of f) log dlq ref db' log dlq' ref → listener_ok db' log dlq' lp').

Lemma listener_records f q log dlq ref att det k seq o r db' q' dlq' :
  platform_ok (db_of f) → on_message (db_of f) log seq o → copy_of settings seq (Ok (ob_payload o)) ∈ dlq →
  let w := LCopied seq (Ok (ob_payload o)) in
  let next r := match r with Ok _ | Raise (IllegalTransition _ _) => LRecorded seq | Raise _ => w end in
  listener_conforms settings (next r) (k r) →
  (moves (db_of f) log dlq ref db' log dlq' ref → next r = w → listener_ok db' log dlq' (mkLproc (k r) (next r))) →
  lanswers f q dlq JobState.t (RecordEvent (ob_job_id o) EventType.DEAD_LETTERED att det None None) r db' q' dlq' →
  listener_does f q log dlq ref db' q' dlq' (mkLproc (k r) (next r)).
Proof.
  intros Hok Hm Hcp w next Hcon Hold Ha. pose proof (om_row _ _ _ _ Hm) as Ho.
  destruct (record_event (sh_wall (fl_shared f)) (ob_job_id o) EventType.DEAD_LETTERED att det None None (db_of f))
    as [r1 db1] eqn:Er.
  pose proof (dead_letter_settles _ _ _ _ _ _ _ Hok Er) as Hset.
  assert (Htx : platform_tx (db_of f) db1 ∧ others (sh_wall (fl_shared f)) (db_of f) db1 ∧
    writers (sh_wall (fl_shared f)) (db_of f) db1).
  { change db1 with (r1, db1).2. rewrite <- Er. split_and!; constructor; [by right|done]. }
  assert (Hdead : ∀ id, has_state id JobState.DEAD_LETTER db1 →
    has_state id JobState.DEAD_LETTER (db_of f) ∨ copied_job (db_of f) dlq id).
  { intros id. change db1 with (r1, db1).2. rewrite <- Er. intros [|[_ ->]]%dead_by_event; [by left|]. right. by exists o, seq. }
  inversion Ha as [r0 db0 q0 d0 E|r0 []|x o0 db0 q0 d0 Hx E|x Hx]; subst; cbn [lcommit] in E || idtac.
  - rewrite Er in E. injection E as <- <- <- <-. split_and!; [by right|done|by left|by left|]. intros Hmv.
    assert (Hrec : listener_conforms settings (LRecorded seq) (k r1) → (∀ oid, settled oid (ob_job_id o) db1) →
      listener_ok db1 log dlq (mkLproc (k r1) (LRecorded seq))).
    { intros Hcn Hs. split; [done|]. destruct (moves_message _ _ _ _ _ _ _ _ Hok Hmv seq o Hm) as (o' & Hm' & E). exists o'.
      split; [done|]. injection E as _ -> _ _. apply Hs. }
    destruct r1 as [st|x]; [by apply Hrec|]. destruct x; by auto.
  - rewrite Er in E. injection E as _ <- <- <-. split_and!; [by right|done|by left|by left|]. intros Hmv. destruct x; by auto.
  - split_and!; [by left..|]. intros Hmv. destruct x; by auto.
Qed.

(** A confirmed publication of the copy is in the quarantine stream, stored now or
    before. *)
Lemma listener_copies f q log dlq ref seq o k r db' q' dlq' :
  platform_ok (db_of f) → on_message (db_of f) log seq o → dlq_ok (db_of f) log dlq →
  let m := copy_of settings seq (Ok (ob_payload o)) in
  let w := LRead seq (Ok (ob_payload o)) in
  let next r := match r with Ok _ => LCopied seq (Ok (ob_payload o)) | Raise _ => w end in
  listener_conforms settings (next r) (k r) →
  (moves (db_of f) log dlq ref db' log dlq' ref → next r = w → listener_ok db' log dlq' (mkLproc (k r) (next r))) →
  lanswers f q dlq unit (JsPublish m.1.1 m.1.2 m.2) r db' q' dlq' →
  listener_does f q log dlq ref db' q' dlq' (mkLproc (k r) (next r)).
Proof.
  intros Hok Hm Hd m w next Hcon Hold Ha.
  assert (Hyes : ∀ dlq1, m ∈ dlq1 → listener_conforms settings (next (Ok tt)) (k (Ok tt)) →
    listener_ok (db_of f) log dlq1 (mkLproc (k (Ok tt)) (next (Ok tt)))).
  { intros dlq1 Hin Hcn. split; [done|]. by exists o. }
  assert (Hnew : dlq ++ [m] = dlq ∨ ∃ seq0 o0, dlq ++ [m] = dlq ++ [copy_of settings seq0 (Ok (ob_payload o0))] ∧
    on_message (db_of f) log seq0 o0) by (right; by exists seq, o).
  inversion Ha as [r0 db0 q0 d0 E|r0 Hrep|x o0 db0 q0 d0 Hx E|x Hx]; subst; cbn [lcommit] in E || idtac;
    try (rewrite decide_True in E by done).
  - injection E as <- <- <- <-. split_and!; auto. intros _. apply Hyes; [|done]. apply elem_of_app. right.
    by apply list_elem_of_singleton.
  - destruct Hrep as (_ & -> & m' & i & Hin & Hi & Hi'). split_and!; auto. intros _. apply Hyes; [|done].
    destruct (Hd m' Hin) as (seq' & o' & Hm' & ->). assert (seq' = seq) as -> by (by eapply copy_of_seq).
    by rewrite (on_message_inj _ _ _ _ _ Hok Hm' Hm) in Hin.
  - injection E as _ <- <- <-. split_and!; auto.
  - split_and!; auto.
Qed.

Lemma listener_step_ok f q log dlq ref R (e : eff R) k w r db' q' dlq' :
  platform_ok (db_of f) → queue_ok (db_of f) q log → dlq_ok (db_of f) log dlq →
  listener_ok (db_of f) log dlq (mkLproc (Call e k) w) → lanswers f q dlq R e r db' q' dlq' →
  listener_does f q log dlq ref db' q' dlq' (mkLproc (k r) (lobserve w e r)).
Proof.
  intros Hok Hqok Hdok Hlp Ha. pose proof Hlp as [Hcon Hw]. cbn [lp_watch lp_code monitored] in *. unfold lobserve.
  destruct (listener_call _ w R e) as [next|] eqn:Hc; [|done]. specialize (Hcon r I).
  assert (Hold : moves (db_of f) log dlq ref db' log dlq' ref → next r = w → listener_ok db' log dlq' (mkLproc (k r) (next r))).
  { intros Hmv E. eapply moves_listener; [exact Hok|exact Hmv|]. rewrite E in *. by split. }
  assert (Hidle : next = (λ _, w) → (∀ r, ¬ repeated dlq e r) →
    (∀ o db0 q0 d0, lcommit f q dlq R e = (o, db0, q0, d0) → db0 = db_of f ∧ q0 = q ∧ d0 = dlq) →
    listener_does f q log dlq ref db' q' dlq' (mkLproc (k r) (next r))).
  { intros -> Hnr He. inversion Ha as [r0 db0 q0 d0 E|r0 Hrep|x o0 db0 q0 d0 Hx E|x Hx]; subst;
      try destruct (He _ _ _ _ E) as (-> & -> & ->); try (by destruct (Hnr r)); split_and!; auto. }
  destruct e; cbn [listener_call] in Hc; try done;
    try (injection Hc as <-; apply Hidle; [done|by intros ? []|by cbn; intros ? ? ? ? [= _ <- <- <-]]).
  - (* DEAD_LETTERED *)
    destruct w as [| |seq d|]; [done|done| |done]. case_decide as Hk; [|done]. destruct Hk as (Hjob & -> & -> & ->).
    injection Hc as <-. destruct Hw as (o & Hm & -> & Hcp).
    rewrite (names_job_of _ _ (row_names _ _ Hok (om_row _ _ _ _ Hm))) in Hjob. injection Hjob as <-. by eapply listener_records.
  - (* JsPublish *)
    destruct w as [|seq d| |]; [done| |done|done]. case_decide as Hk; [|done]. injection Hk as -> -> ->.
    injection Hc as <-. destruct Hw as (o & Hm & ->). by eapply listener_copies.
  - (* JsGetMsg *)
    case_decide as Hk; [|done]. destruct Hk as [-> ->]. injection Hc as <-.
    inversion Ha as [r0 db0 q0 d0 E|r0 []|x o0 db0 q0 d0 Hx E|x Hx]; subst; cbn [lcommit] in E || idtac.
    + rewrite decide_True in E by done. injection E as <- <- <- <-. split_and!; auto. intros _.
      destruct (q !! seq) as [m|] eqn:Hs; [|by split]. split; [done|]. destruct (Hqok seq m Hs) as (Hle & o & Ho & ->). by exists o.
    + injection E as _ <- <- <-. split_and!; auto.
    + split_and!; auto.
  - (* JsDeleteMsg *)
    destruct w as [| | |seq']; [done|done|done|]. case_decide as Hk; [|done]. destruct Hk as [-> ->]. injection Hc as <-.
    destruct Hw as (o & Hm & Hs).
    assert (Hdel : delete seq' q = q ∨ ∃ seq o, delete seq' q = delete seq q ∧
      on_message (db_of f) log seq o ∧ settled (ob_id o) (ob_job_id o) (db_of f)) by (right; by exists seq', o).
    inversion Ha as [r0 db0 q0 d0 E|r0 []|x o0 db0 q0 d0 Hx E|x Hx]; subst; cbn [lcommit] in E || idtac;
      try (rewrite decide_True in E by done; injection E as _ <- <- <-); split_and!; auto.
Qed.

Lemma pinv_listener f q log on sent rel lis dlq ref n R (e : eff R) k w r db' q' dlq' :
  pinv (mkPipeline f q log on sent rel lis dlq ref) →
  lis !! n = Some (mkLproc (Call e k) w) → lanswers f q dlq R e r db' q' dlq' →
  pinv (mkPipeline (with_db db' f) q' log on sent rel (<[n := mkLproc (k r) (lobserve w e r)]> lis) dlq' ref).
Proof.
  intros Hp Hn Ha. pose proof Hp as [H1 H2 H3 H4 H5 H6 H7 H8 H9 H10 H11].
  cbn [pl_fleet pl_stream pl_log pl_on pl_sent pl_relays pl_listeners pl_dlq pl_refused] in *.
  destruct (listener_step_ok f q log dlq ref R e k w r db' q' dlq' H3 H5 H10 (H8 n _ Hn) Ha) as (Hdb & Hdead & Hq & Hd & Hl).
  assert (Hqs : ∀ seq m, q' !! seq = Some m → q !! seq = Some m).
  { destruct Hq as [->|(seq & o & -> & _)]; [done|]. intros seq' m. rewrite lookup_delete. by case_decide. }
  assert (Hmv : moves (db_of f) log dlq ref db' log dlq' ref).
  { split; [|done| |done]; [destruct Hdb as [->|[? _]]; [constructor|done]|].
    destruct Hd as [->|(seq & o & -> & _)]; set_solver. }
  eapply pinv_move; [exact Hp|exact Hmv| | |by eauto| | | |done].
  - destruct f as [sh procs next]. destruct Hdb as [->|(_ & Ho & _)]; [by destruct sh|]. by eapply inv_step; [apply fleet_other|].
  - destruct Hdb as [->|(_ & _ & Hw)]; [by destruct f as [[] ? ?]|].
    exact (rinv_step _ _ _ _ (rstep_writer _ _ (relay_view f sent rel) _ _ Hw) H2).
  - intros n' lp. rewrite lookup_insert. case_decide; [by intros [= <-]; apply Hl|]. intros Hn'.
    eapply moves_listener; [exact H3|exact Hmv|by eapply H8].
  - eapply moves_accounts; [exact H3|exact Hmv|apply (ri_sent _ _ _ H2)| |done]. intros seq o Ho Hs.
    destruct Hq as [->|(seq0 & o0 & -> & Hm & Hset)]; [by left|].
    eapply removal_accounted; [done|apply Hm|by intros; eapply queue_row|by left|done|done].
  - intros m Hm. destruct Hd as [->|(seq & o & -> & Ho)]; [by left|]. apply elem_of_app in Hm as [Hm|Hm]; [by left|].
    apply list_elem_of_singleton in Hm as ->. right. by exists seq, o.
Qed.

(** A delivery takes its message out of the queue only when it may. *)
Lemma removes_flags job att holder delivery w R (e : eff R) next :
  watch_call job att holder delivery w R e = Some next → removes e = true → finished w = true ∨ closed w = true.
Proof.
  destruct w as [c d h f co cl s l di]. destruct e; cbn [watch_call removes]; try done; case_decide as Hk; naive_solver.
Qed.

(** A delivery's call moves the tables and the queue, and drops no message that is
    still needed. *)
Lemma call_moves f q log dlq ref ref' o pr R (e : eff R) next r sh' seq n q' :
  platform_ok (db_of f) → queue_ok (db_of f) q log → on_message (db_of f) log seq o → delivery_ok (db_of f) ref o pr →
  watch_call (pr_job pr) (pr_attempt pr) (Worker.worker_id (pr_worker pr)) (pr_delivery pr) (pr_watch pr) R e = Some next →
  answers n (fl_shared f) R e r sh' → broker seq e r q q' → ref ⊆ ref' →
  moves (db_of f) log dlq ref (sh_db sh') log dlq ref' ∧
  (∀ s o', o' ∈ outbox (db_of f) → q !! s = Some (msg_of carrier o') →
    q' !! s = Some (msg_of carrier o') ∨ settled (ob_id o') (ob_job_id o') (db_of f) ∨ msg_of carrier o' ∈ ref').
Proof.
  intros Hok Hqok Hm Hd Hc Ha Hb Href. split.
  - split; [by eapply answers_tx|done..].
  - intros s o' Ho' Hs. destruct Hb as [Hrm|_]; [|by left].
    eapply removal_accounted; [done|apply Hm|by intros; eapply queue_row| |done|done].
    destruct (removes_flags _ _ _ _ _ _ _ _ Hc Hrm) as [Hf|Hf].
    + left. eapply settled_state; [by apply (do_finished _ _ _ _ Hd)|done..].
    + destruct (do_closed _ _ _ _ Hd Hf) as [|Hin]; [by left|]. right. by apply Href.
Qed.

(** The observer of a delivery after its call. *)
Lemma call_learns f ref' o pr R (e : eff R) (k : result R → prog unit) next r sh' n :
  platform_ok (db_of f) → markers_ok (fl_shared f) → o ∈ outbox (sh_db sh') → (ob_job_id o < 2 ^ 128)%N →
  delivery_ok (sh_db sh') ref' o pr →
  watch_call (pr_job pr) (pr_attempt pr) (Worker.worker_id (pr_worker pr)) (pr_delivery pr) (pr_watch pr) R e = Some next →
  observed pr R e r = next r → answers n (fl_shared f) R e r sh' →
  (refused_completion e r = true → msg_of carrier o ∈ ref') →
  delivery_ok (sh_db sh') ref' o (mkProc (pr_worker pr) (pr_job pr) (pr_attempt pr) (pr_delivery pr) (k r) (observed pr R e r)).
Proof.
  intros Hok Hmk Ho Hid [D1 D2 D3 D4] Hc Hobs Ha Href. rewrite D1 in Hc.
  destruct (learns _ _ _ _ _ _ _ _ _ _ _ _ Hc Ha Hok Hmk Hid) as (L1 & L2 & L3).
  split; cbn [pr_job pr_watch]; rewrite ?Hobs; [done|..].
  - intros Hx. destruct (L1 Hx); auto.
  - intros Hx. destruct (L2 Hx); auto.
  - intros Hx. destruct (L3 Hx) as [?|[?|Hr]]; auto.
Qed.

Lemma pinv_call f q log on sent rel lis dlq ref n pr R (e : eff R) k r sh' seq m q' :
  pinv (mkPipeline f q log on sent rel lis dlq ref) →
  fl_procs f !! n = Some pr → pr_code pr = Call e k → on !! n = Some (seq, m) →
  answers n (fl_shared f) R e r sh' → broker seq e r q q' →
  pinv (mkPipeline (advance n pr R e k r sh' f) q' log on sent rel lis dlq (if refused_completion e r then ref ++ [m] else ref)).
Proof.
  intros Hp Hn Hcode Hon Ha Hb. pose proof Hp as [H1 H2 H3 H4 H5 H6 H7 H8 H9 H10 H11].
  cbn [pl_fleet pl_stream pl_log pl_on pl_sent pl_relays pl_listeners pl_dlq pl_refused] in *.
  assert (Hi' : inv (advance n pr R e k r sh' f)).
  { destruct f as [sh procs nx], pr as [self job att dl code w]. cbn [pr_code] in Hcode. subst code.
    by eapply inv_step; [eapply fleet_call|]. }
  destruct (H7 n pr Hn) as (seq0 & o & Hon' & Hm & Hd). rewrite Hon in Hon'. injection Hon' as <- ->.
  pose proof (row_id _ _ H3 (om_row _ _ _ _ Hm)) as Hid.
  assert (Hw : ∃ next, watch_call (pr_job pr) (pr_attempt pr) (Worker.worker_id (pr_worker pr)) (pr_delivery pr) (pr_watch pr) R e
    = Some next ∧ observed pr R e r = next r).
  { pose proof (po_code _ _ _ (proj2 H1) n pr Hn) as Hcd. rewrite Hcode in Hcd. cbn [monitored] in Hcd. unfold observed.
    destruct (watch_call _ _ _ _ _ _ _); [by eauto|done]. }
  destruct Hw as (next & Hc & Hobs). set (ref' := if refused_completion e r then _ else ref).
  destruct (call_moves _ _ _ dlq _ ref' _ _ _ _ _ _ _ _ _ _ H3 H5 Hm Hd Hc Ha Hb) as [Hmv Hrem];
    [subst ref'; destruct (refused_completion e r); set_solver|].
  pose proof (moves_deliveries _ _ _ _ _ _ _ _ H3 Hmv _ _ H7) as Hds.
  destruct (answers_db _ _ _ _ _ _ _ _ _ _ _ _ Hc Ha) as (En & Ewl & Hdb).
  split; cbn [pl_fleet pl_stream pl_log pl_on pl_sent pl_relays pl_listeners pl_dlq pl_refused advance fl_shared fl_procs]; [done|..].
  - unfold relay_view. cbn [advance fl_shared]. rewrite Ewl. destruct Hdb as [->|(ev & de & ft & rs & Hev & ->)]; [done|].
    exact (rinv_step _ _ _ _ (rstep_writer _ _ (relay_view f sent rel) _ _ (proj2 (event_tx _ _ _ _ _ _ _ Hev))) H2).
  - eapply platform_ok_tx; [apply Hmv|done].
  - by rewrite En.
  - eapply moves_queue_ok; [exact H3|exact Hmv| |done]. intros s m Hs. left. destruct Hb; [|done].
    revert Hs. rewrite lookup_delete. by case_decide.
  - rewrite (do_job _ _ _ _ Hd) in Hc. eapply answers_markers; [exact Hc|exact Ha|apply Hd|done..].
  - intros n' pr'. rewrite lookup_insert. case_decide as E; [|by apply Hds]. subst n'. intros [= <-].
    destruct (Hds n pr Hn) as (s1 & o1 & Hon1 & Hm1 & Hd1). exists s1, o1. split; [done|]. split; [done|].
    pose proof (f_equal snd (inj Some _ _ (eq_trans (eq_sym Hon) Hon1))) as Emsg. cbn [snd] in Emsg.
    eapply call_learns; [done|done|apply Hm1| |done|exact Hc|done|done|].
    + by rewrite <- (do_job _ _ _ _ Hd1), (do_job _ _ _ _ Hd).
    + intros Hr. subst ref'. rewrite Hr, <- Emsg. set_solver.
  - intros n' lp Hn'. eapply moves_listener; [exact H3|exact Hmv|by eapply H8].
  - eapply moves_accounts; [exact H3|exact Hmv|apply (ri_sent _ _ _ H2)|done|done].
  - eapply moves_dlq_ok; [exact H3|exact Hmv|by left|done].
  - eapply moves_dead_ok; [exact H3|exact Hmv| |done]. intros id Hst. left.
    destruct Hdb as [Edb|(ev & de & ft & rs & Hev & Edb)]; rewrite Edb in Hst; [done|].
    by apply dead_by_event in Hst as [|[-> _]].
Qed.

Lemma pinv_deliver f q log on sent rel lis dlq ref seq m self fuel job payload attempt :
  pinv (mkPipeline f q log on sent rel lis dlq ref) →
  q !! seq = Some m → decodes (mkMsg m.1.2 attempt) job payload →
  pinv (mkPipeline (start_delivery self fuel (mkMsg m.1.2 attempt) job f) q log (<[fl_next f := (seq, m)]> on) sent rel lis dlq ref).
Proof.
  intros [H1 H2 H3 H4 H5 H6 H7 H8 H9 H10 H11] Hs Hdec.
  cbn [pl_fleet pl_stream pl_log pl_on pl_sent pl_relays pl_listeners pl_dlq pl_refused] in *.
  destruct (H5 seq m Hs) as (Hle & o & Ho & Em).
  assert (Hj : job = ob_job_id o).
  { assert (E : job_of m.1.2 = Some job) by (apply names_job_of; by exists payload).
    rewrite Em in E. cbn [fst snd msg_of] in E. rewrite (names_job_of _ _ (row_names _ _ H3 Ho)) in E. by injection E. }
  split; cbn [pl_fleet pl_stream pl_log pl_on pl_sent pl_relays pl_listeners pl_dlq pl_refused start_delivery fl_shared fl_procs]; try done.
  - unfold start_delivery. rewrite (process_handle _ _ _ _ _ Hdec). destruct f as [sh procs nx].
    by eapply inv_step; [apply fleet_deliver|].
  - intros n pr. rewrite !lookup_insert. case_decide as E.
    + intros [= <-]. exists seq, o. rewrite <- Em. split; [done|]. split; [split; [done|by rewrite <- Em]|by split].
    + apply H7.
Qed.

Lemma pinv_local p p' : plocal p p' → pinv p → pinv p'.
Proof.
  intros [] Hp.
  - by eapply pinv_call.
  - destruct Hp as [H1 H2 H3 H4 H5 H6 H7 H8 H9 H10 H11]. split; try done.
    + by destruct f; eapply inv_step; [apply fleet_gone|].
    + intros n' pr. cbn. rewrite lookup_delete. case_decide; [done|]. apply H7.
  - destruct Hp as [H1 H2 H3 H4 H5 H6 H7 H8 H9 H10 H11]. split; try done.
    + by destruct f; eapply inv_step; [apply fleet_time|].
    + by destruct H2.
    + cbn. by eapply fleb_self_r.
    + intros id v Hb. cbn. intros Hv. eapply H6; [done|]. eapply (kv_view_later (S := S)); [exact H|exact Hv].
  - apply pinv_other; [done|by constructor|constructor|constructor|]. intros id'. apply dead_by_submit.
  - apply pinv_other; [done|by constructor|constructor|constructor|]. intros id'. apply dead_by_replay.
  - by eapply pinv_relay.
  - by eapply pinv_listener.
  - destruct Hp as [H1 H2 H3 H4 H5 H6 H7 H8 H9 H10 H11]. split; try done. intros n' lp. cbn. rewrite lookup_delete.
    case_decide; [done|]. apply H8.
Qed.

Lemma pinv_step p p' : pstep p p' → pinv p → pinv p'.
Proof.
  intros [] Hp.
  - by eapply pinv_deliver.
  - destruct Hp as [H1 H2 H3 H4 H5 H6 H7 H8 H9 H10 H11]. split; try done. intros n' lp. cbn. rewrite lookup_insert.
    case_decide; [|apply H8]. intros [= <-]. split; [|done]. apply conforms_on_advisory.
  - by eapply pinv_local.
Qed.

Lemma pinv_start s now wall :
  (∀ k, (0 ≤ kv_count s k)%Z) → (∀ k, kv_view now s k = None) → (now <=? now)%float = true → pinv (pl_start s now wall).
Proof.
  intros Hc Hv Hnow. split; cbn; try done.
  - by apply inv_start.
  - split; cbn; try done; intros; set_solver.
  - intros id v Hb. cbn. by rewrite Hv.
  - intros o Ho. set_solver.
  - intros m Hm. set_solver.
  - intros id (row & Hrow & _). done.
Qed.

Lemma pinv_reachable s now wall p :
  (∀ k, (0 ≤ kv_count s k)%Z) → (∀ k, kv_view now s k = None) → (now <=? now)%float = true →
  rtc pstep (pl_start s now wall) p → pinv p.
Proof. intros Hc Hv Hnow Hr. pose proof (pinv_start s now wall Hc Hv Hnow). induction Hr; eauto using pinv_step. Qed.

(** ** Schedules *)

(** Who makes a call, and a call with its reply and the time of the store's clock. *)
Inductive actor := ADelivery (n : nat) | ARelay (n : nat) | AListener (n : nat).
Record call := mkCall { c_time : float; c_by : actor; c_step : step_of }.

(** The service did not answer. *)
Definition failed (c : call) : bool :=
  match c_step c with Step _ (Raise (ExternalError _)) | Step _ (Raise TimeoutError) => true | _ => false end.

(** The events of a log: time, author, event, result and reply. *)
Definition event_of (c : call) : option (float * actor * EventType.t * option dict * result JobState.t) :=
  match c_step c with
  | Step e r =>
      match e in eff R return result R → option (float * actor * EventType.t * option dict * result JobState.t) with
      | RecordEvent _ event _ _ _ res => λ r, Some (c_time c, c_by c, event, res, r)
      | _ => λ _, None
      end r
  end.

Definition disposal_of (c : call) : option (actor * disposition) :=
  match c_step c with
  | Step MsgAck _ => Some (c_by c, Acked)
  | Step (MsgNak _) _ => Some (c_by c, Naked)
  | Step MsgTerm _ => Some (c_by c, Termed)
  | _ => None
  end.

Inductive paction :=
  | PDeliver (seq : Z) (self : Worker.t) (fuel : nat) (attempt : Z)
  | PAct (n : nat) (x : float)           (* delivery n makes its next call; x if its reply is free *)
  | PTime (now : float) (wall : Z)
  | PSubmit (id : uuid) (key : string) (payload : dict)
  | PReplay (id : uuid)
  | PRelayStart (n : nat)
  | PRelayCall (n : nat)
  | PListen (n : nat) (data : document)
  | PListenerCall (n : nat).

Definition decode_msg (d : document) : option (uuid * dict) :=
  match job_of d, result_bind d (λ body, getitem body "payload") with
  | Some id, Ok (JObj p) => Some (id, p)
  | _, _ => None
  end.

Lemma decode_msg_decodes d n id p : decode_msg d = Some (id, p) → decodes (mkMsg d n) id p.
Proof.
  unfold decode_msg, job_of. destruct d as [body|x]; [|done]. cbn [result_bind].
  destruct (getitem body "job_id") as [jv|] eqn:Hj; [|done]. cbn [result_bind].
  destruct (uuid_of_json jv) as [id'|] eqn:Hu; [|done].
  destruct (getitem body "payload") as [[]|] eqn:Hp; try done. intros [= <- <-]. by exists body, jv.
Qed.

(** A relay's call with its reply; a publication is stored. *)
Definition relay_acts (n : nat) (p : pipeline) : pipeline :=
  let st := relay_view (pl_fleet p) (pl_sent p) (pl_relays p) in
  match pl_relays p !! n with
  | Some (mkRproc (Call e k) w lk pd) =>
      match rcommit n st lk pd _ e with
      | (Some r, db, sent, lk', pd') =>
          let rel := <[n := mkRproc (k r) (robserve carrier (relay_batch_size settings) w _ e r) lk' pd']> (pl_relays p) in
          match e with
          | JsPublish s d h =>
              mkPipeline (with_db db (pl_fleet p)) (<[next_seq (pl_log p) := (s, d, h)]> (pl_stream p)) (pl_log p ++ [(s, d, h)])
                (pl_on p) sent rel (pl_listeners p) (pl_dlq p) (pl_refused p)
          | _ => mkPipeline (with_db db (pl_fleet p)) (pl_stream p) (pl_log p) (pl_on p) sent rel (pl_listeners p)
                   (pl_dlq p) (pl_refused p)
          end
      | _ => p
      end
  | _ => p
  end.

(** What the services answer to a call of delivery [n], if they do not fail: the reply
    of what they do, or a free reply, of which [x] is one. *)
Definition reply_to (n : nat) (x : float) {R} (e : eff R) (sh : shared (S := S)) : option (result R) * shared (S := S) :=
  let '(o, sh') := commit n R e sh in
  (match o with Some r => Some r | None => Ok <$> some_reply x R e end, sh').

Definition delivery_acts (n : nat) (x : float) (p : pipeline) : pipeline :=
  match fl_procs (pl_fleet p) !! n, pl_on p !! n with
  | Some pr, Some (seq, m) =>
      match pr_code pr with
      | Call e k =>
          let '(o, sh') := reply_to n x e (fl_shared (pl_fleet p)) in
          match o with
          | Some r =>
              mkPipeline (advance n pr _ e k r sh' (pl_fleet p)) (if removes e then delete seq (pl_stream p) else pl_stream p)
                (pl_log p) (pl_on p) (pl_sent p) (pl_relays p) (pl_listeners p) (pl_dlq p)
                (if refused_completion e r then pl_refused p ++ [m] else pl_refused p)
          | None => p
          end
      | _ => p
      end
  | _, _ => p
  end.

Definition listener_acts (n : nat) (p : pipeline) : pipeline :=
  match pl_listeners p !! n with
  | Some (mkLproc (Call e k) w) =>
      match lcommit (pl_fleet p) (pl_stream p) (pl_dlq p) _ e with
      | (Some r, db, q, dlq) =>
          mkPipeline (with_db db (pl_fleet p)) q (pl_log p) (pl_on p) (pl_sent p) (pl_relays p)
            (<[n := mkLproc (k r) (lobserve w e r)]> (pl_listeners p)) dlq (pl_refused p)
      | _ => p
      end
  | _ => p
  end.

Definition pact (a : paction) (p : pipeline) : pipeline :=
  let 'mkPipeline f q log on sent rel lis dlq ref := p in
  match a with
  | PDeliver seq self fuel attempt =>
      match q !! seq with
      | Some m =>
          match decode_msg m.1.2 with
          | Some (job, _) =>
              mkPipeline (start_delivery self fuel (mkMsg m.1.2 attempt) job f) q log (<[fl_next f := (seq, m)]> on)
                sent rel lis dlq ref
          | None => p
          end
      | None => p
      end
  | PAct n x => delivery_acts n x p
  | PTime now wall =>
      if (sh_now (fl_shared f) <=? now)%float
      then mkPipeline (mkFleet (mkShared (db_of f) (sh_kv (fl_shared f)) now wall (sh_writes (fl_shared f)))
                         (fl_procs f) (fl_next f)) q log on sent rel lis dlq ref
      else p
  | PSubmit id key payload =>
      if decide (id < 2 ^ 128)%N
      then mkPipeline (with_db (submit_job (sh_wall (fl_shared f)) id [] key payload (subject_jobs settings) (db_of f)).2 f)
             q log on sent rel lis dlq ref
      else p
  | PReplay id =>
      mkPipeline (with_db (replay_job (sh_wall (fl_shared f)) id (subject_jobs settings) (db_of f)).2 f) q log on sent rel lis dlq ref
  | PRelayStart n =>
      match rel !! n with
      | None => mkPipeline (with_db (db_of f) f) q log on sent
                  (<[n := mkRproc (relay_once carrier settings) rwatch_init [] []]> rel) lis dlq ref
      | Some _ => p
      end
  | PRelayCall n => relay_acts n p
  | PListen n data =>
      match lis !! n with
      | None => mkPipeline f q log on sent rel (<[n := mkLproc (on_advisory py_str settings data) LIdle]> lis) dlq ref
      | Some _ => p
      end
  | PListenerCall n => listener_acts n p
  end.

Lemma relay_acts_steps n p : at_most_once plocal p (relay_acts n p).
Proof.
  destruct p as [f q log on sent rel lis dlq ref]. unfold relay_acts. cbn [pl_fleet pl_stream pl_log pl_on pl_sent pl_relays pl_listeners pl_dlq pl_refused].
  destruct (rel !! n) as [[[| |R e k] w lk pd]|] eqn:Hn; try apply amo_refl.
  destruct (rcommit _ _ _ _ _ _) as [[[[[r|] db] sent'] lk'] pd'] eqn:Hc; [|apply amo_refl].
  pose proof (ract_call carrier settings (relay_view f sent rel) n R e k w lk pd r db sent' lk' pd' Hn Hc) as Ha.
  assert (Hsame : sent' = sent → at_most_once plocal (mkPipeline f q log on sent rel lis dlq ref) (mkPipeline (with_db db f) q log on sent'
    (<[n := mkRproc (k r) (robserve carrier (relay_batch_size settings) w R e r) lk' pd']> rel) lis dlq ref)).
  { intros ->. apply amo_once. refine (pl_relay _ _ _ _ _ _ _ _ _ _ _ _ Ha _). constructor. }
  destruct e; try (apply Hsame; cbn [rcommit] in Hc; by simplify_eq).
  apply amo_once. refine (pl_relay _ _ _ _ _ _ _ _ _ _ _ _ Ha _). cbn [rcommit relay_view rs_sent rs_db] in Hc. simplify_eq. constructor.
Qed.

Lemma delivery_acts_steps n x p : at_most_once plocal p (delivery_acts n x p).
Proof.
  destruct p as [f q log on sent rel lis dlq ref]. unfold delivery_acts. cbn [pl_fleet pl_stream pl_log pl_on pl_sent pl_relays pl_listeners pl_dlq pl_refused].
  destruct (fl_procs f !! n) as [pr|] eqn:Hn; [|apply amo_refl]. destruct (on !! n) as [[seq m]|] eqn:Hon; [|apply amo_refl].
  destruct (pr_code pr) as [| |R e k] eqn:Hcd; try apply amo_refl.
  unfold reply_to. destruct (commit n R e (fl_shared f)) as [o sh'] eqn:Hc.
  destruct (match o with Some r => Some r | None => _ end) as [r|] eqn:Hr; [|apply amo_refl].
  apply amo_once. eapply pl_call; [exact Hn|exact Hcd|exact Hon| |].
  - destruct o as [r0|]; [injection Hr as <-; by constructor|]. destruct (some_reply x R e) as [v|]; [|done].
    injection Hr as <-. by constructor.
  - destruct (removes e) eqn:E; [by constructor|]. apply broker_kept. by rewrite E.
Qed.

Lemma listener_acts_steps n p : at_most_once plocal p (listener_acts n p).
Proof.
  destruct p as [f q log on sent rel lis dlq ref]. unfold listener_acts. cbn [pl_fleet pl_stream pl_log pl_on pl_sent pl_relays pl_listeners pl_dlq pl_refused].
  destruct (lis !! n) as [[[| |R e k] w]|] eqn:Hn; try apply amo_refl.
  destruct (lcommit f q dlq R e) as [[[[r|] db] q'] dlq'] eqn:Hc; [|apply amo_refl].
  apply amo_once. eapply pl_listener_call; [exact Hn|by constructor].
Qed.

(** The actions that are not the broker's. *)
Definition is_local (a : paction) : bool := match a with PDeliver _ _ _ _ | PListen _ _ => false | _ => true end.

Lemma pact_local a p : is_local a = true → at_most_once plocal p (pact a p).
Proof.
  destruct a as [seq self fuel att|n x|now wall|id key payload|id|n|n|n data|n], p as [f q log on sent rel lis dlq ref];
    cbn [pact is_local]; try done; intros _.
  - apply delivery_acts_steps.
  - destruct (_ <=? _)%float eqn:E; [|apply amo_refl]. apply amo_once. by constructor.
  - case_decide; [|apply amo_refl]. apply amo_once. by constructor.
  - apply amo_once. by constructor.
  - destruct (rel !! n) eqn:E; [apply amo_refl|]. apply amo_once.
    refine (pl_relay _ _ _ _ _ _ _ _ _ _ _ _ (ract_start carrier settings (relay_view f sent rel) n E) _). constructor.
  - apply relay_acts_steps.
  - apply listener_acts_steps.
Qed.

Lemma locals_steps p p' : rtc plocal p p' → rtc pstep p p'.
Proof. induction 1 as [|p1 p2 p3 H _ IH]; [apply rtc_refl|]. eapply rtc_l; [by apply pl_local|exact IH]. Qed.

Lemma pact_steps a p : at_most_once pstep p (pact a p).
Proof.
  destruct (is_local a) eqn:Ha; [destruct (pact_local a p Ha); [by left|right; by apply pl_local]|].
  destruct a as [seq self fuel att| | | | | | |n data|], p as [f q log on sent rel lis dlq ref]; try done; cbn [pact].
  - destruct (q !! seq) as [m|] eqn:Hs; [|apply amo_refl]. destruct (decode_msg m.1.2) as [[job pl]|] eqn:Hd; [|apply amo_refl].
    apply amo_once. eapply pl_deliver; [exact Hs|by eapply decode_msg_decodes].
  - destruct (lis !! n) eqn:E; [apply amo_refl|]. apply amo_once. by constructor.
Qed.

(** *** The calls of a schedule *)

(** The call action [a] makes in [p], with its reply and the time. *)
Definition call_made (a : paction) (p : pipeline) : option call :=
  let made := mkCall (sh_now (fl_shared (pl_fleet p))) in
  match a with
  | PAct n x =>
      match fl_procs (pl_fleet p) !! n, pl_on p !! n with
      | Some pr, Some _ =>
          match pr_code pr with
          | Call e _ => (λ r, made (ADelivery n) (Step e r)) <$> (reply_to n x e (fl_shared (pl_fleet p))).1
          | _ => None
          end
      | _, _ => None
      end
  | PRelayCall n =>
      match pl_relays p !! n with
      | Some (mkRproc (Call e _) _ lk pd) =>
          let '(o, _, _, _, _) := rcommit n (relay_view (pl_fleet p) (pl_sent p) (pl_relays p)) lk pd _ e in
          (λ r, made (ARelay n) (Step e r)) <$> o
      | _ => None
      end
  | PListenerCall n =>
      match pl_listeners p !! n with
      | Some (mkLproc (Call e _) _) =>
          let '(o, _, _, _) := lcommit (pl_fleet p) (pl_stream p) (pl_dlq p) _ e in (λ r, made (AListener n) (Step e r)) <$> o
      | _ => None
      end
  | _ => None
  end.

Fixpoint calls_made (l : list paction) (p : pipeline) : list call :=
  match l with
  | [] => []
  | a :: l => option_list (call_made a p) ++ calls_made l (pact a p)
  end.

(** The log tells the truth: the delivery was about to make that call and goes on with
    that reply. *)
Lemma call_made_delivery a p c n :
  call_made a p = Some c → c_by c = ADelivery n →
  ∃ pr R (e : eff R) k r, c_step c = Step e r ∧ c_time c = sh_now (fl_shared (pl_fleet p)) ∧
    fl_procs (pl_fleet p) !! n = Some pr ∧ pr_code pr = Call e k ∧
    pr_code <$> fl_procs (pl_fleet (pact a p)) !! n = Some (k r).
Proof.
  destruct a as [| n0 x| | | | | n0 | | n0]; cbn [call_made]; try done.
  2: { destruct (pl_relays p !! n0) as [[[] w lk pd]|]; try done. destruct (rcommit _ _ _ _ _ _) as [[[[[] ?] ?] ?] ?]; [|done].
       by intros [= <-]. }
  2: { destruct (pl_listeners p !! n0) as [[[] w]|]; try done. destruct (lcommit _ _ _ _ _) as [[[[] ?] ?] ?]; [|done].
       by intros [= <-]. }
  destruct p as [f q log on sent rel lis dlq ref]. cbn [pact]. unfold delivery_acts. cbn [pl_fleet pl_on].
  destruct (fl_procs f !! n0) as [pr|] eqn:Hn; [|done]. destruct (on !! n0) as [[seq m]|]; [|done].
  destruct (pr_code pr) as [| |R0 e0 k] eqn:Hcd; try done.
  destruct (reply_to n0 x e0 (fl_shared f)) as [[r0|] sh']; [|done]. intros [= <-] [= <-].
  exists pr, R0, e0, k, r0. split_and!; try done. cbn [pl_fleet advance fl_procs]. by rewrite lookup_insert_eq.
Qed.

Definition pschedule (l : list paction) (p : pipeline) : pipeline := foldl (λ p a, pact a p) p l.

Lemma pschedule_steps l p : rtc pstep p (pschedule l p).
Proof.
  revert p. induction l as [|a l IH]; intros p; [apply rtc_refl|]. etrans; [apply amo_rtc, pact_steps|apply IH].
Qed.
End pipeline.

(** ** Jobs and their messages *)

Lemma max_row (l : list OutboxRow) : l ≠ [] → ∃ o, o ∈ l ∧ ∀ o', o' ∈ l → (ob_id o' ≤ ob_id o)%Z.
Proof.
  induction l as [|a l IH]; [done|]. intros _. destruct (decide (l = [])) as [->|Hne].
  - exists a. split; [set_solver|]. intros o' ->%list_elem_of_singleton. done.
  - destruct (IH Hne) as (o & Ho & Hmax). destruct (decide (ob_id a ≤ ob_id o)%Z) as [Hle|Hgt].
    + exists o. split; [set_solver|]. intros o' [->|Ho']%elem_of_cons; auto.
    + exists a. split; [set_solver|]. intros o' [->|Ho']%elem_of_cons; [done|]. specialize (Hmax o' Ho'). lia.
Qed.

(** The newest outbox row of a job. *)
Definition newest (db : DB) (id : uuid) (o : OutboxRow) : Prop :=
  o ∈ outbox db ∧ ob_job_id o = id ∧ ∀ o', o' ∈ outbox db → ob_job_id o' = id → (ob_id o' ≤ ob_id o)%Z.

(** The newest row of an open job is needed. *)
Lemma newest_unsettled db id o row :
  newest db id o → jobs db !! id = Some row → job_open row → ¬ settled (ob_id o) id db.
Proof.
  intros (_ & _ & Hmax) Hrow Hopen Hs. destruct (Hs row Hrow Hopen) as (o' & Ho' & Hj & Hlt). specialize (Hmax o' Ho' Hj). lia.
Qed.

Lemma newest_row db id row : platform_ok db → jobs db !! id = Some row → ∃ o, newest db id o.
Proof.
  intros Hok Hrow. destruct (reachable_ok db (pk_reachable db Hok)) as [Hdb Hcov].
  destruct (ok_jobs db Hdb id row Hrow) as (log & Hlog & _). pose proof (Hcov id row log Hrow Hlog) as Hlen.
  destruct (max_row (outbox_of id db)) as (o & Ho & Hmax); [by intros E; rewrite E in Hlen|].
  unfold outbox_of in *. apply list_elem_of_filter in Ho as [Hj Ho]. exists o. split; [done|]. split; [done|].
  intros o' Ho' Hj'. apply Hmax. by apply list_elem_of_filter.
Qed.

(** The newest row of an open job is unpublished, or its message is in the queue, or
    was refused. *)
Lemma newest_accounted {S : Type} `{!KVStore S, !KVView S, !KVStoreLaws S} carrier settings (p : pipeline (S := S)) id row o :
  pinv carrier settings p → newest (sh_db (fl_shared (pl_fleet p))) id o →
  jobs (sh_db (fl_shared (pl_fleet p))) !! id = Some row → job_open row →
  ob_published_at o = None ∨
  (∃ seq m, pl_stream p !! seq = Some m ∧ m = msg_of carrier o ∧ names_job m.1.2 id) ∨
  msg_of carrier o ∈ pl_refused p.
Proof.
  intros Hp Hnew Hrow Hopen. pose proof Hnew as (Ho & Hj & _). destruct (ob_published_at o) eqn:Hpub; [|by left]. right.
  assert (Hs : msg_of carrier o ∈ pl_sent p) by (apply (ri_published _ _ _ (pi_relay _ _ _ Hp) o Ho); by rewrite Hpub).
  destruct (pi_sent _ _ _ Hp o Ho Hs) as [(seq & Hq)|[Hset|Hin]]; [left|exfalso|by right].
  - exists seq, (msg_of carrier o). split; [done|]. split; [done|]. rewrite <- Hj. apply (row_names _ _ (pi_db _ _ _ Hp) Ho).
  - rewrite Hj in Hset. by eapply newest_unsettled.
Qed.

(** A queued and a retried job: "w1" is slow, its claim, its lease and the ack wait
    run out; "w2" gets the message again, fails and requeues the job; then "w1" is
    done. *)
Definition flaky_payload : dict := [("duration_ms", JInt 50); ("failure_rate", JFloat (float_of_decimal false 5 (-1)))].

Definition half_up : float := float_of_decimal false 75 (-2).
Definition half_down : float := float_of_decimal false 25 (-2).

Abbreviation flaky_schedule := (pschedule trace_carrier default_settings (λ _, "")).
Abbreviation flaky_start := (pl_start InMemoryKV.init (fZ 0) 100).

Definition publication : list paction :=
  [PSubmit 1 "key-1" flaky_payload; PRelayStart 0] ++ replicate 5 (PRelayCall 0).

Definition first_delivery : list paction := [PDeliver 1 sample_worker 9 1] ++ replicate 9 (PAct 0 half_up).

Definition second_delivery : list paction :=
  [PTime (fZ 60) 160; PDeliver 1 (Worker.mk default_settings "w2") 9 2] ++ replicate 20 (PAct 1 half_down).

Definition queued : pipeline := flaky_schedule publication flaky_start.
Definition running : pipeline := flaky_schedule first_delivery queued.

(** The whole of it. *)
Definition stale_schedule : list paction :=
  publication ++ first_delivery ++ second_delivery ++ replicate 20 (PAct 0 half_up).

Lemma queued_reachable : rtc (pstep trace_carrier default_settings (λ _, "")) flaky_start queued.
Proof. apply pschedule_steps. Qed.

Lemma running_reachable : rtc (pstep trace_carrier default_settings (λ _, "")) flaky_start running.
Proof. etrans; [apply queued_reachable|apply pschedule_steps]. Qed.

Definition queued_msg : sent_msg :=
  ("orbiter.jobs",
   Ok (JObj [("job_id", JStr (uuid_str 1)); ("payload", JObj flaky_payload); ("traceparent", JObj [])]),
   [("Nats-Msg-Id", "outbox-1"); ("traceparent", "00-0af7-b7ad-01")]).

(** A poison job whose message is out of deliveries, and the handling of its
    advisory. *)
Definition poison_payload : dict := [("duration_ms", JInt 50); ("poison", JBool true)].

Definition advisory_of (seq deliveries : Z) : document :=
  Ok (JObj [("type", JStr ADVISORY_TYPE); ("stream", JStr "ORBITER_JOBS"); ("consumer", JStr "workers");
            ("stream_seq", JInt seq); ("deliveries", JInt deliveries)]).

Definition quarantine_schedule : list paction :=
  [PSubmit 1 "key-1" poison_payload; PRelayStart 0] ++ replicate 5 (PRelayCall 0) ++
  [PListen 0 (advisory_of 1 5)] ++ replicate 6 (PListenerCall 0).

Definition quarantined : pipeline := flaky_schedule quarantine_schedule flaky_start.

Definition queued_world : world InMemoryKV.t :=
  let sh := fl_shared (pl_fleet queued) in
  mkWorld (sh_db sh) (sh_kv sh) (sh_now sh) (sh_wall sh) [half_up] [].

Definition queued_end : float := slept (fZ 0) (default [] (slices 9 (fZ 50 / fZ 1000)%float)).

Lemma queued_runnable : runnable 9 flaky_payload queued_world (float_of_decimal false 5 (-1)) half_up [] queued_end 50.
Proof.
  split.
  - eexists (JInt 50), 50%Z, (fZ 50), _. repeat split; vm_compute; reflexivity.
  - reflexivity.
  - reflexivity.
  - vm_compute. reflexivity.
  - vm_compute. reflexivity.
Qed.

Lemma trace_carrier_ok i : Forall (λ p : string * string, p.1 ≠ "Nats-Msg-Id") (trace_carrier i).
Proof. repeat constructor. discriminate. Qed.

(** * Properties *)

(** C1: no job is stranded, with one exception.  Whatever the interleaving of API,
    operator, relays, broker, workers and listeners, with crashes, lost replies,
    repeated deliveries and dropped repetitions: a job that is queued or running has
    an outbox row newer than all its others which is still to be published, or
    whose message is in the work queue and names the job, or one of whose
    deliveries was refused its COMPLETED because the job was queued again. *)
Theorem no_job_stranded {S : Type} `{!KVStore S, !KVView S, !KVStoreLaws S}
    (carrier : Z → headers) (settings : Settings) (py_str : json → string) (s : S) (now : float) (wall : Z)
    (p : pipeline) (id : uuid) (row : JobRow) :
  (∀ i, Forall (λ p, p.1 ≠ "Nats-Msg-Id") (carrier i)) →
  (∀ k, (0 ≤ kv_count s k)%Z) → (∀ k, kv_view now s k = None) → (now <=? now)%float = true →
  rtc (pstep carrier settings py_str) (pl_start s now wall) p →
  let db := sh_db (fl_shared (pl_fleet p)) in
  jobs db !! id = Some row → job_open row →
  ∃ o, newest db id o ∧
    (ob_published_at o = None ∨
     (∃ seq m, pl_stream p !! seq = Some m ∧ m = msg_of carrier o ∧ names_job m.1.2 id) ∨
     msg_of carrier o ∈ pl_refused p).
Proof.
  intros Hcar Hc Hv Hnow Hr db Hrow Hopen.
  pose proof (pinv_reachable carrier settings py_str Hcar s now wall p Hc Hv Hnow Hr) as Hp.
  destruct (newest_row _ id row (pi_db _ _ _ Hp) Hrow) as (o & Ho). exists o. split; [done|]. by eapply newest_accounted.
Qed.

Lemma no_job_stranded_witness :
  ∃ row, jobs (sh_db (fl_shared (pl_fleet running))) !! 1%N = Some row ∧ jr_state row = "running" ∧
  ∃ o, newest (sh_db (fl_shared (pl_fleet running))) 1 o ∧
    (ob_published_at o = None ∨
     (∃ seq m, pl_stream running !! seq = Some m ∧ m = msg_of trace_carrier o ∧ names_job m.1.2 1) ∨
     msg_of trace_carrier o ∈ pl_refused running).
Proof.
  destruct (jobs (sh_db (fl_shared (pl_fleet running))) !! 1%N) as [row|] eqn:E; [|vm_compute in E; discriminate E].
  assert (Hst : jr_state row = "running") by (vm_compute in E; injection E as <-; reflexivity).
  exists row. split; [reflexivity|]. split; [exact Hst|].
  apply (no_job_stranded trace_carrier default_settings (λ _, "") InMemoryKV.init (fZ 0) 100 running 1 row trace_carrier_ok
           inmemory_counts).
  - intros k. reflexivity.
  - vm_compute. reflexivity.
  - exact running_reachable.
  - exact E.
  - right. exact Hst.
Defined.

(** C38: the exception happens.  A job is submitted and published; "w1" starts it at time
    0, executes it and is held up before it records the completion; at time 60, its
    claim and lease having run out, "w2" is given the message as well, starts the job,
    fails and requeues it; then "w1" goes on.  No call of any process fails.  The log
    of the calls shows the four events and their replies: the COMPLETED of the first
    delivery is refused because the job is queued.  It shows what the deliveries told
    the broker: the second gave the message back, the first terminated it.  In the end
    every process has returned, the job is queued, all its outbox rows are published
    and the work queue is empty. *)
Theorem stale_completion_strands_job :
  let p := flaky_schedule stale_schedule flaky_start in
  let calls := calls_made trace_carrier default_settings (λ _, "") stale_schedule flaky_start in
  rtc (pstep trace_carrier default_settings (λ _, "")) flaky_start p ∧
  Forall (λ c, failed c = false) calls ∧
  omap event_of calls =
    [(fZ 0, ADelivery 0, EventType.STARTED, None, Ok JobState.RUNNING);
     (fZ 60, ADelivery 1, EventType.STARTED, None, Ok JobState.RUNNING);
     (fZ 60, ADelivery 1, EventType.REQUEUED, None, Ok JobState.QUEUED);
     (fZ 60, ADelivery 0, EventType.COMPLETED, Some [("elapsed_ms", JInt 0)],
      Raise (IllegalTransition (Some JobState.QUEUED) EventType.COMPLETED))] ∧
  omap disposal_of calls = [(ADelivery 1, Naked); (ADelivery 0, Termed)] ∧
  has_state 1 JobState.QUEUED (sh_db (fl_shared (pl_fleet p))) ∧
  pl_stream p = ∅ ∧ Forall (λ o, ob_published_at o ≠ None) (outbox (sh_db (fl_shared (pl_fleet p)))) ∧
  pr_code <$> fl_procs (pl_fleet p) = {[0 := Ret tt; 1 := Ret tt]} ∧ rp_code <$> pl_relays p = {[0 := Ret 1]}.
Proof.
  cbn zeta. split; [apply pschedule_steps|]. split_and!.
  - apply (bool_decide_unpack _). vm_compute. exact I.
  - vm_compute. reflexivity.
  - vm_compute. reflexivity.
  - unfold has_state. destruct (jobs _ !! 1%N) as [row|] eqn:E; [|vm_compute in E; discriminate E].
    exists row. split; [done|]. vm_compute in E. injection E as <-. reflexivity.
  - vm_compute. reflexivity.
  - apply (bool_decide_unpack _). vm_compute. exact I.
  - vm_compute. reflexivity.
  - vm_compute. reflexivity.
Qed.

(** C10: a message in the queue carries its job on.  In every reachable state of the
    system each message of the work queue decodes to a job that exists and to the
    payload it was submitted with.  If the payload is poison, a delivery of the message
    returns, gives it back and changes nothing else.  If it is not poison and can be
    executed ([runnable]: its fields convert, the fuel covers its sleep loop, the clock
    does not go back meanwhile and the time that passes is a number of milliseconds),
    the job is queued or running, and its claim and its lease have lapsed, then one
    undisturbed delivery to any worker returns, answers the broker once, and leaves the job succeeded, requeued,
    or failed on the last delivery: no fence is ahead of the tokens, no done marker of
    an unfinished job stands in the way. *)
Theorem queued_message_runs {S : Type} `{!KVStore S, !KVView S, !KVStoreLaws S}
    (carrier : Z → headers) (settings : Settings) (py_str : json → string) (s : S) (now : float) (wall : Z)
    (p : pipeline) (seq : Z) (m : sent_msg) (self : Worker.t) (fuel : nat) (attempt : Z) (u : float) (us : list float) :
  (∀ i, Forall (λ p, p.1 ≠ "Nats-Msg-Id") (carrier i)) →
  (∀ k, (0 ≤ kv_count s k)%Z) → (∀ k, kv_view now s k = None) → (now <=? now)%float = true →
  rtc (pstep carrier settings py_str) (pl_start s now wall) p → pl_stream p !! seq = Some m →
  let sh := fl_shared (pl_fleet p) in
  let w := mkWorld (sh_db sh) (sh_kv sh) (sh_now sh) (sh_wall sh) (u :: us) [] in
  let msg := mkMsg m.1.2 attempt in
  ∃ id payload row, decodes msg id payload ∧ jobs (sh_db sh) !! id = Some row ∧ jr_payload row = JObj payload ∧
    (truthy (default JNull (dict_get payload "poison")) = true →
     deliver self fuel msg w = (Ok tt, mkWorld (w_db w) (w_kv w) (w_now w) (w_wall w) (w_draws w) [Naked])) ∧
    (job_open row → truthy (default JNull (dict_get payload "poison")) = false →
     kv_view (sh_now sh) (sh_kv sh) (ExecutionGuard.claim_key (uuid_str id)) = None →
     kv_view (sh_now sh) (sh_kv sh) (LeaseManager.lease_key (uuid_str id)) = None →
     ∀ fr t1 el, runnable fuel payload w fr u us t1 el →
     let '(event, state, disp) := verdict_of self attempt (u <? fr)%float in
     let out := deliver self fuel msg w in
     out.1 = Ok tt ∧ w_disposed out.2 = [disp] ∧ has_state id state (w_db out.2)).
Proof.
  intros Hcar Hc Hv Hnow Hr Hq sh w msg.
  pose proof (pinv_reachable carrier settings py_str Hcar s now wall p Hc Hv Hnow Hr) as [[H1 _] _ H3 H4 H5 H6 _ _ _ _ _].
  destruct (H5 seq m Hq) as (_ & o & Ho & ->). destruct (row_exists _ _ H3 Ho) as [row Hrow].
  destruct (pk_body _ H3 o row Ho Hrow) as (_ & payload & Hpl & Hdec).
  exists (ob_job_id o), payload, row. split; [exact Hdec|]. split; [exact Hrow|]. split; [exact Hpl|]. split.
  { intros Hp. rewrite (process_decodes self fuel msg _ payload w Hdec). cbn [Worker.handle]. by rewrite Hp. }
  intros Hopen Hp Hcl Hle fr t1 el Hrun. set (id := ob_job_id o) in *.
  assert (Hdone : kv_view (sh_now sh) (sh_kv sh) (ExecutionGuard.done_key (uuid_str id)) = None).
  { destruct (kv_view (sh_now sh) (sh_kv sh) (ExecutionGuard.done_key (uuid_str id))) as [v|] eqn:E; [|done]. exfalso. destruct (H6 id v (row_id _ _ H3 Ho) E) as (row' & Hrow' & Hst).
    rewrite Hrow in Hrow'. injection Hrow' as <-. destruct Hopen as [Ho'|Ho']; rewrite Hst in Ho'; discriminate Ho'. }
  assert (Hver : verdict (w_now w) (w_kv w) (uuid_str id) = CLAIMED) by (unfold verdict; cbn; by rewrite Hdone, Hcl).
  assert (Hcur : ∃ cur, jr_state row = JobState.value cur ∧ apply (Some cur) EventType.STARTED = Ok JobState.RUNNING).
  { destruct Hopen as [E|E]; rewrite E; eauto. }
  destruct Hcur as (cur & Hst & Hap).
  rewrite (process_decodes self fuel msg id payload w Hdec).
  set (d := Worker.delivery_of self (num_delivered msg)).
  destruct (handle_granted self fuel id payload (num_delivered msg) d w Hp H4 Hver Hle) as (e1 & e2 & s1 & s2 & _ & _ & _ & ->).
  set (n := (kv_count (w_kv w) _ + 1)%Z).
  assert (Hft : (jr_fence_token row ≤ n)%Z) by (pose proof (so_fence _ H1 id row Hrow); subst n w sh; cbn in *; lia).
  assert (Hrun2 : runnable fuel payload (set_kv s2 w) fr u us t1 el) by (by destruct Hrun).
  pose proof (under_lease_runs self fuel id payload attempt d (set_kv s2 w) row cur n fr u us t1 el Hrun2 Hrow Hst Hap Hft) as Hul.
  cbn zeta in Hul. destruct (verdict_of self attempt (u <? fr)%float) as [[event state] disp].
  destruct Hul as (row1 & det & res & Hrow1 & Hul). cbn zeta. change (num_delivered msg) with attempt. rewrite Hul. cbn [fst snd w_disposed w_db]. split; [done|]. split; [done|].
  unfold has_state. cbn [jobs write_event]. rewrite lookup_insert_eq. by eexists.
Qed.

Lemma queued_message_runs_witness :
  let out := deliver sample_worker 9 (mkMsg queued_msg.1.2 1) queued_world in
  out.1 = Ok tt ∧ w_disposed out.2 = [Acked] ∧ has_state 1 JobState.SUCCEEDED (w_db out.2).
Proof.
  destruct (queued_message_runs trace_carrier default_settings (λ _, "") InMemoryKV.init (fZ 0) 100 queued 1 queued_msg
              sample_worker 9 1 half_up [] trace_carrier_ok inmemory_counts (λ _, eq_refl) eq_refl queued_reachable)
    as (id & payload & row & Hdec & Hrow & _ & _ & Hout); [vm_compute; reflexivity|].
  assert (Hid : id = 1%N ∧ payload = flaky_payload).
  { destruct Hdec as (data & jv & E1 & E2 & E3 & E4). injection E1 as <-. injection E2 as <-. injection E4 as <-.
    vm_compute in E3. injection E3 as <-. split; reflexivity. }
  destruct Hid as [-> ->].
  apply (Hout ltac:(left; vm_compute in Hrow; injection Hrow as <-; reflexivity) eq_refl ltac:(vm_compute; reflexivity)
           ltac:(vm_compute; reflexivity) _ _ _ queued_runnable).
Defined.

(** C13: a quarantined job is not lost.  Whatever the interleaving, with crashes, lost
    replies, repeated and forged advisories: while a job is in state DEAD_LETTER the
    quarantine stream holds, under the id of its sequence number, the copy of a
    message that was stored in the work queue, which names the job and carries the
    payload it was submitted with. *)
Theorem quarantined_job_has_copy {S : Type} `{!KVStore S, !KVView S, !KVStoreLaws S}
    (carrier : Z → headers) (settings : Settings) (py_str : json → string) (s : S) (now : float) (wall : Z)
    (p : pipeline) (id : uuid) (row : JobRow) :
  (∀ i, Forall (λ p, p.1 ≠ "Nats-Msg-Id") (carrier i)) →
  (∀ k, (0 ≤ kv_count s k)%Z) → (∀ k, kv_view now s k = None) → (now <=? now)%float = true →
  rtc (pstep carrier settings py_str) (pl_start s now wall) p →
  jobs (sh_db (fl_shared (pl_fleet p))) !! id = Some row → jr_state row = JobState.value JobState.DEAD_LETTER →
  ∃ seq m, log_at (pl_log p) seq = Some m ∧ copy_of settings seq m.1.2 ∈ pl_dlq p ∧ carries m.1.2 id row.
Proof.
  intros Hcar Hc Hv Hnow Hr Hrow Hst.
  pose proof (pinv_reachable carrier settings py_str Hcar s now wall p Hc Hv Hnow Hr) as [_ _ H3 _ _ _ _ _ _ H10 H11].
  destruct (H11 id (ex_intro _ row (conj Hrow Hst))) as (o & seq & Ho & Hj & Hin).
  destruct (H10 _ Hin) as (seq' & o' & [Ho' Hl] & E). pose proof (f_equal (λ m : sent_msg, m.1.2) E) as Ed. cbn in Ed.
  exists seq', (msg_of carrier o'). split; [done|]. cbn [msg_of fst snd].
  split; [by rewrite <- E|]. rewrite <- Ed. subst id. by apply (pk_body _ H3 o row).
Qed.

Lemma quarantined_job_has_copy_witness :
  ∃ row, jobs (sh_db (fl_shared (pl_fleet quarantined))) !! 1%N = Some row ∧ jr_state row = "dead_letter" ∧
    ∃ seq m, log_at (pl_log quarantined) seq = Some m ∧ copy_of default_settings seq m.1.2 ∈ pl_dlq quarantined ∧
      carries m.1.2 1 row.
Proof.
  destruct (jobs (sh_db (fl_shared (pl_fleet quarantined))) !! 1%N) as [row|] eqn:E; [|vm_compute in E; discriminate E].
  assert (Hst : jr_state row = "dead_letter") by (vm_compute in E; injection E as <-; reflexivity).
  exists row. split; [reflexivity|]. split; [exact Hst|].
  apply (quarantined_job_has_copy trace_carrier default_settings (λ _, "") InMemoryKV.init (fZ 0) 100 quarantined 1 row
           trace_carrier_ok inmemory_counts (λ _, eq_refl) eq_refl (pschedule_steps _ _ _ _ _) E Hst).
Defined.
