(* ===== verification/Policy.v ===== *)
(** * The broker's redelivery policy

    The consumer that [worker/main.py] declares caps the deliveries of a message at
    [max_deliver]; the broker counts them, tells the worker the count as
    [num_delivered], and announces a message that has used them up in an advisory,
    which [dlq/listener.py] reads.  The pipeline under this policy: bounds on the
    attempts in the tables, and the end of a message that is out of deliveries. *)
From Stdlib Require Import Floats.SpecFloat.
From S2P Require Import Prelude PyFloat PyJson Model StateMachine PyUuid KVStore Effects Fencing.
From S2P Require Import Idempotency Repo Config Telemetry Executor PyNum Worker World System Relay Platform Dlq Pipeline.

(** An advisory as the broker writes it, next to other fields. *)
Definition announces (settings : Settings) (seq deliveries : Z) (d : document) : Prop :=
  ∃ l, d = Ok (JObj l) ∧ dict_get l "type" = Some (JStr ADVISORY_TYPE) ∧
    dict_get l "stream" = Some (JStr (stream_name settings)) ∧
    dict_get l "consumer" = Some (JStr (consumer_durable settings)) ∧
    dict_get l "stream_seq" = Some (JInt seq) ∧ dict_get l "deliveries" = Some (JInt deliveries).

Definition advisory_doc (settings : Settings) (seq deliveries : Z) : document :=
  Ok (JObj [("type", JStr ADVISORY_TYPE); ("stream", JStr (stream_name settings));
            ("consumer", JStr (consumer_durable settings)); ("stream_seq", JInt seq); ("deliveries", JInt deliveries)]).

Lemma advisory_doc_announces settings seq deliveries : announces settings seq deliveries (advisory_doc settings seq deliveries).
Proof. eexists. split; [reflexivity|]. by repeat split. Qed.

(** The listener reads from it what the broker wrote. *)
Lemma announces_parse py_str settings seq deliveries d :
  announces settings seq deliveries d →
  parse_advisory py_str d =
    Ok (Some (mkAdvisory (py_str (JStr (stream_name settings))) (py_str (JStr (consumer_durable settings))) seq deliveries)).
Proof.
  intros (l & -> & Ht & Hs & Hc & Hq & Hd). cbn [parse_advisory]. rewrite decide_True by done.
  unfold advisory_fields. cbn [getitem]. rewrite Hs. cbn [result_bind]. rewrite Hc. cbn [result_bind]. rewrite Hq.
  cbn [result_bind int_of_json]. rewrite Hd. done.
Qed.

(** ** Bounds on the tables *)

Definition api_event (event : EventType.t) : bool :=
  match event with EventType.SUBMITTED | EventType.ENQUEUED | EventType.REPLAYED => true | _ => false end.

(** The attempt an event is recorded with: 0 for those of the API, a delivery's
    number for the others. *)
Definition attempt_bounded (M : Z) (ev : EventRow) : Prop :=
  ∃ event, er_event ev = EventType.value event ∧
    if api_event event then er_attempt ev = 0%Z else (1 ≤ er_attempt ev ≤ M)%Z.

Record attempts_ok (M : Z) (db : DB) : Prop := {
  ao_rows id row : jobs db !! id = Some row → (0 ≤ jr_attempts row ≤ M)%Z;
  ao_events ev : ev ∈ job_events db → attempt_bounded M ev
}.

Section tables.
Context (M : Z) (HM : (0 ≤ M)%Z).

Lemma attempts_apply now id event att det ft res db :
  (if api_event event then att = 0 else 1 ≤ att ≤ M)%Z →
  attempts_ok M db → attempts_ok M (apply_event now id event att det ft res db).2.
Proof.
  intros Hatt [H1 H2]. rewrite apply_event_eq. destruct (jobs db !! id) as [row|] eqn:Hrow; [|done].
  destruct (JobState_of (jr_state row)) as [cur|]; [|done].
  destruct (apply (Some cur) event) as [next|]; [|done]. destruct (_ <=? _)%Z; [|done].
  split; cbn [snd jobs job_events write_event].
  - intros id' row'. rewrite lookup_insert. case_decide; [|by apply H1]. intros [= <-]. cbn.
    specialize (H1 id row Hrow). destruct (api_event event); lia.
  - intros ev [Hev|Hev]%elem_of_app; [by apply H2|]. apply list_elem_of_singleton in Hev as ->. by exists event.
Qed.

Lemma attempts_record now id event att det ft res db :
  api_event event = false → (1 ≤ att ≤ M)%Z → attempts_ok M db → attempts_ok M (record_event now id event att det ft res db).2.
Proof.
  intros He Hatt Hok. rewrite record_event_eq. apply attempts_apply; [by rewrite He|done].
Qed.

Lemma attempts_submit now id c key p s db : attempts_ok M db → attempts_ok M (submit_job now id c key p s db).2.
Proof.
  intros [H1 H2]. rewrite submit_job_eq. destruct (job_by_key key db); [done|]. destruct (jobs db !! id); [done|].
  split; cbn [snd jobs job_events write_submission].
  - intros id' row'. rewrite lookup_insert. case_decide; [|by apply H1]. intros [= <-]. cbn. lia.
  - intros ev [Hev|Hev]%elem_of_app; [by apply H2|]. apply elem_of_cons in Hev as [->|Hev%list_elem_of_singleton].
    + by exists EventType.SUBMITTED.
    + subst ev. by exists EventType.ENQUEUED.
Qed.

Lemma attempts_replay now id s db : attempts_ok M db → attempts_ok M (replay_job now id s db).2.
Proof.
  intros Hok. rewrite replay_job_eq. destruct (jobs db !! id) as [row|]; [|done].
  pose proof (attempts_apply now id EventType.REPLAYED 0 None None None db eq_refl Hok) as H.
  destruct (apply_event _ _ _ _ _ _ _ _) as [[next|x] db']; [|done]. by destruct H.
Qed.

Lemma attempts_mark now ids db : attempts_ok M db → attempts_ok M (mark_published now ids db).
Proof. by intros [H1 H2]. Qed.
End tables.

(** ** The listener under the policy *)

(** The attempt of every event it records. *)
Definition attempt_call (M : Z) (u : unit) (R : Type) (e : eff R) : option (result R → unit) :=
  match e in eff R return option (result R → unit) with
  | RecordEvent _ event att _ _ _ => if decide (event = EventType.DEAD_LETTERED ∧ att = M) then Some (λ _, tt) else None
  | _ => Some (λ _, tt)
  end.

Abbreviation attempts_of M := (monitored (λ _ _ _, True) (attempt_call M) (λ _ _, True) tt).

Lemma quarantine_attempts settings adv : attempts_of (deliveries adv) (quarantine settings adv).
Proof.
  unfold quarantine. apply monitored_bind. eapply monitored_await; [reflexivity|]. intros [raw|x] _; [|done].
  apply monitored_bind, monitored_of_result. destruct raw as [body|x]; [|done].
  apply monitored_bind, monitored_of_result. destruct (getitem body "job_id") as [jv|x]; [|done].
  apply monitored_bind, monitored_of_result. destruct (uuid_of_json jv) as [id|x]; [|done].
  apply monitored_bind, monitored_of_result. destruct (carrier_items _); [|done].
  apply monitored_bind. unfold quarantine_inner. apply monitored_bind.
  eapply monitored_await; [reflexivity|]. intros [[]|x] _; [|done].
  apply monitored_bind, monitored_try_except, monitored_bind.
  eapply monitored_await; [cbn [attempt_call]; rewrite decide_True by done; reflexivity|].
  intros [st|x] _; [|destruct x; try done]; cbn; intros [[]|y] _; cbn; [by intros [[]|]|done|by intros [[]|]|done].
Qed.

Lemma advisory_attempts py_str settings seq M d :
  announces settings seq M d → attempts_of M (on_advisory py_str settings d).
Proof.
  intros Ha. unfold on_advisory. rewrite (announces_parse py_str _ _ _ _ Ha). cbn [of_result bind].
  apply monitored_bind, monitored_try_except. eapply monitored_mono; [|apply (quarantine_attempts settings (mkAdvisory _ _ seq M))].
  intros w [[]|x] _; cbn; by intros [[]|].
Qed.

(** ** The system under the policy *)

Section policy.
Context {S : Type} `{!KVStore S, !KVView S, !KVStoreLaws S}.
Context (carrier : Z → headers) (settings : Settings) (py_str : json → string).

Record bsys := mkBsys {
  bs_pipe : pipeline (S := S);
  bs_count : gmap Z Z          (* how often each message was handed out *)
}.

Definition count (c : gmap Z Z) (seq : Z) : Z := default 0%Z (c !! seq).

Lemma count_insert c s v s' : count (<[s := v]> c) s' = if decide (s = s') then v else count c s'.
Proof. unfold count. rewrite lookup_insert. by case_decide. Qed.

Inductive bstep : bsys → bsys → Prop :=
  | b_deliver f q log on sent rel lis dlq ref c seq m self fuel job payload :
      q !! seq = Some m → (count c seq < max_deliver settings)%Z →
      decodes (mkMsg m.1.2 (count c seq + 1)) job payload →
      bstep (mkBsys (mkPipeline f q log on sent rel lis dlq ref) c)
        (mkBsys (mkPipeline (start_delivery self fuel (mkMsg m.1.2 (count c seq + 1)) job f) q log
                   (<[fl_next f := (seq, m)]> on) sent rel lis dlq ref)
           (<[seq := (count c seq + 1)%Z]> c))
  | b_listen f q log on sent rel lis dlq ref c n seq data :
      lis !! n = None → (max_deliver settings ≤ count c seq)%Z → announces settings seq (count c seq) data →
      bstep (mkBsys (mkPipeline f q log on sent rel lis dlq ref) c)
        (mkBsys (mkPipeline f q log on sent rel (<[n := mkLproc (on_advisory py_str settings data) LIdle]> lis) dlq ref) c)
  | b_local p p' c : plocal carrier settings p p' → bstep (mkBsys p c) (mkBsys p' c).

Definition bs_start (s : S) (now : float) (wall : Z) : bsys := mkBsys (pl_start s now wall) ∅.

(** The policy only restricts the broker. *)
Lemma bstep_pstep b b' : bstep b b' → pstep carrier settings py_str (bs_pipe b) (bs_pipe b').
Proof. intros []; cbn [bs_pipe]; by econstructor. Qed.

Lemma bsteps_psteps b b' : rtc bstep b b' → rtc (pstep carrier settings py_str) (bs_pipe b) (bs_pipe b').
Proof. induction 1 as [|b1 b2 b3 H _ IH]; [apply rtc_refl|]. eapply rtc_l; [by apply bstep_pstep|exact IH]. Qed.

Lemma blocals_steps p p' c : rtc (plocal carrier settings) p p' → rtc bstep (mkBsys p c) (mkBsys p' c).
Proof. induction 1 as [|p1 p2 p3 H _ IH]; [apply rtc_refl|]. eapply rtc_l; [by apply b_local|exact IH]. Qed.

(** *** Steps without workers and API *)

(** The store and its clock are as they were. *)
Definition same_store (p p' : pipeline (S := S)) : Prop :=
  sh_kv (fl_shared (pl_fleet p')) = sh_kv (fl_shared (pl_fleet p)) ∧
  sh_now (fl_shared (pl_fleet p')) = sh_now (fl_shared (pl_fleet p)).

(** No delivery has made a call or has died, nothing was submitted or replayed, and
    store and clock are as they were. *)
Record idle (p p' : pipeline (S := S)) : Prop := {
  idle_procs n pr : fl_procs (pl_fleet p) !! n = Some pr → fl_procs (pl_fleet p') !! n = Some pr;
  idle_outbox : core <$> outbox (sh_db (fl_shared (pl_fleet p'))) = core <$> outbox (sh_db (fl_shared (pl_fleet p)));
  idle_store : same_store p p'
}.

(** A step of a relay, of the broker or of a listener. *)
Definition unattended (b b' : bsys) : Prop := bstep b b' ∧ idle (bs_pipe b) (bs_pipe b').

Lemma unattended_steps b b' : rtc unattended b b' → rtc bstep b b'.
Proof. induction 1 as [|b1 b2 b3 [H _] _ IH]; [apply rtc_refl|by eapply rtc_l]. Qed.

Lemma unattended_locals p p' c :
  rtc (λ p p', plocal carrier settings p p' ∧ idle p p') p p' → rtc unattended (mkBsys p c) (mkBsys p' c).
Proof.
  induction 1 as [|p1 p2 p3 [H Hi] _ IH]; [apply rtc_refl|]. eapply rtc_l; [split; [by apply b_local|exact Hi]|exact IH].
Qed.

Lemma idle_with_db f q log on sent rel lis dlq ref db q' log' sent' rel' lis' dlq' :
  core <$> outbox db = core <$> outbox (sh_db (fl_shared f)) →
  idle (mkPipeline f q log on sent rel lis dlq ref) (mkPipeline (with_db db f) q' log' on sent' rel' lis' dlq' ref).
Proof. by split. Qed.

Lemma lcommit_outbox (f : fleet (S := S)) q dlq R (e : eff R) o db q' dlq' :
  lcommit settings f q dlq R e = (o, db, q', dlq') → outbox db = outbox (sh_db (fl_shared f)).
Proof.
  destruct e; cbn [lcommit]; try (by intros [= _ <- _ _]); try (case_decide; by intros [= _ <- _ _]).
  rewrite record_event_eq, apply_event_eq.
  destruct (jobs _ !! job_id) as [row|]; [|by intros [= _ <- _ _]].
  destruct (JobState_of (jr_state row)) as [cur|]; [|by intros [= _ <- _ _]].
  destruct (apply (Some cur) event) as [next|]; [|by intros [= _ <- _ _]].
  destruct (_ <=? _)%Z; by intros [= _ <- _ _].
Qed.

(** *** Attempts stay within the cap *)

Abbreviation M := (max_deliver settings).
Abbreviation db_of f := (sh_db (fl_shared f)).

(** The deliveries of message [seq], finished and dead ones included. *)
Definition handed (seq : Z) (on : gmap nat (Z * sent_msg)) : nat := size (filter (λ x, x.2.1 = seq) on).

Record binv (b : bsys) : Prop := {
  bi_pipe : pinv carrier settings (bs_pipe b);
  bi_count seq : (count (bs_count b) seq ≤ M)%Z ∧ count (bs_count b) seq = Z.of_nat (handed seq (pl_on (bs_pipe b)));
  bi_on n x : pl_on (bs_pipe b) !! n = Some x → n < fl_next (pl_fleet (bs_pipe b));
  bi_tables : attempts_ok M (db_of (pl_fleet (bs_pipe b)));
  bi_procs n pr : fl_procs (pl_fleet (bs_pipe b)) !! n = Some pr → (1 ≤ pr_attempt pr ≤ M)%Z;
  bi_listeners n lp : pl_listeners (bs_pipe b) !! n = Some lp → attempts_of M (lp_code lp)
}.

Context (Hcarrier : ∀ i, Forall (λ p, p.1 ≠ "Nats-Msg-Id") (carrier i)) (HM : (1 ≤ M)%Z).

Lemma worker_event_api event : worker_event event = true → api_event event = false.
Proof. by destruct event. Qed.

Lemma binv_call f q log on sent rel lis dlq ref n pr R (e : eff R) k r sh' :
  pinv carrier settings (mkPipeline f q log on sent rel lis dlq ref) →
  fl_procs f !! n = Some pr → pr_code pr = Call e k → answers n (fl_shared f) R e r sh' →
  (1 ≤ pr_attempt pr ≤ M)%Z → attempts_ok M (db_of f) → attempts_ok M (sh_db sh').
Proof.
  intros Hp Hn Hcode Ha Hat Hok. pose proof (po_code _ _ _ (proj2 (pi_fleet _ _ _ Hp)) n pr Hn) as Hcd.
  cbn [pl_fleet] in Hcd. rewrite Hcode in Hcd. cbn [monitored] in Hcd.
  destruct (watch_call _ _ _ _ _ _ _) as [next|] eqn:Hc; [|done].
  destruct (answers_db _ _ _ _ _ _ _ _ _ _ _ _ Hc Ha) as (_ & _ & [->|(ev & de & ft & rs & Hev & ->)]); [done|].
  apply attempts_record; [by apply worker_event_api|done|done].
Qed.

Lemma binv_listener (f : fleet (S := S)) q dlq R (e : eff R) (k : result R → prog unit) r db' q' dlq' :
  attempts_of M (Call e k) → lanswers settings f q dlq R e r db' q' dlq' → attempts_ok M (db_of f) →
  attempts_of M (k r) ∧ attempts_ok M db'.
Proof.
  intros Hm Ha Hok. cbn [monitored] in Hm. destruct (attempt_call M tt R e) as [next|] eqn:Hc; [|done].
  split; [specialize (Hm r I); by destruct (next r)|].
  assert (Hcom : ∀ o db0 q0 d0, lcommit settings f q dlq R e = (o, db0, q0, d0) → attempts_ok M db0).
  { intros o db0 q0 d0. destruct e; cbn [lcommit]; try (intros [= _ <- _ _]; done).
    - cbn [attempt_call] in Hc. case_decide as Hk; [|done]. destruct Hk as [-> ->].
      pose proof (attempts_record M (sh_wall (fl_shared f)) job_id EventType.DEAD_LETTERED M detail fence_token result
        (db_of f) eq_refl ltac:(lia) Hok) as H.
      destruct (record_event _ _ _ _ _ _ _ _) as [r1 db1]. by intros [= _ <- _ _].
    - case_decide; by intros [= _ <- _ _].
    - case_decide; by intros [= _ <- _ _]. }
  destruct Ha as [r db q' dlq' E|r _|x o db q' dlq' _ E|x _]; [by eapply Hcom|done|by eapply Hcom|done].
Qed.

Lemma binv_local p p' c : plocal carrier settings p p' → binv (mkBsys p c) → binv (mkBsys p' c).
Proof.
  intros Hs [B1 B2 B3 B4 B5 B6]. pose proof (pinv_local _ _ Hcarrier _ _ Hs B1) as B1'.
  destruct Hs; split; cbn [bs_pipe bs_count pl_fleet pl_on pl_listeners with_db fl_shared fl_procs fl_next sh_db set_db] in *; try done.
  - by eapply binv_call; [exact B1|..|apply (B5 n pr)|].
  - intros n' pr'. cbn [advance fl_procs]. rewrite lookup_insert. case_decide; [|apply B5]. intros [= <-]. by apply (B5 n pr).
  - intros n' pr. rewrite lookup_delete. case_decide; [done|]. apply B5.
  - apply attempts_submit; [lia|done].
  - by apply attempts_replay.
  - destruct (ract_db _ _ _ _ H) as [_ [->|[ids ->]]]; [done|by apply attempts_mark].
  - by eapply binv_listener; [apply (B6 n _ H)| |].
  - intros n' lp. rewrite lookup_insert. case_decide; [|apply B6]. intros [= <-]. cbn [lp_code].
    by eapply binv_listener; [apply (B6 n _ H)| |].
  - intros n' lp. rewrite lookup_delete. case_decide; [done|]. apply B6.
Qed.

Lemma handed_insert seq n s m on :
  on !! n = None → handed seq (<[n := (s, m)]> on) = (if decide (s = seq) then 1 else 0) + handed seq on.
Proof.
  intros Hn. unfold handed. case_decide as E.
  - rewrite map_filter_insert_True by done. rewrite map_size_insert_None; [done|]. apply map_lookup_filter_None. by left.
  - rewrite map_filter_insert_False by done. by rewrite delete_id.
Qed.

Lemma binv_step b b' : bstep b b' → binv b → binv b'.
Proof.
  intros Hs Hb. pose proof (pinv_step _ _ _ Hcarrier _ _ (bstep_pstep _ _ Hs) (bi_pipe _ Hb)) as B1'.
  destruct Hs as [| |p p' c Hl]; [..|by eapply binv_local].
  - destruct Hb as [B1 B2 B3 B4 B5 B6]. cbn [bs_pipe bs_count pl_fleet pl_on pl_listeners] in *.
    assert (Hfree : on !! fl_next f = None).
    { destruct (on !! fl_next f) as [x|] eqn:E; [|done]. specialize (B3 _ _ E). lia. }
    split; cbn [bs_pipe bs_count pl_fleet pl_on pl_listeners start_delivery fl_next fl_procs fl_shared]; try done.
    + intros seq'. rewrite handed_insert by done. rewrite count_insert. destruct (B2 seq') as [H1' H2'].
      destruct (B2 seq) as [H3' H4']. case_decide as E; [subst seq'|]; lia.
    + intros n x. rewrite lookup_insert. case_decide; [lia|]. intros Hx. specialize (B3 n x Hx). lia.
    + intros n pr. rewrite lookup_insert. case_decide; [|apply B5]. intros [= <-]. cbn [pr_attempt num_delivered].
      destruct (B2 seq). lia.
  - destruct Hb as [B1 B2 B3 B4 B5 B6]. split; try done. cbn [bs_pipe pl_listeners].
    intros n' lp. rewrite lookup_insert. case_decide; [|apply B6]. intros [= <-]. cbn [lp_code].
    cbn [bs_count] in B2. assert (E : count c seq = M) by (destruct (B2 seq); lia). rewrite E in *. by eapply advisory_attempts.
Qed.

Lemma binv_steps b b' : rtc bstep b b' → binv b → binv b'.
Proof. induction 1; eauto using binv_step. Qed.

Lemma binv_reachable s now wall b :
  (∀ k, (0 ≤ kv_count s k)%Z) → (∀ k, kv_view now s k = None) → (now <=? now)%float = true →
  rtc bstep (bs_start s now wall) b → binv b.
Proof.
  intros Hc Hv Hnow Hr. assert (H0 : binv (bs_start s now wall)); [|by eapply binv_steps].
  split; try done; [by apply pinv_start| |].
  - intros seq. cbn [bs_start bs_pipe bs_count pl_on pl_start]. change (count ∅ seq) with 0%Z. unfold handed.
    rewrite map_filter_empty, map_size_empty. lia.
  - split; [done|]. intros ev He. set_solver.
Qed.

(** *** A listener left alone *)

(** What a listener reads and writes, and its calls answered without failure. *)
Record lstate := mkLstate { ls_fleet : fleet (S := S); ls_stream : gmap Z sent_msg; ls_dlq : list sent_msg }.

Definition lserve (R : Type) (e : eff R) (st : lstate) : result R * lstate :=
  let '(o, db, q, dlq) := lcommit settings (ls_fleet st) (ls_stream st) (ls_dlq st) R e in
  (match o with Some r => r | None => Raise TimeoutError end, mkLstate (with_db db (ls_fleet st)) q dlq).

Definition listened (n : nat) (code : prog unit) (w : lwatch) (st : lstate) (p : pipeline (S := S)) : pipeline (S := S) :=
  mkPipeline (ls_fleet st) (ls_stream st) (pl_log p) (pl_on p) (pl_sent p) (pl_relays p)
    (<[n := mkLproc code w]> (pl_listeners p)) (ls_dlq st) (pl_refused p).

Lemma listener_interp n code w st p :
  let out := interp lserve code st in
  ∃ w', rtc (λ p p', plocal carrier settings p p' ∧ idle p p') (listened n code w st p)
    (listened n (of_result out.1) w' out.2 p).
Proof.
  revert w st. induction code as [a|x|R e k IH]; intros w st out; subst out; cbn [interp]; [by exists w..|].
  destruct (lserve R e st) as [r st'] eqn:Hs. destruct (IH r (lobserve settings w e r) st') as [w' Hw'].
  exists w'. eapply rtc_l; [|exact Hw']. revert Hs. unfold lserve.
  destruct (lcommit _ _ _ _ _ _) as [[[o db] q] dlq] eqn:Hc. intros [= <- <-].
  unfold listened. cbn [ls_fleet ls_stream ls_dlq].
  rewrite <- (insert_insert_eq (pl_listeners p) n (mkLproc (k _) _) (mkLproc (Call e k) w)).
  split; [|apply idle_with_db; by rewrite (lcommit_outbox _ _ _ _ _ _ _ _ _ Hc)].
  eapply pl_listener_call; [by rewrite lookup_insert_eq|].
  destruct o; [by apply la_reply|by eapply la_lost].
Qed.

Lemma with_db_same (f : fleet (S := S)) : with_db (db_of f) f = f.
Proof. by destruct f as [[] ? ?]. Qed.

Lemma lserve_get f q dlq seq m :
  q !! seq = Some m → lserve _ (JsGetMsg (stream_name settings) seq) (mkLstate f q dlq) = (Ok m.1.2, mkLstate f q dlq).
Proof. intros Hq. unfold lserve. cbn. by rewrite decide_True, Hq, with_db_same by done. Qed.

Lemma lserve_copy f q dlq d h :
  lserve _ (JsPublish (subject_dlq settings) d h) (mkLstate f q dlq) = (Ok tt, mkLstate f q (dlq ++ [(subject_dlq settings, d, h)])).
Proof. unfold lserve. cbn. by rewrite decide_True, with_db_same by done. Qed.

Lemma lserve_record f q dlq id ev att det ft res r db :
  record_event (sh_wall (fl_shared f)) id ev att det ft res (db_of f) = (r, db) →
  lserve _ (RecordEvent id ev att det ft res) (mkLstate f q dlq) = (r, mkLstate (with_db db f) q dlq).
Proof. intros E. unfold lserve. cbn [lcommit ls_fleet ls_stream ls_dlq]. by rewrite E. Qed.

Lemma lserve_delete f q dlq seq m :
  q !! seq = Some m →
  lserve _ (JsDeleteMsg (stream_name settings) seq) (mkLstate f q dlq) = (Ok tt, mkLstate f (delete seq q) dlq).
Proof. intros Hq. unfold lserve. cbn. by rewrite decide_True, Hq, with_db_same by done. Qed.

Lemma lserve_metric f q dlq name v : lserve _ (Metric name v) (mkLstate f q dlq) = (Ok tt, mkLstate f q dlq).
Proof. unfold lserve. cbn. by rewrite with_db_same. Qed.

Lemma lserve_ack f q dlq : lserve _ MsgAck (mkLstate f q dlq) = (Ok tt, mkLstate f q dlq).
Proof. unfold lserve. cbn. by rewrite with_db_same. Qed.

(** The handling of an advisory whose message is in the queue. *)
Lemma advisory_runs f q dlq seq att d m id row r db :
  q !! seq = Some m → carries m.1.2 id row → announces settings seq att d →
  record_event (sh_wall (fl_shared f)) id EventType.DEAD_LETTERED att
    (Some [("stream_seq", JInt seq); ("deliveries", JInt att)]) None None (db_of f) = (r, db) →
  (∃ st, r = Ok st) ∨ (∃ st ev, r = Raise (IllegalTransition st ev)) →
  interp lserve (on_advisory py_str settings d) (mkLstate f q dlq) =
    (Ok tt, mkLstate (with_db db f) (delete seq q) (dlq ++ [copy_of settings seq m.1.2])).
Proof.
  intros Hq ((body & c & Hb & Hc) & p & _ & data & jv & Hd & Hj & Hu & _) Ha Hrec Hr. cbn [msg_data] in Hd.
  rewrite Hb in Hd. injection Hd as <-. unfold on_advisory. rewrite (announces_parse py_str _ _ _ _ Ha). cbn [of_result bind].
  rewrite interp_bind, interp_try_except. unfold quarantine. cbn [stream_seq deliveries].
  rewrite interp_bind, interp_await, (lserve_get _ _ _ _ m), Hb by done.
  cbn [of_result bind]. rewrite Hj. cbn [of_result bind]. rewrite Hu. cbn [of_result bind]. rewrite Hc. cbn [of_result bind].
  rewrite interp_bind. unfold quarantine_inner. cbn [stream_seq deliveries].
  rewrite interp_bind, interp_await, lserve_copy, interp_bind, interp_try_except, interp_bind, interp_await.
  rewrite (lserve_record _ _ _ _ _ _ _ _ _ _ _ Hrec).
  destruct Hr as [[st ->]|(st & ev & ->)]; cbn [interp];
    by rewrite interp_await, (lserve_delete _ _ _ _ m), interp_await, lserve_metric, interp_await, lserve_ack.
Qed.

(** A message that is out of deliveries, and its advisory. *)
Lemma advisory_quarantines b seq m data n :
  binv b → pl_stream (bs_pipe b) !! seq = Some m → (M ≤ count (bs_count b) seq)%Z →
  announces settings seq (count (bs_count b) seq) data → pl_listeners (bs_pipe b) !! n = None →
  let db := db_of (pl_fleet (bs_pipe b)) in
  ∃ b' id row, let db' := db_of (pl_fleet (bs_pipe b')) in
    rtc unattended b b' ∧
    lp_code <$> pl_listeners (bs_pipe b') !! n = Some (Ret tt) ∧
    pl_stream (bs_pipe b') = delete seq (pl_stream (bs_pipe b)) ∧
    pl_dlq (bs_pipe b') = pl_dlq (bs_pipe b) ++ [copy_of settings seq m.1.2] ∧
    jobs db !! id = Some row ∧ carries m.1.2 id row ∧
    ((job_open row → has_state id JobState.DEAD_LETTER db') ∧ (¬ job_open row → db' = db)) ∧
    same_store (bs_pipe b) (bs_pipe b').
Proof.
  intros Hb Hq Hcount Han Hn db. destruct Hb as [[_ _ H3 _ H5 _ _ _ _ _ _] _ _ _ _ _].
  destruct b as [[f q log on sent rel lis dlq ref] c].
  cbn [bs_pipe bs_count pl_fleet pl_stream pl_listeners pl_dlq pl_log] in *. subst db.
  destruct (H5 seq m Hq) as (_ & o & Ho & Em). destruct (row_exists _ _ H3 Ho) as [row Hrow].
  pose proof (pk_body _ H3 o row Ho Hrow) as Hcar'. change (Ok (ob_payload o)) with (msg_of carrier o).1.2 in Hcar'. rewrite <- Em in Hcar'.
  destruct (record_event (sh_wall (fl_shared f)) (ob_job_id o) EventType.DEAD_LETTERED (count c seq)
    (Some [("stream_seq", JInt seq); ("deliveries", JInt (count c seq))]) None None (sh_db (fl_shared f))) as [r db'] eqn:Er.
  destruct (dead_letter_cases _ _ _ _ _ _ _ _ H3 Hrow Er) as [Hr1 Hr2].
  pose proof (advisory_runs f q dlq seq (count c seq) data m (ob_job_id o) row r db' Hq Hcar' Han Er Hr1) as Hrun.
  destruct (listener_interp n (on_advisory py_str settings data) LIdle (mkLstate f q dlq)
    (mkPipeline f q log on sent rel lis dlq ref)) as [w' Hsteps]. rewrite Hrun in Hsteps. cbn [fst snd of_result] in Hsteps.
  eexists (mkBsys _ c), (ob_job_id o), row. cbn zeta. split.
  { eapply rtc_l; [split; [by eapply b_listen|by split]|]. apply unattended_locals. exact Hsteps. }
  unfold listened. cbn [bs_pipe pl_fleet pl_stream pl_listeners pl_dlq ls_fleet ls_stream ls_dlq with_db fl_shared set_db sh_db].
  rewrite lookup_insert_eq. done.
Qed.

(** *** Schedules *)

Inductive baction :=
  | BDeliver (seq : Z) (self : Worker.t) (fuel : nat)
  | BAdvise (n : nat) (seq : Z)
  | BLocal (a : paction).

Definition bact (a : baction) (b : bsys) : bsys :=
  let 'mkBsys p c := b in
  match a with
  | BDeliver seq self fuel =>
      if decide (count c seq < M)%Z then
        match pl_stream p !! seq with
        | Some m =>
            match decode_msg m.1.2 with
            | Some _ => mkBsys (pact carrier settings py_str (PDeliver seq self fuel (count c seq + 1)) p)
                          (<[seq := (count c seq + 1)%Z]> c)
            | None => b
            end
        | None => b
        end
      else b
  | BAdvise n seq =>
      if decide (M ≤ count c seq)%Z
      then mkBsys (pact carrier settings py_str (PListen n (advisory_doc settings seq (count c seq))) p) c
      else b
  | BLocal a => if is_local a then mkBsys (pact carrier settings py_str a p) c else b
  end.

Definition bschedule (l : list baction) (b : bsys) : bsys := foldl (λ b a, bact a b) b l.

Lemma bact_steps a b : at_most_once bstep b (bact a b).
Proof.
  destruct a as [seq self fuel|n seq|a], b as [p c]; cbn [bact].
  - destruct p as [f q log on sent rel lis dlq ref]. cbn [pl_stream pact]. case_decide as Hc; [|apply amo_refl].
    destruct (q !! seq) as [m|] eqn:Hq; [|apply amo_refl].
    destruct (decode_msg m.1.2) as [[job pl]|] eqn:Hd; [|apply amo_refl].
    apply amo_once. eapply b_deliver; [done|done|by eapply decode_msg_decodes].
  - case_decide as Hc; [|apply amo_refl]. destruct p as [f q log on sent rel lis dlq ref]. cbn [pact].
    destruct (lis !! n) eqn:Hl; [apply amo_refl|]. apply amo_once.
    eapply b_listen; [done|exact Hc|apply advisory_doc_announces].
  - destruct (is_local a) eqn:Ha; [|apply amo_refl]. destruct (pact_local carrier settings py_str a p Ha) as [->|H]; [by left|right; by apply b_local].
Qed.

(** The calls of a schedule, and when which message was handed out. *)
Definition bcall_made (a : baction) (b : bsys) : option call :=
  match a with BLocal a => if is_local a then call_made settings a (bs_pipe b) else None | _ => None end.

Fixpoint bcalls_made (l : list baction) (b : bsys) : list call :=
  match l with
  | [] => []
  | a :: l => option_list (bcall_made a b) ++ bcalls_made l (bact a b)
  end.

Definition handout (a : baction) (b : bsys) : option (float * Z) :=
  match a with
  | BDeliver seq _ _ =>
      if decide (count (bs_count (bact a b)) seq = count (bs_count b) seq) then None
      else Some (sh_now (fl_shared (pl_fleet (bs_pipe b))), seq)
  | _ => None
  end.

Fixpoint handouts (l : list baction) (b : bsys) : list (float * Z) :=
  match l with
  | [] => []
  | a :: l => option_list (handout a b) ++ handouts l (bact a b)
  end.

Lemma bschedule_steps l b : rtc bstep b (bschedule l b).
Proof. revert b. induction l as [|a l IH]; intros b; [apply rtc_refl|]. etrans; [apply amo_rtc, bact_steps|apply IH]. Qed.
End policy.

(** A poison job whose five deliveries have all been given back. *)
Definition poisoned : bsys :=
  bschedule trace_carrier default_settings (λ _, "")
    ((BLocal <$> [PSubmit 1 "key-1" poison_payload; PRelayStart 0] ++ replicate 5 (PRelayCall 0)) ++
     mjoin ((λ n, [BDeliver 1 sample_worker 9; BLocal (PAct n half_up)]) <$> seq 0 5))
    (bs_start InMemoryKV.init (fZ 0) 100).

Lemma poisoned_reachable :
  rtc (bstep trace_carrier default_settings (λ _, "")) (bs_start InMemoryKV.init (fZ 0) 100) poisoned.
Proof. apply bschedule_steps. Qed.

(** A job of 31 seconds under the defaults: the broker takes each of its deliveries
    for lost after 30 seconds, starts the next, and after the fifth the advisory.
    Every execution runs to its end, one second after the next delivery began. *)
Definition long_payload : dict := [("duration_ms", JInt 31000)].

Definition at_time (t : Z) : baction := BLocal (PTime (fZ t) (100 + t)).

(** Delivery [n] begins; claim, lease, STARTED, the draw and the clock, up to the sleep. *)
Definition long_begins (n : nat) : list baction :=
  let t := (30 * Z.of_nat n)%Z in
  [at_time t; BDeliver 1 (Worker.mk default_settings ("w" +:+ pretty n)) 400] ++
  (BLocal <$> replicate 5 (PAct n (fZ t)) ++ [PAct n half_up; PAct n (fZ t)]).

(** Delivery [n] has slept its 310 slices and goes on to its end. *)
Definition long_ends (n : nat) : list baction :=
  let t := (30 * Z.of_nat n + 31)%Z in at_time t :: replicate 320 (BLocal (PAct n (fZ t))).

Definition long_schedule : list baction :=
  (BLocal <$> [PSubmit 1 "key-1" long_payload; PRelayStart 0] ++ replicate 5 (PRelayCall 0)) ++
  long_begins 0 ++ long_begins 1 ++ long_ends 0 ++ long_begins 2 ++ long_ends 1 ++ long_begins 3 ++ long_ends 2 ++
  long_begins 4 ++ long_ends 3 ++
  [at_time 150; BAdvise 0 1] ++ replicate 6 (BLocal (PListenerCall 0)) ++ long_ends 4.

Definition long_run : bsys :=
  bschedule trace_carrier default_settings (λ _, "") long_schedule (bs_start InMemoryKV.init (fZ 0) 100).

(** * Properties *)

(** C31: attempts stay within the cap.  Under the broker's policy, whatever else
    happens, each message has been handed out at most [max_deliver] times, dead and
    lost deliveries included; every event of the trail that a worker or the listener
    recorded carries an attempt from 1 to [max_deliver], every other event 0; and so
    [attempts] of every job lies between 0 and [max_deliver]. *)
Theorem attempts_bounded {S : Type} `{!KVStore S, !KVView S, !KVStoreLaws S}
    (carrier : Z → headers) (settings : Settings) (py_str : json → string) (s : S) (now : float) (wall : Z) (b : bsys) :
  (∀ i, Forall (λ p, p.1 ≠ "Nats-Msg-Id") (carrier i)) → (1 ≤ max_deliver settings)%Z →
  (∀ k, (0 ≤ kv_count s k)%Z) → (∀ k, kv_view now s k = None) → (now <=? now)%float = true →
  rtc (bstep carrier settings py_str) (bs_start s now wall) b →
  let db := sh_db (fl_shared (pl_fleet (bs_pipe b))) in
  (∀ seq, (Z.of_nat (handed seq (pl_on (bs_pipe b))) ≤ max_deliver settings)%Z) ∧
  (∀ ev, ev ∈ job_events db → attempt_bounded (max_deliver settings) ev) ∧
  (∀ id row, jobs db !! id = Some row → (0 ≤ jr_attempts row ≤ max_deliver settings)%Z).
Proof.
  intros Hcar HM Hc Hv Hnow Hr db.
  destruct (binv_reachable carrier settings py_str Hcar HM s now wall b Hc Hv Hnow Hr) as [_ B2 _ [B4 B5] _ _].
  split_and!; [|done..]. intros seq. destruct (B2 seq). lia.
Qed.

Lemma attempts_bounded_witness :
  handed 1 (pl_on (bs_pipe poisoned)) = 5 ∧
  (∀ seq, (Z.of_nat (handed seq (pl_on (bs_pipe poisoned))) ≤ 5)%Z) ∧
  (∀ ev, ev ∈ job_events (sh_db (fl_shared (pl_fleet (bs_pipe poisoned)))) → attempt_bounded 5 ev) ∧
  (∀ id row, jobs (sh_db (fl_shared (pl_fleet (bs_pipe poisoned)))) !! id = Some row → (0 ≤ jr_attempts row ≤ 5)%Z).
Proof.
  split; [vm_compute; reflexivity|].
  apply (attempts_bounded trace_carrier default_settings (λ _, "") InMemoryKV.init (fZ 0) 100 poisoned trace_carrier_ok);
    [discriminate|exact inmemory_counts|reflexivity|reflexivity|exact poisoned_reachable].
Defined.

(** C11: a message that is out of deliveries ends in quarantine.  In every reachable
    state, for every message still in the work queue after [max_deliver] deliveries:
    the message carries an existing job, and the handling of its advisory, if nothing
    disturbs it, is a run of the system that returns and acks, after which the
    message is gone from the work queue, its copy is the last of the quarantine
    stream, and the job is in state DEAD_LETTER, or the tables are as they were if
    the job was not open. *)
Theorem exhausted_message_quarantined {S : Type} `{!KVStore S, !KVView S, !KVStoreLaws S}
    (carrier : Z → headers) (settings : Settings) (py_str : json → string) (s : S) (now : float) (wall : Z)
    (b : bsys) (seq : Z) (m : sent_msg) (data : document) (n : nat) :
  (∀ i, Forall (λ p, p.1 ≠ "Nats-Msg-Id") (carrier i)) → (1 ≤ max_deliver settings)%Z →
  (∀ k, (0 ≤ kv_count s k)%Z) → (∀ k, kv_view now s k = None) → (now <=? now)%float = true →
  rtc (bstep carrier settings py_str) (bs_start s now wall) b →
  pl_stream (bs_pipe b) !! seq = Some m → (max_deliver settings ≤ count (bs_count b) seq)%Z →
  announces settings seq (count (bs_count b) seq) data → pl_listeners (bs_pipe b) !! n = None →
  let db := sh_db (fl_shared (pl_fleet (bs_pipe b))) in
  ∃ b' id row, let db' := sh_db (fl_shared (pl_fleet (bs_pipe b'))) in
    rtc (bstep carrier settings py_str) b b' ∧
    lp_code <$> pl_listeners (bs_pipe b') !! n = Some (Ret tt) ∧
    pl_stream (bs_pipe b') = delete seq (pl_stream (bs_pipe b)) ∧
    pl_dlq (bs_pipe b') = pl_dlq (bs_pipe b) ++ [copy_of settings seq m.1.2] ∧
    jobs db !! id = Some row ∧ carries m.1.2 id row ∧
    (job_open row → has_state id JobState.DEAD_LETTER db') ∧ (¬ job_open row → db' = db).
Proof.
  intros Hcar HM Hc Hv Hnow Hr Hq Hcount Han Hn db.
  pose proof (binv_reachable carrier settings py_str Hcar HM s now wall b Hc Hv Hnow Hr) as Hb.
  destruct (advisory_quarantines carrier settings py_str b seq m data n Hb Hq Hcount Han Hn) as (b' & id & row & H1%unattended_steps & H2 & H3 & H4 & H5 & H6 & H7 & _).
  by exists b', id, row.
Qed.

Definition poison_msg : sent_msg :=
  ("orbiter.jobs",
   Ok (JObj [("job_id", JStr (uuid_str 1)); ("payload", JObj poison_payload); ("traceparent", JObj [])]),
   [("Nats-Msg-Id", "outbox-1"); ("traceparent", "00-0af7-b7ad-01")]).

Lemma exhausted_message_quarantined_witness :
  ∃ b' id row, let db' := sh_db (fl_shared (pl_fleet (bs_pipe b'))) in
    rtc (bstep trace_carrier default_settings (λ _, "")) poisoned b' ∧
    lp_code <$> pl_listeners (bs_pipe b') !! 0 = Some (Ret tt) ∧
    pl_stream (bs_pipe b') = delete 1%Z (pl_stream (bs_pipe poisoned)) ∧
    pl_dlq (bs_pipe b') = pl_dlq (bs_pipe poisoned) ++ [copy_of default_settings 1 poison_msg.1.2] ∧
    jobs (sh_db (fl_shared (pl_fleet (bs_pipe poisoned)))) !! id = Some row ∧ carries poison_msg.1.2 id row ∧
    (job_open row → has_state id JobState.DEAD_LETTER db') ∧
    (¬ job_open row → db' = sh_db (fl_shared (pl_fleet (bs_pipe poisoned)))).
Proof.
  apply (exhausted_message_quarantined trace_carrier default_settings (λ _, "") InMemoryKV.init (fZ 0) 100 poisoned 1
           poison_msg (advisory_of 1 5) 0 trace_carrier_ok).
  - discriminate.
  - exact inmemory_counts.
  - reflexivity.
  - reflexivity.
  - exact poisoned_reachable.
  - vm_compute. reflexivity.
  - vm_compute. discriminate.
  - eexists. split; [reflexivity|]. repeat split; vm_compute; reflexivity.
  - vm_compute. reflexivity.
Defined.

(** The slices a delivery has slept, and its readings of its clock. *)
Definition sleep_of (n : nat) (c : call) : option float :=
  match c_by c, c_step c with ADelivery n', Step (Sleep s) _ => if decide (n' = n) then Some s else None | _, _ => None end.

Definition clock_ok (c : call) : bool :=
  match c_step c with
  | Step e r =>
      match e in eff R return result R → bool with
      | Monotonic => λ r, bool_decide (r = Ok (c_time c))
      | _ => λ _, true
      end r
  end.

(** C39: a job that takes longer than the broker waits for an ack is lost to the
    quarantine.  Under the default settings a job whose payload is 31 seconds of work is
    submitted and published.  The broker hands out its message five times, at 0, 30, 60,
    90 and 120 seconds, [ack_wait_s] apart, as often as [max_deliver] allows, and the
    advisory is handled at 150 seconds.  No call of any process fails, and the workers'
    clocks show the time.  Every delivery sleeps all the slices of 31 seconds and then
    records COMPLETED with an elapsed time of 31000 ms.  The log of the events shows that
    every COMPLETED is refused: the first four because the fence has a later delivery's
    token, the last because the listener has dead-lettered the job while it was running.
    In the end all deliveries have returned, the job is in state DEAD_LETTER and its
    message is gone from the work queue. *)
Theorem long_job_quarantined :
  let start := bs_start InMemoryKV.init (fZ 0) 100 in
  let calls := bcalls_made trace_carrier default_settings (λ _, "") long_schedule start in
  let b := long_run in
  let db := sh_db (fl_shared (pl_fleet (bs_pipe b))) in
  rtc (bstep trace_carrier default_settings (λ _, "")) start b ∧
  (∃ row, jobs db !! 1%N = Some row ∧ jr_payload row = JObj [("duration_ms", JInt 31000)]) ∧
  handouts trace_carrier default_settings (λ _, "") long_schedule start =
    [(fZ 0, 1); (fZ 30, 1); (fZ 60, 1); (fZ 90, 1); (fZ 120, 1)]%Z ∧
  ack_wait_s default_settings = 30%Z ∧ max_deliver default_settings = 5%Z ∧
  Forall (λ c, failed c = false ∧ clock_ok c = true) calls ∧
  Forall (λ n, Some (omap (sleep_of n) calls) = slices 400 (fZ 31)) [0; 1; 2; 3; 4] ∧
  (let completed := Some [("elapsed_ms", JInt 31000)] in
   let stale t t' := Raise (StaleLeaseError (uuid_str 1) t t') in
   omap event_of calls =
     [(fZ 0, ADelivery 0, EventType.STARTED, None, Ok JobState.RUNNING);
      (fZ 30, ADelivery 1, EventType.STARTED, None, Ok JobState.RUNNING);
      (fZ 31, ADelivery 0, EventType.COMPLETED, completed, stale 1%Z 2%Z);
      (fZ 60, ADelivery 2, EventType.STARTED, None, Ok JobState.RUNNING);
      (fZ 61, ADelivery 1, EventType.COMPLETED, completed, stale 2%Z 3%Z);
      (fZ 90, ADelivery 3, EventType.STARTED, None, Ok JobState.RUNNING);
      (fZ 91, ADelivery 2, EventType.COMPLETED, completed, stale 3%Z 4%Z);
      (fZ 120, ADelivery 4, EventType.STARTED, None, Ok JobState.RUNNING);
      (fZ 121, ADelivery 3, EventType.COMPLETED, completed, stale 4%Z 5%Z);
      (fZ 150, AListener 0, EventType.DEAD_LETTERED, None, Ok JobState.DEAD_LETTER);
      (fZ 151, ADelivery 4, EventType.COMPLETED, completed,
       Raise (IllegalTransition (Some JobState.DEAD_LETTER) EventType.COMPLETED))]) ∧
  has_state 1 JobState.DEAD_LETTER db ∧
  pr_code <$> fl_procs (pl_fleet (bs_pipe b)) = {[0 := Ret tt; 1 := Ret tt; 2 := Ret tt; 3 := Ret tt; 4 := Ret tt]} ∧
  pl_stream (bs_pipe b) = ∅.
Proof.
  cbn zeta. split; [apply bschedule_steps|].
  assert (Hrow : ∃ row, jobs (sh_db (fl_shared (pl_fleet (bs_pipe long_run)))) !! 1%N = Some row ∧
    jr_payload row = JObj [("duration_ms", JInt 31000)] ∧ jr_state row = "dead_letter").
  { destruct (jobs _ !! 1%N) as [row|] eqn:E; [|vm_compute in E; discriminate E].
    exists row. split; [done|]. vm_compute in E. injection E as <-. split; reflexivity. }
  destruct Hrow as (row & Hrow & Hpl & Hst). split_and!.
  - exists row. split; [exact Hrow|exact Hpl].
  - vm_compute. reflexivity.
  - reflexivity.
  - reflexivity.
  - apply (bool_decide_unpack _). vm_compute. exact I.
  - repeat constructor; vm_compute; reflexivity.
  - vm_compute. reflexivity.
  - exists row. split; [exact Hrow|exact Hst].
  - vm_compute. reflexivity.
  - vm_compute. reflexivity.
Qed.
