(* ===== verification/Recovery.v ===== *)
(** * The way out

    From every state the platform can get into, with its crashed processes, lost
    replies and used-up deliveries, relay, broker and listener can still bring an
    open job to the quarantine, without any worker's help. *)
From Stdlib Require Import Floats.SpecFloat.
From stdpp Require Import sorting.
From S2P Require Import Prelude PyFloat PyJson Model StateMachine PyUuid KVStore Effects Fencing.
From S2P Require Import Idempotency Repo Config Telemetry Executor PyNum Worker World System Relay Platform Dlq Pipeline Policy.

Section recovery.
Context {S : Type} `{!KVStore S, !KVView S, !KVStoreLaws S}.
Context (carrier : Z → headers) (settings : Settings) (py_str : json → string).

Abbreviation db_of f := (sh_db (fl_shared f)).

(** ** Relays alone *)

(** The code of a relay that runs alone, from its state to its result. *)
Lemma relay_interp n code w lk db wall sent pd :
  let out := interp (rserve wall) code (db, sent, pd) in
  ∃ w' lk', rtc (ract carrier settings)
    (mkRsys db wall sent {[n := mkRproc code w lk pd]})
    (mkRsys out.2.1.1 wall out.2.1.2 {[n := mkRproc (of_result out.1) w' lk' out.2.2]}).
Proof.
  revert w lk db sent pd. induction code as [a|x|R e k IH]; intros w lk db sent pd out; subst out; cbn [interp].
  - exists w, lk. apply rtc_refl.
  - exists w, lk. apply rtc_refl.
  - set (st := mkRsys db wall sent {[n := mkRproc (Call e k) w lk pd]}).
    assert (Hn : rs_procs st !! n = Some (mkRproc (Call e k) w lk pd)) by apply lookup_singleton_eq.
    assert (Hfree : locked_by_others n (rs_procs st) = [])
      by (unfold locked_by_others, st; cbn [rs_procs]; by rewrite delete_singleton_eq).
    destruct (rserve wall R e (db, sent, pd)) as [r [[db' sent'] pd']] eqn:Hs. destruct (IH r (robserve carrier (relay_batch_size settings) w R e r) (rcommit n st lk pd R e).1.2 db' sent' pd') as (w' & lk' & Hw').
    exists w', lk'. eapply rtc_l; [|exact Hw'].
    assert (Hstep : ract carrier settings st (mkRsys db' wall sent' (<[n := mkRproc (k r)
      (robserve carrier (relay_batch_size settings) w R e r) (rcommit n st lk pd R e).1.2 pd']> (rs_procs st)))).
    { destruct e; cbn [rserve] in Hs; injection Hs as <- <- <- <-; cbn [rcommit fst snd];
        try (by eapply ract_failed); try (eapply ract_call; [exact Hn|]; cbn [rcommit rs_db rs_sent st]; by rewrite ?Hfree). }
    revert Hstep. unfold st. cbn [rs_procs]. by rewrite insert_singleton_eq.
Qed.

Lemma pass_acts db wall sent :
  let out := relay_pass carrier settings wall (db, sent) in
  rtc (ract carrier settings) (mkRsys db wall sent ∅) (mkRsys out.2.1 wall out.2.2 ∅).
Proof.
  intros out. destruct (relay_interp 0 (relay_once carrier settings) rwatch_init [] db wall sent []) as (w' & lk' & Hrun).
  subst out. unfold relay_pass. cbn [fst snd]. destruct (interp _ _ _) as [r [[db' sent'] pd']]. cbn [fst snd] in *.
  eapply rtc_l; [by apply (ract_start _ _ _ 0)|]. cbn [rs_db rs_wall rs_sent rs_procs]. rewrite insert_empty.
  eapply rtc_r; [exact Hrun|].
  pose proof (ract_gone carrier settings (mkRsys db' wall sent' {[0 := mkRproc (of_result r) w' lk' pd']}) 0) as Hg.
  cbn [rs_db rs_wall rs_sent rs_procs] in Hg. by rewrite delete_singleton_eq in Hg.
Qed.

Lemma passes_acts k db wall sent :
  let out := relay_passes carrier settings wall k (db, sent) in
  rtc (ract carrier settings) (mkRsys db wall sent ∅) (mkRsys out.1 wall out.2 ∅).
Proof.
  revert db sent. induction k as [|k IH]; intros db sent; cbn [relay_passes]; [apply rtc_refl|].
  etrans; [apply (pass_acts db wall sent)|]. destruct (relay_pass _ _ _ _) as [r [db' sent']]. apply IH.
Qed.

(** Relays may die at any time. *)
Lemma relays_gone ks db wall sent procs :
  rtc (ract carrier settings) (mkRsys db wall sent procs) (mkRsys db wall sent (foldl (λ r n, delete n r) procs ks)).
Proof.
  revert procs. induction ks as [|n ks IH]; intros procs; [apply rtc_refl|].
  eapply rtc_l; [apply (ract_gone _ _ (mkRsys db wall sent procs) n)|apply IH].
Qed.

Lemma delete_keys (procs : gmap nat rproc) : foldl (λ r n, delete n r) procs (map_to_list procs).*1 = ∅.
Proof.
  assert (H : ∀ ks (m : gmap nat rproc) n, foldl (λ r n, delete n r) m ks !! n = if decide (n ∈ ks) then None else m !! n).
  { induction ks as [|k ks IH]; intros m n; cbn [foldl]; [done|]. rewrite IH, lookup_delete.
    repeat case_decide; try done; set_solver. }
  apply map_eq. intros n. rewrite H, lookup_empty. case_decide as Hn; [done|].
  destruct (procs !! n) as [pr|] eqn:E; [|done]. destruct Hn. apply list_elem_of_fmap. exists (n, pr). split; [done|].
  by apply elem_of_map_to_list.
Qed.

(** The outbox without a backlog. *)
Lemma backlog_cleared db wall sent procs :
  rtc repo_step empty_db db → (1 ≤ relay_batch_size settings)%Z →
  ∃ st', rtc (ract carrier settings) (mkRsys db wall sent procs) st' ∧
    (∀ o, o ∈ outbox (rs_db st') → ob_published_at o ≠ None).
Proof.
  intros Hr Hb. set (k := length (backlog db)). eexists. split.
  - etrans; [apply (relays_gone (map_to_list procs).*1)|]. rewrite delete_keys. apply (passes_acts k).
  - cbn [rs_db]. destruct (relay_passes_spec carrier settings wall k db sent Hr) as (_ & Hback & _).
    rewrite drop_ge in Hback by (subst k; nia). intros o Ho Hp.
    assert (Hin : o ∈ backlog (relay_passes carrier settings wall k (db, sent)).1) by (by apply list_elem_of_filter).
    rewrite Hback in Hin. set_solver.
Qed.

(** ** Relays in the pipeline *)

(** A relay publishes one message or none in a step. *)
Lemma ract_sent st st' :
  ract carrier settings st st' → rs_sent st' = rs_sent st ∨ ∃ m, rs_sent st' = rs_sent st ++ [m].
Proof.
  assert (Hc : ∀ n lk pd R (e : eff R) o db sent lk' pd' st0, rcommit n st0 lk pd R e = (o, db, sent, lk', pd') →
    sent = rs_sent st0 ∨ ∃ m, sent = rs_sent st0 ++ [m]).
  { intros n lk pd R e o db sent lk' pd' st0. destruct e; cbn [rcommit]; intros [= _ _ <- _ _]; eauto. }
  intros H. inversion H; subst; cbn [rs_sent]; eauto.
Qed.

(** Relays leave jobs alone, and the rows of the outbox but for their marks. *)
Lemma racts_db st st' :
  rtc (ract carrier settings) st st' →
  jobs (rs_db st') = jobs (rs_db st) ∧ core <$> outbox (rs_db st') = core <$> outbox (rs_db st).
Proof.
  induction 1 as [st|st st1 st' Hs _ [IH1 IH2]]; [done|].
  destruct (ract_db _ _ _ _ Hs) as [_ [E|[ids E]]]; rewrite E in IH1, IH2; [done|]. split; [done|].
  rewrite IH2. unfold mark_published. cbn [outbox]. rewrite <- list_fmap_compose. apply list_fmap_ext. intros i o _. cbn.
  by case_decide.
Qed.

Lemma relays_in_pipeline st st' :
  rtc (ract carrier settings) st st' → ∀ (f : fleet (S := S)) q log on sent rel lis dlq ref,
  relay_view f sent rel = st →
  ∃ q' log', log `prefix_of` log' ∧ rtc (λ p p', plocal carrier settings p p' ∧ idle p p') (mkPipeline f q log on sent rel lis dlq ref)
    (mkPipeline (with_db (rs_db st') f) q' log' on (rs_sent st') (rs_procs st') lis dlq ref).
Proof.
  induction 1 as [st|st st1 st' Hstep _ IH]; intros f q log on sent rel lis dlq ref <-.
  - exists q, log. cbn [relay_view rs_db rs_sent rs_procs]. rewrite with_db_same. split; [done|apply rtc_refl].
  - destruct (ract_db _ _ _ _ Hstep) as [Hwall _]. cbn [relay_view rs_wall] in Hwall.
    assert (Hst : ∃ q1 log1, stored sent q log (rs_sent st1) q1 log1 ∧ log `prefix_of` log1).
    { destruct (ract_sent _ _ Hstep) as [E|[m E]]; cbn [relay_view rs_sent] in E; rewrite E.
      - exists q, log. split; [constructor|done].
      - eexists _, _. split; [apply stored_new|by exists [m]]. }
    destruct Hst as (q1 & log1 & Hst & Hpre).
    destruct (IH (with_db (rs_db st1) f) q1 log1 on (rs_sent st1) (rs_procs st1) lis dlq ref) as (q' & log' & Hpre' & Hrest).
    { unfold relay_view, with_db, set_db. cbn [fl_shared sh_db sh_wall]. rewrite <- Hwall. by destruct st1. }
    exists q', log'. split; [by etrans|]. eapply rtc_l; [|exact Hrest]. split; [by eapply pl_relay|].
    apply idle_with_db. apply (racts_db _ _ (rtc_once _ _ Hstep)).
Qed.

(** ** Deliveries that come to nothing *)

Lemma deliveries_used_up k f q log on sent rel lis dlq ref c seq m id row :
  q !! seq = Some m → carries m.1.2 id row → (∀ n, fl_next f ≤ n → fl_procs f !! n = None) →
  Z.to_nat (max_deliver settings - count c seq) = k →
  ∃ f' on' c', rtc (unattended carrier settings py_str) (mkBsys (mkPipeline f q log on sent rel lis dlq ref) c)
    (mkBsys (mkPipeline f' q log on' sent rel lis dlq ref) c') ∧
    fl_shared f' = fl_shared f ∧ (max_deliver settings ≤ count c' seq)%Z.
Proof.
  intros Hq (_ & p & _ & Hdec). revert f on c. induction k as [|k IH]; intros f on c Hfree Hk.
  - exists f, on, c. split; [apply rtc_refl|]. split; [done|lia].
  - set (self := Worker.mk settings ""). set (msg := mkMsg m.1.2 (count c seq + 1)).
    destruct (IH (start_delivery self 0 msg id f) (<[fl_next f := (seq, m)]> on) (<[seq := (count c seq + 1)%Z]> c))
      as (f' & on' & c' & Hsteps & Hsh & Hle).
    { cbn [start_delivery fl_next fl_procs]. intros n Hn. rewrite lookup_insert_ne by lia. apply Hfree. lia. }
    { rewrite count_insert, decide_True by done. lia. }
    exists f', on', c'. split; [|done]. eapply rtc_l; [|exact Hsteps].
    split; [eapply b_deliver; [done|lia|exact Hdec]|]. split; [|done|done]. cbn [bs_pipe pl_fleet start_delivery fl_procs].
    intros n pr Hn. rewrite lookup_insert_ne; [done|]. intros <-. by rewrite Hfree in Hn.
Qed.

(** The newest row is the newest whatever the marks. *)
Lemma newest_core db db' id o' :
  core <$> outbox db' = core <$> outbox db → newest db' id o' → ∃ o, newest db id o ∧ core o = core o'.
Proof.
  intros E (Ho' & Hj & Hmax).
  assert (H : core o' ∈ core <$> outbox db) by (rewrite <- E; by apply list_elem_of_fmap_2).
  apply list_elem_of_fmap in H as (o & Eo & Ho). exists o. split; [|done]. injection Eo as E1 E2 _ _. split; [done|].
  split; [congruence|]. intros o1 Ho1 Hj1.
  assert (H : core o1 ∈ core <$> outbox db') by (rewrite E; by apply list_elem_of_fmap_2).
  apply list_elem_of_fmap in H as (o2 & Eo2 & Ho2). injection Eo2 as F1 F2 _ _. rewrite F1, <- E1. apply Hmax; congruence.
Qed.

(** An open job whose rows are all published and whose newest message was not refused
    has that message in the queue. *)
Lemma message_of_job (p : pipeline (S := S)) id row :
  pinv carrier settings p → jobs (db_of (pl_fleet p)) !! id = Some row → job_open row →
  (∀ o, o ∈ outbox (db_of (pl_fleet p)) → ob_published_at o ≠ None) →
  (∀ o, newest (db_of (pl_fleet p)) id o → msg_of carrier o ∉ pl_refused p) →
  ∃ seq o, newest (db_of (pl_fleet p)) id o ∧ pl_stream p !! seq = Some (msg_of carrier o) ∧ carries (Ok (ob_payload o)) id row.
Proof.
  intros Hp Hrow Hopen Hpub Href. pose proof (pi_db _ _ _ Hp) as Hok.
  destruct (newest_row _ id row Hok Hrow) as (o & Hnew). pose proof Hnew as (Ho & Hj & _).
  destruct (newest_accounted _ _ _ _ _ _ Hp Hnew Hrow Hopen) as [Hn|[(seq & m & Hq & -> & _)|Hin]];
    [by destruct (Hpub o Ho)| |by destruct (Href o Hnew)].
  exists seq, o. split; [done|]. split; [done|]. subst id. by apply (pk_body _ Hok o row).
Qed.

(** The relays at work end and a new one publishes the backlog. *)
Lemma backlog_published p c :
  (1 ≤ relay_batch_size settings)%Z → pinv carrier settings p →
  ∃ p', rtc (unattended carrier settings py_str) (mkBsys p c) (mkBsys p' c) ∧ same_store p p' ∧ pl_on p' = pl_on p ∧
    pl_refused p' = pl_refused p ∧ pl_log p `prefix_of` pl_log p' ∧
    jobs (db_of (pl_fleet p')) = jobs (db_of (pl_fleet p)) ∧
    core <$> outbox (db_of (pl_fleet p')) = core <$> outbox (db_of (pl_fleet p)) ∧
    (∀ o, o ∈ outbox (db_of (pl_fleet p')) → ob_published_at o ≠ None).
Proof.
  intros HB Hp. destruct p as [f q log on sent rel lis dlq ref].
  destruct (backlog_cleared (db_of f) (sh_wall (fl_shared f)) sent rel (ri_db _ _ _ (pi_relay _ _ _ Hp)) HB) as (st & Hacts & Hpub).
  destruct (racts_db _ _ Hacts) as [Hjobs Hrows]. cbn [rs_db] in Hjobs, Hrows.
  destruct (relays_in_pipeline _ _ Hacts f q log on sent rel lis dlq ref eq_refl) as (q1 & log1 & Hlog & Hs1).
  eexists. split; [by apply unattended_locals|]. done.
Qed.

Lemma carries_id d id id' row row' : carries d id row → carries d id' row' → id = id'.
Proof.
  intros (_ & p & _ & H) (_ & p' & _ & H'). apply (inj Some).
  rewrite <- (names_job_of d id), <- (names_job_of d id'); [done|by exists p'|by exists p].
Qed.

(** The message of an open job is brought to the quarantine by the broker and the
    listener. *)
Lemma message_quarantined b seq m id row :
  (∀ i, Forall (λ p, p.1 ≠ "Nats-Msg-Id") (carrier i)) → (1 ≤ max_deliver settings)%Z → binv carrier settings b →
  pl_stream (bs_pipe b) !! seq = Some m → carries m.1.2 id row →
  jobs (db_of (pl_fleet (bs_pipe b))) !! id = Some row → job_open row →
  ∃ b', rtc (unattended carrier settings py_str) b b' ∧ has_state id JobState.DEAD_LETTER (db_of (pl_fleet (bs_pipe b'))) ∧
    copy_of settings seq m.1.2 ∈ pl_dlq (bs_pipe b') ∧ same_store (bs_pipe b) (bs_pipe b').
Proof.
  intros Hcar HM Hb Hq Hcs Hrow Hopen. destruct b as [[f q log on sent rel lis dlq ref] c].
  cbn [bs_pipe pl_stream pl_fleet] in *.
  assert (Hfree : ∀ n, fl_next f ≤ n → fl_procs f !! n = None).
  { intros n Hn. destruct (fl_procs f !! n) as [pr|] eqn:E; [|done].
    destruct (pi_on _ _ _ (bi_pipe _ _ _ Hb) n pr E) as (seq0 & o & Hon & _). pose proof (bi_on _ _ _ Hb n _ Hon) as Hlt.
    cbn [bs_pipe pl_fleet] in Hlt. lia. }
  destruct (deliveries_used_up _ f q log on sent rel lis dlq ref c seq m id row Hq Hcs Hfree eq_refl) as (f2 & on2 & c2 & Hs2 & Hsh & Hle).
  set (b2 := mkBsys (mkPipeline f2 q log on2 sent rel lis dlq ref) c2) in *.
  assert (Hb2 : binv carrier settings b2) by exact (binv_steps carrier settings py_str Hcar HM _ _ (unattended_steps _ _ _ _ _ Hs2) Hb).
  destruct (advisory_quarantines carrier settings py_str b2 seq m (advisory_doc settings seq (count c2 seq))
    (fresh (dom lis)) Hb2 Hq Hle (advisory_doc_announces _ _ _)) as (b' & id' & row' & Hs & _ & _ & Hdlq & Hrow' & Hcs' & [Hdead _] & Hsame).
  { apply not_elem_of_dom. apply is_fresh. }
  cbn [b2 bs_pipe pl_fleet pl_dlq] in *. rewrite Hsh in Hrow'. pose proof (carries_id _ _ _ _ _ Hcs Hcs') as <-.
  rewrite Hrow in Hrow'. injection Hrow' as <-. exists b'. split; [by etrans|]. split; [by apply Hdead|].
  split; [rewrite Hdlq; set_solver|]. unfold same_store in *. cbn [b2 bs_pipe pl_fleet] in Hsame |- *. by rewrite <- Hsh.
Qed.

(** From every state of the invariant on, the job's message is brought to the
    quarantine. *)
Lemma quarantine_way b id row :
  (∀ i, Forall (λ p, p.1 ≠ "Nats-Msg-Id") (carrier i)) → (1 ≤ max_deliver settings)%Z → (1 ≤ relay_batch_size settings)%Z →
  binv carrier settings b → jobs (db_of (pl_fleet (bs_pipe b))) !! id = Some row → job_open row →
  (∀ o, newest (db_of (pl_fleet (bs_pipe b))) id o → msg_of carrier o ∉ pl_refused (bs_pipe b)) →
  ∃ b' seq (m : sent_msg), rtc (unattended carrier settings py_str) b b' ∧
    has_state id JobState.DEAD_LETTER (db_of (pl_fleet (bs_pipe b'))) ∧
    (copy_of settings seq m.1.2 ∈ pl_dlq (bs_pipe b') ∧ carries m.1.2 id row) ∧ same_store (bs_pipe b) (bs_pipe b').
Proof.
  intros Hcar HM HB Hb Hrow Hopen Href. destruct b as [p c]. cbn [bs_pipe] in *.
  destruct (backlog_published p c HB (bi_pipe _ _ _ Hb)) as (p1 & Hs1 & Hst1 & _ & Eref & _ & Hjobs & Hrows & Hpub).
  assert (Hb1 : binv carrier settings (mkBsys p1 c)) by exact (binv_steps carrier settings py_str Hcar HM _ _ (unattended_steps _ _ _ _ _ Hs1) Hb).
  rewrite <- Hjobs in Hrow.
  destruct (message_of_job p1 id row (bi_pipe _ _ _ Hb1) Hrow Hopen Hpub) as (seq & o & _ & Hq & Hcs).
  - intros o' Ho'. destruct (newest_core _ _ id o' Hrows Ho') as (o & Ho & E). symmetry in E.
    rewrite (core_msg carrier _ _ E), Eref. by apply Href.
  - destruct (message_quarantined (mkBsys p1 c) seq _ id row Hcar HM Hb1 Hq Hcs Hrow Hopen) as (b' & Hs & Hd & Hin & Hst).
    exists b', seq, (msg_of carrier o). split; [by etrans|]. split; [done|]. split; [done|].
    destruct Hst1, Hst. split; by etrans.
Qed.
End recovery.

(** The job is in DEAD_LETTER, where an operator can replay it, and a message with the
    payload it was submitted with is in the quarantine stream. *)
Definition in_quarantine {S : Type} (settings : Settings) (b : bsys (S:=S)) (id : uuid) (row : JobRow) : Prop :=
  has_state id JobState.DEAD_LETTER (sh_db (fl_shared (pl_fleet (bs_pipe b)))) ∧
  ∃ seq (m : sent_msg), copy_of settings seq m.1.2 ∈ pl_dlq (bs_pipe b) ∧ carries m.1.2 id row.

(** * Properties *)

(** C12: the quarantine can always be reached, without workers and API.  Whatever has
    happened to the platform, with processes dead at any call, replies lost, marks,
    claims and leases left behind: for every queued or running job such that no
    delivery of its newest message was refused its COMPLETED because the job was
    queued again, there is a way on to a state in which the job is in DEAD_LETTER,
    where an operator can replay it, and its message with the payload it was submitted
    with is in the quarantine stream.  In none of the steps on that way does a delivery
    make a call or die, is anything submitted or replayed, or does the store or its
    clock change ([unattended]): what is left are steps of relays, of the broker and
    of the listener. *)
Theorem quarantine_reachable {S : Type} `{!KVStore S, !KVView S, !KVStoreLaws S}
    (carrier : Z → headers) (settings : Settings) (py_str : json → string) (s : S) (now : float) (wall : Z)
    (b : bsys) (id : uuid) (row : JobRow) :
  (∀ i, Forall (λ p, p.1 ≠ "Nats-Msg-Id") (carrier i)) → (1 ≤ max_deliver settings)%Z → (1 ≤ relay_batch_size settings)%Z →
  (∀ k, (0 ≤ kv_count s k)%Z) → (∀ k, kv_view now s k = None) → (now <=? now)%float = true →
  rtc (bstep carrier settings py_str) (bs_start s now wall) b →
  let db := sh_db (fl_shared (pl_fleet (bs_pipe b))) in
  jobs db !! id = Some row → job_open row →
  (∀ o, newest db id o → msg_of carrier o ∉ pl_refused (bs_pipe b)) →
  ∃ b', rtc (unattended carrier settings py_str) b b' ∧ in_quarantine settings b' id row.
Proof.
  intros Hcar HM HB Hc Hv Hnow Hr db Hrow Hopen Href.
  pose proof (binv_reachable carrier settings py_str Hcar HM s now wall b Hc Hv Hnow Hr) as Hb.
  destruct (quarantine_way carrier settings py_str b id row Hcar HM HB Hb Hrow Hopen Href) as (b' & seq & m & H1 & H2 & H3 & H4 & _).
  exists b'. split; [done|]. split; [done|]. by exists seq, m.
Qed.

(** A job whose relay stopped between reading the outbox and publishing: its row is
    unpublished and the queue is empty. *)
Definition stranded : bsys :=
  bschedule trace_carrier default_settings (λ _, "")
    (BLocal <$> [PSubmit 1 "key-1" poison_payload; PRelayStart 0; PRelayCall 0; PRelayCall 0])
    (bs_start InMemoryKV.init (fZ 0) 100).

Lemma quarantine_reachable_witness :
  pl_stream (bs_pipe stranded) = ∅ ∧
  ∃ row b', rtc (unattended trace_carrier default_settings (λ _, "")) stranded b' ∧ in_quarantine default_settings b' 1 row.
Proof.
  split; [vm_compute; reflexivity|].
  destruct (jobs (sh_db (fl_shared (pl_fleet (bs_pipe stranded)))) !! (1 : uuid)) as [row|] eqn:E; [|vm_compute in E; discriminate].
  exists row.
  apply (quarantine_reachable trace_carrier default_settings (λ _, "") InMemoryKV.init (fZ 0) 100 stranded 1 row trace_carrier_ok);
    [discriminate|discriminate|exact inmemory_counts|reflexivity|reflexivity|apply bschedule_steps|exact E| |].
  - vm_compute in E. injection E as <-. by left.
  - intros o _. replace (pl_refused (bs_pipe stranded)) with (@nil sent_msg) by (vm_compute; reflexivity). apply not_elem_of_nil.
Defined.
