(* ===== verification/Punctual.v ===== *)
(** * Deliveries that keep to their leases

    [Pipeline] lets a delivery be as slow as it likes.  Here every event is written
    while the lease it is written under lasts: a delivery that has outlived its lease
    does not come back.  Then the one exception of [no_job_stranded] cannot happen,
    and no job is ever lost. *)
From Stdlib Require Import Floats.SpecFloat.
From stdpp Require Import sorting.
From S2P Require Import Prelude PyFloat PyJson Model StateMachine PyUuid KVStore Effects Fencing.
From S2P Require Import Idempotency Repo Config Telemetry Executor PyNum Worker World System Relay Platform Dlq Pipeline.
From S2P Require Import Policy Recovery.

(** ** The session of a delivery *)

(** Where a delivery is with its events: before STARTED was accepted, executing, or
    past its last event. *)
Inductive phase := Waiting | Executing | Ended.

(** The events of a delivery are one session: STARTED first, and after it at most one
    of COMPLETED, REQUEUED and FAILED; the lease is not taken again in between. *)
Definition phase_call (job : uuid) (ph : phase) (R : Type) (e : eff R) : option (result R → phase) :=
  match e in eff R return option (result R → phase) with
  | KvSetIfAbsent k _ _ =>
      if decide (k = LeaseManager.lease_key (uuid_str job)) then
        match ph with Waiting => Some (λ _, Waiting) | _ => None end
      else Some (λ _, ph)
  | RecordEvent _ event _ _ _ _ =>
      match event, ph with
      | EventType.STARTED, Waiting => Some (λ r, match r with Ok _ => Executing | Raise _ => Ended end)
      | EventType.COMPLETED, Executing | EventType.REQUEUED, Executing | EventType.FAILED, Executing => Some (λ _, Ended)
      | _, _ => None
      end
  | _ => Some (λ _, ph)
  end.

Abbreviation session job := (monitored replies (phase_call job) (λ _ _, True)).

Section sessions.
Context (job : uuid) (self : Worker.t) (fuel : nat) (attempt : Z) (delivery : string).

Abbreviation watched := (monitored replies (phase_call job)).

(** How the body of the [try] leaves a session: a simulated failure leaves it open. *)
Definition attempt_phase (ph : phase) (o : result unit) : Prop :=
  match o with Raise (SimulatedFailure _) => ph = Executing | _ => True end.

Lemma session_attempt payload lease :
  watched attempt_phase Waiting (Worker.attempt_job self fuel job payload attempt delivery lease).
Proof.
  assert (Hun : ∀ ph x, uncaught x → attempt_phase ph (Raise x)) by (by intros ? []).
  assert (Hs : ∀ ph x, service_error x → attempt_phase ph (Raise x)) by (by intros ? []).
  unfold Worker.attempt_job.
  eapply monitored_step; [reflexivity| |by intros [] Hr; try done; edestruct Hr]. intros v1 _.
  apply monitored_result; [apply getitem_uncaught| |by auto]. intros d.
  apply monitored_result; [apply int_of_json_uncaught| |by auto]. intros ms.
  apply monitored_result; [apply failure_rate_uncaught| |by auto]. intros fr.
  apply monitored_bind, monitored_execute; [done..| |done|by auto]. intros el.
  eapply monitored_step; [reflexivity| |by intros [] Hr; try done; edestruct Hr]. intros v2 _.
  apply monitored_bind. unfold ExecutionGuard.mark_done.
  eapply monitored_step; [cbn; by rewrite decide_False|intros v3 _|intros x Hr; by apply Hs, Hr].
  eapply monitored_step; [reflexivity|intros v4 _|intros x Hr; by apply Hs, Hr]. cbn [monitored].
  eapply monitored_step; [reflexivity|intros v5 _|intros x Hr; by apply Hs, Hr].
  eapply monitored_step; [reflexivity|intros v6 _|intros x Hr; by apply Hs, Hr]. cbn.
  intros [v7|x] Hr; [done|]. by apply Hs, Hr.
Qed.

Lemma session_failure lease m : session job Executing (Worker.on_failure self job attempt delivery lease m).
Proof.
  unfold Worker.on_failure. destruct (attempt <? _)%Z;
    (eapply monitored_step; [reflexivity| |done]); intros v _; apply monitored_bind; unfold ExecutionGuard.release_claim;
    (eapply monitored_step; [reflexivity| |done]); intros v2 _; cbn [monitored];
    (eapply monitored_step; [reflexivity| |done]); intros v3 _; by apply (monitored_await _ _ _ _ _ (λ _, Ended)).
Qed.

Lemma session_lease payload lease : session job Waiting (Worker.under_lease self fuel job payload attempt delivery lease).
Proof.
  unfold Worker.under_lease. apply monitored_try_finally, monitored_try_except.
  assert (Hfin : ∀ ph, monitored replies (phase_call job)
    (λ st rc, match rc with Ok _ => True | Raise e => True end) ph (let! _ := LeaseManager.release lease in Ret tt)).
  { intros ph. apply monitored_bind. unfold LeaseManager.release.
    eapply monitored_await; [reflexivity|]. by intros [] _. }
  eapply monitored_mono; [|apply session_attempt]. intros ph [[]|x] Hx; [by apply Hfin|].
  destruct x; try by apply Hfin.
  - apply monitored_bind. unfold ExecutionGuard.release_claim. eapply monitored_step; [reflexivity| |by intros; apply Hfin].
    intros v _. cbn [monitored]. eapply monitored_await; [reflexivity|]. intros r _. by apply Hfin.
  - cbn in Hx. subst ph. eapply monitored_mono; [|apply session_failure]. intros ph r _. by apply Hfin.
Qed.

(** [handle] is one session. *)
Lemma session_handle payload : session job Waiting (Worker.handle self fuel job payload attempt delivery).
Proof.
  destruct payload as [| | | | | |payload]; try done. cbn [Worker.handle].
  assert (Hnak : session job Waiting Worker.nak_jittered).
  { unfold Worker.nak_jittered. eapply monitored_step; [reflexivity| |done]. intros v _. by eapply monitored_await. }
  destruct (truthy _); [by eapply monitored_await|].
  apply monitored_bind. unfold ExecutionGuard.try_claim.
  eapply monitored_step; [reflexivity| |done]. intros [v|] _; [by apply (monitored_await _ _ _ _ _ (λ _, Waiting))|].
  eapply monitored_step; [cbn; by rewrite decide_False| |done]. intros [] _; cbn [monitored negb]; [|done].
  apply monitored_bind. unfold LeaseManager.acquire.
  eapply monitored_step; [reflexivity| |done]. intros t _.
  eapply monitored_step; [cbn; by rewrite decide_True| |done]. intros [] _; cbn [monitored negb]; [apply session_lease|].
  apply monitored_bind. unfold ExecutionGuard.release_claim. by eapply monitored_step.
Qed.
End sessions.

(** ** Transactions and a running job *)

Lemma event_other_job now id event att det ft res db id' st :
  id' ≠ id → has_state id' st db → has_state id' st (record_event now id event att det ft res db).2.
Proof.
  intros Hne (row & Hrow & Hst). rewrite record_event_eq, apply_event_eq. destruct (jobs db !! id) as [row1|]; [|by exists row].
  destruct (JobState_of (jr_state row1)) as [cur|]; [|by exists row].
  destruct (apply (Some cur) event) as [next|]; [|by exists row]. destruct (_ <=? _)%Z; [|by exists row].
  exists row. cbn [snd jobs write_event]. by rewrite lookup_insert_ne.
Qed.

(** What is not a delivery leaves a running job running, or dead-letters it. *)
Lemma others_running wall db db' id :
  others wall db db' → platform_ok db → has_state id JobState.RUNNING db →
  has_state id JobState.RUNNING db' ∨ ∀ oid, settled oid id db'.
Proof.
  intros Ho Hok Hst. pose proof Hst as (row & Hrow & Es). destruct Ho as [id' c key p s|id' s|id' att det|ids].
  - left. exists row. split; [|done]. rewrite submit_job_eq. destruct (job_by_key key db); [done|].
    destruct (jobs db !! id') eqn:E; [done|]. cbn [snd jobs write_submission]. by rewrite lookup_insert_ne by congruence.
  - left. exists row. split; [|done]. rewrite replay_job_eq, apply_event_eq. destruct (jobs db !! id') as [row'|] eqn:E; [|done].
    destruct (decide (id' = id)) as [->|Hne].
    + rewrite Hrow in E. injection E as <-. by rewrite Es, JobState_of_value.
    + destruct (JobState_of (jr_state row')) as [cur|]; [|done].
      destruct (apply (Some cur) EventType.REPLAYED) as [next|]; [|done]. destruct (_ <=? _)%Z; [|done].
      cbn [snd jobs add_outbox write_event]. by rewrite lookup_insert_ne.
  - destruct (decide (id = id')) as [<-|Hne]; [|left; by apply event_other_job]. right.
    destruct (record_event wall id EventType.DEAD_LETTERED att det None None db) as [r db1] eqn:E.
    destruct (dead_letter_cases _ _ _ _ _ _ _ row Hok Hrow E) as (_ & Hd & _). intros oid.
    eapply settled_state; [apply Hd; by right|done..].
  - left. by exists row.
Qed.

(** A program does not continue with itself. *)
Lemma continues_ne {A R} (e : eff R) (k : result R → prog A) r : k r ≠ Call e k.
Proof.
  assert (H : ∀ (p : prog A) R (e : eff R) k r, p = Call e k → k r ≠ p).
  { clear. induction p as [a|x|R e k IH]; intros R' e' k' r; [done|done|]. intros E.
    pose proof (eq_ind (Call e k) (λ q, match q with Call _ k0 => ∀ r, ∃ r0, k0 r = k r0 | _ => True end)
      (λ r0, ex_intro _ r0 eq_refl) _ E) as Hk.
    destruct (Hk r) as [r0 Er]. intros E'. apply (IH r0 R' e' k' r); [by rewrite <- Er, E'|done]. }
  intros E. by apply (H (Call e k) R e k r).
Qed.

(** ** Keeping to the lease *)

Section punctual.
Context {S : Type} `{!KVStore S, !KVView S, !KVStoreLaws S}.
Context (carrier : Z → headers) (settings : Settings) (py_str : json → string).

Abbreviation db_of f := (sh_db (fl_shared f)).
Abbreviation lease_of sh id := (kv_view (sh_now sh) (sh_kv sh) (LeaseManager.lease_key (uuid_str id))).

(** The delivery's next call, if it records an event, comes while its lease lasts. *)
Definition in_time (sh : shared (S := S)) (pr : proc) : Prop :=
  match pr_code pr with
  | Call (RecordEvent id _ _ _ (Some t) _) _ => lease_of sh id = Some (LeaseManager.lease_value (Worker.worker_id (pr_worker pr)) t)
  | _ => True
  end.

(** Whatever delivery moves from [p] to [p'] was in time. *)
Definition punctual (p p' : pipeline (S := S)) : Prop :=
  ∀ n pr pr', fl_procs (pl_fleet p) !! n = Some pr → fl_procs (pl_fleet p') !! n = Some pr' → pr' ≠ pr →
    in_time (fl_shared (pl_fleet p)) pr.

(** The lease of the delivery can still be read. *)
Definition holds (sh : shared (S := S)) (pr : proc) : Prop :=
  ∃ t, held (pr_watch pr) = Some t ∧
    lease_of sh (pr_job pr) = Some (LeaseManager.lease_value (Worker.worker_id (pr_worker pr)) t).

(** A delivery of row [o] that executes under a lease that lasts has its job running,
    unless the row is no longer what keeps the job going. *)
Definition session_ok (sh : shared (S := S)) (o : OutboxRow) (pr : proc) : Prop :=
  pr_job pr = ob_job_id o ∧
  ∃ ph, session (pr_job pr) ph (pr_code pr) ∧
    (ph = Executing → holds sh pr →
     has_state (pr_job pr) JobState.RUNNING (sh_db sh) ∨ settled (ob_id o) (pr_job pr) (sh_db sh)).

Definition sessions_ok (sh : shared (S := S)) (on : gmap nat (Z * sent_msg)) (procs : gmap nat proc) : Prop :=
  ∀ n pr, procs !! n = Some pr → ∃ seq o, on !! n = Some (seq, msg_of carrier o) ∧ o ∈ outbox (sh_db sh) ∧ session_ok sh o pr.

(** A refused message is not needed. *)
Definition refused_ok (db : DB) (ref : list sent_msg) : Prop :=
  ∀ m, m ∈ ref → ∃ o, o ∈ outbox db ∧ m = msg_of carrier o ∧ settled (ob_id o) (ob_job_id o) db.

Record qinv (p : pipeline (S := S)) : Prop := {
  qi_pinv : pinv carrier settings p;
  qi_sessions : sessions_ok (fl_shared (pl_fleet p)) (pl_on p) (fl_procs (pl_fleet p));
  qi_refused : refused_ok (db_of (pl_fleet p)) (pl_refused p)
}.

Context (Hcarrier : ∀ i, Forall (λ p, p.1 ≠ "Nats-Msg-Id") (carrier i)).

(** *** Steps that are not the delivery's own *)

(** What a step must leave to a delivery that is not making it. *)
Definition leaves (sh sh' : shared (S := S)) (pr : proc) : Prop :=
  holds sh' pr → holds sh pr ∧
    (has_state (pr_job pr) JobState.RUNNING (sh_db sh) →
     has_state (pr_job pr) JobState.RUNNING (sh_db sh') ∨ ∀ oid, settled oid (pr_job pr) (sh_db sh')).

Lemma session_left sh sh' o pr :
  platform_tx (sh_db sh) (sh_db sh') → platform_ok (sh_db sh) → o ∈ outbox (sh_db sh) → leaves sh sh' pr →
  session_ok sh o pr → ∃ o', o' ∈ outbox (sh_db sh') ∧ core o' = core o ∧ session_ok sh' o' pr.
Proof.
  intros Htx Hok Ho Hl (Hj & ph & Hs & Hrun). destruct (outbox_tx _ _ Htx Hok) as [Hkeep _].
  destruct (Hkeep o Ho) as (o' & Ho' & E). exists o'. split; [done|]. split; [done|]. injection E as E1 E2 _ _.
  split; [congruence|]. exists ph. split; [done|]. intros Hph Hh. destruct (Hl Hh) as [Hh' Hst]. rewrite E1.
  destruct (Hrun Hph Hh') as [H|H]; [destruct (Hst H); auto|]. right. eapply settled_tx; [done|done| |done]. by exists o.
Qed.

Lemma sessions_left sh sh' on procs procs' :
  platform_tx (sh_db sh) (sh_db sh') → platform_ok (sh_db sh) →
  (∀ n pr, procs' !! n = Some pr → procs !! n = Some pr ∧ leaves sh sh' pr) →
  sessions_ok sh on procs → sessions_ok sh' on procs'.
Proof.
  intros Htx Hok Hl Hs n pr Hn. destruct (Hl n pr Hn) as [Hn' Hlv]. destruct (Hs n pr Hn') as (seq & o & Hon & Ho & Hse).
  destruct (session_left _ _ _ _ Htx Hok Ho Hlv Hse) as (o' & Ho' & E & Hse'). exists seq, o'.
  by rewrite (core_msg carrier _ _ E).
Qed.

Lemma refused_left db db' ref : platform_tx db db' → platform_ok db → refused_ok db ref → refused_ok db' ref.
Proof.
  intros Htx Hok Hr m Hm. destruct (Hr m Hm) as (o & Ho & -> & Hs). destruct (outbox_tx _ _ Htx Hok) as [Hkeep _].
  destruct (Hkeep o Ho) as (o' & Ho' & E). exists o'. split; [done|]. rewrite (core_msg carrier _ _ E). split; [done|].
  injection E as -> -> _ _. eapply settled_tx; [done|done| |done]. by exists o.
Qed.

(** A transaction of another process. *)
Lemma leaves_other sh db' pr :
  db' = sh_db sh ∨ others (sh_wall sh) (sh_db sh) db' → platform_ok (sh_db sh) → leaves sh (set_db db' sh) pr.
Proof.
  intros Hdb Hok Hh. split; [exact Hh|]. cbn [set_db sh_db]. destruct Hdb as [->|Ho]; [by left|].
  intros Hst. by eapply others_running.
Qed.

(** *** Calls and leases *)

(** A lease that can be read after a call could be read before, or the caller has
    just taken it with the token it drew. *)
Lemma answers_lease n sh job att holder delivery w R (e : eff R) next r sh' id v :
  watch_call job att holder delivery w R e = Some next → answers n sh R e r sh' → (sh_now sh <=? sh_now sh)%float = true →
  lease_of sh' id = Some v →
  lease_of sh id = Some v ∨
  uuid_str id = uuid_str job ∧ (∃ t, drawn w = Some t ∧ v = LeaseManager.lease_value holder t) ∧
    ∀ ph nx, phase_call job ph R e = Some nx → ph = Waiting.
Proof.
  intros Hc Ha Hnow.
  assert (Hcom : lease_of (commit n R e sh).2 id = Some v → lease_of sh id = Some v ∨
    uuid_str id = uuid_str job ∧ (∃ t, drawn w = Some t ∧ v = LeaseManager.lease_value holder t) ∧
    ∀ ph nx, phase_call job ph R e = Some nx → ph = Waiting).
  { destruct w as [c d h f co cl s l di]. cbn [drawn]. destruct e; cbn [watch_call] in Hc; try done; cbn [commit]; try by left.
    - pose proof (kv_get_view (sh_now sh) key (sh_kv sh) (sh_now sh)) as Hv. destruct (kv_get _ _ _) as [v0 s0].
      cbn [snd set_store sh_now sh_kv] in *. rewrite Hv by done. by left.
    - pose proof (kv_set_view (sh_now sh) key value ttl_s (sh_kv sh) (sh_now sh)) as Hv.
      destruct (kv_set_if_absent _ _ _ _ _) as [b0 s0]. cbn [snd set_store sh_now sh_kv] in *. rewrite Hv by done.
      destruct (decide (_ = key ∧ _)) as [[Ek _]|]; [|by left].
      case_decide as E1; [destruct E1 as [-> _]; by apply lease_claim_ne in Ek|].
      case_decide as E2; [destruct E2 as [-> _]; by apply lease_done_ne in Ek|].
      destruct d as [t|]; [|done]. case_decide as E3; [|done]. destruct E3 as [-> ->].
      destruct (kv_lapsed _ _ _ _); [done|]. intros [= <-]. right. apply LeaseManager.lease_key_inj in Ek.
      split; [done|]. split; [by exists t|]. intros ph nx. cbn. rewrite decide_True by done. by destruct ph.
    - pose proof (kv_incr_view key (sh_kv sh) (sh_now sh)) as Hv. destruct (kv_incr _ _) as [v0 s0].
      cbn [snd set_store sh_now sh_kv] in *. rewrite Hv. by left.
    - pose proof (kv_cad_view (sh_now sh) key expected (sh_kv sh) (sh_now sh)) as Hv.
      destruct (kv_compare_and_delete _ _ _ _) as [b0 s0]. cbn [snd set_store sh_now sh_kv] in *. rewrite Hv by done.
      destruct (decide (_ = key ∧ _)); [done|by left].
    - destruct (record_event _ _ _ _ _ _ _ _) as [r1 db1]. by left. }
  inversion Ha as [r0 sh0 E|v0 sh0 E|x Hx|x Hx]; subst; try rewrite E in Hcom; by auto.
Qed.

(** A call of another delivery, in time. *)
Lemma leaves_call n sh job att self delivery w R (e : eff R) (k : result R → prog unit) next r sh' pr :
  watch_call job att (Worker.worker_id self) delivery w R e = Some next → answers n sh R e r sh' →
  (sh_now sh <=? sh_now sh)%float = true → (job < 2 ^ 128)%N → (pr_job pr < 2 ^ 128)%N →
  (∀ t, held w = Some t → drawn w = Some t) → (∀ t, held (pr_watch pr) = Some t → pr_job pr = job → drawn w ≠ Some t) →
  in_time sh (mkProc self job att delivery (Call e k) w) → leaves sh sh' pr.
Proof.
  intros Hc Ha Hnow Hj Hj' Hdr Hdist Htime (t & Ht & Hl).
  destruct (answers_lease _ _ _ _ _ _ _ _ _ _ _ _ _ _ Hc Ha Hnow Hl) as [Hl0|(E & (t' & Hd & Ev) & _)].
  2:{ exfalso. apply uuid_str_inj in E; [|done..]. apply LeaseManager.lease_value_inj in Ev as [_ <-]. by apply (Hdist t). }
  split; [by exists t|]. intros Hst. left.
  destruct (answers_db _ _ _ _ _ _ _ _ _ _ _ _ Hc Ha) as (_ & _ & [->|(ev & det & ft & rs & Hev & Edb)]); [done|].
  destruct (records e) eqn:Hrec.
  - destruct e; try done. destruct w as [c d h f co cl s l di]. cbn [watch_call] in Hc. case_decide as Hk; [|done].
    destruct Hk as (-> & _ & [t' ->] & -> & _). cbn [in_time pr_code pr_worker held drawn] in *. rewrite Edb.
    apply event_other_job; [|done]. intros E. rewrite E, Htime in Hl0. apply (inj Some) in Hl0.
    apply LeaseManager.lease_value_inj in Hl0 as [_ <-]. by apply (Hdist t' Ht E), Hdr.
  - by destruct (answers_quiet _ _ _ _ _ _ Hrec Ha) as (-> & _).
Qed.

(** While it executes, a delivery takes no lease. *)
Lemma executing_call job att holder delivery w R (e : eff R) next ph nx r :
  watch_call job att holder delivery w R e = Some next → phase_call job ph R e = Some nx → records e = false →
  nx r = Executing → ph = Executing ∧ ∀ t, held (next r) = Some t → held w = Some t.
Proof.
  destruct w as [c d h f co cl s l di]. destruct e; cbn [watch_call phase_call held]; try done;
    try (case_decide; [|done]); try (intros [= <-] [= <-] _ ->; done).
  - intros Hc. destruct (decide (key = LeaseManager.lease_key (uuid_str job))) as [Hk|Hk];
      [destruct ph; intros Hx; [by injection Hx as <-|done..]|]. intros [= <-] _ ->. split; [done|].
    case_decide; [by injection Hc as <-|]. case_decide; [by injection Hc as <-|]. destruct d as [t|]; [|done].
    case_decide as E; [by destruct E|done].
  - intros Hc [= <-] _ ->. split; [done|]. case_decide; [by injection Hc as <-|]. destruct h as [t|]; [|done].
    case_decide; [|done]. by injection Hc as <-.
Qed.

(** An accepted STARTED leaves the job running. *)
Lemma started_running n sh job att det ft res st sh' :
  platform_ok (sh_db sh) → answers n sh _ (RecordEvent job EventType.STARTED att det ft res) (Ok st) sh' →
  has_state job JobState.RUNNING (sh_db sh').
Proof.
  intros Hok Ha. pose proof (record_reply (sh_wall sh) job EventType.STARTED att det ft res (sh_db sh) Hok) as Hrep.
  inversion Ha as [r0 sh0 E|v0 sh0 E| |]; subst; cbn [commit] in E; destruct (record_event _ _ _ _ _ _ _ _) as [r1 db1]; [|done].
  injection E as -> <-. cbn [sh_db]. destruct Hrep as (Hst & cur & _ & Hap). by destruct cur; simplify_eq/=.
Qed.

(** A COMPLETED that comes in time is refused only if its message is not needed. *)
Lemma refused_in_time n sh job att self delivery w R (e : eff R) (k : result R → prog unit) next r sh' o :
  watch_call job att (Worker.worker_id self) delivery w R e = Some next → answers n sh R e r sh' → platform_ok (sh_db sh) →
  in_time sh (mkProc self job att delivery (Call e k) w) → session_ok sh o (mkProc self job att delivery (Call e k) w) →
  refused_completion e r = true → sh_db sh' = sh_db sh ∧ settled (ob_id o) job (sh_db sh).
Proof.
  intros Hc Ha Hok Htime (_ & ph & Hs & Hrun) Href. cbn [pr_job pr_code monitored] in *.
  destruct e; try done. destruct event; try done. cbn [phase_call] in Hs. destruct ph; try done.
  destruct r as [|[]]; try done. destruct state as [[]|]; try done.
  destruct w as [c d h f co cl s l di]. cbn [watch_call] in Hc. case_decide as Hk; [|done].
  destruct Hk as (-> & -> & [t ->] & -> & _). cbn [in_time pr_code pr_worker] in Htime.
  pose proof (record_reply (sh_wall sh) job EventType.COMPLETED att detail (Some t) result (sh_db sh) Hok) as Hrep.
  inversion Ha as [r0 sh0 E|v0 sh0 E|x Hx|x Hx]; subst; try done. cbn [commit] in E.
  destruct (record_event _ _ _ _ _ _ _ _) as [r1 db1]. injection E as -> <-. cbn [sh_db].
  destruct Hrep as (-> & cur & [= <-] & Hst & _). split; [done|].
  destruct Hrun as [(row & Hrow & Hrs)|?]; [done|by exists t| |done].
  destruct Hst as (row' & Hrow' & Hqs). rewrite Hrow in Hrow'. injection Hrow' as <-. rewrite Hrs in Hqs.
  by apply JobState_value_inj in Hqs.
Qed.

(** The caller itself. *)
Lemma session_call n sh job att self delivery w R (e : eff R) (k : result R → prog unit) next r sh' o :
  watch_call job att (Worker.worker_id self) delivery w R e = Some next → answers n sh R e r sh' → replies R e r →
  (sh_now sh <=? sh_now sh)%float = true → platform_ok (sh_db sh) → o ∈ outbox (sh_db sh) →
  session_ok sh o (mkProc self job att delivery (Call e k) w) →
  ∃ o', o' ∈ outbox (sh_db sh') ∧ core o' = core o ∧ session_ok sh' o' (mkProc self job att delivery (k r) (next r)).
Proof.
  intros Hc Ha Hre Hnow Hok Ho (Hj & ph & Hs & Hrun). cbn [pr_job pr_code monitored] in *.
  destruct (phase_call job ph R e) as [nx|] eqn:Hp; [|done]. specialize (Hs r Hre).
  assert (Htx : platform_tx (sh_db sh) (sh_db sh')) by (by eapply answers_tx).
  destruct (outbox_tx _ _ Htx Hok) as [Hkeep _]. destruct (Hkeep o Ho) as (o' & Ho' & E). exists o'.
  split; [done|]. split; [done|]. injection E as E1 E2 _ _. split; [cbn; congruence|]. exists (nx r). split; [done|].
  cbn [pr_job]. rewrite E1. intros Hph Hh. destruct (records e) eqn:Hrec.
  - destruct e; try done. cbn [phase_call] in Hp. destruct event, ph; try done; injection Hp as <-; try done.
    destruct r as [st|x]; [|done]. left. destruct w as [c d h f co cl s l di]. cbn [watch_call] in Hc. case_decide as Hk; [|done].
    destruct Hk as (-> & _). by eapply started_running.
  - destruct (executing_call _ _ _ _ _ _ _ _ _ _ _ Hc Hp Hrec Hph) as [-> Hheld].
    destruct (answers_quiet _ _ _ _ _ _ Hrec Ha) as (-> & _). apply Hrun; [done|].
    destruct Hh as (t & Ht & Hl). cbn [pr_job pr_watch pr_worker] in *. exists t. split; [by apply Hheld|].
    destruct (answers_lease _ _ _ _ _ _ _ _ _ _ _ _ _ _ Hc Ha Hnow Hl) as [|(_ & _ & Hw)]; [done|]. by specialize (Hw _ _ Hp).
Qed.

(** *** The invariant *)

(** What a delivery in the pipeline is known to be. *)
Lemma caller_facts p n pr R (e : eff R) k r sh' :
  pinv carrier settings p → fl_procs (pl_fleet p) !! n = Some pr → pr_code pr = Call e k →
  answers n (fl_shared (pl_fleet p)) R e r sh' →
  (pr_job pr < 2 ^ 128)%N ∧ (∀ t, held (pr_watch pr) = Some t → drawn (pr_watch pr) = Some t) ∧
  ∃ next, watch_call (pr_job pr) (pr_attempt pr) (Worker.worker_id (pr_worker pr)) (pr_delivery pr) (pr_watch pr) R e = Some next ∧
    observed pr R e r = next r ∧ replies R e r.
Proof.
  intros Hp Hn Hcode Ha. destruct (pi_on _ _ _ Hp n pr Hn) as (seq & o & _ & Hm & Hd).
  split; [rewrite (do_job _ _ _ _ _ Hd); by eapply row_id; [apply (pi_db _ _ _ Hp)|apply Hm]|].
  destruct (pi_fleet _ _ _ Hp) as [_ Hpr]. pose proof (λ t, po_held _ _ _ Hpr n pr t Hn) as Hh. split; [done|].
  pose proof (po_code _ _ _ Hpr n pr Hn) as Hcd. rewrite Hcode in Hcd. cbn [monitored] in Hcd. unfold observed.
  destruct (watch_call _ _ _ _ _ _ _) as [next|] eqn:Hc; [|done]. exists next. split; [done|]. split; [done|].
  by destruct (answers_change _ _ _ _ _ _ _ _ _ _ _ _ Ha Hc Hh).
Qed.

Lemma qinv_call f q log on sent rel lis dlq ref n pr R (e : eff R) k r sh' seq m q' :
  qinv (mkPipeline f q log on sent rel lis dlq ref) →
  fl_procs f !! n = Some pr → pr_code pr = Call e k → on !! n = Some (seq, m) →
  answers n (fl_shared f) R e r sh' → broker seq e r q q' → in_time (fl_shared f) pr →
  qinv (mkPipeline (advance n pr R e k r sh' f) q' log on sent rel lis dlq (if refused_completion e r then ref ++ [m] else ref)).
Proof.
  intros [Hp Hs Hr] Hn Hcode Hon Ha Hb Htime. cbn [pl_fleet pl_on pl_refused] in *.
  destruct (caller_facts _ _ _ _ _ _ _ _ Hp Hn Hcode Ha) as (Hj & Hh & next & Hc & Hobs & Hre).
  pose proof (pi_db _ _ _ Hp) as Hok. pose proof (pi_now _ _ _ Hp) as Hnow. cbn [pl_fleet] in Hok, Hnow.
  destruct (Hs n pr Hn) as (seq0 & o & Hon' & Ho & Hse). rewrite Hon in Hon'. injection Hon' as <- ->.
  pose proof (proj1 Hse) as Ejob.
  destruct pr as [self job att dl code w]. cbn [pr_code pr_job pr_worker pr_attempt pr_delivery pr_watch] in *. subst code.
  assert (Htx : platform_tx (db_of f) (sh_db sh')) by (by eapply answers_tx).
  split; cbn [pl_fleet pl_on pl_refused advance fl_shared fl_procs].
  - by eapply pinv_call.
  - intros n' pr'. rewrite lookup_insert. case_decide as En.
    + subst n'. intros [= <-]. rewrite Hobs. cbn [pr_job pr_worker pr_attempt pr_delivery].
      destruct (session_call _ _ _ _ _ _ _ _ _ _ _ _ _ _ Hc Ha Hre Hnow Hok Ho Hse) as (o' & Ho' & E & Hse').
      exists seq, o'. rewrite (core_msg carrier _ _ E). done.
    + intros Hn'. destruct (Hs n' pr' Hn') as (seq' & o1 & Hon1 & Ho1 & Hse1).
      assert (Hl : leaves (fl_shared f) sh' pr').
      { eapply leaves_call; [exact Hc|exact Ha|done|done| |done| |exact Htime].
        - destruct Hse1 as [-> _]. by eapply row_id.
        - intros t Ht Ejob'. destruct (pi_fleet _ _ _ Hp) as [_ Hpr]. cbn [pl_fleet] in Hpr.
          apply (po_distinct _ _ _ Hpr n' n pr' _ t Hn' Hn); [done|done|]. by apply (po_held _ _ _ Hpr n' pr' t Hn'). }
      destruct (session_left _ _ _ _ Htx Hok Ho1 Hl Hse1) as (o' & Ho' & E & Hse'). exists seq', o'.
      by rewrite (core_msg carrier _ _ E).
  - pose proof (refused_left _ _ _ Htx Hok Hr) as Hr'. destruct (refused_completion e r) eqn:Href; [|done].
    intros m [Hm|Hm]%elem_of_app; [by apply Hr'|]. apply list_elem_of_singleton in Hm as ->.
    destruct (refused_in_time _ _ _ _ _ _ _ _ _ _ _ _ _ _ Hc Ha Hok Htime Hse Href) as [-> Hset]. exists o.
    rewrite <- Ejob. done.
Qed.

(** A step that changes only the tables, by a transaction of another process. *)
Lemma qinv_other p p' :
  qinv p → pinv carrier settings p' → pl_on p' = pl_on p → pl_refused p' = pl_refused p →
  (∃ db', pl_fleet p' = with_db db' (pl_fleet p) ∧ platform_tx (db_of (pl_fleet p)) db' ∧
     (db' = db_of (pl_fleet p) ∨ others (sh_wall (fl_shared (pl_fleet p))) (db_of (pl_fleet p)) db')) → qinv p'.
Proof.
  intros [Hp Hs Hr] Hp' Eon Eref (db' & Ef & Htx & Hdb). pose proof (pi_db _ _ _ Hp) as Hok.
  split; [done|rewrite Ef, Eon|rewrite Ef, Eref].
  - cbn [with_db fl_shared fl_procs]. eapply sessions_left; [exact Htx|done| |exact Hs].
    intros n pr Hn. split; [done|]. by apply leaves_other.
  - by eapply refused_left.
Qed.

Lemma qinv_local p p' : plocal carrier settings p p' → punctual p p' → qinv p → qinv p'.
Proof.
  intros Hst Hpun Hq. pose proof (qi_pinv _ Hq) as Hp. pose proof (pinv_local _ _ Hcarrier _ _ Hst Hp) as Hp'.
  destruct Hst as [f q log on sent rel lis dlq ref n pr R e k r sh' seq m q' Hn Hcode Hon Ha Hb
    |f q log on sent rel lis dlq ref n|f q log on sent rel lis dlq ref now wall Hnow
    |f q log on sent rel lis dlq ref id trace key payload Hid|f q log on sent rel lis dlq ref id
    |f q log on sent rel lis dlq ref st q' log' Hact Hst
    |f q log on sent rel lis dlq ref n R e k w r db q' dlq' Hn Ha|f q log on sent rel lis dlq ref n].
  - eapply qinv_call; try done. eapply (Hpun n pr); [exact Hn|apply lookup_insert_eq|].
    destruct pr as [self job att dl code w]. cbn [pr_code] in Hcode. subst code. intros [= E _]. by eapply continues_ne.
  - destruct Hq as [_ Hs Hr]. split; [done|..|done]. intros n' pr. cbn. rewrite lookup_delete. case_decide; [done|]. apply Hs.
  - destruct Hq as [_ Hs Hr]. split; [done|..|done]. cbn [pl_fleet pl_on fl_shared fl_procs] in *.
    eapply (sessions_left (fl_shared f)); [constructor|apply (pi_db _ _ _ Hp)| |exact Hs].
    intros n' pr' Hn'. split; [done|]. intros (t & Ht & Hl). split; [|by left]. exists t. split; [done|].
    cbn [sh_now sh_kv] in Hl. by eapply (kv_view_later (S := S)).
  - eapply qinv_other; [done..|]. eexists. split; [reflexivity|]. split; [by constructor|right; constructor].
  - eapply qinv_other; [done..|]. eexists. split; [reflexivity|]. split; [by constructor|right; constructor].
  - eapply qinv_other; [done..|]. eexists. split; [reflexivity|]. cbn [pl_fleet].
    destruct (ract_db _ _ _ _ Hact) as [_ [E|[ids E]]]; cbn [relay_view rs_db rs_wall] in E; rewrite E;
      (split; [constructor|]); [by left|right; constructor].
  - eapply qinv_other; [done..|]. eexists. split; [reflexivity|].
    destruct (listener_step_ok carrier settings Hcarrier f q log dlq ref R e k w r db q' dlq'
      (pi_db _ _ _ Hp) (pi_queue _ _ _ Hp) (pi_dlq _ _ _ Hp) (pi_listeners _ _ _ Hp n _ Hn) Ha) as ([->|(Htx & Ho & _)] & _).
    + split; [constructor|by left].
    + split; [done|by right].
  - destruct Hq as [_ Hs Hr]. by split.
Qed.

Lemma qinv_step p p' : pstep carrier settings py_str p p' → punctual p p' → qinv p → qinv p'.
Proof.
  intros Hst Hpun Hq. pose proof (qi_pinv _ Hq) as Hp. pose proof (pinv_step _ _ _ Hcarrier _ _ Hst Hp) as Hp'.
  destruct Hst as [f q log on sent rel lis dlq ref seq m self fuel job payload attempt Hm Hdec|f q log on sent rel lis dlq ref n data Hn|p p' Hst].
  - destruct Hq as [_ Hs Hr]. split; [done|..|done].
    intros n pr. cbn [pl_fleet pl_on start_delivery fl_procs fl_shared]. rewrite !lookup_insert. case_decide as E; [|apply Hs].
    intros [= <-]. destruct (pi_on _ _ _ Hp' (fl_next f) (mkProc self job attempt (Worker.delivery_of self attempt)
      (Worker.process self fuel (mkMsg m.1.2 attempt)) watch_init)) as (seq0 & o & Hon & Hom & Hd).
    { cbn. by rewrite lookup_insert_eq. }
    cbn [pl_fleet pl_on pl_log start_delivery fl_shared] in Hon, Hom, Hd. rewrite lookup_insert_eq in Hon. exists seq0, o.
    split; [done|]. split; [apply Hom|]. split; [apply Hd|]. exists Waiting. split; [|done].
    cbn [pr_job pr_code]. rewrite (process_handle _ _ _ _ _ Hdec). apply session_handle.
  - destruct Hq as [_ Hs Hr]. by split.
  - by eapply qinv_local.
Qed.

Lemma qinv_start s now wall :
  (∀ k, (0 ≤ kv_count s k)%Z) → (∀ k, kv_view now s k = None) → (now <=? now)%float = true → qinv (pl_start s now wall).
Proof. intros Hc Hv Hnow. split; [by apply pinv_start|done|]. intros m Hm. set_solver. Qed.

(** The steps of a system all of whose deliveries keep to their leases. *)
Definition punctual_step (p p' : pipeline (S := S)) : Prop := pstep carrier settings py_str p p' ∧ punctual p p'.

Lemma qinv_reachable s now wall p :
  (∀ k, (0 ≤ kv_count s k)%Z) → (∀ k, kv_view now s k = None) → (now <=? now)%float = true →
  rtc punctual_step (pl_start s now wall) p → qinv p.
Proof.
  intros Hc Hv Hnow Hr. pose proof (qinv_start s now wall Hc Hv Hnow) as Hq.
  induction Hr as [|p1 p2 p3 [Hst Hpun] _ IH]; [done|]. by eapply IH, qinv_step.
Qed.

(** *** No job is stranded *)

Lemma refused_not_newest p id row o :
  qinv p → jobs (db_of (pl_fleet p)) !! id = Some row → job_open row → newest (db_of (pl_fleet p)) id o →
  msg_of carrier o ∉ pl_refused p.
Proof.
  intros Hq Hrow Hopen Hnew Hin. destruct (qi_refused _ Hq _ Hin) as (o' & Ho' & E & Hs).
  pose proof Hnew as (Ho & Hj & _). apply msg_of_id in E; [|done].
  rewrite <- (outbox_id_inj _ _ _ (pk_reachable _ (pi_db _ _ _ (qi_pinv _ Hq))) Ho Ho' E) in Hs. subst id.
  by eapply newest_unsettled.
Qed.

(** ** Checking a schedule *)

#[global] Instance in_time_dec sh pr : Decision (in_time sh pr).
Proof.
  unfold in_time. destruct (pr_code pr) as [| |R e k]; [by left..|]. destruct e; try by left. destruct fence_token; [|by left].
  apply _.
Defined.

Definition on_time (p : pipeline (S := S)) : bool :=
  bool_decide (map_Forall (λ _, in_time (fl_shared (pl_fleet p))) (fl_procs (pl_fleet p))).

Lemma on_time_punctual p p' : on_time p = true → punctual p p'.
Proof. intros H%bool_decide_eq_true n pr pr' Hn _ _. by apply (H n). Qed.

(** The same under the broker's policy. *)
Definition punctual_bstep (b b' : bsys (S := S)) : Prop :=
  bstep carrier settings py_str b b' ∧ punctual (bs_pipe b) (bs_pipe b').

Lemma bsteps_forget b b' : rtc punctual_bstep b b' → rtc (bstep carrier settings py_str) b b'.
Proof. induction 1 as [|b1 b2 b3 [H _] _ IH]; [apply rtc_refl|by eapply rtc_l]. Qed.

Lemma bsteps_punctual b b' : rtc punctual_bstep b b' → rtc punctual_step (bs_pipe b) (bs_pipe b').
Proof.
  induction 1 as [|b1 b2 b3 [H Hp] _ IH]; [apply rtc_refl|]. eapply rtc_l; [|exact IH]. split; [by eapply bstep_pstep|done].
Qed.

Lemma bschedule_punctual l b :
  checked (bact carrier settings py_str) (on_time ∘ bs_pipe) l b = true → rtc punctual_bstep b (bschedule carrier settings py_str l b).
Proof.
  apply (checked_steps (bstep carrier settings py_str)); [intros a b0; apply bact_steps|]. intros b1 b2 H Ho. split; [done|].
  by apply on_time_punctual.
Qed.
End punctual.

(** A job that fails at first and is retried, every event in time: its first delivery
    requeues it, and the second one is executing it. *)
Definition retried : bsys :=
  bschedule trace_carrier default_settings (λ _, "")
    ((BLocal <$> publication) ++
     [BDeliver 1 sample_worker 9] ++ replicate 20 (BLocal (PAct 0 half_down)) ++
     [BLocal (PTime (fZ 3) 103); BDeliver 1 (Worker.mk default_settings "w2") 9] ++ replicate 9 (BLocal (PAct 1 half_up)))
    (bs_start InMemoryKV.init (fZ 0) 100).

Lemma retried_punctual :
  rtc (punctual_bstep trace_carrier default_settings (λ _, "")) (bs_start InMemoryKV.init (fZ 0) 100) retried.
Proof. apply bschedule_punctual. vm_compute. reflexivity. Qed.

Lemma retried_running :
  ∃ row, jobs (sh_db (fl_shared (pl_fleet (bs_pipe retried)))) !! 1%N = Some row ∧ jr_state row = "running" ∧ jr_attempts row = 2%Z.
Proof.
  destruct (jobs _ !! 1%N) as [row|] eqn:E; [|vm_compute in E; discriminate E]. exists row. split; [done|].
  vm_compute in E. injection E as <-. done.
Qed.

(** * Properties *)

(** C3: deliveries that keep to their leases strand no job.  In every interleaving of
    API, operator, relays, broker, workers and listeners, with crashes, lost replies
    and repeated deliveries, in which every event of a delivery is recorded while the
    lease it is recorded under can still be read: the newest outbox row of a job that
    is queued or running is still to be published, or its message is in the work
    queue.  The exception of [no_job_stranded] needs a delivery that outlived its
    lease. *)
Theorem punctual_jobs_kept {S : Type} `{!KVStore S, !KVView S, !KVStoreLaws S}
    (carrier : Z → headers) (settings : Settings) (py_str : json → string) (s : S) (now : float) (wall : Z)
    (p : pipeline) (id : uuid) (row : JobRow) :
  (∀ i, Forall (λ p, p.1 ≠ "Nats-Msg-Id") (carrier i)) →
  (∀ k, (0 ≤ kv_count s k)%Z) → (∀ k, kv_view now s k = None) → (now <=? now)%float = true →
  rtc (punctual_step carrier settings py_str) (pl_start s now wall) p →
  let db := sh_db (fl_shared (pl_fleet p)) in
  jobs db !! id = Some row → job_open row →
  ∃ o, newest db id o ∧
    (ob_published_at o = None ∨ ∃ seq m, pl_stream p !! seq = Some m ∧ m = msg_of carrier o ∧ names_job m.1.2 id).
Proof.
  intros Hcar Hc Hv Hnow Hr db Hrow Hopen.
  pose proof (qinv_reachable carrier settings py_str Hcar s now wall p Hc Hv Hnow Hr) as Hq. pose proof (qi_pinv _ _ _ Hq) as Hp.
  destruct (newest_row _ id row (pi_db _ _ _ Hp) Hrow) as (o & Ho). exists o. split; [done|].
  destruct (newest_accounted _ _ _ _ _ _ Hp Ho Hrow Hopen) as [?|[?|Hin]]; [by left|by right|].
  by destruct (refused_not_newest carrier settings Hcar p id row o Hq Hrow Hopen Ho).
Qed.

Lemma punctual_jobs_kept_witness :
  ∃ o, newest (sh_db (fl_shared (pl_fleet (bs_pipe retried)))) 1 o ∧
    (ob_published_at o = None ∨
     ∃ seq m, pl_stream (bs_pipe retried) !! seq = Some m ∧ m = msg_of trace_carrier o ∧ names_job m.1.2 1).
Proof.
  destruct retried_running as (row & E & Hst & _).
  apply (punctual_jobs_kept trace_carrier default_settings (λ _, "") InMemoryKV.init (fZ 0) 100 (bs_pipe retried) 1 row
           trace_carrier_ok inmemory_counts).
  - intros k. reflexivity.
  - vm_compute. reflexivity.
  - exact (bsteps_punctual _ _ _ _ _ retried_punctual).
  - exact E.
  - right. exact Hst.
Defined.

(** While deliveries keep to their leases, no job is ever beyond help.  In every
    state such a system can reach under the broker's delivery policy, whatever died
    or was left behind, every queued or running job can be brought to DEAD_LETTER,
    from where an operator can replay it, with its message and payload in the
    quarantine stream: relays publish, the broker uses up the deliveries and the
    listener handles the advisory. *)
Theorem punctual_quarantine_reachable {S : Type} `{!KVStore S, !KVView S, !KVStoreLaws S}
    (carrier : Z → headers) (settings : Settings) (py_str : json → string) (s : S) (now : float) (wall : Z)
    (b : bsys) (id : uuid) (row : JobRow) :
  (∀ i, Forall (λ p, p.1 ≠ "Nats-Msg-Id") (carrier i)) → (1 ≤ max_deliver settings)%Z → (1 ≤ relay_batch_size settings)%Z →
  (∀ k, (0 ≤ kv_count s k)%Z) → (∀ k, kv_view now s k = None) → (now <=? now)%float = true →
  rtc (punctual_bstep carrier settings py_str) (bs_start s now wall) b →
  jobs (sh_db (fl_shared (pl_fleet (bs_pipe b)))) !! id = Some row → job_open row →
  ∃ b' seq (m : sent_msg), rtc (bstep carrier settings py_str) b b' ∧
    has_state id JobState.DEAD_LETTER (sh_db (fl_shared (pl_fleet (bs_pipe b')))) ∧
    copy_of settings seq m.1.2 ∈ pl_dlq (bs_pipe b') ∧ carries m.1.2 id row.
Proof.
  intros Hcar HM HB Hc Hv Hnow Hr Hrow Hopen.
  pose proof (qinv_reachable carrier settings py_str Hcar s now wall _ Hc Hv Hnow (bsteps_punctual _ _ _ _ _ Hr)) as Hq.
  pose proof (binv_reachable carrier settings py_str Hcar HM s now wall b Hc Hv Hnow (bsteps_forget _ _ _ _ _ Hr)) as Hb.
  destruct (quarantine_way carrier settings py_str b id row Hcar HM HB Hb Hrow Hopen) as (b' & seq & m & H1%unattended_steps & H2 & H3 & _).
  - intros o Ho. by eapply refused_not_newest.
  - by exists b', seq, m.
Qed.

Lemma punctual_quarantine_reachable_witness :
  ∃ row b' seq (m : sent_msg), jr_state row = "running" ∧ rtc (bstep trace_carrier default_settings (λ _, "")) retried b' ∧
    has_state 1 JobState.DEAD_LETTER (sh_db (fl_shared (pl_fleet (bs_pipe b')))) ∧
    copy_of default_settings seq m.1.2 ∈ pl_dlq (bs_pipe b') ∧ carries m.1.2 1 row.
Proof.
  destruct retried_running as (row & E & Hst & _).
  destruct (punctual_quarantine_reachable trace_carrier default_settings (λ _, "") InMemoryKV.init (fZ 0) 100 retried 1 row
    trace_carrier_ok) as (b' & seq & m & H);
    [discriminate|discriminate|exact inmemory_counts|reflexivity|reflexivity|exact retried_punctual|exact E|right; exact Hst|].
  exists row, b', seq, m. split; [exact Hst|exact H].
Defined.
