(* ===== verification/Completion.v ===== *)
(** * A job can always still succeed

    From every state the platform reaches while its deliveries keep to their leases,
    a job that is not finished can be brought to SUCCEEDED: quarantined if it is
    still open, replayed by the operator, published by a relay and executed by one
    undisturbed delivery of its new message. *)
From Stdlib Require Import Floats.SpecFloat.
From stdpp Require Import sorting.
From S2P Require Import Prelude PyFloat PyJson Model StateMachine PyUuid KVStore Effects Fencing.
From S2P Require Import Idempotency Repo Config Telemetry Executor PyNum Worker World System Relay Platform Dlq Pipeline.
From S2P Require Import Policy Recovery Punctual.

Open Scope prog_scope.

Section completion.
Context {S : Type} `{!KVStore S, !KVView S, !KVStoreLaws S}.
Context (carrier : Z → headers) (settings : Settings) (py_str : json → string).
Context (Hcarrier : ∀ i, Forall (λ p, p.1 ≠ "Nats-Msg-Id") (carrier i)).

Abbreviation db_of f := (sh_db (fl_shared f)).

(** ** What every step of the pipeline does to the tables *)

Lemma pstep_tx (p p' : pipeline (S := S)) :
  pstep carrier settings py_str p p' → pinv carrier settings p → platform_tx (db_of (pl_fleet p)) (db_of (pl_fleet p')).
Proof.
  intros [| |p0 p1 []] Hp; cbn [pl_fleet start_delivery with_db fl_shared sh_db set_db]; try constructor; try done.
  - destruct (caller_facts carrier settings _ _ _ _ _ _ _ _ Hp H H0 H2) as (_ & _ & next & Hc & _).
    cbn [advance fl_shared]. by eapply answers_tx.
  - destruct (ract_db _ _ _ _ H) as [_ [E|[ids E]]]; cbn [relay_view rs_db] in E; rewrite E; constructor.
  - by destruct (listener_step_ok carrier settings Hcarrier f q log dlq ref R e k w r db q' dlq'
      (pi_db _ _ _ Hp) (pi_queue _ _ _ Hp) (pi_dlq _ _ _ Hp) (pi_listeners _ _ _ Hp n _ H) H0) as ([->|(Htx & _)] & _);
      [constructor|].
Qed.

(** A job keeps its payload. *)
Lemma payload_tx db db' id row :
  platform_tx db db' → jobs db !! id = Some row → ∃ row', jobs db' !! id = Some row' ∧ jr_payload row' = jr_payload row.
Proof.
  intros Ht Hrow. apply ptx_change in Ht. destruct Ht as [|now id' c key p s Hk Hi|now id' row' ev cur next att det tok res Hev Hr Hcur Ha Hf
    |now id' row' cur next s p Hr Hcur Ha|now ids]; [by exists row|..|by exists row].
  - exists row. cbn [jobs write_submission]. rewrite lookup_insert_ne by congruence. done.
  - cbn [jobs write_event]. rewrite lookup_insert. case_decide as E; [|by exists row]. subst id'. rewrite Hrow in Hr.
    injection Hr as <-. by eexists.
  - cbn [jobs add_outbox write_event]. rewrite lookup_insert. case_decide as E; [|by exists row]. subst id'. rewrite Hrow in Hr.
    injection Hr as <-. by eexists.
Qed.

Lemma payload_steps b b' id row :
  rtc (bstep carrier settings py_str) b b' → pinv carrier settings (bs_pipe b) → jobs (db_of (pl_fleet (bs_pipe b))) !! id = Some row →
  ∃ row', jobs (db_of (pl_fleet (bs_pipe b'))) !! id = Some row' ∧ jr_payload row' = jr_payload row.
Proof.
  intros Hs. revert row. induction Hs as [b|b1 b2 b3 H _ IH]; intros row Hp Hrow; [by exists row|].
  apply bstep_pstep in H. destruct (payload_tx _ _ _ _ (pstep_tx _ _ H Hp) Hrow) as (row2 & Hrow2 & <-).
  apply IH; [by eapply pinv_step|done].
Qed.

(** ** What the queue has seen *)

(** Deliveries are of logged messages, and what was logged or refused is of the outbox. *)
Record history (p : pipeline (S := S)) : Prop := {
  hi_on n seq m : pl_on p !! n = Some (seq, m) → log_at (pl_log p) seq = Some m;
  hi_seen m : m ∈ pl_log p ++ pl_refused p → ∃ o, o ∈ outbox (db_of (pl_fleet p)) ∧ m = msg_of carrier o
}.

Lemma history_step p p' : pstep carrier settings py_str p p' → pinv carrier settings p → history p → history p'.
Proof.
  intros Hst Hp [H1 H2].
  assert (Hrow : ∀ o, o ∈ outbox (db_of (pl_fleet p)) → ∃ o', o' ∈ outbox (db_of (pl_fleet p')) ∧ msg_of carrier o = msg_of carrier o').
  { intros o Ho. destruct (outbox_tx _ _ (pstep_tx _ _ Hst Hp) (pi_db _ _ _ Hp)) as [Hk _]. destruct (Hk o Ho) as (o' & Ho' & E).
    exists o'. split; [done|]. symmetry. by apply core_msg. }
  assert (Hold : ∀ m, m ∈ pl_log p ++ pl_refused p → ∃ o, o ∈ outbox (db_of (pl_fleet p')) ∧ m = msg_of carrier o).
  { intros m Hm. destruct (H2 m Hm) as (o & Ho & ->). by apply Hrow. }
  destruct Hst as [f q log on sent rel lis dlq ref seq m self fuel job payload attempt Hm Hdec|
    |p0 p1 [f q log on sent rel lis dlq ref n pr R e k r sh' seq m q' Hn Hcode Hon Ha Hb| | | | 
      |f q log on sent rel lis dlq ref st q' log' Hact Hstored| |]]; try by split.
  - split; [|done]. cbn [pl_on pl_log]. intros n seq' m'. rewrite lookup_insert. case_decide; [|apply H1].
    intros [= <- <-]. by apply (pi_queue _ _ _ Hp seq m Hm).
  - split; [done|]. cbn [pl_log pl_refused] in *. destruct (refused_completion e r); [|done]. intros m' [Hm'|[Hm'|Hm']%elem_of_app]%elem_of_app;
      [apply Hold; set_solver..|]. apply list_elem_of_singleton in Hm' as ->.
    destruct (pi_on _ _ _ Hp n pr Hn) as (seq0 & o & Hon' & Hm & _). cbn [pl_on] in Hon'. rewrite Hon in Hon'.
    injection Hon' as _ ->. by apply Hrow, Hm.
  - assert (Hsent : ∀ m, m ∈ rs_sent st → ∃ o, o ∈ outbox (rs_db st) ∧ m = msg_of carrier o)
      by apply (rinv_act _ _ _ _ Hact (pi_relay _ _ _ Hp)).
    cbn [pl_log pl_refused pl_on] in *. destruct Hstored as [|m|m m' i _ _ _]; [by split| |by split]. split.
    + intros n seq m' Hon. eapply log_at_prefix; [|by apply (H1 n)]. by exists [m].
    + intros m' [[Hm|Hm]%elem_of_app|Hm]%elem_of_app; [apply Hold; set_solver| |apply Hold; set_solver].
      apply list_elem_of_singleton in Hm as ->. apply Hsent. set_solver.
Qed.

Lemma history_steps b b' :
  rtc (bstep carrier settings py_str) b b' → pinv carrier settings (bs_pipe b) → history (bs_pipe b) → history (bs_pipe b').
Proof.
  induction 1 as [|b1 b2 b3 H _ IH]; [done|]. intros Hp Hh. apply bstep_pstep in H.
  apply IH; [by eapply pinv_step|by eapply history_step].
Qed.

Lemma history_start s now wall : history (pl_start s now wall).
Proof. split; [done|]. cbn. set_solver. Qed.

(** ** Replay and publication *)

(** A replay reopens a dead-lettered job with a row above all others. *)
Lemma replay_reopens wall subject db id row :
  platform_ok db → jobs db !! id = Some row → jr_state row = JobState.value JobState.DEAD_LETTER →
  let db1 := (replay_job wall id subject db).2 in
  (∃ row1, jobs db1 !! id = Some row1 ∧ jr_state row1 = JobState.value JobState.QUEUED ∧ jr_payload row1 = jr_payload row) ∧
  ∀ o o0, newest db1 id o → o0 ∈ outbox db → (ob_id o0 < ob_id o)%Z.
Proof.
  intros Hok Hrow Hst. cbn zeta. rewrite replay_job_eq, apply_event_eq, Hrow, Hst, JobState_of_value. cbn [token_of].
  change (apply (Some JobState.DEAD_LETTER) EventType.REPLAYED) with (Ok JobState.QUEUED). rewrite Z.leb_refl.
  split; [eexists; cbn [snd jobs add_outbox write_event]; by rewrite lookup_insert_eq|].
  intros o o0 (_ & _ & Hmax) Ho0. destruct (reachable_ok db (pk_reachable db Hok)) as [[_ [_ Hs] _ _ _ _] _].
  rewrite Forall_forall in Hs. specialize (Hs o0 Ho0). cbn in Hs.
  specialize (Hmax (mkOutboxRow (outbox_seq db + 1) id subject
    (JObj [("job_id", JStr (uuid_str id)); ("payload", jr_payload row)]) wall None)).
  cbn [snd outbox add_outbox write_event ob_id ob_job_id] in Hmax.
  assert (H : (outbox_seq db + 1 ≤ ob_id o)%Z) by (apply Hmax; [set_solver|done]). lia.
Qed.

(** A message that was not seen before was not handed out. *)
Lemma unseen_count b seq o :
  binv carrier settings b → pl_stream (bs_pipe b) !! seq = Some (msg_of carrier o) →
  (∀ n m, pl_on (bs_pipe b) !! n = Some (seq, m) → m ≠ msg_of carrier o) →
  (∀ n m, pl_on (bs_pipe b) !! n = Some (seq, m) → log_at (pl_log (bs_pipe b)) seq = Some m) →
  count (bs_count b) seq = 0%Z.
Proof.
  intros Hb Hq Hne Hlog. destruct (bi_count _ _ _ Hb seq) as [_ ->]. unfold handed.
  assert (E : filter (λ x, x.2.1 = seq) (pl_on (bs_pipe b)) = ∅); [|by rewrite E, map_size_empty].
  apply map_empty_filter_2. intros n [seq' m] Hn Es. cbn in Es. subst seq'. apply (Hne n m Hn).
  destruct (pi_queue _ _ _ (bi_pipe _ _ _ Hb) seq _ Hq) as [Hl _]. rewrite (Hlog n m Hn) in Hl. by injection Hl.
Qed.

Lemma log_at_elem log seq m : log_at log seq = Some m → m ∈ log.
Proof. unfold log_at. case_decide; [|done]. apply list_elem_of_lookup_2. Qed.

(** A dead-lettered job gets a new message, not handed out yet, and time passes. *)
Lemma replayed_message b id row now' :
  (1 ≤ max_deliver settings)%Z → (1 ≤ relay_batch_size settings)%Z → binv carrier settings b → history (bs_pipe b) →
  jobs (db_of (pl_fleet (bs_pipe b))) !! id = Some row → jr_state row = JobState.value JobState.DEAD_LETTER →
  (sh_now (fl_shared (pl_fleet (bs_pipe b))) <=? now')%float = true →
  ∃ b' seq m row', rtc (bstep carrier settings py_str) b b' ∧ pl_stream (bs_pipe b') !! seq = Some m ∧
    count (bs_count b') seq = 0%Z ∧ carries m.1.2 id row' ∧ jobs (db_of (pl_fleet (bs_pipe b'))) !! id = Some row' ∧
    jr_state row' = JobState.value JobState.QUEUED ∧ jr_payload row' = jr_payload row ∧
    sh_kv (fl_shared (pl_fleet (bs_pipe b'))) = sh_kv (fl_shared (pl_fleet (bs_pipe b))) ∧
    sh_now (fl_shared (pl_fleet (bs_pipe b'))) = now'.
Proof.
  intros HM HB Hb Hh Hrow Hst Hnow. destruct b as [p c]. pose proof Hh as [_ Hseen]. cbn [bs_pipe] in *.
  destruct (replay_reopens (sh_wall (fl_shared (pl_fleet p))) (subject_jobs settings) _ id row (pi_db _ _ _ (bi_pipe _ _ _ Hb)) Hrow Hst)
    as [(row1 & Hrow1 & Hst1 & Hpl1) Hnewest].
  set (db1 := (replay_job _ _ _ _).2) in *. set (wall := sh_wall (fl_shared (pl_fleet p))) in *.
  set (p2 := mkPipeline (mkFleet (mkShared db1 (sh_kv (fl_shared (pl_fleet p))) now' wall (sh_writes (fl_shared (pl_fleet p))))
    (fl_procs (pl_fleet p)) (fl_next (pl_fleet p))) (pl_stream p) (pl_log p) (pl_on p) (pl_sent p) (pl_relays p) (pl_listeners p)
    (pl_dlq p) (pl_refused p)).
  assert (Hs2 : rtc (bstep carrier settings py_str) (mkBsys p c) (mkBsys p2 c)).
  { apply blocals_steps. destruct p as [f q log on sent rel lis dlq ref]. eapply rtc_l; [by apply (pl_replay _ _ _ _ _ _ _ _ _ _ _ id)|].
    apply rtc_once. by apply (pl_time _ _ (with_db db1 f) _ _ _ _ _ _ _ _ now' wall). }
  assert (Hb2 : binv carrier settings (mkBsys p2 c)) by (by eapply binv_steps).
  assert (Hh2 : history p2) by (by apply (history_steps _ _ Hs2 (bi_pipe _ _ _ Hb))).
  destruct (backlog_published carrier settings py_str p2 c HB (bi_pipe _ _ _ Hb2))
    as (p3 & Hs3%unattended_steps & [Hkv Hnow3] & Eon & Eref & Hlog & Hjobs & Hrows & Hpub).
  assert (Hb3 : binv carrier settings (mkBsys p3 c)) by (by eapply binv_steps).
  assert (Hunseen : ∀ o, newest (db_of (pl_fleet p3)) id o → msg_of carrier o ∉ pl_log p ++ pl_refused p).
  { intros o Ho Hin. destruct (newest_core _ _ id o Hrows Ho) as (o1 & Ho1 & E). destruct (Hseen _ Hin) as (o0 & Ho0 & E0%msg_of_id); [|done].
    specialize (Hnewest o1 o0 Ho1 Ho0). injection E as E _ _ _. lia. }
  destruct (message_of_job carrier settings p3 id row1 (bi_pipe _ _ _ Hb3)) as (seq & o & Ho & Hq & Hcs).
  - by rewrite Hjobs.
  - by left.
  - exact Hpub.
  - intros o Ho. rewrite Eref. specialize (Hunseen o Ho). cbn [p2 pl_refused]. set_solver.
  - exists (mkBsys p3 c), seq, (msg_of carrier o), row1. cbn [bs_pipe]. split; [by etrans|]. split; [done|]. split.
    { apply (unseen_count (mkBsys p3 c) seq o Hb3 Hq); cbn [bs_pipe]; rewrite Eon; intros n m Hon.
      - intros ->. apply (Hunseen o Ho). apply elem_of_app. left. by apply (log_at_elem _ seq), (hi_on _ Hh2 n).
      - eapply log_at_prefix; [exact Hlog|]. by apply (hi_on _ Hh2 n). }
    rewrite Hjobs. by split_and!.
Qed.

(** ** A delivery left alone *)

(** What a delivery reads and writes; the draws answer the generator and the
    worker's own clock. *)
Record dstate := mkDstate { ds_shared : shared (S := S); ds_draws : list float; ds_stream : gmap Z sent_msg }.

Definition takes_draw {R} (e : eff R) : bool :=
  match e with RngRandom | RngUniform _ _ | Monotonic => true | _ => false end.

(** The calls of delivery [n] of message [seq], answered without failure. *)
Definition pserve (n : nat) (seq : Z) (R : Type) (e : eff R) (st : dstate) : result R * dstate :=
  let '(o, sh') := commit n R e (ds_shared st) in
  let q' := if removes e then delete seq (ds_stream st) else ds_stream st in
  match o with
  | Some r => (r, mkDstate sh' (ds_draws st) q')
  | None =>
      (match some_reply (hd (fZ 0) (ds_draws st)) R e with Some v => Ok v | None => Raise TimeoutError end,
       mkDstate sh' (if takes_draw e then tl (ds_draws st) else ds_draws st) q')
  end.

Definition delivering (n : nat) (pr : proc) (code : prog unit) (w : watch) (ref : list sent_msg) (st : dstate)
    (p : pipeline (S := S)) : pipeline (S := S) :=
  mkPipeline
    (mkFleet (ds_shared st)
       (<[n := mkProc (pr_worker pr) (pr_job pr) (pr_attempt pr) (pr_delivery pr) code w]> (fl_procs (pl_fleet p)))
       (fl_next (pl_fleet p)))
    (ds_stream st) (pl_log p) (pl_on p) (pl_sent p) (pl_relays p) (pl_listeners p) (pl_dlq p) ref.

Lemma delivery_interp n pr code w ref st p seq m :
  pl_on p !! n = Some (seq, m) →
  let out := interp (pserve n seq) code st in
  ∃ w' ref', rtc (plocal carrier settings) (delivering n pr code w ref st p) (delivering n pr (of_result out.1) w' ref' out.2 p).
Proof.
  intros Hon. revert w ref st. induction code as [a|x|R e k IH]; intros w ref st out; subst out; cbn [interp];
    [exists w, ref; apply rtc_refl..|].
  destruct (pserve n seq R e st) as [r st'] eqn:Hs.
  set (pr0 := mkProc (pr_worker pr) (pr_job pr) (pr_attempt pr) (pr_delivery pr) (Call e k) w).
  destruct (IH r (observed pr0 R e r) (if refused_completion e r then ref ++ [m] else ref) st') as (w' & ref' & Hw').
  exists w', ref'. eapply rtc_l; [|exact Hw']. revert Hs. unfold pserve.
  destruct (commit n R e (ds_shared st)) as [o sh'] eqn:Hc. intros Hs.
  assert (Ha : answers n (ds_shared st) R e r sh' ∧ ds_shared st' = sh' ∧
    ds_stream st' = if removes e then delete seq (ds_stream st) else ds_stream st).
  { destruct o as [r0|]; injection Hs as <- <-; (split; [|done]); [by constructor|].
    destruct (some_reply _ R e); [by constructor|].
    pose proof (ans_lost n (ds_shared st) R e TimeoutError I) as Hl. by rewrite Hc in Hl. }
  destruct Ha as (Ha & E1 & E2). unfold delivering. rewrite E1, E2.
  rewrite <- (insert_insert_eq (fl_procs (pl_fleet p)) n (mkProc _ _ _ _ (k r) _) pr0).
  refine (pl_call _ _ (mkFleet (ds_shared st) (<[n := pr0]> (fl_procs (pl_fleet p))) (fl_next (pl_fleet p))) (ds_stream st)
    (pl_log p) (pl_on p) (pl_sent p) (pl_relays p) (pl_listeners p) (pl_dlq p) ref n pr0 R e k r sh' seq m _ _ eq_refl Hon Ha _).
  - apply lookup_insert_eq.
  - destruct (removes e) eqn:Er; [by constructor|]. apply broker_kept. by rewrite Er.
Qed.

(** A payload that executes without failing when the generator draws [u], of the unit
    interval, and the worker's clock reads [t0] and then [t1]. *)
Definition completes (fuel : nat) (p : dict) (u t0 t1 : float) : Prop :=
  ((fZ 0 <=? u)%float = true ∧ (u <? fZ 1)%float = true ∧ (t0 <=? t1)%float = true) ∧
  truthy (default JNull (dict_get p "poison")) = false ∧
  ∃ v ms f steps fr el,
    dict_get p "duration_ms" = Some v ∧ int_of_json v = Ok ms ∧ float_of_int_py ms = Ok f ∧
    slices fuel (f / fZ 1000)%float = Some steps ∧ Worker.failure_rate_of p = Ok fr ∧ (u <? fr)%float = false ∧
    int_of_float ((t1 - t0) * fZ 1000)%float = Ok el.

Section run.
Context (n : nat) (seq : Z).

Abbreviation run := (interp (pserve n seq)).

Lemma run_store {A} (prg : prog A) sh us q :
  store_only prg → run prg (mkDstate sh us q) =
    ((on_store (sh_now sh) prg (sh_kv sh)).1, mkDstate (set_store (on_store (sh_now sh) prg (sh_kv sh)).2 sh) us q).
Proof.
  unfold on_store. revert sh. induction prg as [a|x|R e k IH]; intros sh Hp; [by destruct sh..|].
  destruct e; try done; cbn [interp store_handler store_only] in *; unfold pserve; cbn [commit ds_shared removes takes_draw];
    case_scrutinee; cbn [ds_shared ds_draws ds_stream]; by rewrite IH.
Qed.

Lemma run_store_bind {A B} (prg : prog A) (k : A → prog B) sh us q a s :
  store_only prg → on_store (sh_now sh) prg (sh_kv sh) = (Ok a, s) →
  run (bind prg k) (mkDstate sh us q) = run (k a) (mkDstate (set_store s sh) us q).
Proof. intros Hp E. rewrite interp_bind, run_store by done. by rewrite E. Qed.

Lemma run_sleep_all steps sh us q : run (sleep_all steps) (mkDstate sh us q) = (Ok tt, mkDstate sh us q).
Proof. induction steps as [|s steps IH]; cbn [sleep_all]; [done|]. by rewrite interp_bind, interp_await. Qed.

Lemma run_execute fuel ms fr sh q u t0 t1 f steps el :
  float_of_int_py ms = Ok f → slices fuel (f / fZ 1000)%float = Some steps → (u <? fr)%float = false →
  int_of_float ((t1 - t0) * fZ 1000)%float = Ok el →
  run (execute fuel ms fr) (mkDstate sh [u; t0; t1] q) = (Ok [("elapsed_ms", JInt el)], mkDstate sh [] q).
Proof.
  intros Hf Hs Hu He. unfold execute. rewrite interp_bind, interp_await. cbn [pserve commit ds_shared ds_draws some_reply hd tl takes_draw removes ds_stream].
  rewrite interp_bind, interp_await. cbn [pserve commit ds_shared ds_draws some_reply hd tl takes_draw removes ds_stream].
  rewrite interp_bind, interp_of_result, Hf, Hs, interp_bind, run_sleep_all, interp_bind, interp_await.
  cbn [pserve commit ds_shared ds_draws some_reply hd tl takes_draw removes ds_stream].
  by rewrite interp_bind, interp_of_result, He, Hu.
Qed.

Ltac served := cbn [interp pserve commit ds_shared ds_draws ds_stream some_reply hd tl takes_draw removes set_store sh_db sh_kv sh_now sh_wall].

Lemma serve_record id event att det t res sh us q st db :
  record_event (sh_wall sh) id event att det (Some t) res (sh_db sh) = (Ok st, db) →
  pserve n seq _ (RecordEvent id event att det (Some t) res) (mkDstate sh us q) =
    (Ok st, mkDstate (mkShared db (sh_kv sh) (sh_now sh) (sh_wall sh) (sh_writes sh ++ [mkWrite n id t event])) us q).
Proof. intros E. unfold pserve. cbn [commit ds_shared]. by rewrite E. Qed.

(** Under the lease, to the end. *)
Lemma run_under_lease self fuel id p attempt delivery sh q u t0 t1 row tok :
  completes fuel p u t0 t1 → jobs (sh_db sh) !! id = Some row → jr_state row = JobState.value JobState.QUEUED →
  (jr_fence_token row ≤ tok)%Z →
  let out := run (Worker.under_lease self fuel id p attempt delivery (mkLease (uuid_str id) (Worker.worker_id self) tok))
               (mkDstate sh [u; t0; t1] q) in
  out.1 = Ok tt ∧ has_state id JobState.SUCCEEDED (sh_db (ds_shared out.2)).
Proof.
  intros (_ & _ & v & ms & f & steps & fr & el & Hv & Hms & Hf & Hsl & Hfr & Hu & He) Hrow Hst Htok. cbn zeta.
  destruct (write_event_row id (sh_wall sh) row EventType.STARTED JobState.RUNNING attempt None tok None (sh_db sh))
    as (row1 & Hrow1 & Hst1 & Htok1).
  unfold Worker.under_lease. rewrite interp_try_finally, interp_try_except. unfold Worker.attempt_job. cbn [token].
  rewrite interp_bind, interp_await.
  erewrite serve_record by (by apply (record_accepted id (sh_wall sh) EventType.STARTED JobState.QUEUED JobState.RUNNING)).
  rewrite interp_bind, interp_of_result. cbn [getitem]. rewrite Hv.
  rewrite interp_bind, interp_of_result, Hms, interp_bind, interp_of_result, Hfr.
  rewrite interp_bind, (run_execute fuel ms fr _ q u t0 t1 f steps el Hf Hsl Hu He).
  rewrite interp_bind, interp_await.
  erewrite serve_record by (cbn [sh_wall sh_db]; apply (record_accepted id (sh_wall sh) EventType.COMPLETED JobState.RUNNING
    JobState.SUCCEEDED attempt None tok (Some [("elapsed_ms", JInt el)]) row1); done || lia).
  erewrite run_store_bind; [|auto with orbiter|apply mark_done_store].
  do 2 (rewrite interp_bind, interp_await; served). rewrite interp_bind, interp_of_result.
  rewrite (eq_refl : dict_get [("elapsed_ms", JInt el)] "elapsed_ms" = Some (JInt el)), interp_await. served.
  rewrite run_store by auto with orbiter. rewrite !release_lease_store. cbn [fst snd ds_shared set_store sh_db]. split; [done|].
  eexists. cbn [jobs write_event]. by rewrite lookup_insert_eq.
Qed.

(** A delivery of a queued job whose claim and lease are free. *)
Lemma run_delivery self fuel msg id p sh q u t0 t1 row :
  decodes msg id p → completes fuel p u t0 t1 → jobs (sh_db sh) !! id = Some row →
  jr_state row = JobState.value JobState.QUEUED → (jr_fence_token row ≤ kv_count (sh_kv sh) (LeaseManager.token_key (uuid_str id)))%Z →
  (sh_now sh <=? sh_now sh)%float = true → verdict (sh_now sh) (sh_kv sh) (uuid_str id) = CLAIMED →
  kv_view (sh_now sh) (sh_kv sh) (LeaseManager.lease_key (uuid_str id)) = None →
  let out := run (Worker.process self fuel msg) (mkDstate sh [u; t0; t1] q) in
  out.1 = Ok tt ∧ has_state id JobState.SUCCEEDED (sh_db (ds_shared out.2)).
Proof.
  intros Hdec Hcom Hrow Hst Hft Hnow Hv Hl. cbn zeta. rewrite (process_handle self fuel msg id p Hdec).
  set (d := Worker.delivery_of self (num_delivered msg)).
  destruct (try_claim_CLAIMED (Worker.guard self) (sh_now sh) (uuid_str id) d (sh_kv sh) Hnow Hv) as (Hr1 & D1 & C1).
  set (s1 := (on_store _ (ExecutionGuard.try_claim _ _ _) _).2) in *.
  assert (Hl1 : kv_view (sh_now sh) s1 (LeaseManager.lease_key (uuid_str id)) = None).
  { rewrite D1 by done. rewrite decide_False by apply lease_claim_ne. done. }
  destruct (acquire_free (sh_now sh) (Worker.lease_ttl self) (uuid_str id) (Worker.worker_id self) s1 Hl1) as [Hr2 _].
  rewrite C1 in Hr2. cbn [Worker.handle]. rewrite (proj1 (proj2 Hcom)).
  erewrite run_store_bind; [|auto with orbiter|exact (pair_fst _ _ Hr1)]. cbv iota beta.
  erewrite run_store_bind; [|auto with orbiter|exact (pair_fst _ _ Hr2)]. cbv iota beta.
  eapply run_under_lease; [done|exact Hrow|done|lia].
Qed.
End run.

(** ** From the message to success *)

(** The job's claim and its lease have lapsed at [now]. *)
Definition lapsed_at (now : float) (s : S) (id : uuid) : Prop :=
  kv_view now s (ExecutionGuard.claim_key (uuid_str id)) = None ∧ kv_view now s (LeaseManager.lease_key (uuid_str id)) = None.

Lemma queued_claimable p id row :
  pinv carrier settings p → jobs (db_of (pl_fleet p)) !! id = Some row → jr_state row = JobState.value JobState.QUEUED →
  let sh := fl_shared (pl_fleet p) in
  lapsed_at (sh_now sh) (sh_kv sh) id → verdict (sh_now sh) (sh_kv sh) (uuid_str id) = CLAIMED.
Proof.
  intros Hp Hrow Hst sh [Hc _]. unfold verdict. rewrite Hc.
  destruct (kv_view (sh_now sh) (sh_kv sh) (ExecutionGuard.done_key (uuid_str id))) as [v|] eqn:E; [|done]. exfalso.
  destruct (newest_row _ id row (pi_db _ _ _ Hp) Hrow) as (o & Ho & <- & _).
  destruct (pi_markers _ _ _ Hp _ v (row_id _ _ (pi_db _ _ _ Hp) Ho) E) as (row' & Hrow' & Hst').
  rewrite Hrow in Hrow'. injection Hrow' as <-. by rewrite Hst in Hst'.
Qed.

(** One undisturbed delivery of a queued job's message. *)
Lemma delivered_succeeds b seq m id row p (self : Worker.t) fuel u t0 t1 :
  (1 ≤ max_deliver settings)%Z → pinv carrier settings (bs_pipe b) →
  pl_stream (bs_pipe b) !! seq = Some m → count (bs_count b) seq = 0%Z → carries m.1.2 id row →
  let sh := fl_shared (pl_fleet (bs_pipe b)) in
  jobs (sh_db sh) !! id = Some row → jr_state row = JobState.value JobState.QUEUED → jr_payload row = JObj p →
  completes fuel p u t0 t1 → lapsed_at (sh_now sh) (sh_kv sh) id →
  ∃ b', rtc (bstep carrier settings py_str) b b' ∧ has_state id JobState.SUCCEEDED (db_of (pl_fleet (bs_pipe b'))).
Proof.
  intros HM Hp Hq Hc (_ & p' & Hpl' & Hdec) sh Hrow Hst Hpl Hcom Hlap. rewrite Hpl in Hpl'. injection Hpl' as <-.
  pose proof (queued_claimable _ _ _ Hp Hrow Hst Hlap) as Hver. destruct Hlap as [_ Hlease].
  pose proof (so_fence _ (proj1 (pi_fleet _ _ _ Hp)) id row Hrow) as Hft.
  destruct b as [[f q log on sent rel lis dlq ref] c]. cbn [bs_pipe bs_count pl_stream pl_fleet] in *.
  set (msg := mkMsg m.1.2 (count c seq + 1)).
  set (pr := mkProc self id (num_delivered msg) (Worker.delivery_of self (num_delivered msg)) (Worker.process self fuel msg) watch_init).
  destruct (delivery_interp (fl_next f) pr (Worker.process self fuel msg) watch_init ref (mkDstate sh [u; t0; t1] q)
    (mkPipeline (start_delivery self fuel msg id f) q log (<[fl_next f := (seq, m)]> on) sent rel lis dlq ref) seq m)
    as (w' & ref' & Hrun); [apply lookup_insert_eq|].
  destruct (run_delivery (fl_next f) seq self fuel msg id p sh q u t0 t1 row Hdec Hcom Hrow Hst Hft (pi_now _ _ _ Hp) Hver Hlease)
    as [_ Hsucc].
  unfold delivering at 1 in Hrun. cbn [start_delivery fl_procs fl_next pl_fleet ds_shared ds_stream pl_log pl_on pl_sent
    pl_relays pl_listeners pl_dlq pr_worker pr_job pr_attempt pr_delivery pr] in Hrun. rewrite insert_insert_eq in Hrun.
  apply (blocals_steps carrier settings py_str _ _ (<[seq := (count c seq + 1)%Z]> c)) in Hrun.
  eexists. split; [eapply rtc_l; [|exact Hrun]|exact Hsucc]. apply (b_deliver _ _ _ f q log on sent rel lis dlq ref c seq m self fuel id p); [done|lia|done].
Qed.

(** A dead-lettered job, once its claim and lease have lapsed. *)
Lemma replay_succeeds b id row p now' (self : Worker.t) fuel u t0 t1 :
  (1 ≤ max_deliver settings)%Z → (1 ≤ relay_batch_size settings)%Z → binv carrier settings b → history (bs_pipe b) →
  let sh := fl_shared (pl_fleet (bs_pipe b)) in
  jobs (sh_db sh) !! id = Some row → jr_state row = JobState.value JobState.DEAD_LETTER → jr_payload row = JObj p →
  completes fuel p u t0 t1 → (sh_now sh <=? now')%float = true → lapsed_at now' (sh_kv sh) id →
  ∃ b', rtc (bstep carrier settings py_str) b b' ∧ has_state id JobState.SUCCEEDED (db_of (pl_fleet (bs_pipe b'))).
Proof.
  intros HM HB Hb Hh sh Hrow Hst Hpl Hcom Hnow Hlap.
  destruct (replayed_message b id row now' HM HB Hb Hh Hrow Hst Hnow)
    as (b1 & seq & m & row1 & Hs1 & Hq & Hc & Hcar & Hrow1 & Hst1 & Hpl1 & Hkv & Hnow1).
  assert (Hb1 : binv carrier settings b1) by (by eapply binv_steps).
  destruct (delivered_succeeds b1 seq m id row1 p self fuel u t0 t1 HM (bi_pipe _ _ _ Hb1) Hq Hc Hcar Hrow1 Hst1) as (b2 & Hs2 & Hout);
    [congruence|done|by rewrite Hkv, Hnow1|].
  exists b2. split; [by etrans|done].
Qed.
End completion.


Lemma flaky_completes : completes 9 flaky_payload half_up (fZ 7) (fZ 8).
Proof.
  split; [vm_compute; done|]. split; [reflexivity|].
  eexists _, 50%Z, (fZ 50), _, _, 1000%Z. repeat (split; [vm_compute; reflexivity|]). vm_compute. reflexivity.
Qed.

(** * Properties *)

(** C2: an unfinished job can still succeed.  Take any state the platform can reach
    under the broker's delivery policy while its deliveries keep to their leases,
    whatever crashed, was repeated or lost, and a job in it that is queued, running
    or dead-lettered.  If the job's payload can be executed ([completes]: it is not
    poison, its fields convert, the fuel covers its sleep loop, and the generator's
    draw is not below its failure rate), and there is a moment at which what
    was left of its claim and its lease has expired, then the platform can go on to
    a state in which the job has SUCCEEDED.  Neither a fence nor a done marker nor a
    delivery count nor a message left behind stands in the way.  (The proof goes by
    the listener's quarantine, the operator's replay, the publication of the new
    message and one delivery of it.) *)
Theorem job_can_succeed {S : Type} `{!KVStore S, !KVView S, !KVStoreLaws S}
    (carrier : Z → headers) (settings : Settings) (py_str : json → string) (s : S) (now : float) (wall : Z)
    (b : bsys) (id : uuid) (row : JobRow) (p : dict) (now' : float) (self : Worker.t) (fuel : nat) (u t0 t1 : float) :
  (∀ i, Forall (λ p, p.1 ≠ "Nats-Msg-Id") (carrier i)) → (1 ≤ max_deliver settings)%Z → (1 ≤ relay_batch_size settings)%Z →
  (∀ k, (0 ≤ kv_count s k)%Z) → (∀ k, kv_view now s k = None) → (now <=? now)%float = true →
  rtc (punctual_bstep carrier settings py_str) (bs_start s now wall) b →
  let sh := fl_shared (pl_fleet (bs_pipe b)) in
  jobs (sh_db sh) !! id = Some row → job_open row ∨ jr_state row = JobState.value JobState.DEAD_LETTER →
  jr_payload row = JObj p → completes fuel p u t0 t1 →
  (sh_now sh <=? now')%float = true → lapsed_at now' (sh_kv sh) id →
  ∃ b', rtc (bstep carrier settings py_str) b b' ∧ has_state id JobState.SUCCEEDED (sh_db (fl_shared (pl_fleet (bs_pipe b')))).
Proof.
  intros Hcar HM HB Hc Hv Hnow Hr sh Hrow Hst Hpl Hcom Hnow' Hlap.
  pose proof (qinv_reachable carrier settings py_str Hcar s now wall _ Hc Hv Hnow (bsteps_punctual _ _ _ _ _ Hr)) as Hq.
  pose proof (binv_reachable carrier settings py_str Hcar HM s now wall b Hc Hv Hnow (bsteps_forget _ _ _ _ _ Hr)) as Hb.
  assert (Hh : history carrier (bs_pipe b)).
  { apply (history_steps carrier settings py_str Hcar (bs_start s now wall)); [by eapply bsteps_forget|by eapply pinv_start|apply history_start; done]. }
  destruct Hst as [Hopen|Hst]; [|by eapply replay_succeeds].
  destruct (quarantine_way carrier settings py_str b id row Hcar HM HB Hb Hrow Hopen) as (b1 & _ & _ & Hs1%unattended_steps & (row1 & Hrow1 & Hst1) & _ & [Hkv Hn]).
  { intros o Ho. by eapply refused_not_newest. }
  destruct (payload_steps carrier settings py_str Hcar b b1 id row Hs1 (bi_pipe _ _ _ Hb) Hrow) as (row2 & Hrow2 & Hpl2).
  rewrite Hrow1 in Hrow2. injection Hrow2 as <-.
  destruct (replay_succeeds carrier settings py_str Hcar b1 id row1 p now' self fuel u t0 t1 HM HB) as (b2 & Hs2 & Hout).
  - by eapply binv_steps.
  - apply (history_steps carrier settings py_str Hcar b b1 Hs1); [apply Hb|done].
  - done.
  - done.
  - congruence.
  - done.
  - by rewrite Hn.
  - by rewrite Hkv.
  - exists b2. split; [by etrans|done].
Qed.

Lemma job_can_succeed_witness :
  ∃ row b', jr_state row = "running" ∧ jobs (sh_db (fl_shared (pl_fleet (bs_pipe retried)))) !! 1%N = Some row ∧
    rtc (bstep trace_carrier default_settings (λ _, "")) retried b' ∧
    has_state 1 JobState.SUCCEEDED (sh_db (fl_shared (pl_fleet (bs_pipe b')))).
Proof.
  destruct retried_running as (row & E & Hst & _).
  destruct (job_can_succeed trace_carrier default_settings (λ _, "") InMemoryKV.init (fZ 0) 100 retried 1 row flaky_payload
    (fZ 100) sample_worker 9 half_up (fZ 7) (fZ 8) trace_carrier_ok) as (b' & H);
    [discriminate|discriminate|exact inmemory_counts|reflexivity|reflexivity|exact retried_punctual|exact E
    |left; right; exact Hst|vm_compute in E; injection E as <-; reflexivity|exact flaky_completes
    |vm_compute; reflexivity|split; vm_compute; reflexivity|].
  exists row, b'. split; [exact Hst|]. split; [exact E|exact H].
Defined.
